(* ===== verification/_CoqProject ===== *)
-Q . S2P
Prelude.v
Sha256.v
BlockDev.v
MemDev.v
Entry.v
EntryProps.v
Journal.v
JournalInv.v
JournalWrite.v
JournalSpec.v
JournalDemo.v
JournalRefine.v
JournalProps.v
JournalLimits.v
JournalFaults.v
Slots.v
SlotStore.v
SlotsSpec.v
SlotsProps.v
Persistence.v
PersistenceImage.v
PersistenceSpec.v
PersistenceProps.v
PersistenceConc.v
PersistenceDemo.v
SlotsCrash.v
PowerCut.v
PersistenceCrash.v
PersistenceLife.v
PersistenceCrashDemo.v
SlotsSingle.v
PersistenceSingle.v
Mmc.v
OpenStorage.v
Deployed.v
DeployedDemo.v
Text.v
Dhcp.v
DhcpProps.v
DhcpClient.v
DhcpClientProps.v
DhcpAcquire.v
DhcpAcquireProps.v
DhcpSocket.v
DhcpReturns.v
DhcpNames.v
DhcpDemo.v
UpdateClient.v
FwUpdate.v
FwUpdateProps.v
NetLink.v
NetLinkProps.v
NetDhcp.v
NetDhcpProps.v
NetDhcpDemo.v
Key.v
KeyProps.v
Hostname.v
UpdateChecker.v
Admin.v
Boot.v
BootProps.v
System.v
