(* ===== verification/Prelude.v ===== *)
(** * Armored Witness applet: verification library

    The applet (trusted_applet/) is the user part of a witness device.  It
    keeps the latest checkpoint of every log on an eMMC card, in journals that
    survive power loss; derives the identity of the device from a hardware
    secret; brings up a network stack over DHCP; runs the witness while it has
    an address; and installs firmware updates.  This library models those
    parts as functions and step relations and proves what makes them correct.

    ** Conventions

    A fallible Go function returns [res] (result, error, panic, or out of
    fuel), stateful code is in the monad [M] (explicit state passing), and
    goroutines that share a channel or a lock are step relations.  Integers
    are [Z] with the wrap-around of their Go type written out; [uint] has the
    width of the class [Platform], 32 bits on the device and 64 in the tests.
    Go strings and slices are lists of bytes.  Code outside the repository is
    a parameter: a class with a class of laws where several files use it
    ([BlockReaderWriter], [Card], [SlotOps], [Externals], [Tcpip]), otherwise
    arguments of a section.  Every theorem that relies on such laws is
    evaluated on an instance that satisfies them.

    ** Storage (internal/storage)

    - Sha256: the hash function, implemented.  BlockDev, MemDev: the interface
      of block devices with its laws, and testonly/memdev.go as an instance.
    - Entry, EntryProps: records and their codec (journal.go: [marshalEntry],
      [unmarshalEntry], [blockReader]).  Records round-trip, and only
      well-formed records are accepted.
    - Journal: [OpenJournal], [Update], [Data].  JournalInv and JournalWrite
      hold the invariant of the blocks and its preservation by a write, cut
      short or not; JournalSpec is the abstract durable register;
      JournalRefine proves crash recovery and the refinement; JournalLimits
      the size limit, termination of the scan and the exhaustion of revisions;
      JournalFaults the devices and data on which the journal does not keep
      its promise; JournalDemo and JournalProps evaluate the theorems.
    - Slots, SlotsSpec, SlotsProps: slots.go over journals.  SlotStore is the
      interface that a slot store promises to the persistence: one register
      with a revision per slot.  Slots discharges it.
    - Persistence, PersistenceSpec, PersistenceProps: persistence.go over the
      interface.  It refines a map from logs to checkpoints, recovers after a
      restart, and never gives one slot to two logs; PersistenceImage is what
      it keeps on storage.  PersistenceConc splits [Update] into its critical
      sections and proves that concurrent calls are atomic.  PersistenceDemo
      evaluates the theorems on real slots.
    - SlotsCrash, PersistenceCrash: an update during which a write fails or
      power is lost, followed by a restart, from the journal (interface
      RestartStore) up to the checkpoints of the logs.  PersistenceLife:
      sequences of updates, reads, restarts and interrupted updates, simulated
      by a map from logs to checkpoints.  PowerCut is the device that loses
      power; PersistenceCrashDemo evaluates the theorems on it.
      SlotsSingle, PersistenceSingle: the same for records of one block, for
      which nothing is assumed of checksums or of the data.
    - Mmc, OpenStorage: the chunked access to the card (mmc/internal.go) and
      the geometry that main.go deploys.  Deployed puts the card, the
      partition, the journals and the persistence layer together on the
      32-bit device and gives their life from the first boot on, with records
      of one block; DeployedDemo evaluates it on a card that loses power.

    ** Network (net.go, handler.go, third_party/dhcp)

    - Dhcp, DhcpProps: packets, options and configurations (dhcp.go).
    - DhcpClient, DhcpClientProps: the loop of [Client.Run], lease times and
      backoff.  DhcpAcquire, DhcpAcquireProps: a transaction ([acquire],
      [send], [recv]) with its endpoints, timers and counters; addresses are
      taken only on the word of an ACK.  DhcpSocket: the stack's protocol as
      an automaton and a small logic for it; a transaction follows it and
      releases all it took.  DhcpReturns: whatever arrives, a transaction
      comes back, and the client over such transactions is safe.  DhcpNames:
      the names of constants (dhcp_string.go) and how packets are printed.
      DhcpDemo evaluates the theorems.
    - NetLink, NetLinkProps: MAC address, frames, the event handler, the start
      of the stack.  NetDhcp, NetDhcpProps, NetDhcpDemo: the lease callback of
      [runDHCP] and its goroutines as a step relation, and its composition
      with the client and its transactions: if the stack takes the addresses,
      the callback is safe, ends, and keeps the witness together with an
      address that a server confirmed; if it does not, it may panic or block.

    ** Identity, updates, boot

    - Text: decimal and hexadecimal numbers, lines.  Key, KeyProps: key.go;
      the keys are reproducible, separated by purpose, and attested.
    - UpdateClient: the RPC client, above all the installation in chunks.
      FwUpdate, FwUpdateProps: update.go, which bundles are accepted.
      UpdateChecker: the goroutines of the update loop of main.go, and their
      end when one of them panics.
    - Hostname: [cleanForDNS] with UTF-8 decoding.  Admin: the routes and
      handlers of the admin server, with the redirections of [ServeMux].
      Boot, BootProps: [main], [runWithNetworking] and [runNTP]; the boot stops
      at the first check that fails, and the witness starts only with the
      clock set and both listeners open.  System: [main] with the models of the
      parts it calls; a new unit boots up to its DHCP client.

    ** Limits of the theorems

    The storage theorems are about devices that store whole blocks, in order,
    and keep what they have.  A write that was cut short leaves records that
    are not complete; that these fail their checksum is a condition
    ([torn_detected]), since SHA-256 is not proved free of collisions, and so
    is that no block of the data begins with the magic.  Neither is needed for
    records of one block, which is what the deployed theorem is about.  Other
    conditions: revisions below 2^32, data that fits, and a restart after an
    update that failed in the storage.  JournalFaults, PersistenceDemo and
    JournalLimits show what happens outside of them.  The theorems on the DHCP
    client need a clock that is not set back and timers that do not fire
    early, and a stack that adds and removes 0.0.0.0; those on leases also a
    stack that takes a new address, and a witness that returns
    [context.Canceled] when its context is done.  DhcpDemo and NetDhcpDemo show
    what happens otherwise.

    ** Fuel

    Loops that are not structural take fuel: the journal scan as many turns as
    the journal has blocks, a reader as many as it has bytes to deliver,
    transfers as many as there are chunks, a DHCP transaction one more than
    there are deliveries, options as many as the packet has bytes.  Each has a
    theorem or lemma that it suffices ([open_terminates], [options_safe],
    [acquire_returns], [mmc_write_read], [event_delivers], [clean_for_dns]);
    the loop of [sendChunkedUpdate] only ends when the OS restarts or fails,
    and [chunked_update_delivers] gives the number of turns.

    ** Not modelled

    mem.go and mem_bee.go (link-time constants), the metrics that the
    collectors add, the encoding of URLs in redirections, the branch of [main]
    that erases the storage (compiled out), the semaphore that keeps a second
    [Client.Run] waiting, UDP writes that would block (on which the client
    panics; the stack never reports them), logging.
    Data races are outside the model: a step of a goroutine is a critical
    section or a channel operation. *)

From Stdlib Require Import ZArith Lia String.
From Stdlib Require Export Strings.Byte.
From stdpp Require Export base list gmap strings.

#[global] Set Default Goal Selector "!".
#[global] Open Scope Z_scope.

(** ** Results of Go functions

    [Ok] and [Err] are the two returns of a fallible Go function, [Panic] a
    run-time panic (nil dereference, index or allocation out of range) and
    [NoFuel] the exhaustion of the fuel of a loop, which the termination
    theorems exclude. *)

Definition error := string.

Inductive res (A : Type) : Type :=
  | Ok (a : A)
  | Err (e : error)
  | Panic (e : error)
  | NoFuel.
Arguments Ok {A} a.
Arguments Err {A} e.
Arguments Panic {A} e.
Arguments NoFuel {A}.

#[export] Instance res_ret : MRet res := λ A a, Ok a.
#[export] Instance res_bind : MBind res := λ A B f m,
  match m with
  | Ok a => f a
  | Err e => Err e
  | Panic e => Panic e
  | NoFuel => NoFuel
  end.

(** [is_ok r] is the Go test [err == nil]. *)
Definition is_ok {A} (r : res A) : bool :=
  match r with Ok _ => true | _ => false end.

(** Code that threads a state [S] and may fail. *)
Definition M (S A : Type) : Type := S → S * res A.

#[export] Instance M_ret S : MRet (M S) := λ A a s, (s, Ok a).
#[export] Instance M_bind S : MBind (M S) := λ A B f m s,
  match m s with
  | (s', Ok a) => f a s'
  | (s', Err e) => (s', Err e)
  | (s', Panic e) => (s', Panic e)
  | (s', NoFuel) => (s', NoFuel)
  end.

(** A pure result used inside stateful code. *)
Definition lift {S A} (r : res A) : M S A := λ s, (s, r).

Lemma bind_Ok {S A B} (m : M S A) (f : A → M S B) s s' a :
  m s = (s', Ok a) → (m ≫= f) s = f a s'.
Proof. unfold mbind, M_bind. by intros ->. Qed.

Lemma bind_Err {S A B} (m : M S A) (f : A → M S B) s s' e :
  m s = (s', Err e) → (m ≫= f) s = (s', Err e).
Proof. unfold mbind, M_bind. by intros ->. Qed.

(** ** Machine integers

    [uint] is 32 bits wide on the device (GOARCH=arm) and 64 on the hosts
    that run the tests; [max_alloc] is the longest byte slice that [make]
    allocates, anything longer panics. *)

Class Platform := {
  uint_bits : Z;
  uint_bits_cases : uint_bits = 32 ∨ uint_bits = 64;
  max_alloc : Z;
  max_alloc_nonneg : 0 ≤ max_alloc;
  max_alloc_int : max_alloc < 2 ^ (uint_bits - 1);
}.

(** The unikernel's platform: 32-bit ARM. *)
Definition arm : Platform.
Proof. refine {| uint_bits := 32; max_alloc := 2 ^ 31 - 1 |}; [by left|lia..]. Defined.

(** The platform of the repository's tests. *)
Definition amd64 : Platform.
Proof. refine {| uint_bits := 64; max_alloc := 2 ^ 48 |}; [by right|lia..]. Defined.

(** Wrap-around at [w] bits. *)
Definition wrap (w z : Z) : Z := z mod 2 ^ w.

Declare Scope go_scope.
Delimit Scope go_scope with go.
Open Scope go_scope.

Definition uadd `{Platform} (a b : Z) : Z := wrap uint_bits (a + b).
Definition usub `{Platform} (a b : Z) : Z := wrap uint_bits (a - b).
Definition umul `{Platform} (a b : Z) : Z := wrap uint_bits (a * b).
Notation "a +ᵤ b" := (uadd a b) (at level 50, left associativity) : go_scope.
Notation "a -ᵤ b" := (usub a b) (at level 50, left associativity) : go_scope.
Notation "a *ᵤ b" := (umul a b) (at level 40, left associativity) : go_scope.

(** The conversions [uint(x)] and [int(x)]. *)
Definition to_uint `{Platform} (z : Z) : Z := wrap uint_bits z.
Definition to_int `{Platform} (z : Z) : Z :=
  let u := wrap uint_bits z in
  if u <? 2 ^ (uint_bits - 1) then u else u - 2 ^ uint_bits.

Section Words.
Context `{P : Platform}.

Lemma uint_max_pos : 0 < 2 ^ uint_bits.
Proof. destruct uint_bits_cases as [-> | ->]; lia. Qed.

Lemma uint_half : 2 ^ uint_bits = 2 * 2 ^ (uint_bits - 1).
Proof. destruct uint_bits_cases as [-> | ->]; reflexivity. Qed.

Lemma wrap_small w z : 0 ≤ z < 2 ^ w → wrap w z = z.
Proof. intros. by apply Z.mod_small. Qed.

Lemma wrap_range w z : 0 ≤ w → 0 ≤ wrap w z < 2 ^ w.
Proof. intros. apply Z.mod_pos_bound. by apply Z.pow_pos_nonneg. Qed.

Lemma uadd_small a b : 0 ≤ a + b < 2 ^ uint_bits → a +ᵤ b = a + b.
Proof. apply wrap_small. Qed.

Lemma usub_small a b : 0 ≤ a - b < 2 ^ uint_bits → a -ᵤ b = a - b.
Proof. apply wrap_small. Qed.

Lemma umul_small a b : 0 ≤ a * b < 2 ^ uint_bits → a *ᵤ b = a * b.
Proof. apply wrap_small. Qed.

Lemma to_uint_small a : 0 ≤ a < 2 ^ uint_bits → to_uint a = a.
Proof. apply wrap_small. Qed.

Lemma to_int_small a : 0 ≤ a < 2 ^ (uint_bits - 1) → to_int a = a.
Proof.
  intros Ha. unfold to_int. pose proof uint_half.
  rewrite wrap_small by lia. by rewrite (proj2 (Z.ltb_lt _ _)) by lia.
Qed.

(** A small negative number survives [int(uint(-a))]. *)
Lemma to_int_neg a : 0 < a ≤ 2 ^ (uint_bits - 1) → to_int (- a) = - a.
Proof.
  intros Ha. unfold to_int, wrap. pose proof uint_half. pose proof uint_max_pos.
  rewrite <-(Z_mod_plus_full (-a) 1), Z.mod_small by lia.
  rewrite (proj2 (Z.ltb_ge _ _)) by lia. lia.
Qed.
End Words.

(** ** Bytes and big-endian integers *)

Abbreviation bytes := (list byte).

#[export] Instance byte_eq_decision : EqDecision byte.
Proof.
  intros x y. destruct (Byte.eqb x y) eqn:E.
  - left. by apply Byte.byte_dec_bl.
  - right. intros ->. by rewrite Byte.byte_dec_lb in E.
Defined.

#[export] Instance byte_inhabited : Inhabited byte := populate x00.

Definition b2z (b : byte) : Z := Z.of_N (Byte.to_N b).

Definition z2b (z : Z) : byte :=
  match Byte.of_N (Z.to_N (z mod 256)) with Some b => b | None => x00 end.

Definition len {A} (l : list A) : Z := Z.of_nat (length l).

Lemma b2z_range b : 0 ≤ b2z b < 256.
Proof. unfold b2z. pose proof (Byte.to_N_bounded b). lia. Qed.

Lemma z2b_b2z b : z2b (b2z b) = b.
Proof.
  unfold z2b. rewrite Z.mod_small by apply b2z_range.
  unfold b2z. by rewrite N2Z.id, Byte.of_to_N.
Qed.

Lemma b2z_z2b z : b2z (z2b z) = z mod 256.
Proof.
  unfold z2b. pose proof (Z.mod_pos_bound z 256 ltac:(lia)) as Hz.
  destruct (Byte.of_N (Z.to_N (z mod 256))) as [b|] eqn:E.
  - apply Byte.to_of_N in E. unfold b2z. rewrite E. lia.
  - apply Byte.of_N_None_iff in E. lia.
Qed.

Lemma b2z_inj a b : b2z a = b2z b → a = b.
Proof. intros H. by rewrite <-(z2b_b2z a), <-(z2b_b2z b), H. Qed.

(** [be_encode n z] is [binary.BigEndian.PutUint] of the low [n] bytes. *)
Fixpoint be_encode (n : nat) (z : Z) : bytes :=
  match n with
  | O => []
  | S n' => z2b (Z.shiftr z (8 * Z.of_nat n')) :: be_encode n' z
  end.

Definition be_decode (b : bytes) : Z :=
  foldl (λ acc x, Z.lor (Z.shiftl acc 8) (b2z x)) 0 b.

Lemma length_be_encode n z : length (be_encode n z) = n.
Proof. induction n; simpl; auto. Qed.

Lemma shiftl_lor_add a b : 0 ≤ b < 256 → Z.lor (Z.shiftl a 8) b = a * 256 + b.
Proof.
  intros Hb. pose proof (Z.add_lor_land (Z.shiftl a 8) b) as Hadd.
  assert (Z.land (Z.shiftl a 8) b = 0) as Hland.
  { apply Z.bits_inj'. intros i Hi. rewrite Z.land_spec, Z.bits_0.
    destruct (decide (i < 8)).
    - by rewrite Z.shiftl_spec_low by lia.
    - rewrite (Z.bits_above_log2 b i), andb_false_r; [done|lia|].
      destruct (decide (b = 0)) as [->|]; [simpl; lia|].
      apply Z.log2_lt_pow2; [lia|].
      apply Z.lt_le_trans with (2 ^ 8); [lia|]. apply Z.pow_le_mono_r; lia. }
  rewrite Z.shiftl_mul_pow2 in * by lia. lia.
Qed.

Lemma be_decode_cons_acc b acc :
  foldl (λ acc x, Z.lor (Z.shiftl acc 8) (b2z x)) acc b
  = acc * 256 ^ len b + be_decode b.
Proof.
  unfold be_decode, len. revert acc.
  induction b as [|x b IH]; intros acc; [simpl; lia|].
  cbn [foldl length]. rewrite IH, (IH (Z.lor (Z.shiftl 0 8) _)).
  rewrite !shiftl_lor_add by apply b2z_range.
  rewrite Nat2Z.inj_succ, Z.pow_succ_r by lia. lia.
Qed.

Lemma be_decode_encode n z : be_decode (be_encode n z) = z mod 256 ^ Z.of_nat n.
Proof.
  induction n as [|n IH]; [by rewrite Z.mod_1_r|].
  unfold be_decode. cbn [be_encode foldl]. rewrite be_decode_cons_acc.
  rewrite shiftl_lor_add by apply b2z_range.
  rewrite IH, b2z_z2b, Z.shiftr_div_pow2 by lia. unfold len.
  rewrite length_be_encode, Nat2Z.inj_succ, Z.pow_succ_r by lia.
  replace (2 ^ (8 * Z.of_nat n)) with (256 ^ Z.of_nat n)
    by (by rewrite Z.pow_mul_r by lia).
  rewrite (Z.mul_comm 256), Z.rem_mul_r; [lia| |lia].
  apply Z.pow_nonzero; lia.
Qed.

Lemma be_decode_range b : 0 ≤ be_decode b < 256 ^ len b.
Proof.
  unfold len. induction b as [|x b IH]; [done|].
  unfold be_decode. cbn [foldl length]. rewrite be_decode_cons_acc.
  rewrite shiftl_lor_add by apply b2z_range.
  pose proof (b2z_range x). unfold len.
  rewrite Nat2Z.inj_succ, Z.pow_succ_r by lia. nia.
Qed.

(** ** Slices

    Go's [b[off:]], [b[:n]] with [Z] offsets, and [copy]. *)
Definition zdrop {A} (n : Z) (l : list A) : list A := drop (Z.to_nat n) l.
Definition ztake {A} (n : Z) (l : list A) : list A := take (Z.to_nat n) l.

(** [copy_at off dst src] is [copy(dst[off:], src)]. *)
Definition copy_at (off : Z) (dst src : bytes) : bytes :=
  let o := Z.to_nat off in
  take o dst ++ take (length dst - o) src
    ++ drop (o + (length src `min` (length dst - o))) dst.

Lemma len_nonneg {A} (l : list A) : 0 ≤ len l.
Proof. unfold len. lia. Qed.

Lemma length_copy_at off dst src :
  length (copy_at off dst src) = length dst.
Proof.
  unfold copy_at.
  rewrite !length_app, !length_take, !length_drop. lia.
Qed.

Lemma len_app {A} (l k : list A) : len (l ++ k) = len l + len k.
Proof. unfold len. rewrite length_app. lia. Qed.

Lemma len_take {A} (l : list A) n : 0 ≤ n ≤ len l → len (ztake n l) = n.
Proof. unfold len, ztake. rewrite length_take. lia. Qed.

Lemma len_drop {A} (l : list A) n : 0 ≤ n → len (zdrop n l) = Z.max 0 (len l - n).
Proof. unfold len, zdrop. rewrite length_drop. lia. Qed.

Lemma ztake_zdrop {A} (l : list A) n : ztake n l ++ zdrop n l = l.
Proof. apply take_drop. Qed.

Lemma zdrop_zdrop {A} (l : list A) n k : 0 ≤ n → 0 ≤ k → zdrop k (zdrop n l) = zdrop (n + k) l.
Proof. intros. unfold zdrop. rewrite drop_drop. f_equal. lia. Qed.

Lemma take_app_eq {A} (l k : list A) n : n = length l → take n (l ++ k) = l.
Proof. intros ->. apply take_app_length. Qed.

(** What has been copied to the front of a buffer is there. *)
Lemma copy_front (buf data : bytes) :
  len data ≤ len buf → ztake (len data) (copy_at 0 buf data) = data.
Proof.
  unfold ztake, copy_at, len. intros Hl. change (Z.to_nat 0) with 0%nat.
  rewrite take_0. cbn [app]. rewrite Nat2Z.id, Nat.sub_0_r, (take_ge data) by lia. by apply take_app_eq.
Qed.

(** Blocks of one size. *)
Lemma len_concat_blocks_of {A} (n : Z) (bs : list (list A)) :
  Forall (λ b, len b = n) bs → len (concat bs) = len bs * n.
Proof.
  induction 1 as [|b l Hb _ IH]; [done|]. cbn [concat]. rewrite len_app, IH, Hb. unfold len. cbn [length]. lia.
Qed.

Lemma drop_app_eq {A} (l k : list A) n : n = length l → drop n (l ++ k) = k.
Proof. intros ->. apply drop_app_length. Qed.

(** ** Automation *)

(** Turn the boolean tests of the code into propositions for [lia]. *)
Ltac bool_prop :=
  repeat match goal with
  | H : (_ <? _) = true |- _ => apply Z.ltb_lt in H
  | H : (_ <? _) = false |- _ => apply Z.ltb_ge in H
  | H : (_ <=? _) = true |- _ => apply Z.leb_le in H
  | H : (_ <=? _) = false |- _ => apply Z.leb_gt in H
  | H : (_ =? _) = true |- _ => apply Z.eqb_eq in H
  | H : (_ =? _) = false |- _ => apply Z.eqb_neq in H
  | H : bool_decide _ = true |- _ => apply bool_decide_eq_true in H
  | H : bool_decide _ = false |- _ => apply bool_decide_eq_false in H
  end.

(** Split on the tests of a goal. *)
Ltac case_test :=
  match goal with
  | |- context [if ?b then _ else _] => let E := fresh "E" in destruct b eqn:E
  end; bool_prop.

Create HintDb go.
Create Rewrite HintDb go.
#[export] Hint Rewrite @len_app length_be_encode : go.
#[export] Hint Resolve len_nonneg uint_max_pos max_alloc_nonneg : go.
