(* ===== verification/Sha256.v ===== *)
(** * SHA-256 (FIPS 180-4), as [crypto/sha256] of Go's standard library

    The journal, the key derivation and the MAC address of the applet all use
    [sha256.Sum256].  It is written out here so that records, and the golden
    vectors of the repository's tests, can be evaluated. *)

From S2P Require Import Prelude.

Module Sha256.

(** Words are [Z] in [[0, 2^32)]; reduction modulo [2^32] is a bit mask. *)
Definition mask32 (z : Z) : Z := Z.land z 4294967295.

Lemma mask32_wrap z : mask32 z = wrap 32 z.
Proof. exact (Z.land_ones z 32 ltac:(lia)). Qed.

Definition add32 (a b : Z) : Z := mask32 (a + b).
Definition rotr (n x : Z) : Z := mask32 (Z.lor (Z.shiftr x n) (Z.shiftl x (32 - n))).
Definition Ch (x y z : Z) : Z := Z.lxor (Z.land x y) (Z.land (Z.lxor x 4294967295) z).
Definition Maj (x y z : Z) : Z :=
  Z.lxor (Z.land x y) (Z.lxor (Z.land x z) (Z.land y z)).
Definition bsig0 (x : Z) : Z := Z.lxor (rotr 2 x) (Z.lxor (rotr 13 x) (rotr 22 x)).
Definition bsig1 (x : Z) : Z := Z.lxor (rotr 6 x) (Z.lxor (rotr 11 x) (rotr 25 x)).
Definition ssig0 (x : Z) : Z := Z.lxor (rotr 7 x) (Z.lxor (rotr 18 x) (Z.shiftr x 3)).
Definition ssig1 (x : Z) : Z := Z.lxor (rotr 17 x) (Z.lxor (rotr 19 x) (Z.shiftr x 10)).

(** The round constants: the first 32 bits of the fractional parts of the
    cube roots of the first 64 primes, computed by bisection. *)
Definition primes : list Z :=
  filter (λ n, Forall (λ m, n mod m ≠ 0) (seqZ 2 (n - 2))) (seqZ 2 310).

Definition cbrt (n : Z) : Z :=
  foldr (λ b x, let y := x + 2 ^ b in if y * y * y <=? n then y else x) 0 (seqZ 0 40).

Definition K : list Z :=
  Eval vm_compute in (λ p, mask32 (cbrt (p * 2 ^ 96))) <$> primes.

Record state := mkstate { sa : Z; sb : Z; sc : Z; sd : Z; se : Z; sf : Z; sg : Z; sh : Z }.

(** The initial state: likewise from the square roots of the first eight. *)
Definition H0 : state :=
  Eval vm_compute in
  match (λ p, mask32 (Z.sqrt (p * 2 ^ 64))) <$> primes with
  | a :: b :: c :: d :: e :: f :: g :: h :: _ => mkstate a b c d e f g h
  | _ => mkstate 0 0 0 0 0 0 0 0
  end.

Lemma K_length : length K = 64%nat.
Proof. reflexivity. Qed.

(** The message schedule, kept as the window of the last sixteen words,
    oldest first. *)
Definition next_w (w : list Z) : Z :=
  add32 (add32 (ssig1 (nth 14 w 0)) (nth 9 w 0))
        (add32 (ssig0 (nth 1 w 0)) (nth 0 w 0)).

Definition round (s : state) (k w : Z) : state :=
  let t1 := add32 (add32 (sh s) (bsig1 (se s)))
                  (add32 (Ch (se s) (sf s) (sg s)) (add32 k w)) in
  let t2 := add32 (bsig0 (sa s)) (Maj (sa s) (sb s) (sc s)) in
  mkstate (add32 t1 t2) (sa s) (sb s) (sc s) (add32 (sd s) t1) (se s) (sf s) (sg s).

Fixpoint rounds (ks : list Z) (w : list Z) (s : state) : state :=
  match ks with
  | [] => s
  | k :: ks' => rounds ks' (tail w ++ [next_w w]) (round s k (nth 0 w 0))
  end.

Definition add_state (a b : state) : state :=
  mkstate (add32 (sa a) (sa b)) (add32 (sb a) (sb b)) (add32 (sc a) (sc b))
          (add32 (sd a) (sd b)) (add32 (se a) (se b)) (add32 (sf a) (sf b))
          (add32 (sg a) (sg b)) (add32 (sh a) (sh b)).

(** Sixteen big-endian words of a 64-byte block. *)
Fixpoint words (n : nat) (b : bytes) : list Z :=
  match n with
  | O => []
  | S n' => be_decode (take 4 b) :: words n' (drop 4 b)
  end.

Definition compress (s : state) (blk : bytes) : state :=
  add_state s (rounds K (words 16 blk) s).

Fixpoint compress_all (n : nat) (s : state) (b : bytes) : state :=
  match n with
  | O => s
  | S n' => compress_all n' (compress s (take 64 b)) (drop 64 b)
  end.

Definition padding (n : Z) : bytes :=
  x80 :: replicate (Z.to_nat ((55 - n) mod 64)) x00 ++ be_encode 8 (8 * n).

Definition digest (s : state) : bytes :=
  be_encode 4 (sa s) ++ be_encode 4 (sb s) ++ be_encode 4 (sc s) ++ be_encode 4 (sd s)
  ++ be_encode 4 (se s) ++ be_encode 4 (sf s) ++ be_encode 4 (sg s) ++ be_encode 4 (sh s).

Definition Sum256 (b : bytes) : bytes :=
  let m := b ++ padding (len b) in
  digest (compress_all (Nat.div (length m) 64) H0 m).

Lemma length_Sum256 b : length (Sum256 b) = 32%nat.
Proof. done. Qed.

(** The padded message is a whole number of 64-byte blocks. *)
Lemma padded_length b : len (b ++ padding (len b)) mod 64 = 0.
Proof.
  unfold padding, len. rewrite length_app. cbn [length].
  rewrite length_app, length_replicate, length_be_encode.
  rewrite !Nat2Z.inj_add, Nat2Z.inj_succ, !Nat2Z.inj_add.
  pose proof (Z.mod_pos_bound (55 - Z.of_nat (length b)) 64 ltac:(lia)).
  rewrite Z2Nat.id by lia.
  pose proof (Z.div_mod (55 - Z.of_nat (length b)) 64 ltac:(lia)).
  set (q := (55 - Z.of_nat (length b)) / 64) in *.
  replace (_ + _) with ((1 - q) * 64) by lia.
  apply Z.mod_mul. lia.
Qed.

(** The digest of ["hello"] that the golden vector of [TestEntryMarshal] and
    [TestEntryUnmarshal] holds. *)
Example Sum256_hello :
  Sum256 (String.list_byte_of_string "hello") =
  [x2c; xf2; x4d; xba; x5f; xb0; xa3; x0e; x26; xe8; x3b; x2a; xc5; xb9; xe2; x9e;
   x1b; x16; x1e; x5c; x1f; xa7; x42; x5e; x73; x04; x33; x62; x93; x8b; x98; x24].
Proof. vm_compute. reflexivity. Qed.

(** The empty message. *)
Example Sum256_empty :
  take 4 (Sum256 []) = [xe3; xb0; xc4; x42].
Proof. vm_compute. reflexivity. Qed.

(** The two-block message of FIPS 180-4. *)
Example Sum256_two_blocks :
  take 4 (Sum256 (String.list_byte_of_string
    "abcdbcdecdefdefgefghfghighijhijkijkljklmklmnlmnomnopnopq")) = [x24; x8d; x6a; x61].
Proof. vm_compute. reflexivity. Qed.

#[global] Opaque Sum256.
End Sha256.

