(* ===== verification/BlockDev.v ===== *)
(** * Block storage: the [BlockReaderWriter] interface and the in-memory device

    [BlockReaderWriter] is the Go interface of slots/journal.go.  The class
    [BlockDevice] states what the journal relies on: a block that is read
    back holds what was last written to it, a write stores its blocks in
    increasing order, and a write that fails has stored a prefix of them.
    [MemDev] (testonly/memdev.go) implements it; mmc/internal.go does in
    file [Mmc]. *)

From S2P Require Import Prelude.

(** The Go interface.  [ReadBlocks d lba b] is the content of the caller's
    buffer [b] after the call (what a failed read leaves in [b] is never
    looked at); [WriteBlocks] returns the device after the call. *)
Class BlockReaderWriter (D : Type) := {
  BlockSize : D → Z;
  ReadBlocks : D → Z → bytes → res bytes;
  WriteBlocks : D → Z → bytes → D * res Z;
}.

(** ** Blocks of a byte string *)

(** Number of blocks of size [bs] that hold [n] bytes. *)
Definition nblocks (bs n : Z) : Z := (n + bs - 1) / bs.

(** [pad bs b] fills the last block of [b] with zeroes. *)
Definition pad (bs : Z) (b : bytes) : bytes :=
  b ++ replicate (Z.to_nat (nblocks bs (len b) * bs - len b)) x00.

(** The [i]th block of the padded byte string. *)
Definition blk (bs : Z) (b : bytes) (i : Z) : bytes := ztake bs (zdrop (i * bs) (pad bs b)).

(** [store bs lba b k c] are the contents [c] after the first [k] blocks of
    [b] have been stored from block [lba] on. *)
Definition store (bs lba : Z) (b : bytes) (k : Z) (c : Z → option bytes) (i : Z) : option bytes :=
  if decide (lba ≤ i < lba + k) then Some (blk bs b (i - lba)) else c i.

Section Blocks.
Context (bs : Z) (Hbs : 0 < bs).

Lemma nblocks_bounds n : n ≤ nblocks bs n * bs < n + bs.
Proof.
  unfold nblocks. pose proof (Z.div_mod (n + bs - 1) bs ltac:(lia)).
  pose proof (Z.mod_pos_bound (n + bs - 1) bs Hbs). nia.
Qed.

Lemma nblocks_pos n : 0 < n → 0 < nblocks bs n.
Proof. pose proof (nblocks_bounds n). nia. Qed.

Lemma nblocks_le n m : n ≤ m * bs → nblocks bs n ≤ m.
Proof. pose proof (nblocks_bounds n). nia. Qed.

Lemma nblocks_mul m : nblocks bs (m * bs) = m.
Proof. pose proof (nblocks_bounds (m * bs)). nia. Qed.

Lemma nblocks_mono n m : n ≤ m → nblocks bs n ≤ nblocks bs m.
Proof. pose proof (nblocks_bounds n). pose proof (nblocks_bounds m). nia. Qed.

Lemma len_pad b : len (pad bs b) = nblocks bs (len b) * bs.
Proof.
  pose proof (nblocks_bounds (len b)). unfold pad.
  rewrite len_app. unfold len at 2. rewrite length_replicate. lia.
Qed.

Lemma nblocks_pad b : nblocks bs (len (pad bs b)) = nblocks bs (len b).
Proof. by rewrite len_pad, nblocks_mul. Qed.

Lemma pad_pad b : pad bs (pad bs b) = pad bs b.
Proof.
  unfold pad at 1. rewrite nblocks_pad, len_pad, Z.sub_diag. apply app_nil_r.
Qed.

Lemma len_blk b i : 0 ≤ i < nblocks bs (len b) → len (blk bs b i) = bs.
Proof.
  intros Hi. unfold blk. rewrite len_take; [done|].
  rewrite len_drop, len_pad by nia. nia.
Qed.

(** A padded byte string is the concatenation of its blocks. *)
Lemma concat_blks_from b j n :
  0 ≤ j → j + Z.of_nat n = nblocks bs (len b) →
  concat ((λ i, blk bs b (j + Z.of_nat i)) <$> seq 0 n) = zdrop (j * bs) (pad bs b).
Proof.
  revert j. induction n as [|n IH]; intros j Hj Hn.
  - simpl. unfold zdrop. rewrite drop_ge; [done|].
    pose proof (len_pad b). unfold len in *. nia.
  - cbn [seq fmap list_fmap concat]. rewrite <-fmap_S_seq, <-list_fmap_compose.
    rewrite (list_fmap_ext _ (λ i, blk bs b ((j + 1) + Z.of_nat i))); last first.
    { intros i x _. cbn. f_equal. lia. }
    rewrite IH by lia. unfold blk. rewrite Z.add_0_r.
    rewrite <-(ztake_zdrop (zdrop (j * bs) (pad bs b)) bs) at 2. f_equal.
    unfold zdrop. rewrite drop_drop. f_equal. nia.
Qed.

Lemma blk_0_prefix b : ztake (bs `min` len b) (blk bs b 0) = ztake (bs `min` len b) b.
Proof.
  pose proof (len_nonneg b). unfold blk, ztake, zdrop.
  rewrite drop_0, take_take. unfold pad. rewrite take_app_le by (unfold len; lia).
  f_equal. lia.
Qed.

Lemma store_in lba b k c i : lba ≤ i < lba + k → store bs lba b k c i = Some (blk bs b (i - lba)).
Proof. intros. unfold store. by rewrite decide_True. Qed.

Lemma store_out lba b k c i : ¬ (lba ≤ i < lba + k) → store bs lba b k c i = c i.
Proof. intros. unfold store. by rewrite decide_False. Qed.

Lemma store_0 lba b c i : store bs lba b 0 c i = c i.
Proof. apply store_out. lia. Qed.
End Blocks.

(** ** What the journal relies on *)

Class BlockDevice (D : Type) `{Platform} `{!BlockReaderWriter D} := {
  (** [contents d i] is block [i] of the device, [None] past its end. *)
  contents : D → Z → option bytes;
  dev_wf : D → Prop;
  BlockSize_pos d : dev_wf d → 0 < BlockSize d;
  contents_len d i b : dev_wf d → contents d i = Some b → len b = BlockSize d;
  ReadBlocks_spec d lba buf b :
    dev_wf d → contents d lba = Some b → len buf = BlockSize d →
    ReadBlocks d lba buf = Ok b;
  (** A successful write stores every block; a failed one stores a prefix. *)
  WriteBlocks_spec d lba b :
    dev_wf d → 0 < len b → 0 ≤ lba →
    nblocks (BlockSize d) (len b) * BlockSize d < 2 ^ (uint_bits - 1) →
    (∀ i, lba ≤ i < lba + nblocks (BlockSize d) (len b) → is_Some (contents d i)) →
    ∃ d' r, WriteBlocks d lba b = (d', r) ∧ dev_wf d' ∧ BlockSize d' = BlockSize d ∧
      match r with
      | Ok n => n = nblocks (BlockSize d) (len b) ∧
                ∀ i, contents d' i = store (BlockSize d) lba b n (contents d) i
      | Err _ => ∃ k, 0 ≤ k ≤ nblocks (BlockSize d) (len b) ∧
                ∀ i, contents d' i = store (BlockSize d) lba b k (contents d) i
      | _ => False
      end;
}.

(** The device after power is lost during [WriteBlocks d lba b]: some prefix
    of the blocks has been stored. *)
Definition interrupted `{BlockDevice D} (d : D) (lba : Z) (b : bytes) (d' : D) : Prop :=
  dev_wf d' ∧ BlockSize d' = BlockSize d ∧
  ∃ k, 0 ≤ k ≤ nblocks (BlockSize d) (len b) ∧
    ∀ i, contents d' i = store (BlockSize d) lba b k (contents d) i.
