(* ===== verification/MemDev.v ===== *)
(** * The in-memory block device of the storage tests (testonly/memdev.go)

    [MemDev] is the executable [BlockReaderWriter] on which the witnesses of
    the storage components run; it discharges [BlockDevice]. *)

From S2P Require Import Prelude BlockDev.

Module MemDev.

Definition MemBlockSize : Z := 512.

(** [OnBlockWritten] may change the storage: the tests use it to corrupt a
    block just after it has been written. *)
Record MemDev := mkMemDev {
  Storage : list bytes;
  OnBlockWritten : option (Z → list bytes → list bytes);
}.

Section MemDev.
Context `{P : Platform}.

Definition md_BlockSize (md : MemDev) : Z := MemBlockSize.

(** The number of blocks transferred: what fits before the end. *)
Definition clamp_blocks (l lba lenB : Z) : Z :=
  let bl := lenB / MemBlockSize in
  if l <? lba +ᵤ bl then l -ᵤ lba else bl.

Definition read_loop (st : list bytes) (lba bl : Z) (b : bytes) : bytes :=
  foldl (λ b i, copy_at (Z.of_nat i * MemBlockSize) b
                        (default [] (st !! Z.to_nat (lba + Z.of_nat i))))
        b (seq 0 (Z.to_nat bl)).

Definition md_ReadBlocks (md : MemDev) (lba : Z) (b : bytes) : res bytes :=
  if len (Storage md) <=? lba then Err "lba >= device blocks"
  else
    let bl := clamp_blocks (len (Storage md)) lba (to_uint (len b)) in
    Ok (read_loop (Storage md) lba bl b).

(** One iteration of the write loop: store block [i] of [b], call the hook. *)
Definition write_block (hook : option (Z → list bytes → list bytes)) (lba : Z) (b : bytes)
    (st : list bytes) (i : nat) : list bytes :=
  let a := Z.to_nat (lba + Z.of_nat i) in
  let st' := <[a := copy_at 0 (default [] (st !! a)) (zdrop (Z.of_nat i * MemBlockSize) b)]> st in
  match hook with
  | Some f => f (lba + Z.of_nat i) st'
  | None => st'
  end.

Definition write_loop (hook : option (Z → list bytes → list bytes)) (lba bl : Z) (b : bytes)
    (st : list bytes) : list bytes :=
  foldl (write_block hook lba b) st (seq 0 (Z.to_nat bl)).

Definition md_WriteBlocks (md : MemDev) (lba : Z) (b : bytes) : MemDev * res Z :=
  if len (Storage md) <=? lba then (md, Err "lba >= device blocks")
  else
    let r := len b mod MemBlockSize in
    let b := if r =? 0 then b else b ++ replicate (Z.to_nat (MemBlockSize - r)) x00 in
    let bl := clamp_blocks (len (Storage md)) lba (to_uint (len b)) in
    (mkMemDev (write_loop (OnBlockWritten md) lba bl b (Storage md)) (OnBlockWritten md), Ok bl).

Definition NewMemDev (numBlocks : nat) : MemDev :=
  mkMemDev (replicate numBlocks (replicate 512 x00)) None.

#[export] Instance memdev_rw : BlockReaderWriter MemDev := {
  BlockSize := md_BlockSize;
  ReadBlocks := md_ReadBlocks;
  WriteBlocks := md_WriteBlocks;
}.

(** ** The device keeps its promises *)

Definition md_contents (md : MemDev) (i : Z) : option bytes :=
  if i <? 0 then None else Storage md !! Z.to_nat i.

Definition md_wf (md : MemDev) : Prop :=
  Forall (λ b, len b = MemBlockSize) (Storage md) ∧ OnBlockWritten md = None ∧
  len (Storage md) < 2 ^ (uint_bits - 1).

Lemma md_contents_lt md i b : md_contents md i = Some b → 0 ≤ i < len (Storage md).
Proof.
  unfold md_contents, len. case_test; [done|]. intros Hi%lookup_lt_Some. lia.
Qed.

Lemma md_contents_is_Some md i : is_Some (md_contents md i) ↔ 0 ≤ i < len (Storage md).
Proof.
  unfold md_contents, len. case_test.
  - rewrite is_Some_alt. lia.
  - rewrite lookup_lt_is_Some. lia.
Qed.

(** Padding as the code does it agrees with [pad]. *)
Lemma code_pad b :
  (if len b mod MemBlockSize =? 0 then b
   else b ++ replicate (Z.to_nat (MemBlockSize - len b mod MemBlockSize)) x00)
  = pad MemBlockSize b.
Proof.
  unfold pad. pose proof (nblocks_bounds MemBlockSize ltac:(done) (len b)).
  pose proof (Z.div_mod (len b) MemBlockSize ltac:(done)) as Hdm.
  pose proof (Z.mod_pos_bound (len b) MemBlockSize ltac:(done)) as Hm.
  assert (MemBlockSize = 512) as E512 by done. rewrite E512 in *.
  generalize dependent (len b mod 512). generalize dependent (len b / 512). intros q r Hdm Hm.
  case_test.
  - replace (_ * _ - _) with 0 by lia. symmetry. apply app_nil_r.
  - do 3 f_equal. lia.
Qed.

Lemma clamp_blocks_fit l lba lenB :
  0 ≤ lba → 0 ≤ lenB → lba + lenB / MemBlockSize ≤ l < 2 ^ (uint_bits - 1) →
  clamp_blocks l lba lenB = lenB / MemBlockSize.
Proof.
  intros. pose proof uint_half. unfold clamp_blocks.
  assert (0 ≤ lenB / MemBlockSize) by (apply Z.div_pos; done).
  rewrite uadd_small by lia. by rewrite (proj2 (Z.ltb_ge _ _)) by lia.
Qed.

Lemma copy_at_whole dst src : length src = length dst → copy_at 0 dst src = src.
Proof.
  intros Hl. unfold copy_at. rewrite Z2Nat.inj_0, Nat.sub_0_r, take_0, app_nil_l.
  rewrite take_ge by lia. rewrite drop_ge by lia. apply app_nil_r.
Qed.

Lemma copy_at_block dst src n :
  length dst = n → (n ≤ length src)%nat → copy_at 0 dst src = take n src.
Proof.
  intros <- Hl. unfold copy_at. rewrite Z2Nat.inj_0, Nat.sub_0_r, take_0, app_nil_l.
  rewrite drop_ge by lia. apply app_nil_r.
Qed.

(** The loop without a hook, block by block. *)
Lemma write_loop_lookup lba b st n (a : nat) :
  0 ≤ lba → lba + Z.of_nat n ≤ len st → Forall (λ x, len x = MemBlockSize) st →
  Z.of_nat n * MemBlockSize ≤ len b →
  let st' := foldl (write_block None lba b) st (seq 0 n) in
  length st' = length st ∧ Forall (λ x, len x = MemBlockSize) st' ∧
  st' !! a = if decide (lba ≤ Z.of_nat a < lba + Z.of_nat n)
             then Some (ztake MemBlockSize (zdrop ((Z.of_nat a - lba) * MemBlockSize) b))
             else st !! a.
Proof.
  intros Hlba. revert a. induction n as [|n IH]; intros a Hn Hst Hb.
  - simpl. split_and!; [done|done|]. by rewrite decide_False by lia.
  - rewrite seq_S, foldl_app. cbn [foldl Nat.add].
    assert (Z.of_nat n * MemBlockSize + MemBlockSize ≤ len b) as Hb' by lia.
    assert (0 < MemBlockSize) as H512 by done.
    destruct (IH a ltac:(lia) Hst ltac:(lia)) as (Hlen & Hwf & _).
    pose proof (λ a, proj2 (proj2 (IH a ltac:(lia) Hst ltac:(lia)))) as Hlook.
    set (st1 := foldl (write_block None lba b) st (seq 0 n)) in *.
    unfold write_block. set (p := Z.to_nat (lba + Z.of_nat n)).
    assert (p < length st1)%nat as Hp by (unfold len in Hn; unfold p; lia).
    destruct (lookup_lt_is_Some_2 st1 p Hp) as [old Hold].
    rewrite Hold. change (default [] (Some old)) with old.
    pose proof (proj1 (Forall_lookup _ _) Hwf p old Hold) as Holdlen. cbv beta in Holdlen.
    assert (Z.to_nat MemBlockSize ≤ length (zdrop (Z.of_nat n * MemBlockSize) b))%nat as Hsrc.
    { pose proof (len_drop b (Z.of_nat n * MemBlockSize) ltac:(lia)) as Hd. unfold len in *. lia. }
    rewrite (copy_at_block _ _ (Z.to_nat MemBlockSize)); [|unfold len in *; lia|done].
    split_and!.
    + by rewrite length_insert.
    + apply Forall_insert; [done|]. unfold len. rewrite length_take. lia.
    + destruct (decide (a = p)) as [->|Hne].
      * rewrite list_lookup_insert_eq by done. rewrite decide_True by (unfold p; lia).
        by replace (Z.of_nat p - lba) with (Z.of_nat n) by (unfold p; lia).
      * rewrite list_lookup_insert_ne by done. rewrite Hlook.
        destruct (decide (lba ≤ Z.of_nat a < lba + Z.of_nat n)).
        -- by rewrite decide_True by lia.
        -- rewrite decide_False; [done|]. unfold p in Hne. lia.
Qed.

Lemma md_ReadBlocks_spec md lba buf b :
  md_wf md → md_contents md lba = Some b → len buf = MemBlockSize →
  md_ReadBlocks md lba buf = Ok b.
Proof.
  intros (Hall & _ & Hlen) Hb Hbuf. pose proof (md_contents_lt _ _ _ Hb) as Hlt.
  unfold md_ReadBlocks. rewrite (proj2 (Z.leb_gt _ _)) by lia.
  pose proof uint_half. assert (MemBlockSize < 2 ^ uint_bits)
    by (destruct uint_bits_cases as [-> | ->]; done).
  rewrite Hbuf, to_uint_small by done.
  rewrite clamp_blocks_fit by (rewrite ?Z.div_same by done; first [done|lia]).
  rewrite Z.div_same by done. unfold read_loop.
  change (seq 0 (Z.to_nat 1)) with [0%nat]. cbn [foldl]. rewrite Z.add_0_r, Z.mul_0_l.
  unfold md_contents in Hb. rewrite (proj2 (Z.ltb_ge _ _)) in Hb by lia.
  rewrite Hb. cbn. f_equal. apply copy_at_whole.
  pose proof (proj1 (Forall_lookup _ _) Hall _ _ Hb) as Hl. unfold len in *. lia.
Qed.

Lemma md_WriteBlocks_spec md lba b :
  md_wf md → 0 < len b → 0 ≤ lba →
  nblocks MemBlockSize (len b) * MemBlockSize < 2 ^ (uint_bits - 1) →
  (∀ i, lba ≤ i < lba + nblocks MemBlockSize (len b) → is_Some (md_contents md i)) →
  ∃ md', md_WriteBlocks md lba b = (md', Ok (nblocks MemBlockSize (len b))) ∧ md_wf md' ∧
    len (Storage md') = len (Storage md) ∧
    ∀ i, md_contents md' i
         = store MemBlockSize lba b (nblocks MemBlockSize (len b)) (md_contents md) i.
Proof.
  intros (Hall & Hhook & Hlen) Hb Hlba Hint Hin. set (n := nblocks MemBlockSize (len b)) in *.
  assert (0 < n) as Hn by (by apply nblocks_pos).
  assert (lba + n ≤ len (Storage md)) as Hfit.
  { specialize (Hin (lba + n - 1) ltac:(lia)). apply md_contents_is_Some in Hin. lia. }
  unfold md_WriteBlocks. rewrite (proj2 (Z.leb_gt _ _)) by lia. cbn zeta.
  rewrite code_pad. pose proof (len_pad MemBlockSize ltac:(done) b) as Hpad. fold n in Hpad.
  assert (0 ≤ n * MemBlockSize) by (apply Z.mul_nonneg_nonneg; [lia|done]).
  pose proof uint_half. rewrite to_uint_small by lia.
  assert (len (pad MemBlockSize b) / MemBlockSize = n) as Hdiv
    by (by rewrite Hpad, Z.div_mul).
  rewrite clamp_blocks_fit by lia. rewrite Hdiv, Hhook. unfold write_loop.
  pose proof (λ a, write_loop_lookup lba (pad MemBlockSize b) (Storage md) (Z.to_nat n) a
                Hlba ltac:(lia) Hall ltac:(lia)) as Hloop.
  eexists. split; [done|]. destruct (Hloop 0%nat) as (Hl & Hw & _).
  split; [split_and!; cbn; [done|done|unfold len in *; lia]|].
  split; [unfold len; cbn; lia|].
  intros i. unfold md_contents, store. cbn [Storage].
  case_test; [by rewrite decide_False by lia|].
  destruct (Hloop (Z.to_nat i)) as (_ & _ & ->).
  rewrite !Z2Nat.id by lia. done.
Qed.

#[export] Instance memdev_device : BlockDevice MemDev.
Proof.
  refine {| contents := md_contents; dev_wf := md_wf |}; cbn.
  - done.
  - intros d i b (Hall & _) Hi. unfold md_contents in Hi.
    destruct (i <? 0); [done|]. apply (proj1 (Forall_lookup _ _) Hall _ _ Hi).
  - apply md_ReadBlocks_spec.
  - intros d lba b Hwf Hb Hlba Hint Hin.
    destruct (md_WriteBlocks_spec d lba b Hwf Hb Hlba Hint Hin) as (d' & -> & Hwf' & _ & Hc).
    by exists d', (Ok (nblocks MemBlockSize (len b))).
Defined.

Lemma NewMemDev_wf n : Z.of_nat n < 2 ^ (uint_bits - 1) → md_wf (NewMemDev n).
Proof.
  intros Hn. split_and!; [|done|].
  - cbn. by apply Forall_replicate.
  - unfold len. cbn [Storage NewMemDev]. by rewrite length_replicate.
Qed.
End MemDev.
End MemDev.
