(* ===== verification/Entry.v ===== *)
(** * Journal records: readers, [entry], [marshalEntry] and [unmarshalEntry]

    Models the record part of slots/journal.go.  [unmarshalEntry] is generic in
    the [io.Reader] it reads from, as in the code; the class [StreamReader]
    states what a reader that delivers a known byte stream promises, and both
    [bytes.Reader] and the journal's own [blockReader] implement it. *)

From S2P Require Import Prelude Sha256 BlockDev.

Module Entry.

(** ** io.Reader *)

(** [Read r n] reads at most [n] bytes and returns those it read. *)
Class Reader (R : Type) := Read : R → Z → R * res bytes.

(** [io.ReadFull]: read exactly [n] bytes.  A reader that delivers at least
    one byte per call needs at most [n] calls. *)
Fixpoint ReadFull_loop `{Reader R} (fuel : nat) (n : Z) (acc : bytes) : M R bytes :=
  if n <=? len acc then mret acc
  else match fuel with
       | O => lift NoFuel
       | S fuel' => b ← (λ r, Read r (n - len acc)); ReadFull_loop fuel' n (acc ++ b)
       end.

Definition ReadFull `{Reader R} (n : Z) : M R bytes := ReadFull_loop (Z.to_nat n) n [].

(** [fmt.Errorf("msg: %v", err)]: an error of [m] becomes [msg]. *)
Definition ctx {S A} (msg : error) (m : M S A) : M S A := λ s,
  match m s with
  | (s', Err _) => (s', Err msg)
  | r => r
  end.

(** ** The record *)

Definition magic0 : bytes := [x54; x46; x4a; x30]. (* "TFJ0" *)

Definition entryHeaderSize : Z := 4 + 4 + 8 + 32.

Record entry := mkEntry {
  Magic : bytes;
  Revision : Z;
  DataLen : Z;
  DataSHA256 : bytes;
  Data : bytes;
}.

(** The zero value of the struct. *)
Definition zero_entry : entry :=
  mkEntry (replicate 4 x00) 0 0 (replicate 32 x00) [].

Definition Size (e : entry) : Z := entryHeaderSize + len (Data e).

Definition marshalEntry (e : entry) : res bytes :=
  if bool_decide (Magic e ≠ magic0) then Err "invalid header magic"
  else if bool_decide (Sha256.Sum256 (Data e) ≠ DataSHA256 e) then Err "incorrect data SHA256"
  else Ok (Magic e ++ be_encode 4 (Revision e) ++ be_encode 8 (DataLen e)
             ++ DataSHA256 e ++ Data e).

Definition unmarshalEntry `{Platform} `{Reader R} : M R entry :=
  magic ← ctx "failed to read magic" (ReadFull 4);
  if bool_decide (magic ≠ magic0) then lift (Err "invalid header magic")
  else
    rev ← ctx "failed to read revision" (ReadFull 4);
    if be_decode rev =? 0 then lift (Err "zero is not a valid revision")
    else
      dl ← ctx "failed to read data length" (ReadFull 8);
      sha ← ctx "failed to read data SHA256" (ReadFull 32);
      if max_alloc <? be_decode dl then lift (Panic "makeslice: len out of range")
      else
        data ← ctx "failed to read data" (ReadFull (be_decode dl));
        if bool_decide (Sha256.Sum256 data ≠ sha) then lift (Err "incorrect data SHA256")
        else mret (mkEntry magic (be_decode rev) (be_decode dl) sha data).

(** ** bytes.Reader and blockReader *)

#[export] Instance bytes_reader : Reader bytes := λ r n,
  match r with
  | [] => if n =? 0 then ([], Ok []) else ([], Err "EOF")
  | _ => (zdrop n r, Ok (ztake n r))
  end.

Record blockReader (D : Type) := mkBlockReader {
  br_dev : D;
  br_buf : bytes;
  br_pos : Z;
}.
Arguments mkBlockReader {D} _ _ _.
Arguments br_dev {D} _.
Arguments br_buf {D} _.
Arguments br_pos {D} _.

Section BlockReader.
Context `{P : Platform} `{B : !BlockReaderWriter D}.

Definition newBlockReader (dev : D) (lba : Z) : blockReader D :=
  mkBlockReader dev (replicate (Z.to_nat (BlockSize dev)) x00) (lba *ᵤ BlockSize dev).

(** The copy out of the buffered block. *)
Definition br_copy (br : blockReader D) (n : Z) : blockReader D * res bytes :=
  let src := zdrop (br_pos br mod BlockSize (br_dev br)) (br_buf br) in
  let l := n `min` len src in
  (mkBlockReader (br_dev br) (br_buf br) (br_pos br +ᵤ to_uint l), Ok (ztake l src)).

#[export] Instance block_reader : Reader (blockReader D) := λ br n,
  let bs := BlockSize (br_dev br) in
  if bs =? 0 then (br, Panic "integer divide by zero")
  else if br_pos br mod bs =? 0 then
    match ReadBlocks (br_dev br) (br_pos br / bs) (br_buf br) with
    | Ok buf => br_copy (mkBlockReader (br_dev br) buf (br_pos br)) n
    | Err e => (br, Err e)
    | Panic e => (br, Panic e)
    | NoFuel => (br, NoFuel)
    end
  else br_copy br n.
End BlockReader.

(** ** Readers that deliver a known stream *)

(** [stream r a s]: reader [r] stands at address [a] and has the bytes [s]
    ahead of it. *)
Class StreamReader (R : Type) `{!Reader R} := {
  stream : R → Z → bytes → Prop;
  Read_stream r a s n :
    stream r a s → 0 < n → 0 < len s →
    ∃ r' l, Read r n = (r', Ok (ztake l s)) ∧ 0 < l ≤ n ∧ l ≤ len s ∧
            stream r' (a + l) (zdrop l s);
}.

Lemma ztake_ztake_zdrop {A} (l : list A) n k :
  0 ≤ n → 0 ≤ k → ztake n l ++ ztake k (zdrop n l) = ztake (n + k) l.
Proof.
  intros. unfold ztake, zdrop. rewrite <-(take_drop (Z.to_nat n) (take (Z.to_nat (n + k)) l)).
  rewrite take_take, skipn_firstn_comm. f_equal; f_equal; lia.
Qed.

Section Stream.
Context `{SR : StreamReader R}.

Lemma ReadFull_loop_stream fuel n acc r a s :
  stream r a s → n - len acc ≤ Z.of_nat fuel → n - len acc ≤ len s → len acc ≤ n →
  ∃ r', ReadFull_loop fuel n acc r = (r', Ok (acc ++ ztake (n - len acc) s)) ∧
        stream r' (a + (n - len acc)) (zdrop (n - len acc) s).
Proof.
  revert acc r a s. induction fuel as [|fuel IH]; intros acc r a s Hs Hf Hl Hacc;
    cbn [ReadFull_loop]; (case_test; [|]).
  - exists r. replace (n - len acc) with 0 by lia. rewrite Z.add_0_r.
    split; [|done]. unfold ztake. by rewrite app_nil_r.
  - lia.
  - exists r. replace (n - len acc) with 0 by lia. rewrite Z.add_0_r.
    split; [|done]. unfold ztake. by rewrite app_nil_r.
  - destruct (Read_stream r a s (n - len acc) Hs ltac:(lia) ltac:(lia))
      as (r' & l & HR & Hl1 & Hl2 & Hs').
    erewrite bind_Ok by exact HR.
    assert (len (ztake l s) = l) as Hlt by (apply len_take; lia).
    destruct (IH (acc ++ ztake l s) r' (a + l) (zdrop l s) Hs') as (r'' & HF & Hs'').
    + rewrite len_app, Hlt. lia.
    + rewrite len_app, Hlt, len_drop by lia. lia.
    + rewrite len_app, Hlt. lia.
    + exists r''. rewrite HF. rewrite len_app, Hlt in *. split.
      * rewrite <-app_assoc, ztake_ztake_zdrop by lia. do 3 f_equal. f_equal. lia.
      * rewrite zdrop_zdrop in Hs'' by lia.
        replace (a + (n - len acc)) with (a + l + (n - (len acc + l))) by lia.
        by replace (n - len acc) with (l + (n - (len acc + l))) by lia.
Qed.

Lemma ReadFull_stream n r a s1 s2 :
  stream r a (s1 ++ s2) → n = len s1 →
  ∃ r', ReadFull n r = (r', Ok s1) ∧ stream r' (a + n) s2.
Proof.
  intros Hs ->. pose proof (len_nonneg s1). unfold ReadFull.
  destruct (ReadFull_loop_stream (Z.to_nat (len s1)) (len s1) [] r a (s1 ++ s2) Hs)
    as (r' & HF & Hs').
  - change (len (@nil byte)) with 0. lia.
  - change (len (@nil byte)) with 0. rewrite len_app. pose proof (len_nonneg s2). lia.
  - done.
  - change (len (@nil byte)) with 0 in *. rewrite Z.sub_0_r in *. exists r'.
    rewrite HF. unfold ztake, zdrop, len in *. rewrite Nat2Z.id in *.
    rewrite take_app_length, drop_app_length in *. done.
Qed.
End Stream.

(** The bytes of a record that precede its data. *)
Definition header (rev dl : Z) (sha : bytes) : bytes :=
  magic0 ++ be_encode 4 rev ++ be_encode 8 dl ++ sha.

Lemma len_header rev dl sha : length sha = 32%nat → len (header rev dl sha) = entryHeaderSize.
Proof. intros H. unfold header, len. rewrite !length_app, !length_be_encode, H. done. Qed.

(** ** Well-formed records *)

(** What [Update] builds: the magic, a revision from 1 on, and the length and
    digest of the data. *)
Record entry_wf `{Platform} (e : entry) : Prop := {
  wf_magic : Magic e = magic0;
  wf_revision : 0 < Revision e < 2 ^ 32;
  wf_datalen : DataLen e = len (Data e);
  wf_alloc : len (Data e) ≤ max_alloc;
  wf_sha : DataSHA256 e = Sha256.Sum256 (Data e);
}.

(** The bytes of a record on storage. *)
Definition encoding (e : entry) : bytes :=
  header (Revision e) (DataLen e) (DataSHA256 e) ++ Data e.

Section EntryWf.
Context `{P : Platform}.

Lemma max_alloc_64 : max_alloc < 2 ^ 64.
Proof.
  pose proof max_alloc_int. destruct uint_bits_cases as [E|E]; rewrite E in *; lia.
Qed.

Lemma be_decode_encode_small n z :
  0 ≤ z < 2 ^ (8 * Z.of_nat n) → be_decode (be_encode n z) = z.
Proof.
  intros Hz. rewrite be_decode_encode, Z.mod_small; [done|].
  change 256 with (2 ^ 8). rewrite <-Z.pow_mul_r; lia.
Qed.

Lemma marshalEntry_wf e : entry_wf e → marshalEntry e = Ok (encoding e).
Proof.
  intros []. unfold marshalEntry, encoding, header.
  rewrite bool_decide_false by (by intros []).
  rewrite bool_decide_false by (by intros []).
  by rewrite wf_magic0, <-!app_assoc.
Qed.

Lemma len_encoding e : entry_wf e → len (encoding e) = Size e.
Proof.
  intros []. unfold encoding, Size. rewrite len_app, len_header; [done|].
  by rewrite wf_sha0, Sha256.length_Sum256.
Qed.

Lemma header_app rev dl sha s :
  header rev dl sha ++ s = magic0 ++ be_encode 4 rev ++ be_encode 8 dl ++ sha ++ s.
Proof. unfold header. by rewrite <-!app_assoc. Qed.

Context `{SR : StreamReader R}.

(** Reading a header followed by as many bytes as it announces: the digest
    alone decides. *)
Lemma unmarshal_stream r a rev dl sha data rest :
  0 < rev < 2 ^ 32 → length sha = 32%nat → dl = len data → dl ≤ max_alloc →
  stream r a (header rev dl sha ++ data ++ rest) →
  if decide (Sha256.Sum256 data = sha) then
    ∃ r', unmarshalEntry r = (r', Ok (mkEntry magic0 rev dl sha data)) ∧
          stream r' (a + entryHeaderSize + dl) rest
  else ∃ r', unmarshalEntry r = (r', Err "incorrect data SHA256").
Proof.
  intros Hrev Hsha Hdl Halloc Hs. rewrite header_app in Hs.
  pose proof (len_nonneg data). pose proof max_alloc_64.
  destruct (ReadFull_stream 4 _ _ _ _ Hs eq_refl) as (r1 & E1 & Hs1).
  destruct (ReadFull_stream 4 _ _ _ _ Hs1) as (r2 & E2 & Hs2);
    [unfold len; by rewrite length_be_encode|].
  destruct (ReadFull_stream 8 _ _ _ _ Hs2) as (r3 & E3 & Hs3);
    [unfold len; by rewrite length_be_encode|].
  destruct (ReadFull_stream 32 _ _ _ _ Hs3) as (r4 & E4 & Hs4);
    [unfold len; by rewrite Hsha|].
  destruct (ReadFull_stream dl _ _ _ _ Hs4) as (r5 & E5 & Hs5); [done|].
  assert (unmarshalEntry r =
    (if bool_decide (Sha256.Sum256 data ≠ sha) then lift (Err "incorrect data SHA256")
     else mret (mkEntry magic0 rev dl sha data)) r5) as ->.
  { unfold unmarshalEntry.
    erewrite bind_Ok by (unfold ctx; by rewrite E1). cbn [bool_decide].
    rewrite bool_decide_false by (by intros []).
    erewrite bind_Ok by (unfold ctx; by rewrite E2).
    rewrite be_decode_encode_small by (cbn; lia).
    rewrite (proj2 (Z.eqb_neq _ _)) by lia.
    erewrite bind_Ok by (unfold ctx; by rewrite E3).
    erewrite bind_Ok by (unfold ctx; by rewrite E4).
    rewrite be_decode_encode_small by (cbn; lia).
    rewrite (proj2 (Z.ltb_ge _ _)) by lia.
    by erewrite bind_Ok by (unfold ctx; by rewrite E5). }
  case_decide as Heq.
  - rewrite bool_decide_false by (intros Hne; by apply Hne). eexists. split; [done|].
    replace (a + entryHeaderSize + dl) with (a + 4 + 4 + 8 + 32 + dl)
      by (unfold entryHeaderSize; lia). done.
  - rewrite bool_decide_true by done. by eexists.
Qed.

Lemma unmarshal_encoding r a e rest :
  entry_wf e → stream r a (encoding e ++ rest) →
  ∃ r', unmarshalEntry r = (r', Ok e) ∧ stream r' (a + Size e) rest.
Proof.
  intros [] Hs. unfold encoding in Hs. rewrite <-app_assoc in Hs.
  assert (length (DataSHA256 e) = 32%nat) as Hsha by (by rewrite wf_sha0).
  pose proof (unmarshal_stream r a _ _ _ _ _ wf_revision0 Hsha wf_datalen0 ltac:(lia) Hs) as Hu.
  rewrite decide_True in Hu by done. destruct Hu as (r' & -> & Hs').
  exists r'. split.
  - by rewrite <-wf_magic0; destruct e.
  - unfold Size. by rewrite <-wf_datalen0, Z.add_assoc.
Qed.

(** Bytes that do not start with the magic are rejected. *)
Lemma unmarshal_no_magic r a s :
  4 ≤ len s → ztake 4 s ≠ magic0 → stream r a s →
  ∃ r', unmarshalEntry r = (r', Err "invalid header magic").
Proof.
  intros Hl Hm Hs. rewrite <-(ztake_zdrop s 4) in Hs.
  destruct (ReadFull_stream 4 _ _ _ _ Hs) as (r1 & E1 & Hs1);
    [rewrite len_take; lia|].
  exists r1. unfold unmarshalEntry. erewrite bind_Ok by (unfold ctx; by rewrite E1).
  by rewrite bool_decide_true.
Qed.
End EntryWf.

(** ** The two readers deliver their streams *)

Lemma bytes_read_stream (r : bytes) (a : Z) s n :
  r = s → 0 < n → 0 < len s →
  ∃ r' l, Read r n = (r', Ok (ztake l s)) ∧ 0 < l ≤ n ∧ l ≤ len s ∧ r' = zdrop l s.
Proof.
  intros -> Hn Hs. exists (zdrop n s), (n `min` len s).
  unfold Read, bytes_reader. destruct s as [|x s]; [done|].
  assert (ztake n (x :: s) = ztake (n `min` len (x :: s)) (x :: s)
          ∧ zdrop n (x :: s) = zdrop (n `min` len (x :: s)) (x :: s)) as [-> ->].
  { unfold ztake, zdrop, len in *. destruct (decide (n ≤ Z.of_nat (length (x :: s)))).
    - by rewrite Z.min_l by lia.
    - rewrite Z.min_r by lia. rewrite !take_ge, !drop_ge by lia. done. }
  split_and!; [done|lia..|done].
Qed.

#[export] Instance bytes_stream : StreamReader bytes :=
  {| stream r a s := r = s; Read_stream := bytes_read_stream |}.

Section BlockReaderStream.
Context `{P : Platform} `{B : !BlockReaderWriter D} `{BD : !BlockDevice D}.

(** What is left of the buffered block at address [a]. *)
Definition pending (bs a : Z) (buf : bytes) : bytes :=
  if a mod bs =? 0 then [] else zdrop (a mod bs) buf.

(** The blocks ahead are those of the device; [a] is the address before
    wrap-around, which may reach [2^uint_bits] once the last block is read. *)
Definition br_stream (br : blockReader D) (a : Z) (s : bytes) : Prop :=
  let bs := BlockSize (br_dev br) in
  dev_wf (br_dev br) ∧ len (br_buf br) = bs ∧ br_pos br = wrap uint_bits a ∧
  0 ≤ a ∧ a + len s ≤ 2 ^ uint_bits ∧ bs < 2 ^ uint_bits ∧
  ∃ blks, s = pending bs a (br_buf br) ++ concat blks ∧
    ∀ i b, blks !! i = Some b → contents (br_dev br) (nblocks bs a + Z.of_nat i) = Some b.

Lemma nblocks_split bs q m : 0 < bs → 0 < m ≤ bs → nblocks bs (q * bs + m) = q + 1.
Proof. intros Hbs Hm. pose proof (nblocks_bounds bs Hbs (q * bs + m)). nia. Qed.

(** Reading within a block that is in the buffer. *)
Lemma br_copy_stream d buf a blks n :
  let bs := BlockSize d in
  let s := zdrop (a mod bs) buf ++ concat blks in
  dev_wf d → len buf = bs → 0 ≤ a → a + len s ≤ 2 ^ uint_bits → bs < 2 ^ uint_bits →
  (∀ i b, blks !! i = Some b → contents d (a / bs + 1 + Z.of_nat i) = Some b) →
  0 < n →
  ∃ br' l, br_copy (mkBlockReader d buf a) n = (br', Ok (ztake l s)) ∧
    0 < l ≤ n ∧ l ≤ len s ∧ br_dev br' = d ∧ br_stream br' (a + l) (zdrop l s).
Proof.
  intros bs s Hwf Hbuf Ha Hmax Hbsmax Hblks Hn.
  pose proof (BlockSize_pos d Hwf) as Hbs. fold bs in Hbs.
  pose proof (Z.mod_pos_bound a bs Hbs) as Hm. pose proof (Z.div_mod a bs ltac:(lia)) as Hdm.
  set (m := a mod bs) in *. set (q := a / bs) in *.
  assert (len (zdrop m buf) = bs - m) as Hsrc by (rewrite len_drop; lia).
  assert (len s = bs - m + len (concat blks)) as Hs by (unfold s; rewrite len_app, Hsrc; lia).
  pose proof (len_nonneg (concat blks)).
  set (l := n `min` (bs - m)). exists (mkBlockReader d buf (wrap uint_bits (a + l))), l.
  assert (ztake l (zdrop m buf) = ztake l s) as Htake.
  { unfold ztake, s. rewrite take_app_le; [done|]. unfold len in *. lia. }
  assert (zdrop l s = zdrop (m + l) buf ++ concat blks) as Hdrop.
  { unfold s. unfold zdrop at 1. rewrite drop_app_le by (unfold len in *; lia).
    f_equal. by rewrite <-zdrop_zdrop by lia. }
  split_and!; [|lia..|done|].
  - unfold br_copy. cbn [br_dev br_buf br_pos]. fold bs m. rewrite Hsrc. fold l.
    rewrite Htake. unfold uadd. rewrite to_uint_small by lia. done.
  - unfold br_stream. cbn [br_dev br_buf br_pos]. fold bs.
    split_and!; [done..|lia|rewrite len_drop by lia; lia|done|].
    replace (a + l) with (q * bs + (m + l)) by lia.
    exists blks. rewrite nblocks_split by lia. split; [|done].
    rewrite Hdrop. f_equal. unfold pending.
    assert ((q * bs + (m + l)) mod bs = (m + l) mod bs) as ->
      by (rewrite Z.add_comm; apply Z_mod_plus_full).
    case_test.
    + assert (m + l = bs) as -> by (apply Z.mod_divide in E; [|lia];
        apply Z.divide_pos_le in E; lia).
      unfold zdrop. rewrite drop_ge; [done|]. unfold len in *. lia.
    + rewrite Z.mod_small; [done|]. destruct (decide (m + l = bs)) as [Eq|]; [|lia].
      by rewrite Eq, Z.mod_same in E by lia.
Qed.

Lemma br_read_stream br a s n :
  br_stream br a s → 0 < n → 0 < len s →
  ∃ br' l, block_reader br n = (br', Ok (ztake l s)) ∧ 0 < l ≤ n ∧ l ≤ len s ∧
           br_stream br' (a + l) (zdrop l s).
Proof.
  intros (Hwf & Hbuf & Hpos & Ha & Hmax & Hbsmax & blks & Hs & Hblks) Hn Hlen.
  destruct br as [d buf pos]. cbn [br_dev br_buf br_pos] in *.
  pose proof (BlockSize_pos d Hwf) as Hbs.
  rewrite wrap_small in Hpos by lia. subst pos.
  unfold block_reader. cbn [br_dev br_buf br_pos]. set (bs := BlockSize d) in *.
  rewrite (proj2 (Z.eqb_neq bs 0)) by lia.
  pose proof (Z.div_mod a bs ltac:(lia)) as Hdm.
  pose proof (Z.mod_pos_bound a bs Hbs) as Hm.
  unfold pending in Hs. case_test.
  - destruct blks as [|b blks]; [by subst s|].
    rewrite E, Z.add_0_r in Hdm.
    assert (nblocks bs a = a / bs) as Hnb by (rewrite Hdm at 1; rewrite Z.mul_comm; by apply nblocks_mul).
    pose proof (Hblks 0%nat b eq_refl) as Hb. rewrite Hnb, Z.add_0_r in Hb.
    rewrite (ReadBlocks_spec d (a / bs) buf b Hwf Hb Hbuf).
    assert (s = zdrop (a mod bs) b ++ concat blks) as -> by (rewrite E; done).
    destruct (br_copy_stream d b a blks n) as (br' & l & ? & ? & ? & ? & ?); [done| |done..| |done|].
    { by eapply contents_len. }
    { intros i b' Hi. specialize (Hblks (S i) b' Hi). rewrite Hnb in Hblks.
      rewrite <-Hblks. f_equal. fold bs. lia. }
    eauto 10.
  - assert (nblocks bs a = a / bs + 1) as Hnb
      by (rewrite Hdm at 1; rewrite Z.mul_comm; apply nblocks_split; lia).
    subst s. destruct (br_copy_stream d buf a blks n) as (br' & l & ? & ? & ? & ? & ?); [done..| |done|].
    { intros i b' Hi. specialize (Hblks i b' Hi). by rewrite Hnb in Hblks. }
    eauto 10.
Qed.

#[export] Instance br_stream_reader : StreamReader (blockReader D) :=
  {| stream := br_stream; Read_stream := br_read_stream |}.

(** A new reader has the blocks from [lba] on ahead of it. *)
Lemma newBlockReader_stream d lba blks :
  dev_wf d → 0 ≤ lba → BlockSize d < 2 ^ uint_bits →
  (lba + len blks) * BlockSize d ≤ 2 ^ uint_bits → blks ≠ [] →
  (∀ i b, blks !! i = Some b → contents d (lba + Z.of_nat i) = Some b) →
  br_stream (newBlockReader d lba) (lba * BlockSize d) (concat blks).
Proof.
  intros Hwf Hlba Hbsmax Hmax Hne Hblks. pose proof (BlockSize_pos d Hwf) as Hbs.
  assert (len (concat blks) = len blks * BlockSize d) as Hlen.
  { assert (Forall (λ b, len b = BlockSize d) blks) as Hall.
    { apply Forall_lookup. intros i b Hi. eapply contents_len; eauto. }
    clear -Hall. induction Hall as [|b blks Hb Hall IH]; [done|].
    cbn [concat]. rewrite len_app, IH, Hb. unfold len. cbn [length]. lia. }
  unfold br_stream, newBlockReader. cbn [br_dev br_buf br_pos].
  split_and!; [done| |done|lia|rewrite Hlen; lia|done|].
  - unfold len. rewrite length_replicate. lia.
  - exists blks. rewrite nblocks_mul by done. split; [|done].
    unfold pending. by rewrite Z.mod_mul by lia.
Qed.
End BlockReaderStream.
End Entry.
