(* ===== verification/EntryProps.v ===== *)
(** * Properties of the record codec (slots/journal.go) *)

From S2P Require Import Prelude Sha256 BlockDev Entry.
Import Entry.

Module EntryProps.

(** ** Reading from a byte slice *)

Lemma ReadFull_bytes_short fuel n acc (s : bytes) :
  len acc + len s < n → n - len acc ≤ Z.of_nat fuel →
  ∃ s' e, ReadFull_loop fuel n acc s = (s', Err e).
Proof.
  revert acc s. induction fuel as [|fuel IH]; intros acc s Hs Hf; [pose proof (len_nonneg s); lia|].
  cbn [ReadFull_loop]. pose proof (len_nonneg s). rewrite (proj2 (Z.leb_gt _ _)) by lia.
  unfold mbind, M_bind, Read, bytes_reader. destruct s as [|x s].
  - rewrite (proj2 (Z.eqb_neq _ _)) by lia. eauto.
  - set (m := n - len acc) in *.
    assert (zdrop m (x :: s) = [] ∧ ztake m (x :: s) = x :: s) as [-> ->].
    { unfold zdrop, ztake, len in *. split; [apply drop_ge|apply take_ge]; lia. }
    apply IH; rewrite len_app; unfold len in *; cbn [length] in *; lia.
Qed.

(** [io.ReadFull] on a [bytes.Reader]. *)
Lemma ReadFull_bytes n (s : bytes) s' b :
  0 ≤ n → ReadFull n s = (s', Ok b) → s = b ++ s' ∧ len b = n.
Proof.
  intros Hn HF. destruct (decide (n ≤ len s)) as [Hle|Hgt].
  - destruct (ReadFull_stream (R := bytes) n s 0 (ztake n s) (zdrop n s)) as (r' & HF' & Hs).
    + cbn. symmetry. apply ztake_zdrop.
    + rewrite len_take; lia.
    + rewrite HF in HF'. injection HF' as -> ->. cbn in Hs. subst.
      split; [by rewrite ztake_zdrop|apply len_take; lia].
  - unfold ReadFull in HF.
    destruct (ReadFull_bytes_short (Z.to_nat n) n [] s) as (s1 & e & HE);
      [unfold len in *; cbn; lia|change (len (@nil byte)) with 0; lia|].
    by rewrite HE in HF.
Qed.

Lemma ctx_Ok_inv {S A} msg (m : M S A) s s' a : ctx msg m s = (s', Ok a) → m s = (s', Ok a).
Proof. unfold ctx. destruct (m s) as [s1 []]; naive_solver. Qed.

Lemma bind_Ok_inv {S A B} (m : M S A) (f : A → M S B) s s' b :
  (m ≫= f) s = (s', Ok b) → ∃ s1 a, m s = (s1, Ok a) ∧ f a s1 = (s', Ok b).
Proof. unfold mbind, M_bind. destruct (m s) as [s1 []]; naive_solver. Qed.

Lemma be_encode_mod n z : be_encode n (z mod 256 ^ Z.of_nat n) = be_encode n z.
Proof.
  enough (∀ m, (n ≤ m)%nat → be_encode n (z mod 256 ^ Z.of_nat m) = be_encode n z) as H by by apply H.
  induction n as [|n IH]; intros m Hm; [done|]. cbn [be_encode]. rewrite IH by lia. f_equal.
  apply b2z_inj. rewrite !b2z_z2b, !Z.shiftr_div_pow2 by lia.
  replace (2 ^ (8 * Z.of_nat n)) with (256 ^ Z.of_nat n) by (by rewrite Z.pow_mul_r by lia).
  replace (Z.of_nat m) with (Z.of_nat n + (1 + (Z.of_nat m - Z.of_nat n - 1))) by lia.
  rewrite !Z.pow_add_r by lia. change (256 ^ 1) with 256.
  set (a := 256 ^ Z.of_nat n). set (b := 256 ^ (Z.of_nat m - Z.of_nat n - 1)).
  assert (0 < a) by (apply Z.pow_pos_nonneg; lia). assert (0 < b) by (apply Z.pow_pos_nonneg; lia).
  rewrite Z.rem_mul_r by lia. rewrite (Z.mul_comm a), Z.div_add by lia.
  rewrite Z.div_small by (apply Z.mod_pos_bound; lia). rewrite Z.add_0_l, Z.rem_mul_r by lia.
  rewrite Z.mul_comm, Z_mod_plus_full. apply Z.mod_mod. lia.
Qed.

Lemma be_encode_decode b : be_encode (length b) (be_decode b) = b.
Proof.
  induction b as [|x b IH]; [done|]. cbn [length be_encode].
  assert (be_decode (x :: b) = b2z x * 256 ^ len b + be_decode b) as Hd.
  { unfold be_decode. cbn [foldl]. rewrite be_decode_cons_acc.
    rewrite shiftl_lor_add by apply b2z_range. unfold be_decode. lia. }
  pose proof (be_decode_range b) as Hr. unfold len in *. f_equal.
  - apply b2z_inj. rewrite b2z_z2b, Z.shiftr_div_pow2 by lia.
    replace (2 ^ (8 * Z.of_nat (length b))) with (256 ^ Z.of_nat (length b)) by (by rewrite Z.pow_mul_r by lia).
    rewrite Hd, Z.add_comm, Z.div_add by lia. rewrite Z.div_small by lia.
    apply Z.mod_small, b2z_range.
  - rewrite <-(be_encode_mod _ (be_decode (x :: b))), Hd, Z.add_comm, Z_mod_plus_full.
    rewrite Z.mod_small by lia. exact IH.
Qed.

Lemma be_encode_decode_n n b : len b = Z.of_nat n → be_encode n (be_decode b) = b.
Proof. intros Hl. replace n with (length b) by (unfold len in Hl; lia). apply be_encode_decode. Qed.

Lemma stream_bytes (s : bytes) a : stream s a s.
Proof. reflexivity. Qed.

Section Props.
Context `{P : Platform}.

(** C13 A well-formed record ([entry_wf]: it has the magic, a revision from 1 to
    2^32 - 1, the length and the SHA-256 of its data) that [marshalEntry]
    writes is read back by [unmarshalEntry] as the same record, and exactly its
    bytes are consumed.  Records of revision 0 are outside of this: they are
    written but refused ([revision_exhausted]). *)
Theorem entry_roundtrip (e : entry) (b rest : bytes) :
  entry_wf e → marshalEntry e = Ok b →
  unmarshalEntry (b ++ rest) = (rest, Ok e) ∧ len b = Size e.
Proof.
  intros Hwf Hm. rewrite (marshalEntry_wf e Hwf) in Hm. injection Hm as <-.
  destruct (unmarshal_encoding (R := bytes) (encoding e ++ rest) 0 e rest Hwf (stream_bytes _ 0)) as (r & -> & Hs).
  cbn in Hs. subst. by rewrite (len_encoding e Hwf).
Qed.

(** C14 Everything [unmarshalEntry] accepts is a well-formed record (magic,
    non-zero revision, announced length, matching SHA-256), and the bytes it
    consumed are the ones [marshalEntry] writes for that record. *)
Theorem unmarshal_accepts_only_records (b rest : bytes) (e : entry) :
  unmarshalEntry b = (rest, Ok e) →
  entry_wf e ∧ marshalEntry e = Ok (encoding e) ∧ b = encoding e ++ rest.
Proof.
  intros Hu. unfold unmarshalEntry in Hu.
  apply bind_Ok_inv in Hu as (s1 & magic & H1%ctx_Ok_inv & Hu).
  destruct (bool_decide (magic ≠ magic0)) eqn:Hmag; [done|]. bool_prop. apply dec_stable in Hmag.
  apply bind_Ok_inv in Hu as (s2 & rev & H2%ctx_Ok_inv & Hu).
  destruct (be_decode rev =? 0) eqn:Hrev; [done|]. bool_prop.
  apply bind_Ok_inv in Hu as (s3 & dl & H3%ctx_Ok_inv & Hu).
  apply bind_Ok_inv in Hu as (s4 & sha & H4%ctx_Ok_inv & Hu).
  destruct (max_alloc <? be_decode dl) eqn:Hal; [done|]. bool_prop.
  pose proof (be_decode_range dl) as Hdl. pose proof (be_decode_range rev) as Hrr.
  apply bind_Ok_inv in Hu as (s5 & data & H5%ctx_Ok_inv & Hu).
  destruct (bool_decide (Sha256.Sum256 data ≠ sha)) eqn:Hsha; [done|]. bool_prop.
  apply dec_stable in Hsha. injection Hu as -> <-.
  apply ReadFull_bytes in H1 as [E1 L1], H2 as [E2 L2], H3 as [E3 L3], H4 as [E4 L4],
    H5 as [E5 L5]; [|lia..].
  rewrite L2 in Hrr. change (256 ^ 4) with (2 ^ 32) in Hrr.
  assert (entry_wf (mkEntry magic (be_decode rev) (be_decode dl) sha data)) as Hwf.
  { split; cbn; [done|lia|done|lia|done]. }
  split_and!; [done|by apply marshalEntry_wf|].
  unfold encoding, header. cbn [Revision DataLen DataSHA256 Data].
  rewrite !be_encode_decode_n by done. rewrite <-Hmag, <-!app_assoc. congruence.
Qed.

(** [marshalEntry] writes nothing for a record with the wrong magic or with
    a digest that is not that of its data. *)
Theorem marshal_rejects (e : entry) :
  Magic e ≠ magic0 ∨ DataSHA256 e ≠ Sha256.Sum256 (Data e) → ∃ msg, marshalEntry e = Err msg.
Proof.
  intros Hbad. unfold marshalEntry. destruct (decide (Magic e = magic0)) as [Hm|Hm].
  - rewrite bool_decide_false by (by intros []). destruct Hbad as [|Hs]; [done|].
    rewrite bool_decide_true by congruence. eauto.
  - rewrite bool_decide_true by done. eauto.
Qed.

(** A header whose [DataLen] exceeds what [make] can allocate makes
    [unmarshalEntry] panic instead of returning an error: the length is used
    before the checksum is verified. *)
Theorem unmarshal_panics_on_length (rev dl : Z) (sha rest : bytes) :
  0 < rev < 2 ^ 32 → max_alloc < dl < 2 ^ 64 → length sha = 32%nat →
  ∃ s, unmarshalEntry (header rev dl sha ++ rest) = (s, Panic "makeslice: len out of range").
Proof.
  intros Hrev Hdl Hsha. rewrite header_app.
  destruct (ReadFull_stream (R := bytes) 4 _ 0 magic0 (be_encode 4 rev ++ be_encode 8 dl ++ sha ++ rest)
      (stream_bytes _ 0) eq_refl) as (r1 & E1 & Hs1).
  destruct (ReadFull_stream (R := bytes) 4 r1 _ _ _ Hs1) as (r2 & E2 & Hs2);
    [unfold len; by rewrite length_be_encode|].
  destruct (ReadFull_stream (R := bytes) 8 r2 _ _ _ Hs2) as (r3 & E3 & Hs3);
    [unfold len; by rewrite length_be_encode|].
  destruct (ReadFull_stream (R := bytes) 32 r3 _ _ _ Hs3) as (r4 & E4 & Hs4);
    [unfold len; by rewrite Hsha|].
  exists r4. pose proof max_alloc_nonneg. unfold unmarshalEntry.
  erewrite bind_Ok by (unfold ctx; by rewrite E1). rewrite bool_decide_false by (by intros []).
  erewrite bind_Ok by (unfold ctx; by rewrite E2).
  rewrite be_decode_encode_small by (cbn; lia). rewrite (proj2 (Z.eqb_neq _ _)) by lia.
  erewrite bind_Ok by (unfold ctx; by rewrite E3). erewrite bind_Ok by (unfold ctx; by rewrite E4).
  rewrite be_decode_encode_small by (cbn; lia). by rewrite (proj2 (Z.ltb_lt _ _)) by lia.
Qed.
End Props.

(** ** The golden vector of [TestEntryMarshal] and [TestEntryUnmarshal] *)

#[local] Existing Instance amd64.

Definition hello : bytes := String.list_byte_of_string "hello".

Definition golden : entry := mkEntry magic0 42 5 (Sha256.Sum256 hello) hello.

Definition golden_bytes : bytes :=
 [x54; x46; x4a; x30; x00; x00; x00; x2a; x00; x00; x00; x00; x00; x00; x00; x05;
  x2c; xf2; x4d; xba; x5f; xb0; xa3; x0e; x26; xe8; x3b; x2a; xc5; xb9; xe2; x9e;
  x1b; x16; x1e; x5c; x1f; xa7; x42; x5e; x73; x04; x33; x62; x93; x8b; x98; x24;
  x68; x65; x6c; x6c; x6f].

Lemma golden_wf : entry_wf golden.
Proof. split; [done|cbn; lia|done|vm_compute; done|done]. Qed.

Lemma entry_roundtrip_witness :
  unmarshalEntry (golden_bytes ++ [xff]) = ([xff], Ok golden) ∧ len golden_bytes = Size golden.
Proof. apply (entry_roundtrip golden golden_bytes [xff] golden_wf). vm_compute. reflexivity. Defined.

Lemma unmarshal_accepts_only_records_witness :
  entry_wf golden ∧ marshalEntry golden = Ok (encoding golden) ∧
  golden_bytes ++ [xff] = encoding golden ++ [xff].
Proof.
  apply (unmarshal_accepts_only_records (golden_bytes ++ [xff]) [xff] golden).
  vm_compute. reflexivity.
Defined.

Lemma marshal_rejects_witness :
  ∃ msg, marshalEntry (mkEntry magic0 42 5 (Sha256.Sum256 [x00]) hello) = Err msg.
Proof. apply marshal_rejects. right. vm_compute. discriminate. Defined.

Lemma unmarshal_panics_on_length_witness :
  ∃ s, unmarshalEntry (header 1 (2 ^ 50) (Sha256.Sum256 []) ++ [])
       = (s, Panic "makeslice: len out of range").
Proof. apply unmarshal_panics_on_length; [lia|cbn; lia|reflexivity]. Defined.
End EntryProps.
