(* ===== verification/Journal.v ===== *)
(** * The journal (slots/journal.go): [OpenJournal], [init], [Data], [Update]

    The device is shared by all journals, so it is threaded next to the
    [Journal] value instead of being a field of it.  [uint] arithmetic is at
    the width of the platform. *)

From S2P Require Import Prelude Sha256 BlockDev Entry.
Import Entry.

Module Journal.

Definition minEntries : Z := 3.

Record Journal := mkJournal {
  start : Z;
  jlength : Z;
  current : entry;
  nextBlock : Z;
  maxDataBytes : Z;
}.

Section Journal.
Context `{P : Platform} `{B : !BlockReaderWriter D}.

(** The scan of [init]: [last] and [nextWrite] are the loop's [lastEntry] and
    [nextWriteLBA].  Every iteration advances [lba] by at least one block, so
    the number of blocks is enough fuel. *)
Fixpoint init_loop (fuel : nat) (d : D) (start length lba : Z) (last : entry) (nextWrite : Z)
    : res (entry * Z) :=
  if lba <? start +ᵤ length then
    match fuel with
    | O => NoFuel
    | S fuel' =>
      match unmarshalEntry (newBlockReader d lba) with
      | (br, Ok e) =>
        if Revision last <? Revision e then
          let lba' := (br_pos br -ᵤ 1) / BlockSize d +ᵤ 1 in
          init_loop fuel' d start length lba' e lba'
        else if Revision e <? Revision last then Ok (last, lba)
        else Err "journal is corrupt - found two entries with the same revision"
      | (_, Err _) =>
        if 0 <? Revision last then Ok (last, nextWrite)
        else init_loop fuel' d start length (lba +ᵤ 1) last nextWrite
      | (_, Panic e) => Panic e
      | (_, NoFuel) => NoFuel
      end
    end
  else Ok (last, nextWrite).

Definition init (d : D) (j : Journal) : res Journal :=
  '(last, nextWrite) ← init_loop (Z.to_nat (jlength j)) d (start j) (jlength j) (start j)
                                 zero_entry (start j);
  let nextWrite' := if start j +ᵤ jlength j <=? nextWrite then start j else nextWrite in
  mret (mkJournal (start j) (jlength j) last nextWrite' (maxDataBytes j)).

Definition OpenJournal (d : D) (start length : Z) : res Journal :=
  init d (mkJournal start length zero_entry 0
            ((length *ᵤ BlockSize d) / minEntries -ᵤ entryHeaderSize)).

Definition JData (j : Journal) : bytes * Z := (Data (current j), Revision (current j)).

(** The record that [Update] writes for [data]. *)
Definition new_entry (j : Journal) (data : bytes) : entry :=
  mkEntry magic0 (wrap 32 (Revision (current j) + 1)) (len data) (Sha256.Sum256 data) data.

(** The address it is written to: the next block, or the first one when the
    record does not fit in what remains. *)
Definition write_block (d : D) (j : Journal) (e : entry) : Z :=
  let cap := (start j +ᵤ jlength j -ᵤ nextBlock j) *ᵤ BlockSize d in
  if cap <? to_uint (Size e) then start j else nextBlock j.

Definition set_nextBlock (j : Journal) (n : Z) : Journal :=
  mkJournal (start j) (jlength j) (current j) n (maxDataBytes j).

Definition Update (data : bytes) : M (D * Journal) unit := λ '(d, j),
  if to_int (maxDataBytes j) <? len data then
    (d, j, Err "larger than the max permitted in this journal")
  else
    let e := new_entry j data in
    let j1 := set_nextBlock j (write_block d j e) in
    match marshalEntry e with
    | Ok buf =>
      match WriteBlocks d (nextBlock j1) buf with
      | (d', Ok numBlocks) =>
        (d', mkJournal (start j) (jlength j) e (nextBlock j1 +ᵤ numBlocks) (maxDataBytes j), Ok ())
      | (d', Err _) => (d', j1, Err "failed to write blocks")
      | (d', Panic e) => (d', j1, Panic e)
      | (d', NoFuel) => (d', j1, NoFuel)
      end
    | Err _ => (d, j1, Err "failed to marshal entry")
    | Panic e => (d, j1, Panic e)
    | NoFuel => (d, j1, NoFuel)
    end.
End Journal.
End Journal.
