(* ===== verification/JournalInv.v ===== *)
(** * What a journal looks like on storage, and what a scan of it finds

    A ghost map [h] gives, for each block of the journal that holds the first
    block of a record, that record.  The journal's blocks are then: leading
    blocks from which nothing can be read back (never written, or the remains
    of interrupted writes), a contiguous chain of complete records of
    increasing revision that ends with the current one, and older remains
    after it.  [init] finds the end of that chain. *)

From S2P Require Import Prelude Sha256 BlockDev Entry Journal.
Import Entry Journal.

Module JournalInv.

Abbreviation storage := (Z → option bytes).
Abbreviation headmap := (Z → option entry).

(** The [n] blocks from [p] on. *)
Definition blocks_at (c : storage) (p : Z) (n : nat) : list bytes :=
  (λ i, default [] (c (p + Z.of_nat i))) <$> seq 0 n.

(** The limits within which the code's [uint] arithmetic does not wrap: the
    end of the journal may coincide with the end of the address space. *)
Record geometry_ok `{Platform} (bs st L : Z) : Prop := {
  geo_bs : entryHeaderSize ≤ bs;
  geo_start : 0 ≤ st;
  geo_length : 0 < L;
  geo_space : (st + L) * bs ≤ 2 ^ uint_bits;
  geo_alloc : L * bs ≤ max_alloc;
}.

Section Layout.
Context `{P : Platform} (bs st L : Z).

(** The number of blocks of a record, and the most any record may have. *)
Definition extent (e : entry) : Z := nblocks bs (Size e).
Definition max_extent : Z := nblocks bs (L * bs / minEntries).

(** No block of the record but the first starts with the magic. *)
Definition inert (e : entry) : Prop :=
  ∀ i, 1 ≤ i < extent e → ztake 4 (blk bs (encoding e) i) ≠ magic0.

#[export] Instance inert_dec e : Decision (inert e).
Proof.
  refine (cast_if (decide (Forall (λ i, ztake 4 (blk bs (encoding e) (Z.of_nat i)) ≠ magic0)
                             (seq 1 (Z.to_nat (extent e) - 1))))).
  - abstract (intros i Hi; rewrite Forall_seq in *;
      specialize (f (Z.to_nat i) ltac:(lia)); by rewrite Z2Nat.id in f by lia).
  - abstract (intros Hin; apply n, Forall_seq; intros i Hi; apply Hin; lia).
Defined.

Record record_ok (e : entry) : Prop := {
  rec_wf : entry_wf e;
  rec_inert : inert e;
  rec_size : Size e ≤ L * bs / minEntries;
}.

(** Every block of the record is on storage. *)
Definition intact (c : storage) (p : Z) (e : entry) : Prop :=
  ∀ i, 0 ≤ i < extent e → c (p + i) = Some (blk bs (encoding e) i).

#[export] Instance intact_dec c p e : Decision (intact c p e).
Proof.
  refine (cast_if (decide (Forall (λ i, c (p + Z.of_nat i) = Some (blk bs (encoding e) (Z.of_nat i)))
                             (seq 0 (Z.to_nat (extent e)))))).
  - abstract (intros i Hi; rewrite Forall_seq in *;
      specialize (f (Z.to_nat i) ltac:(lia)); by rewrite Z2Nat.id in f by lia).
  - abstract (intros Hin; apply n, Forall_seq; intros i Hi; apply Hin; lia).
Defined.

(** The data that the header of [e] at [p] announces, as found on storage. *)
Definition stored_data (c : storage) (p : Z) (e : entry) : bytes :=
  ztake (len (Data e)) (zdrop entryHeaderSize (concat (blocks_at c p (Z.to_nat (extent e))))).

Definition heads_ok (c : storage) (h : headmap) : Prop :=
  ∀ p, st ≤ p < st + L → ∃ b, c p = Some b ∧ len b = bs ∧
    match h p with
    | Some e => b = blk bs (encoding e) 0 ∧ record_ok e ∧ p + extent e ≤ st + L
    | None => ztake 4 b ≠ magic0
    end.

(** Complete records from block [p] up to block [q], of revisions above [r]. *)
Fixpoint chain (c : storage) (h : headmap) (r p : Z) (es : list entry) (q : Z) : Prop :=
  match es with
  | [] => p = q
  | e :: es' => r < Revision e ∧ h p = Some e ∧ intact c p e ∧ p + extent e ≤ st + L ∧
                chain c h (Revision e) (p + extent e) es' q
  end.

(** The last record of a chain, [e0] if it is empty. *)
Definition last_from (e0 : entry) (es : list entry) : entry := foldl (λ _ e, e) e0 es.
Definition last_entry (es : list entry) : entry := last_from zero_entry es.

(** The journal holds the chain [es] in the blocks from [g] to [q]. *)
Record layout (c : storage) (h : headmap) (g : Z) (es : list entry) (q : Z) : Prop := {
  lay_heads : heads_ok c h;
  lay_g : st ≤ g;
  lay_q : q ≤ st + L;
  lay_chain : chain c h 0 g es q;
  lay_empty : es = [] → q = st + L;
  lay_before p e : st ≤ p < g → h p = Some e → ¬ intact c p e;
  lay_after p e : q ≤ p < st + L → h p = Some e → intact c p e →
    Revision e < Revision (last_entry es);
}.

(** An interrupted record fails its checksum. *)
Definition torn_detected (c : storage) (h : headmap) : Prop :=
  ∀ p e, st ≤ p < st + L → h p = Some e → ¬ intact c p e →
    Sha256.Sum256 (stored_data c p e) ≠ DataSHA256 e.

(** The same, block by block. *)
Definition detected_at (c : storage) (h : headmap) (p : Z) : Prop :=
  match h p with
  | Some e => intact c p e ∨ Sha256.Sum256 (stored_data c p e) ≠ DataSHA256 e
  | None => True
  end.

#[export] Instance detected_at_dec c h p : Decision (detected_at c h p).
Proof. unfold detected_at. destruct (h p); apply _. Defined.

#[export] Instance torn_detected_dec c h : Decision (torn_detected c h).
Proof.
  refine (cast_if (decide (Forall (λ i, detected_at c h (st + Z.of_nat i)) (seq 0 (Z.to_nat L))))).
  - abstract (intros p e Hp He Hn; rewrite Forall_seq in *;
      specialize (f (Z.to_nat (p - st)) ltac:(lia)); rewrite Z2Nat.id in f by lia;
      replace (st + (p - st)) with p in f by lia; unfold detected_at in f;
      rewrite He in f; by destruct f).
  - abstract (intros Ht; apply n, Forall_seq; intros i Hi; unfold detected_at;
      destruct (h (st + Z.of_nat i)) as [e|] eqn:He; [|done];
      destruct (decide (intact c (st + Z.of_nat i) e)); [by left|right; apply Ht; [lia|done|done]]).
Defined.

(** ** Sizes *)

Context (G : geometry_ok bs st L).

Lemma bs_pos : 0 < bs.
Proof. pose proof (geo_bs _ _ _ G). unfold entryHeaderSize in *. lia. Qed.

Lemma Size_pos e : 0 < Size e.
Proof. unfold Size, entryHeaderSize. pose proof (len_nonneg (Data e)). lia. Qed.

Lemma extent_pos e : 0 < extent e.
Proof. apply nblocks_pos; [exact bs_pos|apply Size_pos]. Qed.

Lemma extent_max e : record_ok e → extent e ≤ max_extent.
Proof. intros []. apply nblocks_mono; [exact bs_pos|done]. Qed.

(** Three records of the largest size need at most two more blocks than the
    journal has. *)
Lemma max_extent_third : 3 * max_extent ≤ L + 2.
Proof.
  unfold max_extent, minEntries. pose proof bs_pos as Hbs.
  pose proof (geo_length _ _ _ G).
  pose proof (nblocks_bounds bs Hbs (L * bs / 3)).
  pose proof (Z.div_mod (L * bs) 3 ltac:(lia)). pose proof (Z.mod_pos_bound (L * bs) 3 ltac:(lia)).
  nia.
Qed.

Lemma max_extent_pos : 0 < max_extent.
Proof.
  apply nblocks_pos; [exact bs_pos|]. unfold minEntries.
  pose proof (geo_length _ _ _ G). pose proof (geo_bs _ _ _ G). unfold entryHeaderSize in *.
  apply Z.div_str_pos. nia.
Qed.

Lemma encoding_header e : record_ok e → ztake entryHeaderSize (encoding e) =
  header (Revision e) (DataLen e) (DataSHA256 e).
Proof.
  intros [Hwf _ _]. unfold encoding, ztake. apply take_app_eq.
  pose proof (len_header (Revision e) (DataLen e) (DataSHA256 e)
                ltac:(by rewrite (wf_sha _ Hwf))) as Hh.
  unfold len in Hh. lia.
Qed.

(** The first block of a record holds its header, hence the magic. *)
Lemma blk0_header e : record_ok e → ztake entryHeaderSize (blk bs (encoding e) 0) =
  header (Revision e) (DataLen e) (DataSHA256 e).
Proof.
  intros Hok. rewrite <-(encoding_header e Hok).
  pose proof (blk_0_prefix bs bs_pos (encoding e)) as Hb.
  apply (f_equal (ztake entryHeaderSize)) in Hb. unfold ztake in *. rewrite !take_take in Hb.
  pose proof (geo_bs _ _ _ G).
  assert (entryHeaderSize ≤ len (encoding e)).
  { rewrite (len_encoding e (rec_wf _ Hok)). unfold Size. pose proof (len_nonneg (Data e)). lia. }
  by rewrite !Nat.min_l in Hb by lia.
Qed.

Lemma blk0_magic e : record_ok e → ztake 4 (blk bs (encoding e) 0) = magic0.
Proof.
  intros Hok. pose proof (blk0_header e Hok) as Hb. apply (f_equal (ztake 4)) in Hb.
  unfold ztake in *. rewrite take_take in Hb. exact Hb.
Qed.

(** ** Chains *)

Lemma chain_le c h r p es q : chain c h r p es q → p + len es ≤ q.
Proof.
  revert r p. induction es as [|e es IH]; intros r p; cbn [chain].
  - intros ->. unfold len. cbn [length]. lia.
  - intros (_ & _ & _ & _ & Hc). apply IH in Hc. pose proof (extent_pos e).
    unfold len in *. cbn [length]. lia.
Qed.

Lemma chain_last c h e0 p es q :
  chain c h (Revision e0) p es q →
  Revision e0 + (if es is [] then 0 else 1) ≤ Revision (last_from e0 es) ∧
  ∀ e, e ∈ es → Revision e ≤ Revision (last_from e0 es).
Proof.
  revert e0 p. induction es as [|e es IH]; intros e0 p; cbn [chain last_from foldl].
  - intros _. split; [lia|]. by intros e ?%elem_of_nil.
  - intros (Hr & _ & _ & _ & Hc). destruct (IH _ _ Hc) as [Hle Hall].
    assert (Revision e ≤ Revision (last_from e es)) by (destruct es; lia).
    split; [unfold last_from in *; lia|]. intros e' [->|He']%elem_of_cons; [done|].
    by apply Hall.
Qed.

Lemma chain_last_pos c h g es q :
  chain c h 0 g es q →
  0 ≤ Revision (last_entry es) ∧ (es ≠ [] → 0 < Revision (last_entry es)).
Proof.
  intros Hc. destruct (chain_last c h zero_entry g es q Hc) as [Hl _].
  change (Revision zero_entry) with 0 in Hl. unfold last_entry. destruct es; [done|].
  split; [lia|intros _; lia].
Qed.

(** Inside a complete record there is no other record. *)
Lemma intact_no_head c h p e i :
  heads_ok c h → record_ok e → intact c p e → st ≤ p → p + extent e ≤ st + L →
  1 ≤ i < extent e → h (p + i) = None.
Proof.
  intros Hh Hok Hin Hp Hq Hi. destruct (Hh (p + i) ltac:(lia)) as (b & Hb & _ & Hm).
  rewrite (Hin i ltac:(lia)) in Hb. injection Hb as <-.
  destruct (h (p + i)) as [e'|]; [|done]. destruct Hm as (Heq & Hok' & _).
  exfalso. apply (rec_inert _ Hok i Hi). rewrite Heq. by apply blk0_magic.
Qed.
End Layout.

(** ** Reading a record back *)

Section Scan.
Context `{P : Platform} `{B : !BlockReaderWriter D} `{BD : !BlockDevice D}.
Context (d : D) (st L : Z).
Let bs := BlockSize d.
Let c := contents d.
Context (G : geometry_ok bs st L) (Hwf : dev_wf d).

Lemma region_blocks h p n i b :
  heads_ok bs st L c h → st ≤ p → p + Z.of_nat n ≤ st + L →
  blocks_at c p n !! i = Some b → c (p + Z.of_nat i) = Some b.
Proof.
  intros Hh Hp Hn Hi. unfold blocks_at in Hi. rewrite list_lookup_fmap in Hi.
  destruct (seq 0 n !! i) as [k|] eqn:Hk; [|done]. apply lookup_seq in Hk as [-> Hk].
  cbn in Hi. injection Hi as <-. destruct (Hh (p + Z.of_nat i) ltac:(lia)) as (b & -> & _).
  done.
Qed.

Lemma len_blocks_at p n : len (blocks_at c p n) = Z.of_nat n.
Proof. unfold blocks_at, len. by rewrite length_fmap, length_seq. Qed.

(** The reader of a region delivers the blocks of the region. *)
Lemma region_stream h p n :
  heads_ok bs st L c h → st ≤ p → p + Z.of_nat n ≤ st + L → (0 < n)%nat →
  stream (newBlockReader d p) (p * bs) (concat (blocks_at c p n)).
Proof.
  intros Hh Hp Hn Hpos. pose proof (bs_pos _ _ _ G). destruct G.
  pose proof max_alloc_int. pose proof uint_half.
  apply newBlockReader_stream; [done|lia| | | |].
  - fold bs. nia.
  - rewrite len_blocks_at. fold bs. nia.
  - destruct n; [lia|done].
  - intros i b Hi. by eapply region_blocks.
Qed.

Lemma len_concat_blocks h p n :
  heads_ok bs st L c h → st ≤ p → p + Z.of_nat n ≤ st + L →
  len (concat (blocks_at c p n)) = Z.of_nat n * bs.
Proof.
  intros Hh Hp. revert p Hp. unfold blocks_at. induction n as [|n IH]; intros p Hp Hn; [done|].
  cbn [seq fmap list_fmap concat]. rewrite len_app, <-fmap_S_seq, <-list_fmap_compose.
  rewrite (list_fmap_ext _ (λ i, default [] (c ((p + 1) + Z.of_nat i)))); last first.
  { intros i x _. cbn. do 2 f_equal. lia. }
  rewrite IH by lia. rewrite Z.add_0_r.
  destruct (Hh p ltac:(lia)) as (b & -> & Hb & _). cbn. lia.
Qed.

Lemma head_blocks h p e :
  heads_ok bs st L c h → st ≤ p < st + L → h p = Some e →
  record_ok bs L e ∧ p + extent bs e ≤ st + L ∧
  len (stored_data bs c p e) = len (Data e) ∧
  ∃ rest, concat (blocks_at c p (Z.to_nat (extent bs e))) =
    header (Revision e) (DataLen e) (DataSHA256 e) ++ stored_data bs c p e ++ rest.
Proof.
  intros Hh Hp He. destruct (Hh p Hp) as (b & Hb & Hbl & Hm). rewrite He in Hm.
  destruct Hm as (-> & Hok & Hq). pose proof (extent_pos _ _ _ G e) as Hext.
  pose proof (len_concat_blocks h p (Z.to_nat (extent bs e)) Hh ltac:(lia) ltac:(lia)) as Hlen.
  rewrite Z2Nat.id in Hlen by lia.
  set (s := concat (blocks_at c p (Z.to_nat (extent bs e)))) in *.
  pose proof (nblocks_bounds bs (bs_pos _ _ _ G) (Size e)) as Hnb. fold (extent bs e) in Hnb.
  pose proof (len_nonneg (Data e)). unfold Size in Hnb.
  assert (0 ≤ entryHeaderSize) as Hhdr by done.
  assert (ztake entryHeaderSize s = header (Revision e) (DataLen e) (DataSHA256 e)) as Htake.
  { rewrite <-(blk0_header _ _ _ G e Hok). unfold s, blocks_at.
    destruct (Z.to_nat (extent bs e)) as [|k] eqn:Ek; [lia|].
    cbn [seq fmap list_fmap concat]. rewrite Z.add_0_r, Hb. cbn [from_option id].
    unfold ztake. rewrite take_app_le; [done|]. pose proof (geo_bs _ _ _ G). unfold len in *. lia. }
  split_and!; [done|done| |].
  - unfold stored_data. fold s. apply len_take. rewrite len_drop by done. lia.
  - exists (zdrop (len (Data e)) (zdrop entryHeaderSize s)).
    rewrite <-Htake. unfold stored_data. fold s. by rewrite !ztake_zdrop.
Qed.

(** Nothing is read back from a block that does not start a record, ... *)
Lemma unmarshal_no_head h p :
  heads_ok bs st L c h → st ≤ p < st + L → h p = None →
  ∃ br e, unmarshalEntry (newBlockReader d p) = (br, Err e).
Proof.
  intros Hh Hp Hn. destruct (Hh p Hp) as (b & Hb & Hbl & Hm). rewrite Hn in Hm.
  pose proof (region_stream h p 1 Hh ltac:(lia) ltac:(lia) ltac:(lia)) as Hs.
  unfold blocks_at in Hs. cbn [seq fmap list_fmap concat] in Hs.
  rewrite Z.add_0_r, Hb, app_nil_r in Hs. change (default [] (Some b)) with b in Hs.
  pose proof (geo_bs _ _ _ G). unfold entryHeaderSize in *.
  destruct (unmarshal_no_magic (newBlockReader d p) _ _ (ltac:(cbn; lia) : 4 ≤ len b) Hm Hs) as (br & Hu).
  by exists br, "invalid header magic".
Qed.

(** ... nor from the header of a record that is not complete ... *)
Lemma unmarshal_torn h p e :
  heads_ok bs st L c h → torn_detected bs st L c h → st ≤ p < st + L →
  h p = Some e → ¬ intact bs c p e →
  ∃ br e, unmarshalEntry (newBlockReader d p) = (br, Err e).
Proof.
  intros Hh Ht Hp He Hn. destruct (head_blocks h p e Hh Hp He) as (Hok & Hq & Hlen & rest & Hc).
  destruct (rec_wf _ _ _ Hok) as [_ Hrev Hdl Hal Hsha].
  pose proof (extent_pos _ _ _ G e).
  pose proof (region_stream h p (Z.to_nat (extent bs e)) Hh ltac:(lia) ltac:(lia) ltac:(lia)) as Hs.
  rewrite Hc in Hs.
  pose proof (unmarshal_stream (newBlockReader d p) _ _ _ _ _ _ Hrev (ltac:(by rewrite Hsha) : length (DataSHA256 e) = 32%nat)
    (ltac:(lia) : DataLen e = len (stored_data bs c p e)) ltac:(lia) Hs) as Hu.
  rewrite decide_False in Hu by (by apply (Ht p e)).
  destruct Hu as (br & Hu). by exists br, "incorrect data SHA256".
Qed.

(** ... and a complete record is read back, up to the end of its extent. *)
Lemma unmarshal_intact h p e :
  heads_ok bs st L c h → st ≤ p < st + L → h p = Some e → intact bs c p e →
  ∃ br, unmarshalEntry (newBlockReader d p) = (br, Ok e) ∧
        (br_pos br -ᵤ 1) / bs +ᵤ 1 = p + extent bs e.
Proof.
  intros Hh Hp He Hin. destruct (head_blocks h p e Hh Hp He) as (Hok & Hq & _ & _).
  pose proof (extent_pos _ _ _ G e). pose proof (bs_pos _ _ _ G) as Hbs.
  pose proof (region_stream h p (Z.to_nat (extent bs e)) Hh ltac:(lia) ltac:(lia) ltac:(lia)) as Hs.
  assert (concat (blocks_at c p (Z.to_nat (extent bs e))) = pad bs (encoding e)) as Hpad.
  { change (pad bs (encoding e)) with (zdrop (0 * bs) (pad bs (encoding e))).
    rewrite <-(concat_blks_from bs Hbs (encoding e) 0 (Z.to_nat (extent bs e))); [|lia|].
    - f_equal. unfold blocks_at. apply list_fmap_ext. intros i k Hk.
      apply lookup_seq in Hk as [-> Hk]. rewrite Nat.add_0_l.
      by rewrite (Hin (Z.of_nat i)) by lia.
    - rewrite (len_encoding e (rec_wf _ _ _ Hok)). fold (extent bs e). lia. }
  rewrite Hpad in Hs.
  destruct (unmarshal_encoding (newBlockReader d p) _ e _ (rec_wf _ _ _ Hok) Hs) as (br & Hu & Hs').
  exists br. split; [done|]. destruct (Hs' : br_stream br _ _) as (_ & _ & Hpos & _). rewrite Hpos.
  pose proof (nblocks_bounds bs Hbs (Size e)) as Hnb. fold (extent bs e) in Hnb.
  pose proof (Size_pos e). destruct G. pose proof uint_max_pos.
  assert (wrap uint_bits (p * bs + Size e) -ᵤ 1 = p * bs + Size e - 1) as ->.
  { unfold usub, wrap. rewrite Zminus_mod_idemp_l. apply Z.mod_small. nia. }
  assert ((p * bs + Size e - 1) / bs = p + extent bs e - 1) as ->.
  { symmetry. apply (Z.div_unique_pos _ _ _ (p * bs + Size e - 1 - bs * (p + extent bs e - 1))); nia. }
  rewrite uadd_small; [lia|]. unfold entryHeaderSize in *. nia.
Qed.

(** ** The scan *)

Lemma end_uadd : st +ᵤ L = st + L.
Proof.
  destruct G. pose proof (bs_pos _ _ _ G). apply uadd_small. unfold entryHeaderSize in *. nia.
Qed.

Lemma lba_uadd p : st ≤ p < st + L → p +ᵤ 1 = p + 1.
Proof.
  intros Hp. destruct G. pose proof (bs_pos _ _ _ G).
  apply uadd_small. unfold entryHeaderSize in *. nia.
Qed.

(** Nothing can be read back at block [p]. *)
Definition unreadable (p : Z) : Prop :=
  ∃ br e, unmarshalEntry (newBlockReader d p) = (br, Err e).

Lemma scan_unreadable k fuel p last nw :
  Revision last = 0 → st ≤ p → p + Z.of_nat k ≤ st + L →
  (∀ i, p ≤ i < p + Z.of_nat k → unreadable i) →
  init_loop (k + fuel) d st L p last nw = init_loop fuel d st L (p + Z.of_nat k) last nw.
Proof.
  intros Hl. revert p. induction k as [|k IH]; intros p Hp Hq Hu.
  - by rewrite Z.add_0_r.
  - cbn [Nat.add init_loop]. rewrite end_uadd, (proj2 (Z.ltb_lt _ _)) by lia.
    destruct (Hu p ltac:(lia)) as (br & e & ->).
    rewrite (proj2 (Z.ltb_ge _ _)) by lia. rewrite lba_uadd by lia.
    rewrite IH; [f_equal; lia|lia..|]. intros i Hi. apply Hu. lia.
Qed.

Lemma scan_chain fuel h es p last nw q :
  heads_ok bs st L c h → st ≤ p → chain bs st L c h (Revision last) p es q →
  init_loop (length es + fuel) d st L p last nw =
  init_loop fuel d st L q (last_from last es) (if es is [] then nw else q).
Proof.
  intros Hh. revert p last nw. induction es as [|e es IH]; intros p last nw Hp; cbn [chain].
  - by intros ->.
  - intros (Hr & He & Hin & Hq & Hc). pose proof (extent_pos _ _ _ G e).
    cbn [length Nat.add init_loop]. rewrite end_uadd, (proj2 (Z.ltb_lt _ _)) by lia.
    destruct (unmarshal_intact h p e Hh ltac:(lia) He Hin) as (br & -> & Hlba).
    rewrite (proj2 (Z.ltb_lt _ _)) by lia. unfold bs in Hlba. rewrite Hlba. fold bs.
    rewrite IH; [|lia|done]. destruct es; [by cbn in Hc; subst|done].
Qed.

Lemma scan_end fuel h es q g :
  layout bs st L c h g es q → torn_detected bs st L c h → es ≠ [] →
  (q < st + L → (0 < fuel)%nat) →
  init_loop fuel d st L q (last_entry es) q = Ok (last_entry es, q).
Proof.
  intros [Hh Hg Hq Hc _ _ Hafter] Ht Hne Hf.
  pose proof (chain_le _ _ _ G _ _ _ _ _ _ Hc). pose proof (len_nonneg es).
  assert (0 < Revision (last_entry es)) as Hrev.
  { by apply (chain_last_pos _ _ _ _ _ _ _ _ Hc). }
  destruct fuel as [|fuel]; cbn [init_loop]; rewrite end_uadd.
  { by rewrite (proj2 (Z.ltb_ge _ _)) by lia. }
  case_test; [|done]. destruct (h q) as [e|] eqn:He; [destruct (decide (intact bs c q e)) as [Hin|Hn]|].
  - specialize (Hafter q e ltac:(lia) He Hin).
    destruct (unmarshal_intact h q e Hh ltac:(lia) He Hin) as (br & -> & _).
    rewrite (proj2 (Z.ltb_ge _ _)) by lia. by rewrite (proj2 (Z.ltb_lt _ _)) by lia.
  - destruct (unmarshal_torn h q e Hh Ht ltac:(lia) He Hn) as (br & e' & ->).
    by rewrite (proj2 (Z.ltb_lt _ _)) by lia.
  - destruct (unmarshal_no_head h q Hh ltac:(lia) He) as (br & e' & ->).
    by rewrite (proj2 (Z.ltb_lt _ _)) by lia.
Qed.

(** The blocks before the chain are unreadable. *)
Lemma before_unreadable h es g q p :
  layout bs st L c h g es q → torn_detected bs st L c h → st ≤ p < g → unreadable p.
Proof.
  intros [Hh Hg Hq Hc _ Hbefore _] Ht Hp.
  pose proof (chain_le _ _ _ G _ _ _ _ _ _ Hc). pose proof (len_nonneg es).
  destruct (h p) as [e|] eqn:He.
  - apply (unmarshal_torn h p e Hh Ht ltac:(lia) He). by apply Hbefore.
  - apply (unmarshal_no_head h p Hh ltac:(lia) He).
Qed.

(** The whole scan finds the end of the chain. *)
Lemma scan_layout h g es q :
  layout bs st L c h g es q → torn_detected bs st L c h →
  init_loop (Z.to_nat L) d st L st zero_entry st =
  Ok (last_entry es, if es is [] then st else q).
Proof.
  intros Hlay Ht. pose proof Hlay as [Hh Hg Hq Hc Hempty _ _].
  pose proof (chain_le _ _ _ G _ _ _ _ _ _ Hc) as Hle. unfold len in Hle.
  replace (Z.to_nat L) with (Z.to_nat (g - st) + (length es + (Z.to_nat L - Z.to_nat (g - st) - length es)))%nat
    by lia.
  rewrite scan_unreadable; [|done|lia..|].
  - rewrite Z2Nat.id by lia. replace (st + (g - st)) with g by lia.
    rewrite (scan_chain _ h es g zero_entry st q) by done.
    destruct es as [|e es].
    + cbn in Hc. destruct (_ - _)%nat; cbn [init_loop]; rewrite end_uadd;
        (rewrite (proj2 (Z.ltb_ge _ _)) by (specialize (Hempty eq_refl); lia)); done.
    + eapply scan_end; [done..|]. intros. cbn [length] in *. lia.
  - intros i Hi. eapply before_unreadable; [done..|lia].
Qed.
End Scan.
End JournalInv.
