(* ===== verification/JournalWrite.v ===== *)
(** * The effect of a record write on the journal's layout

    A write stores the first [k] blocks of a record: all of them when it
    succeeds, fewer when it is interrupted.  Either the record is complete and
    becomes the end of the chain, or the chain still ends with the record that
    was current before. *)

From S2P Require Import Prelude Sha256 BlockDev Entry Journal JournalInv.
Import Entry Journal JournalInv.

Module JournalWrite.

(** The records that begin in the journal after [k >= 1] blocks of [e] have
    been stored at [lba]. *)
Definition put_head (h : headmap) (lba k : Z) (e : entry) : headmap := λ p,
  if decide (p = lba) then Some e
  else if decide (lba < p < lba + k) then None else h p.

Section Write.
Context `{P : Platform} (bs st L : Z) (G : geometry_ok bs st L).

Lemma put_head_at h lba k e : put_head h lba k e lba = Some e.
Proof. unfold put_head. by rewrite decide_True. Qed.

Lemma put_head_in h lba k e p : lba < p < lba + k → put_head h lba k e p = None.
Proof. intros. unfold put_head. by rewrite decide_False, decide_True by lia. Qed.

Lemma put_head_out h lba k e p : 1 ≤ k → ¬ (lba ≤ p < lba + k) → put_head h lba k e p = h p.
Proof. intros. unfold put_head. by rewrite decide_False, decide_False by lia. Qed.

(** A layout depends only on the blocks of the journal ... *)
Lemma intact_ext c c' p e :
  (∀ i, st ≤ i < st + L → c' i = c i) → st ≤ p → p + extent bs e ≤ st + L →
  intact bs c' p e ↔ intact bs c p e.
Proof.
  intros Hc Hp He. split; intros Hin i Hi; specialize (Hin i Hi); by rewrite Hc in * by lia.
Qed.

Lemma chain_ext c c' h r p es q :
  (∀ i, st ≤ i < st + L → c' i = c i) → st ≤ p →
  chain bs st L c h r p es q → chain bs st L c' h r p es q.
Proof.
  intros Hc. revert r p. induction es as [|e es IH]; intros r p Hp; cbn [chain]; [done|].
  intros (? & ? & ? & ? & ?). pose proof (extent_pos _ _ _ G e).
  split_and!; [done|done| |done|apply IH; [lia|done]].
  by apply (intact_ext c c').
Qed.

Lemma layout_ext c c' h g es q :
  (∀ i, st ≤ i < st + L → c' i = c i) →
  layout bs st L c h g es q → layout bs st L c' h g es q.
Proof.
  intros Hc [Hh Hg Hq Hch ? Hb Ha].
  pose proof (chain_le _ _ _ G _ _ _ _ _ _ Hch). pose proof (len_nonneg es).
  assert (∀ p e, st ≤ p < st + L → h p = Some e → p + extent bs e ≤ st + L) as Hfit.
  { intros p e Hp He. destruct (Hh p Hp) as (b & _ & _ & Hm). rewrite He in Hm. by destruct Hm as (_ & _ & ?). }
  split; [|done|done|by eapply chain_ext|done| |].
  - intros p Hp. rewrite Hc by done. by apply Hh.
  - intros p e Hp He. rewrite (intact_ext c c'); [|done|lia|apply Hfit; [lia|done]]. by eapply Hb.
  - intros p e Hp He. rewrite (intact_ext c c'); [|done|lia|apply Hfit; [lia|done]]. by eapply Ha.
Qed.

(** ... as does the detection of interrupted records. *)
Lemma torn_detected_ext c c' h :
  (∀ i, st ≤ i < st + L → c' i = c i) → heads_ok bs st L c h →
  torn_detected bs st L c h → torn_detected bs st L c' h.
Proof.
  intros Hc Hh Ht p e Hp He. destruct (Hh p Hp) as (b & _ & _ & Hm). rewrite He in Hm.
  destruct Hm as (_ & _ & Hfit). pose proof (extent_pos _ _ _ G e).
  rewrite (intact_ext c c') by first [done|lia]. intros Hn.
  assert (stored_data bs c' p e = stored_data bs c p e) as -> by
    (unfold stored_data, blocks_at; do 3 f_equal; apply list_fmap_ext;
     intros i x Hi%lookup_seq; rewrite Hc; [done|lia]).
  by apply Ht.
Qed.

(** ... and on the ghost map only within the journal. *)
Lemma layout_heads_ext c h h' g es q :
  (∀ p, st ≤ p < st + L → h' p = h p) → layout bs st L c h g es q → layout bs st L c h' g es q.
Proof.
  intros Hh' [Hh ? ? Hc ? Hb Ha]. split; [|done|done| |done| |].
  - intros p Hp. rewrite Hh' by done. by apply Hh.
  - assert (st ≤ g) as Hg by done. clear -Hc Hh' G Hg. revert Hc Hg. generalize 0 as r. revert g.
    induction es as [|e es IH]; intros g r; cbn [chain]; [done|].
    intros (? & ? & ? & ? & ?) Hg. pose proof (extent_pos _ _ _ G e).
    rewrite Hh' by lia. split_and!; [done..|]. apply IH; [done|lia].
  - intros p e Hp. rewrite Hh'; [by apply Hb|].
    pose proof (chain_le _ _ _ G _ _ _ _ _ _ Hc). pose proof (len_nonneg es). lia.
  - intros p e Hp. rewrite Hh'; [by apply Ha|].
    pose proof (chain_le _ _ _ G _ _ _ _ _ _ Hc). pose proof (len_nonneg es). lia.
Qed.

Context (c c' : storage) (h : headmap) (lba k : Z) (e : entry).
Context (Hok : record_ok bs L e) (Hlba : st ≤ lba) (Hfit : lba + extent bs e ≤ st + L).
Context (Hk : 1 ≤ k ≤ extent bs e).
Context (Hc' : ∀ i, c' i = store bs lba (encoding e) k c i).
Context (Hh : heads_ok bs st L c h).
Let h' := put_head h lba k e.
#[local] Set Default Proof Using "All".

Lemma write_heads_ok : heads_ok bs st L c' h'.
Proof.
  intros p Hp. rewrite Hc'. pose proof (bs_pos _ _ _ G) as Hbs.
  assert (nblocks bs (len (encoding e)) = extent bs e) as Hn
    by (by rewrite (len_encoding e (rec_wf _ _ _ Hok))).
  destruct (decide (lba ≤ p < lba + k)).
  - rewrite store_in by done. eexists. split; [done|].
    split; [apply len_blk; lia|].
    destruct (decide (p = lba)) as [->|].
    + unfold h'. rewrite put_head_at, Z.sub_diag. done.
    + unfold h'. rewrite put_head_in by lia. apply (rec_inert _ _ _ Hok). lia.
  - rewrite store_out by done. unfold h'. rewrite put_head_out by lia. by apply Hh.
Qed.

Lemma write_intact_out p e0 :
  p + extent bs e0 ≤ lba ∨ lba + k ≤ p → intact bs c' p e0 ↔ intact bs c p e0.
Proof.
  intros Hd. unfold intact. split; intros Hin i Hi; specialize (Hin i Hi);
    rewrite Hc', store_out in * by lia; done.
Qed.

(** A record that was not complete does not become so by a write elsewhere. *)
Lemma write_torn p e0 :
  record_ok bs L e0 → ¬ (lba ≤ p < lba + k) → intact bs c' p e0 → intact bs c p e0.
Proof.
  intros Hok0 Hp Hin. destruct (decide (p < lba < p + extent bs e0)) as [Hover|].
  - exfalso. apply (rec_inert _ _ _ Hok0 (lba - p) ltac:(lia)).
    specialize (Hin (lba - p) ltac:(lia)). rewrite Hc', store_in in Hin by lia.
    injection Hin as Hin. rewrite <-Hin.
    replace (p + (lba - p) - lba) with 0 by lia. by eapply blk0_magic.
  - intros i Hi. specialize (Hin i Hi). rewrite Hc', store_out in Hin by lia. done.
Qed.

Lemma write_chain r p es q :
  q ≤ lba ∨ lba + k ≤ p → chain bs st L c h r p es q → chain bs st L c' h' r p es q.
Proof.
  revert r p. induction es as [|e0 es IH]; intros r p Hd; cbn [chain]; [done|].
  intros (Hr & He & Hin & Hq & Hc).
  pose proof (chain_le _ _ _ G _ _ _ _ _ _ Hc). pose proof (len_nonneg es).
  pose proof (extent_pos _ _ _ G e0).
  split_and!; [done| | |done|apply IH; [lia|done]].
  - unfold h'. rewrite put_head_out by lia. done.
  - apply write_intact_out; [lia|done].
Qed.

(** After the write, a complete record outside the written blocks was
    complete before, and its place in the old layout is known. *)
Lemma write_other g es q p e0 :
  layout bs st L c h g es q → st ≤ p < st + L → ¬ (lba ≤ p < lba + k) →
  h' p = Some e0 → intact bs c' p e0 → h p = Some e0 ∧ intact bs c p e0 ∧ g ≤ p.
Proof.
  intros Hlay Hp Hout He Hin. unfold h' in He. rewrite put_head_out in He by lia.
  assert (record_ok bs L e0) as Hok0.
  { destruct (Hh p Hp) as (b & _ & _ & Hm). rewrite He in Hm. apply Hm. }
  apply write_torn in Hin; [|done|done]. split_and!; [done|done|].
  destruct (decide (p < g)); [|lia]. exfalso.
  eapply (lay_before _ _ _ _ _ _ _ _ Hlay p e0); [lia|done|done].
Qed.
End Write.

Section Cases.
Context `{P : Platform} (bs st L : Z) (G : geometry_ok bs st L).

Lemma chain_app c h r p es q e :
  chain bs st L c h r p es q → h q = Some e → intact bs c q e → q + extent bs e ≤ st + L →
  r < Revision e → (∀ e', e' ∈ es → Revision e' < Revision e) →
  chain bs st L c h r p (es ++ [e]) (q + extent bs e).
Proof.
  revert r p. induction es as [|e' es IH]; intros r p; cbn [chain app].
  - by intros ->.
  - intros (Hr & ? & ? & ? & Hc) He Hin Hq Hre Hall. split_and!; [done..|].
    apply IH; [done..| |]; [apply Hall, elem_of_cons; by left|].
    intros e'' He''. apply Hall, elem_of_cons. by right.
Qed.

(** A record that begins within the chain is one of its records. *)
Lemma chain_member c h r g es q p e :
  heads_ok bs st L c h → st ≤ g → chain bs st L c h r g es q → g ≤ p < q → h p = Some e → e ∈ es.
Proof.
  intros Hh. revert r g. induction es as [|e1 es IH]; intros r g Hg; cbn [chain]; [lia|].
  intros (_ & He1 & Hin & Hq & Hc) Hp He. destruct (decide (p = g)) as [->|].
  - rewrite He in He1. injection He1 as ->. apply elem_of_cons. by left.
  - pose proof (extent_pos _ _ _ G e1). apply elem_of_cons. right.
    destruct (decide (p < g + extent bs e1)).
    + assert (record_ok bs L e1) as Hok1.
      { destruct (Hh g ltac:(lia)) as (b & _ & _ & Hm). rewrite He1 in Hm. apply Hm. }
      pose proof (intact_no_head _ _ _ G c h g e1 (p - g) Hh Hok1 Hin Hg Hq ltac:(lia)) as Hn.
      replace (g + (p - g)) with p in Hn by lia. congruence.
    + eapply (IH _ (g + extent bs e1)); [lia|done|lia|done].
Qed.

Lemma chain_record_ok c h r g es q e0 :
  heads_ok bs st L c h → st ≤ g → chain bs st L c h r g es q → es ≠ [] →
  record_ok bs L (last_from e0 es).
Proof.
  intros Hh. revert r g e0. induction es as [|e es IH]; intros r g e0 Hg; cbn [chain]; [done|].
  intros (_ & He & _ & Hq & Hc) _. pose proof (extent_pos _ _ _ G e).
  destruct es as [|e' es].
  - destruct (Hh g ltac:(lia)) as (b & _ & _ & Hm). rewrite He in Hm. apply Hm.
  - apply (IH (Revision e) (g + extent bs e) e); [lia|done|done].
Qed.

Lemma chain_weaken c h r r' p es q :
  r' ≤ r → chain bs st L c h r p es q → chain bs st L c h r' p es q.
Proof. destruct es; cbn [chain]; [done|]. intros Hr (? & ?). split; [lia|done]. Qed.

(** The part of a chain that begins at or after block [s]. *)
Lemma chain_cut c h r g es q s e0 :
  heads_ok bs st L c h → st ≤ g → 0 ≤ r → chain bs st L c h r g es q → es ≠ [] →
  s ≤ q - extent bs (last_from e0 es) →
  ∃ g' es', g ≤ g' ∧ s ≤ g' ∧ chain bs st L c h 0 g' es' q ∧ es' ≠ [] ∧
    (∀ e1, last_from e1 es' = last_from e0 es) ∧
    (s ≤ g → g' = g) ∧ (∀ p, s ≤ p < g' → g ≤ p → h p = None).
Proof.
  intros Hh. revert r g e0. induction es as [|e es IH]; intros r g e0 Hg Hr Hc Hne Hs; [done|].
  destruct (decide (s ≤ g)).
  { exists g, (e :: es). split_and!; [lia|done| |done|done|done|lia].
    by eapply chain_weaken. }
  cbn [chain] in Hc. destruct Hc as (Hre & He & Hin & Hq & Hc). pose proof (extent_pos _ _ _ G e).
  destruct es as [|e' es].
  { cbn in Hc, Hs. lia. }
  destruct (IH (Revision e) (g + extent bs e) e ltac:(lia) ltac:(lia) Hc ltac:(done) Hs)
    as (g' & es' & Hg' & Hs' & Hc' & Hne' & Hlast & _ & Hnone).
  exists g', es'. split_and!; [lia|done..|lia|].
  intros p Hp Hgp. destruct (decide (p < g + extent bs e)); [|apply Hnone; lia].
  assert (record_ok bs L e) as Hok.
  { destruct (Hh g ltac:(lia)) as (b & _ & _ & Hm). rewrite He in Hm. apply Hm. }
  replace p with (g + (p - g)) by lia.
  eapply (intact_no_head _ _ _ G c h g e); [done..|lia].
Qed.

Context (c c' : storage) (h : headmap) (g : Z) (es : list entry) (q lba k : Z) (e : entry).
Context (Hlay : layout bs st L c h g es q).
Context (Hok : record_ok bs L e) (Hlba : st ≤ lba) (Hfit : lba + extent bs e ≤ st + L).
Context (Hk : 1 ≤ k ≤ extent bs e) (Hrev : Revision (last_entry es) < Revision e).
Context (Hc' : ∀ i, c' i = store bs lba (encoding e) k c i).
Let h' := put_head h lba k e.
Let Hh : heads_ok bs st L c h := lay_heads _ _ _ _ _ _ _ _ Hlay.
Let Hh' : heads_ok bs st L c' h' := write_heads_ok bs st L G c c' h lba k e Hok Hlba Hfit Hk Hc' Hh.

(** Every complete record outside the written blocks is older than [e]. *)
Lemma write_older p e0 :
  st ≤ p < st + L → ¬ (lba ≤ p < lba + k) → h' p = Some e0 → intact bs c' p e0 →
  Revision e0 < Revision e.
Proof.
  intros Hp Hout He Hin.
  destruct (write_other bs st L G c c' h lba k e Hok Hlba Hfit Hk Hc' Hh g es q p e0
              Hlay Hp Hout He Hin) as (He0 & Hin0 & Hgp).
  pose proof (lay_chain _ _ _ _ _ _ _ _ Hlay) as Hc.
  destruct (chain_last _ _ _ _ _ zero_entry _ _ _ Hc) as [_ Hall].
  destruct (decide (p < q)).
  - apply (chain_member _ _ 0 g es q p e0 Hh) in He0; [|by destruct Hlay|done|lia].
    apply Hall in He0. unfold last_entry in Hrev. lia.
  - pose proof (lay_after _ _ _ _ _ _ _ _ Hlay p e0 ltac:(lia) He0 Hin0). lia.
Qed.

(** A complete record written after the chain extends it, ... *)
Lemma write_append :
  lba = q → es ≠ [] → k = extent bs e →
  layout bs st L c' h' g (es ++ [e]) (q + extent bs e).
Proof.
  intros Eq Hne Ek. pose proof Hlay as [_ Hg Hq Hc Hempty Hb Ha].
  destruct (chain_last _ _ _ _ _ zero_entry _ _ _ Hc) as [Hl Hall].
  assert (intact bs c' q e) as Hin.
  { intros i Hi. rewrite Hc', store_in by lia. do 2 f_equal. lia. }
  split; [done|done|lia| | | |].
  - apply chain_app; [|unfold h'; rewrite Eq; by apply put_head_at|done|lia| |].
    + apply (write_chain bs st L G c c' h lba k e); [done..|lia|done].
    + pose proof (chain_last_pos _ _ _ _ _ _ _ _ Hc). lia.
    + intros e' He'. apply Hall in He'. unfold last_entry in Hrev. lia.
  - by destruct es.
  - intros p e0 Hp He Hin0.
    pose proof (chain_le _ _ _ G _ _ _ _ _ _ Hc). pose proof (len_nonneg es).
    destruct (write_other bs st L G c c' h lba k e Hok Hlba Hfit Hk Hc' Hh g es q p e0
                Hlay ltac:(lia) ltac:(lia) He Hin0) as (_ & _ & Hgp). lia.
  - intros p e0 Hp He Hin0. unfold last_entry, last_from. rewrite foldl_app. cbn [foldl].
    apply (write_older p e0); [lia|lia|done|done].
Qed.

(** ... one written at the start is a chain of its own, ... *)
Lemma write_first :
  lba = st → k = extent bs e → layout bs st L c' h' st [e] (st + extent bs e).
Proof.
  intros Eq Ek. pose proof (chain_last_pos _ _ _ _ _ _ _ _ (lay_chain _ _ _ _ _ _ _ _ Hlay)).
  split; [done|lia|lia| |done|lia|].
  - cbn [chain]. split_and!; [|unfold h'; rewrite Eq; by apply put_head_at| |lia|done].
    + lia.
    + intros i Hi. rewrite Hc', store_in by lia. do 2 f_equal. lia.
  - intros p e0 Hp He Hin. cbn. apply (write_older p e0); [lia|lia|done|done].
Qed.

(** ... an incomplete one after the chain leaves the chain as it is, ... *)
Lemma write_append_torn :
  lba = q → es ≠ [] → ¬ intact bs c' q e → layout bs st L c' h' g es q.
Proof.
  intros Eq Hne Hn. pose proof Hlay as [_ Hg Hq Hc Hempty Hb Ha].
  pose proof (chain_le _ _ _ G _ _ _ _ _ _ Hc). pose proof (len_nonneg es).
  pose proof (write_other bs st L G c c' h lba k e Hok Hlba Hfit Hk Hc' Hh g es q) as Hother.
  split; [done|done|done| |done| |].
  - apply (write_chain bs st L G c c' h lba k e); [done..|lia|done].
  - intros p e0 Hp He Hin0. destruct (Hother p e0 Hlay ltac:(lia) ltac:(lia) He Hin0). lia.
  - intros p e0 Hp He Hin0. destruct (decide (lba ≤ p < lba + k)).
    + destruct (decide (p = lba)) as [->|].
      * unfold h' in He. rewrite put_head_at in He. injection He as <-.
        exfalso. apply Hn. by rewrite <-Eq.
      * unfold h' in He. by rewrite put_head_in in He by lia.
    + destruct (Hother p e0 Hlay ltac:(lia) ltac:(lia) He Hin0) as (? & ? & ?).
      by eapply Ha.
Qed.

(** ... and an incomplete one at the start spares the end of the chain. *)
Lemma write_first_torn :
  lba = st → ¬ intact bs c' st e →
  (es ≠ [] → st + k ≤ q - extent bs (last_entry es)) →
  ∃ g' es', layout bs st L c' h' g' es' q ∧ last_entry es' = last_entry es ∧
            (es ≠ [] → es' ≠ []).
Proof.
  intros Eq Hn Hcut. pose proof Hlay as [_ Hg Hq Hc Hempty Hb Ha].
  pose proof (chain_le _ _ _ G _ _ _ _ _ _ Hc). pose proof (len_nonneg es).
  pose proof (write_other bs st L G c c' h lba k e Hok Hlba Hfit Hk Hc' Hh g es q) as Hother.
  assert (∀ p e0, lba ≤ p < lba + k → h' p = Some e0 → ¬ intact bs c' p e0) as Hnew.
  { intros p e0 Hp He. destruct (decide (p = lba)) as [->|].
    - unfold h' in He. rewrite put_head_at in He. injection He as <-. by rewrite Eq.
    - unfold h' in He. by rewrite put_head_in in He by lia. }
  destruct (decide (es = [])) as [Hes|Hne].
  { exists q, []. specialize (Hempty Hes). split_and!; [|by rewrite Hes|done].
    split; [done|lia|done|done|done| |lia].
    intros p e0 Hp He Hin0. destruct (decide (lba ≤ p < lba + k)).
    - by eapply Hnew.
    - destruct (Hother p e0 Hlay ltac:(lia) ltac:(lia) He Hin0) as (He0 & _ & Hgp).
      rewrite Hes in Hc. cbn in Hc. lia. }
  destruct (chain_cut c h 0 g es q (st + k) zero_entry Hh Hg ltac:(lia) Hc Hne (Hcut Hne))
    as (g' & es' & Hg' & Hs' & Hc1 & Hne' & Hlast & Hsame & Hnone).
  pose proof (chain_le _ _ _ G _ _ _ _ _ _ Hc1). pose proof (len_nonneg es').
  exists g', es'. split_and!; [|by apply Hlast|done].
  split; [done|lia|done| |by intros| |].
  - apply (write_chain bs st L G c c' h lba k e); [done..|right; lia|done].
  - intros p e0 Hp He Hin0. destruct (decide (lba ≤ p < lba + k)); [by eapply Hnew|].
    destruct (Hother p e0 Hlay ltac:(lia) ltac:(lia) He Hin0) as (He0 & _ & Hgp).
    rewrite Hnone in He0; [done|lia|done].
  - intros p e0 Hp He Hin0. unfold last_entry. rewrite Hlast.
    destruct (decide (lba ≤ p < lba + k)); [by apply Hnew in He|].
    destruct (Hother p e0 Hlay ltac:(lia) ltac:(lia) He Hin0) as (? & ? & ?).
    by eapply Ha.
Qed.
End Cases.
End JournalWrite.
