(* ===== verification/JournalSpec.v ===== *)
(** * The journal keeps the last record

    The invariant that ties a [Journal] value to the storage, its preservation
    by [OpenJournal] and [Update] on every outcome of the device, and recovery
    after an interrupted write. *)

From S2P Require Import Prelude Sha256 BlockDev Entry Journal JournalInv JournalWrite.
Import Entry Journal JournalInv JournalWrite.

Module JournalSpec.

(** The records on storage after [k] blocks of [e] have been stored at [lba]. *)
Definition heads_after (h : headmap) (lba k : Z) (e : entry) : headmap :=
  if decide (1 ≤ k) then put_head h lba k e else h.

Section Spec.
Context `{P : Platform} `{B : !BlockReaderWriter D} `{BD : !BlockDevice D}.

Record journal_inv (d : D) (j : Journal) (h : headmap) (g : Z) (es : list entry) (q : Z) : Prop := {
  ji_geo : geometry_ok (BlockSize d) (start j) (jlength j);
  ji_wf : dev_wf d;
  ji_layout : layout (BlockSize d) (start j) (jlength j) (contents d) h g es q;
  ji_current : current j = last_entry es;
  ji_max : maxDataBytes j = (jlength j * BlockSize d) / minEntries -ᵤ entryHeaderSize;
  ji_next : (es ≠ [] ∧ nextBlock j = q) ∨
            (nextBlock j = start j ∧
             start j + jlength j - q < max_extent (BlockSize d) (jlength j));
}.

(** What a caller must respect for [data] to be stored and found again: the
    size limit, a revision that fits 32 bits, and no block of the record but
    the first that begins with the magic. *)
Record admissible (d : D) (j : Journal) (data : bytes) : Prop := {
  adm_size : entryHeaderSize + len data ≤ jlength j * BlockSize d / minEntries;
  adm_rev : Revision (current j) + 1 < 2 ^ 32;
  adm_inert : inert (BlockSize d) (new_entry j data);
}.

Lemma extent_le_L bs st L e : geometry_ok bs st L → record_ok bs L e → extent bs e ≤ L.
Proof.
  intros G Hok. pose proof (extent_max _ _ _ G e Hok). pose proof (max_extent_third _ _ _ G).
  pose proof (max_extent_pos _ _ _ G). pose proof (geo_length _ _ _ G). lia.
Qed.

(** ** Opening *)

Lemma max_no_wrap bs st L :
  geometry_ok bs st L → L *ᵤ bs = L * bs ∧ 0 ≤ L * bs / minEntries ≤ L * bs.
Proof.
  intros G. pose proof (bs_pos _ _ _ G). destruct G. pose proof max_alloc_int. pose proof uint_half.
  split; [apply umul_small; nia|]. unfold minEntries. split.
  - apply Z.div_pos; nia.
  - apply Z.div_le_upper_bound; nia.
Qed.

Lemma open_layout d st L h g es q :
  geometry_ok (BlockSize d) st L → dev_wf d →
  layout (BlockSize d) st L (contents d) h g es q →
  torn_detected (BlockSize d) st L (contents d) h →
  ∃ j, OpenJournal d st L = Ok j ∧ start j = st ∧ jlength j = L ∧ journal_inv d j h g es q.
Proof.
  intros G Hwf Hlay Ht. unfold OpenJournal, init. cbn [start jlength maxDataBytes].
  rewrite (scan_layout d st L G Hwf h g es q Hlay Ht). cbn [mbind res_bind].
  rewrite (end_uadd d st L G). destruct (max_no_wrap _ _ _ G) as [-> _].
  eexists. split; [done|]. split_and!; [done|done|].
  split; cbn [start jlength current nextBlock maxDataBytes]; [done..|].
  pose proof (max_extent_pos _ _ _ G). destruct Hlay as [_ ? ? ? Hempty _ _].
  destruct es as [|e es].
  - right. specialize (Hempty eq_refl). case_test; lia.
  - case_test; [right; lia|left; done].
Qed.

(** ** Writing *)

Section Outcome.
Context (bs st L : Z) (G : geometry_ok bs st L).

(** If [k] blocks of a new record leave it complete, they are as good as all
    of them. *)
Lemma intact_full c c' h g es q lba k e :
  layout bs st L c h g es q → record_ok bs L e → st ≤ lba → lba + extent bs e ≤ st + L →
  1 ≤ k ≤ extent bs e → (∀ i, c' i = store bs lba (encoding e) k c i) → intact bs c' lba e →
  (∀ i, c' i = store bs lba (encoding e) (extent bs e) c i) ∧
  (∀ p, st ≤ p < st + L → put_head h lba k e p = put_head h lba (extent bs e) e p).
Proof.
  intros Hlay Hok Hlba Hfit Hk Hc' Hin. split.
  - intros i. destruct (decide (lba ≤ i < lba + extent bs e)).
    + rewrite store_in by done. rewrite <-Hin by lia. f_equal. lia.
    + rewrite store_out by done. rewrite Hc'. apply store_out. lia.
  - intros p Hp. destruct (decide (lba + k ≤ p < lba + extent bs e)).
    + rewrite put_head_out by lia. rewrite put_head_in by lia.
      pose proof (write_heads_ok bs st L G c c' h lba k e Hok Hlba Hfit ltac:(lia) Hc'
        (lay_heads _ _ _ _ _ _ _ _ Hlay) p Hp) as (b & Hb & _ & Hm).
      rewrite put_head_out in Hm by lia. specialize (Hin (p - lba) ltac:(lia)).
      replace (lba + (p - lba)) with p in Hin by lia. rewrite Hin in Hb. injection Hb as <-.
      destruct (h p) as [e0|]; [|done]. destruct Hm as (Hb & Hok0 & _).
      exfalso. apply (rec_inert _ _ _ Hok (p - lba) ltac:(lia)). rewrite Hb. by eapply blk0_magic.
    + unfold put_head. destruct (decide (p = lba)); [done|].
      destruct (decide (lba < p < lba + k)); [by rewrite decide_True by lia|].
      by rewrite decide_False by lia.
Qed.

(** What [k] blocks of a new record do to the layout, wherever the code
    writes it: after the chain, or at the start when little room is left. *)
Lemma write_outcome c c' h g es q lba k e :
  layout bs st L c h g es q → record_ok bs L e → Revision (last_entry es) < Revision e →
  st ≤ lba → lba + extent bs e ≤ st + L →
  (lba = q ∧ es ≠ []) ∨ (lba = st ∧ st + L - q < max_extent bs L) →
  0 ≤ k ≤ extent bs e → (∀ i, c' i = store bs lba (encoding e) k c i) →
  (∃ g' es' , layout bs st L c' (heads_after h lba k e) g' es' (lba + extent bs e) ∧
     last_entry es' = e ∧ es' ≠ [] ∧ 1 ≤ k ∧ intact bs c' lba e) ∨
  (∃ g' es', layout bs st L c' (heads_after h lba k e) g' es' q ∧
     last_entry es' = last_entry es ∧ (es ≠ [] → es' ≠ []) ∧ k < extent bs e ∧
     (1 ≤ k → ¬ intact bs c' lba e)).
Proof.
  intros Hlay Hok Hrev Hlba Hfit Hpos Hk Hc'. pose proof (extent_pos _ _ _ G e) as Hep.
  unfold heads_after.
  destruct (decide (1 ≤ k)) as [Hk1|Hk0].
  2: { right. exists g, es. split_and!; [|done|done|lia|lia].
       apply (layout_ext bs st L G c); [|done]. intros i _. rewrite Hc'.
       replace k with 0 by lia. apply store_0. }
  destruct (decide (intact bs c' lba e)) as [Hin|Hn].
  - left. destruct (intact_full c c' h g es q lba k e) as [Hfull Hheads]; [done|done|done|done|lia|done|done|].
    destruct Hpos as [[-> Hne]|[-> Hroom]].
    + exists g, (es ++ [e]). split_and!; [|by unfold last_entry, last_from; rewrite foldl_app
        |by destruct es|done|done].
      apply (layout_heads_ext bs st L G c' (put_head h q (extent bs e) e)); [done|].
      apply (write_append bs st L G c c' h g es q q (extent bs e) e); first [done|lia].
    + exists st, [e]. split_and!; [|done..].
      apply (layout_heads_ext bs st L G c' (put_head h st (extent bs e) e)); [done|].
      apply (write_first bs st L G c c' h g es q st (extent bs e) e); first [done|lia].
  - right. assert (k < extent bs e) as Hlt.
    { destruct (decide (k = extent bs e)) as [->|]; [|lia]. exfalso. apply Hn.
      intros i Hi. rewrite Hc', store_in by lia. do 2 f_equal. lia. }
    destruct Hpos as [[-> Hne]|[-> Hroom]].
    + exists g, es. split_and!; [|done..].
      apply (write_append_torn bs st L G c c' h g es q q k e); first [done|lia].
    + destruct (write_first_torn bs st L G c c' h g es q st k e) as (g' & es' & ? & ? & ?);
        [first [done|lia]..| |by exists g', es'].
      intros Hne. pose proof (max_extent_third _ _ _ G). pose proof (extent_max _ _ _ G e Hok).
      destruct Hlay as [Hh Hg _ Hc _ _ _].
      pose proof (extent_max _ _ _ G _ (chain_record_ok bs st L G c h 0 g es q zero_entry Hh Hg Hc Hne)).
      unfold last_entry. lia.
Qed.
End Outcome.

(** The record [Update] builds is well formed and newer than the current one. *)
Lemma new_entry_ok d j h g es q data :
  journal_inv d j h g es q → admissible d j data →
  record_ok (BlockSize d) (jlength j) (new_entry j data) ∧
  Revision (new_entry j data) = Revision (current j) + 1.
Proof.
  intros [G _ Hlay Hcur _ _] [Hs Hr Hi].
  destruct (chain_last_pos _ _ _ _ _ _ _ _ (lay_chain _ _ _ _ _ _ _ _ Hlay)) as [Hpos _].
  rewrite <-Hcur in Hpos.
  assert (Revision (new_entry j data) = Revision (current j) + 1) as Hrev
    by (cbn; apply wrap_small; lia).
  destruct (max_no_wrap _ _ _ G) as [_ Hm]. pose proof (geo_alloc _ _ _ G).
  split; [|done]. split; [|done|done].
  split; [done|lia|done| |done]. cbn [Data new_entry]. unfold entryHeaderSize in *. lia.
Qed.

(** Where it is written. *)
Lemma write_position d j h g es q e :
  journal_inv d j h g es q → record_ok (BlockSize d) (jlength j) e →
  let lba := write_block d j e in
  start j ≤ lba ∧ lba + extent (BlockSize d) e ≤ start j + jlength j ∧
  ((lba = q ∧ es ≠ []) ∨
   (lba = start j ∧ start j + jlength j - q < max_extent (BlockSize d) (jlength j))).
Proof.
  intros [G Hwf Hlay _ _ Hnext] Hok. unfold write_block.
  rewrite (end_uadd d _ _ G). set (bs := BlockSize d) in *.
  set (st := start j) in *. set (L := jlength j) in *.
  pose proof (bs_pos _ _ _ G) as Hbs. pose proof (extent_pos _ _ _ G e) as Hext.
  pose proof (extent_max _ _ _ G e Hok). pose proof (extent_le_L _ _ _ e G Hok).
  destruct Hlay as [_ Hg Hq Hc _ _ _]. pose proof (chain_le _ _ _ G _ _ _ _ _ _ Hc).
  pose proof (len_nonneg es). pose proof max_alloc_int. pose proof uint_half.
  assert (st ≤ nextBlock j ≤ st + L) as Hnb by (destruct Hnext as [[_ ->]|[-> _]]; lia).
  destruct (max_no_wrap _ _ _ G) as [_ Hm]. pose proof (Size_pos e).
  pose proof (rec_size _ _ _ Hok) as Hsz.
  pose proof (geo_space _ _ _ G). pose proof (geo_alloc _ _ _ G). pose proof (geo_start _ _ _ G).
  rewrite usub_small by (unfold entryHeaderSize in *; nia).
  rewrite umul_small by nia. rewrite to_uint_small by lia.
  pose proof (nblocks_bounds bs Hbs (Size e)) as Hn. fold (extent bs e) in Hn.
  case_test.
  - split_and!; [lia|lia|]. right. split; [done|].
    destruct Hnext as [[_ Heq]|[_ ?]]; [|done]. rewrite Heq in E.
    assert (st + L - q < extent bs e) by nia. lia.
  - assert (extent bs e ≤ st + L - nextBlock j) by nia.
    split_and!; [lia|lia|]. destruct Hnext as [[? ->]|[? ?]]; [left|right]; done.
Qed.

(** ** [Update], on every outcome of the device *)

Lemma Update_admissible d j h g es q data :
  journal_inv d j h g es q → admissible d j data →
  Update data (d, j) =
  let e := new_entry j data in
  let j1 := set_nextBlock j (write_block d j e) in
  match WriteBlocks d (write_block d j e) (encoding e) with
  | (d', Ok n) =>
    (d', mkJournal (start j) (jlength j) e (write_block d j e +ᵤ n) (maxDataBytes j), Ok ())
  | (d', Err _) => (d', j1, Err "failed to write blocks")
  | (d', Panic e) => (d', j1, Panic e)
  | (d', NoFuel) => (d', j1, NoFuel)
  end.
Proof.
  intros Hinv Hadm. destruct (new_entry_ok _ _ _ _ _ _ _ Hinv Hadm) as [Hok _].
  destruct Hinv as [G _ _ _ Hmax _]. destruct Hadm as [Hs _ _].
  unfold Update. rewrite Hmax. destruct (max_no_wrap _ _ _ G) as [_ Hm].
  pose proof (len_nonneg data). pose proof (geo_alloc _ _ _ G).
  pose proof max_alloc_int. pose proof uint_half. unfold entryHeaderSize in *.
  rewrite usub_small by lia. rewrite to_int_small by lia.
  rewrite (proj2 (Z.ltb_ge _ _)) by lia.
  by rewrite (marshalEntry_wf _ (rec_wf _ _ _ Hok)).
Qed.

(** A write that has stored only part of the record leaves the journal with
    the record it had. *)
Lemma failed_inv d j h g es q data d' k :
  journal_inv d j h g es q → admissible d j data →
  let e := new_entry j data in
  let lba := write_block d j e in
  dev_wf d' → BlockSize d' = BlockSize d → 0 ≤ k ≤ extent (BlockSize d) e →
  (∀ i, contents d' i = store (BlockSize d) lba (encoding e) k (contents d) i) →
  ¬ (1 ≤ k ∧ intact (BlockSize d) (contents d') lba e) →
  ∃ g' es' q', journal_inv d' (set_nextBlock j lba) (heads_after h lba k e) g' es' q'.
Proof.
  intros Hinv Hadm e lba Hwf' Hbs' Hk Hc Hnin.
  destruct (new_entry_ok _ _ _ _ _ _ _ Hinv Hadm) as [Hok Hrev]. fold e in Hok, Hrev.
  destruct (write_position _ _ _ _ _ _ e Hinv Hok) as (Hlba & Hfit & Hpos). fold lba in Hlba, Hfit, Hpos.
  destruct Hinv as [G Hwf Hlay Hcur Hmax Hnext]. rewrite <-Hbs' in *.
  assert (Revision (last_entry es) < Revision e) as Hlt by (rewrite <-Hcur, Hrev; lia).
  destruct (write_outcome _ _ _ G _ _ h g es q lba k e Hlay Hok Hlt Hlba Hfit Hpos Hk Hc)
    as [(? & ? & _ & _ & _ & ? & ?)|(g' & es' & Hlay' & Hlast & Hne & _)]; [by exfalso; apply Hnin|].
  exists g', es', q. split; cbn [start jlength current nextBlock maxDataBytes set_nextBlock];
    [done|done|done|by rewrite Hlast|done|].
  destruct Hpos as [[-> ?]|[-> ?]]; [left|right]; auto.
Qed.

(** The device's answer to the write of the new record. *)
Lemma write_new d j h g es q data :
  journal_inv d j h g es q → admissible d j data →
  let e := new_entry j data in
  let lba := write_block d j e in
  ∃ d' r, WriteBlocks d lba (encoding e) = (d', r) ∧ dev_wf d' ∧ BlockSize d' = BlockSize d ∧
    match r with
    | Ok n => n = extent (BlockSize d) e ∧
        ∀ i, contents d' i = store (BlockSize d) lba (encoding e) n (contents d) i
    | Err _ => ∃ k, 0 ≤ k ≤ extent (BlockSize d) e ∧
        ∀ i, contents d' i = store (BlockSize d) lba (encoding e) k (contents d) i
    | _ => False
    end.
Proof.
  intros Hinv Hadm e lba.
  destruct (new_entry_ok _ _ _ _ _ _ _ Hinv Hadm) as [Hok _]. fold e in Hok.
  destruct (write_position _ _ _ _ _ _ e Hinv Hok) as (Hlba & Hfit & _). fold lba in Hlba, Hfit.
  destruct Hinv as [G Hwf Hlay _ _ _].
  assert (nblocks (BlockSize d) (len (encoding e)) = extent (BlockSize d) e) as Hn
    by (by rewrite (len_encoding e (rec_wf _ _ _ Hok))).
  rewrite <-Hn. pose proof (extent_le_L _ _ _ e G Hok). pose proof (bs_pos _ _ _ G).
  pose proof max_alloc_int. pose proof (geo_alloc _ _ _ G). pose proof (geo_start _ _ _ G).
  apply WriteBlocks_spec; [done| |lia|rewrite Hn; nia|].
  - rewrite (len_encoding e (rec_wf _ _ _ Hok)). apply Size_pos.
  - intros i Hi. rewrite Hn in Hi. destruct (lay_heads _ _ _ _ _ _ _ _ Hlay i ltac:(lia)) as (b & -> & _).
    done.
Qed.

Lemma Update_spec d j h g es q data :
  journal_inv d j h g es q → admissible d j data →
  let e := new_entry j data in
  let lba := write_block d j e in
  ∃ d' j' r, Update data (d, j) = (d', j', r) ∧ dev_wf d' ∧ BlockSize d' = BlockSize d ∧
    match r with
    | Ok _ => current j' = e ∧
        ∃ g' es' q', journal_inv d' j' (heads_after h lba (extent (BlockSize d) e) e) g' es' q'
    | Err _ => j' = set_nextBlock j lba ∧
        ∃ k, 0 ≤ k ≤ extent (BlockSize d) e ∧
          (∀ i, contents d' i = store (BlockSize d) lba (encoding e) k (contents d) i)
    | _ => False
    end.
Proof.
  intros Hinv Hadm e lba.
  destruct (new_entry_ok _ _ _ _ _ _ _ Hinv Hadm) as [Hok Hrev]. fold e in Hok, Hrev.
  destruct (write_position _ _ _ _ _ _ e Hinv Hok) as (Hlba & Hfit & Hpos). fold lba in Hlba, Hfit, Hpos.
  destruct (write_new _ _ _ _ _ _ _ Hinv Hadm) as (d' & r & HW & Hwf' & Hbs' & Hr).
  fold e in HW, Hr. fold lba in HW, Hr.
  rewrite (Update_admissible _ _ _ _ _ _ _ Hinv Hadm). cbn zeta. fold e. fold lba. rewrite HW.
  destruct Hinv as [G Hwf Hlay Hcur Hmax Hnext].
  destruct r as [n|msg| |]; [| |done..].
  - destruct Hr as [-> Hc]. set (bs := BlockSize d) in *.
    assert (Revision (last_entry es) < Revision e) as Hlt by (rewrite <-Hcur, Hrev; lia).
    exists d', (mkJournal (start j) (jlength j) e (lba +ᵤ extent bs e) (maxDataBytes j)), (Ok ()).
    split_and!; [done|done|done|done|]. pose proof (extent_pos _ _ _ G e) as Hep.
    destruct (write_outcome bs _ _ G (contents d) (contents d') h g es q lba (extent bs e) e
                Hlay Hok Hlt Hlba Hfit Hpos ltac:(lia) Hc)
      as [(g' & es' & Hlay' & Hlast & Hne & _)|(? & ? & _ & _ & _ & ? & _)]; [|lia].
    exists g', es', (lba + extent bs e).
    split; cbn [start jlength current nextBlock maxDataBytes]; rewrite ?Hbs'; fold bs;
      [done|done|done|done|done|].
    left. split; [done|]. pose proof (geo_bs _ _ _ G). pose proof (geo_start _ _ _ G).
    pose proof (geo_space _ _ _ G).
    apply uadd_small. unfold entryHeaderSize in *. nia.
  - exists d', (set_nextBlock j lba), (Err "failed to write blocks"). done.
Qed.

(** An update stays within the blocks of its journal. *)
Lemma Update_frame d j h g es q data d' j' r :
  journal_inv d j h g es q → admissible d j data → Update data (d, j) = (d', j', r) →
  start j' = start j ∧ jlength j' = jlength j ∧
  ∀ i, ¬ (start j ≤ i < start j + jlength j) → contents d' i = contents d i.
Proof.
  intros Hinv Hadm HU.
  destruct (new_entry_ok _ _ _ _ _ _ _ Hinv Hadm) as [Hok _].
  destruct (write_position _ _ _ _ _ _ _ Hinv Hok) as (Hlba & Hfit & _).
  destruct (write_new _ _ _ _ _ _ _ Hinv Hadm) as (d1 & r1 & HW & _ & _ & Hr).
  rewrite (Update_admissible _ _ _ _ _ _ _ Hinv Hadm) in HU. cbn zeta in HU. rewrite HW in HU.
  destruct r1 as [n|msg| |]; [| |done..]; injection HU as <- <- <-;
    (split_and!; [done|done|]); intros i Hi.
  - destruct Hr as [-> ->]. apply store_out. lia.
  - destruct Hr as (k & Hk & ->). apply store_out. lia.
Qed.

(** ** Recovery *)

Lemma recovery_spec d j h g es q data d' k :
  journal_inv d j h g es q → admissible d j data →
  let e := new_entry j data in
  let lba := write_block d j e in
  dev_wf d' → BlockSize d' = BlockSize d → 0 ≤ k ≤ extent (BlockSize d) e →
  (∀ i, contents d' i = store (BlockSize d) lba (encoding e) k (contents d) i) →
  torn_detected (BlockSize d) (start j) (jlength j) (contents d') (heads_after h lba k e) →
  ∃ j' g' es' q', OpenJournal d' (start j) (jlength j) = Ok j' ∧
    journal_inv d' j' (heads_after h lba k e) g' es' q' ∧
    (JData j' = JData j ∨ JData j' = (data, Revision (current j) + 1)) ∧
    (k = extent (BlockSize d) e → JData j' = (data, Revision (current j) + 1)).
Proof.
  intros Hinv Hadm e lba Hwf' Hbs' Hk Hc Ht.
  destruct (new_entry_ok _ _ _ _ _ _ _ Hinv Hadm) as [Hok Hrev]. fold e in Hok, Hrev.
  destruct (write_position _ _ _ _ _ _ e Hinv Hok) as (Hlba & Hfit & Hpos). fold lba in Hlba, Hfit, Hpos.
  destruct Hinv as [G Hwf Hlay Hcur Hmax Hnext]. rewrite <-Hbs' in *.
  assert (Revision (last_entry es) < Revision e) as Hlt by (rewrite <-Hcur, Hrev; lia).
  assert (∀ g' es' q', layout (BlockSize d') (start j) (jlength j) (contents d')
            (heads_after h lba k e) g' es' q' →
          ∃ j', OpenJournal d' (start j) (jlength j) = Ok j' ∧
            journal_inv d' j' (heads_after h lba k e) g' es' q' ∧ current j' = last_entry es') as Hopen.
  { intros g' es' q' Hlay'. destruct (open_layout _ _ _ _ _ _ _ G Hwf' Hlay' Ht)
      as (j' & Ho & _ & _ & Hinv'). exists j'. split_and!; [done|done|]. by destruct Hinv'. }
  destruct (write_outcome _ _ _ G _ _ h g es q lba k e Hlay Hok Hlt Hlba Hfit Hpos Hk Hc)
    as [(g' & es' & Hlay' & Hlast & _)|(g' & es' & Hlay' & Hlast & _ & Hklt & _)];
    destruct (Hopen _ _ _ Hlay') as (j' & Ho & Hinv' & Hcur');
    (eexists j', g', es', _; split_and!; [done|done| |]).
  - right. unfold JData. by rewrite Hcur', Hlast, Hrev.
  - intros _. unfold JData. by rewrite Hcur', Hlast, Hrev.
  - left. unfold JData. by rewrite Hcur', Hlast, Hcur.
  - lia.
Qed.
End Spec.
End JournalSpec.
