(* ===== verification/JournalDemo.v ===== *)
(** * Concrete journals on the in-memory device

    The runs on which the journal theorems are instantiated: a four-block
    journal on a [MemDev], two records written to it, and a third one, too
    large for the last block, that wraps around to the first. *)

From S2P Require Import Prelude Sha256 BlockDev MemDev Entry Journal JournalInv JournalWrite JournalSpec.
Import MemDev Entry Journal JournalInv JournalWrite JournalSpec.

Module JournalDemo.

#[export] Existing Instance amd64.

(** A journal opened over blocks that hold no record. *)
Section Fresh.
Context `{P : Platform} `{B : !BlockReaderWriter D} `{BD : !BlockDevice D}.

Lemma fresh_layout bs st L c :
  geometry_ok bs st L →
  (∀ p, st ≤ p < st + L → ∃ b, c p = Some b ∧ len b = bs ∧ ztake 4 b ≠ magic0) →
  layout bs st L c (λ _, None) (st + L) [] (st + L).
Proof. intros G Hc. pose proof (geo_length _ _ _ G). by split; try lia. Qed.

Lemma fresh_detected bs st L c : torn_detected bs st L c (λ _, None).
Proof. by intros p e _ ?. Qed.

(** One successful update, computed. *)
Lemma step_inv d j h g es q data d' j' :
  journal_inv d j h g es q → admissible d j data →
  Update data (d, j) = (d', j', Ok ()) →
  let e := new_entry j data in
  ∃ g' es' q', journal_inv d' j' (heads_after h (write_block d j e) (extent (BlockSize d) e) e) g' es' q'.
Proof.
  intros Hinv Hadm HU e. destruct (Update_spec _ _ _ _ _ _ _ Hinv Hadm) as (d1 & j1 & r & HU1 & _ & _ & Hr).
  rewrite HU in HU1. injection HU1 as <- <- <-. by destruct Hr.
Qed.
End Fresh.

Definition dev0 : MemDev := NewMemDev 4.
Definition jrn0 : Journal := mkJournal 0 4 zero_entry 0 634.
Definition data1 : bytes := [x01; x02; x03].
Definition data2 : bytes := replicate 600 xaa.
Definition data3 : bytes := replicate 600 xbb.

Definition run1 : MemDev * Journal * res unit := Update data1 (dev0, jrn0).
Definition dev1 : MemDev := run1.1.1.
Definition jrn1 : Journal := run1.1.2.
Definition run2 : MemDev * Journal * res unit := Update data2 (dev1, jrn1).
Definition dev2 : MemDev := run2.1.1.
Definition jrn2 : Journal := run2.1.2.

Definition heads0 : headmap := λ _, None.
Definition heads1 : headmap :=
  heads_after heads0 (write_block dev0 jrn0 (new_entry jrn0 data1))
    (extent (BlockSize dev0) (new_entry jrn0 data1)) (new_entry jrn0 data1).
Definition heads2 : headmap :=
  heads_after heads1 (write_block dev1 jrn1 (new_entry jrn1 data2))
    (extent (BlockSize dev1) (new_entry jrn1 data2)) (new_entry jrn1 data2).

Lemma demo_open : OpenJournal dev0 0 4 = Ok jrn0.
Proof. vm_compute. reflexivity. Qed.

Lemma demo_geo : geometry_ok 512 0 4.
Proof. split; vm_compute; done. Qed.

Lemma run1_ok : Update data1 (dev0, jrn0) = (dev1, jrn1, Ok ()).
Proof. change (run1 = (dev1, jrn1, Ok ())). unfold dev1, jrn1. destruct run1 as [[d j] r] eqn:E. cbn. f_equal.
  enough (run1.2 = Ok ()) as <- by (by rewrite E). vm_compute. reflexivity. Qed.

Lemma run2_ok : Update data2 (dev1, jrn1) = (dev2, jrn2, Ok ()).
Proof. change (run2 = (dev2, jrn2, Ok ())). unfold dev2, jrn2. destruct run2 as [[d j] r] eqn:E. cbn. f_equal.
  enough (run2.2 = Ok ()) as <- by (by rewrite E). vm_compute. reflexivity. Qed.

Lemma demo_inv0 : journal_inv dev0 jrn0 heads0 4 [] 4.
Proof.
  assert (dev_wf dev0) as Hwf by (by apply NewMemDev_wf).
  destruct (open_layout dev0 0 4 heads0 4 [] 4) as (j & Ho & _ & _ & Hinv).
  - exact demo_geo.
  - exact Hwf.
  - apply fresh_layout; [exact demo_geo|]. intros p Hp.
    exists (replicate 512 x00). assert (p = 0 ∨ p = 1 ∨ p = 2 ∨ p = 3) as Hc by lia.
    destruct_or!; subst; vm_compute; done.
  - apply fresh_detected.
  - rewrite demo_open in Ho. by injection Ho as <-.
Qed.

Lemma adm1 : admissible dev0 jrn0 data1.
Proof. split; [vm_compute; done|vm_compute; done|]. apply (bool_decide_unpack _). vm_compute. exact I. Qed.

Lemma adm2 : admissible dev1 jrn1 data2.
Proof. split; [vm_compute; done|vm_compute; done|]. apply (bool_decide_unpack _). vm_compute. exact I. Qed.

Lemma adm3 : admissible dev2 jrn2 data3.
Proof. split; [vm_compute; done|vm_compute; done|]. apply (bool_decide_unpack _). vm_compute. exact I. Qed.

Lemma demo_inv2 : ∃ g es q, journal_inv dev2 jrn2 heads2 g es q.
Proof.
  destruct (step_inv _ _ _ _ _ _ _ _ _ demo_inv0 adm1 run1_ok) as (g1 & es1 & q1 & Hinv1).
  destruct (step_inv _ _ _ _ _ _ _ _ _ Hinv1 adm2 run2_ok) as (g2 & es2 & q2 & Hinv2).
  exists g2, es2, q2. exact Hinv2.
Qed.
End JournalDemo.
