(* ===== verification/JournalRefine.v ===== *)
(** * The journal implements a durable register

    Abstractly a journal is a register that holds one byte string and a
    revision.  A committed update replaces the contents; one that fails on the
    device keeps them, but may leave new contents pending, which the register
    has once it is opened again; and after a power loss during an update the
    register holds the old or the new contents.  [journal_refines_register] is
    the simulation of the code by that register, over sequences of updates,
    device failures, power losses and re-openings. *)

From S2P Require Import Prelude Sha256 BlockDev Entry Journal JournalInv JournalWrite JournalSpec.
Import Entry Journal JournalInv JournalWrite JournalSpec.

Module JournalRefine.

Inductive event :=
  | Commit (data : bytes)   (** [Update] returned nil *)
  | Fail (data : bytes)     (** [Update] returned an error *)
  | Crash (data : bytes)    (** power was lost during [Update] *)
  | Reopen.                 (** the process restarted *)

(** ** The abstract register *)

Record register := mkReg {
  reg_data : bytes;
  reg_rev : Z;
  (** Contents and revision that a failed update has left for the next opening. *)
  reg_pending : option (bytes * Z);
}.

Inductive reg_step : register → event → register → Prop :=
  | reg_commit r data :
      reg_pending r = None → reg_step r (Commit data) (mkReg data (reg_rev r + 1) None)
  | reg_fail r data : reg_step r (Fail data) r
  | reg_fail_pending r data :
      reg_pending r = None →
      reg_step r (Fail data) (mkReg (reg_data r) (reg_rev r) (Some (data, reg_rev r + 1)))
  | reg_crash_before r data : reg_pending r = None → reg_step r (Crash data) r
  | reg_crash_after r data :
      reg_pending r = None → reg_step r (Crash data) (mkReg data (reg_rev r + 1) None)
  | reg_reopen r : reg_pending r = None → reg_step r Reopen r
  | reg_reopen_pending r data rev :
      reg_pending r = Some (data, rev) → reg_step r Reopen (mkReg data rev None).

(** Sequences of steps. *)
Inductive run {S} (step : S → event → S → Prop) : S → list event → S → Prop :=
  | run_nil s : run step s [] s
  | run_cons s ev s1 evs s2 : step s ev s1 → run step s1 evs s2 → run step s (ev :: evs) s2.

Section Refine.
Context `{P : Platform} `{B : !BlockReaderWriter D} `{BD : !BlockDevice D}.

(** ** The concrete system: the device, the open journal and the ghost map *)

Record jstate := mkJst {
  jd : D;
  jj : Journal;
  jh : headmap;
  (** An update has failed although its record is stored whole. *)
  jdoubt : bool;
}.

(** After a failed or interrupted write, [k] blocks of the record are stored. *)
Record partial (d : D) (j : Journal) (data : bytes) (k : Z) (d' : D) : Prop := {
  par_wf : dev_wf d';
  par_bs : BlockSize d' = BlockSize d;
  par_k : 0 ≤ k ≤ extent (BlockSize d) (new_entry j data);
  par_contents i : contents d' i =
    store (BlockSize d) (write_block d j (new_entry j data)) (encoding (new_entry j data)) k
          (contents d) i;
}.

(** The record is on the device, whole. *)
Definition stored_whole (d : D) (j : Journal) (data : bytes) (k : Z) (d' : D) : bool :=
  let e := new_entry j data in
  bool_decide (1 ≤ k ∧ intact (BlockSize d) (contents d') (write_block d j e) e).

(** Data is only written while no record is in doubt. *)
Inductive jstep : jstate → event → jstate → Prop :=
  | js_commit d j h data d' j' :
      let e := new_entry j data in
      admissible d j data → Update data (d, j) = (d', j', Ok ()) →
      jstep (mkJst d j h false) (Commit data)
            (mkJst d' j' (heads_after h (write_block d j e) (extent (BlockSize d) e) e) false)
  | js_too_large d j h b data d' j' msg :
      to_int (maxDataBytes j) < len data → Update data (d, j) = (d', j', Err msg) →
      jstep (mkJst d j h b) (Fail data) (mkJst d' j' h b)
  | js_device_error d j h data d' j' msg k :
      let e := new_entry j data in
      admissible d j data → Update data (d, j) = (d', j', Err msg) → partial d j data k d' →
      jstep (mkJst d j h false) (Fail data)
            (mkJst d' j' (heads_after h (write_block d j e) k e) (stored_whole d j data k d'))
  | js_crash d j h data d' j' k :
      let e := new_entry j data in
      let h' := heads_after h (write_block d j e) k e in
      admissible d j data → partial d j data k d' →
      torn_detected (BlockSize d) (start j) (jlength j) (contents d') h' →
      OpenJournal d' (start j) (jlength j) = Ok j' →
      jstep (mkJst d j h false) (Crash data) (mkJst d' j' h' false)
  | js_reopen d j h b j' :
      torn_detected (BlockSize d) (start j) (jlength j) (contents d) h →
      OpenJournal d (start j) (jlength j) = Ok j' →
      jstep (mkJst d j h b) Reopen (mkJst d j' h false).

(** ** The simulation relation *)

(** The device holds the records [es], of which the last is [x]. *)
Definition holds_last (d : D) (j : Journal) (h : headmap) (x : bytes * Z) : Prop :=
  geometry_ok (BlockSize d) (start j) (jlength j) ∧ dev_wf d ∧
  ∃ g es q, layout (BlockSize d) (start j) (jlength j) (contents d) h g es q ∧
    x = (Data (last_entry es), Revision (last_entry es)).

Definition sim (s : jstate) (r : register) : Prop :=
  JData (jj s) = (reg_data r, reg_rev r) ∧
  if jdoubt s then ∃ x, reg_pending r = Some x ∧ holds_last (jd s) (jj s) (jh s) x
  else reg_pending r = None ∧ ∃ g es q, journal_inv (jd s) (jj s) (jh s) g es q.

(** A device error: the journal keeps its record, and the new one is on the
    device whole, or not. *)
Lemma device_error_sim d j h g es q data d' k :
  journal_inv d j h g es q → admissible d j data → partial d j data k d' →
  let e := new_entry j data in
  let lba := write_block d j e in
  if stored_whole d j data k d'
  then holds_last d' (set_nextBlock j lba) (heads_after h lba k e) (data, Revision (current j) + 1)
  else ∃ g' es' q', journal_inv d' (set_nextBlock j lba) (heads_after h lba k e) g' es' q'.
Proof.
  intros Hinv Hadm [Hwf Hbs Hk Hc] e lba. unfold stored_whole. fold e lba. case_bool_decide as Hn.
  2: { exact (failed_inv _ _ _ _ _ _ _ _ _ Hinv Hadm Hwf Hbs Hk Hc Hn). }
  destruct (new_entry_ok _ _ _ _ _ _ _ Hinv Hadm) as [Hok Hrev]. fold e in Hok, Hrev.
  destruct (write_position _ _ _ _ _ _ e Hinv Hok) as (Hlba & Hfit & Hpos). fold lba in Hlba, Hfit, Hpos.
  destruct Hinv as [G _ Hlay Hcur _ _].
  assert (Revision (last_entry es) < Revision e) as Hlt by (rewrite <-Hcur, Hrev; lia).
  destruct (write_outcome _ _ _ G _ _ h g es q lba k e Hlay Hok Hlt Hlba Hfit Hpos Hk Hc)
    as [(g' & es' & Hlay' & Hlast & _)|(_ & _ & _ & _ & _ & _ & Hni)]; [|by destruct Hn as [? ?]; destruct Hni].
  unfold holds_last. rewrite Hbs. split_and!; [done|done|]. eexists g', es', _. split; [exact Hlay'|].
  by rewrite Hlast, Hrev.
Qed.

Lemma open_last d j h x :
  holds_last d j h x → torn_detected (BlockSize d) (start j) (jlength j) (contents d) h →
  ∃ j', OpenJournal d (start j) (jlength j) = Ok j' ∧ JData j' = x ∧ ∃ g es q, journal_inv d j' h g es q.
Proof.
  intros (G & Hwf & g & es & q & Hlay & ->) Ht.
  destruct (open_layout _ _ _ _ _ _ _ G Hwf Hlay Ht) as (j' & Ho & _ & _ & Hinv).
  exists j'. split_and!; [done| |by exists g, es, q]. unfold JData. by rewrite (ji_current _ _ _ _ _ _ Hinv).
Qed.

Lemma journal_inv_last d j h g es q : journal_inv d j h g es q → holds_last d j h (JData j).
Proof.
  intros [G Hwf Hlay Hcur _ _]. split_and!; [done|done|]. exists g, es, q. split; [done|].
  unfold JData. by rewrite Hcur.
Qed.

Lemma sim_step s ev s' r : sim s r → jstep s ev s' → ∃ r', reg_step r ev r' ∧ sim s' r'.
Proof.
  intros [HD Hs] Hstep.
  destruct Hstep as [d j h data d' j' e Hadm HU | d j h b data d' j' msg Hbig HU
    | d j h data d' j' msg k e Hadm HU Hpar
    | d j h data d' j' k e h' Hadm [Hwf Hbs Hk Hc] Ht Ho
    | d j h b j' Ht Ho]; cbn [jd jj jh jdoubt] in *.
  - destruct Hs as (Hp & g & es & q & Hinv). unfold JData in HD. injection HD as Hd Hr.
    destruct (Update_spec _ _ _ _ _ _ _ Hinv Hadm) as (d1 & j1 & r1 & HU1 & _ & _ & Hr1).
    rewrite HU in HU1. injection HU1 as <- <- <-. destruct Hr1 as [Hcur Hinv'].
    destruct (new_entry_ok _ _ _ _ _ _ _ Hinv Hadm) as [_ Hrev].
    eexists. split; [by apply reg_commit|]. split; [|done].
    cbn [jj reg_data reg_rev]. unfold JData. by rewrite Hcur, Hrev, Hr.
  - exists r. split; [apply reg_fail|]. unfold Update in HU.
    rewrite (proj2 (Z.ltb_lt _ _)) in HU by done. injection HU as <- <- _. done.
  - destruct Hs as (Hp & g & es & q & Hinv). pose proof HD as HD0. unfold JData in HD. injection HD as Hd Hr.
    destruct (Update_spec _ _ _ _ _ _ _ Hinv Hadm) as (d1 & j1 & r1 & HU1 & _ & _ & Hr1).
    rewrite HU in HU1. injection HU1 as <- <- <-. destruct Hr1 as [-> _].
    pose proof (device_error_sim _ _ _ _ _ _ _ _ _ Hinv Hadm Hpar) as Hde.
    unfold sim. cbn [jd jj jh jdoubt]. destruct (stored_whole d j data k d').
    + exists (mkReg (reg_data r) (reg_rev r) (Some (data, reg_rev r + 1))). split; [by apply reg_fail_pending|].
      split; [done|]. eexists. split; [done|]. by rewrite <-Hr.
    + exists r. split; [apply reg_fail|]. by split.
  - destruct Hs as (Hp & g & es & q & Hinv). unfold JData in HD. injection HD as Hd Hr.
    destruct (recovery_spec _ _ _ _ _ _ _ _ _ Hinv Hadm Hwf Hbs Hk Hc Ht)
      as (j1 & g1 & es1 & q1 & Ho1 & Hinv1 & HD1 & _).
    rewrite Ho in Ho1. injection Ho1 as <-.
    destruct HD1 as [HD1|HD1]; eexists.
    + split; [by apply reg_crash_before|]. split; [|split; [done|by exists g1, es1, q1]].
      cbn [jj]. rewrite HD1. unfold JData. by rewrite <-Hd, <-Hr.
    + split; [by apply reg_crash_after|]. split; [|split; [done|by exists g1, es1, q1]].
      cbn [jj]. rewrite HD1. by rewrite <-Hr.
  - destruct b.
    + destruct Hs as ([data rev] & Hp & Hl). destruct (open_last _ _ _ _ Hl Ht) as (j1 & Ho1 & HD1 & Hinv1).
      rewrite Ho in Ho1. injection Ho1 as <-. eexists. split; [by apply reg_reopen_pending|]. by split.
    + destruct Hs as (Hp & g & es & q & Hinv).
      destruct (open_last _ _ _ _ (journal_inv_last _ _ _ _ _ _ Hinv) Ht) as (j1 & Ho1 & HD1 & Hinv1).
      rewrite Ho in Ho1. injection Ho1 as <-. exists r. split; [by apply reg_reopen|].
      split; [cbn [jj]; by rewrite HD1|by split].
Qed.

(** C6 The journal refines the durable register: take a run of updates that
    succeed, are refused as too large, fail on the device after any number of
    their blocks has been stored, or are cut short by a power loss after which
    the journal is opened again, and of re-openings in between, such that:
    data that is written is admissible (it is within the size limit, the
    revision stays below 2^32, and no block of the record but the first begins
    with the magic); the device stores whole blocks, in order; whenever the
    journal is opened, a record that is not complete fails its checksum; and
    after an update that failed although its record had been stored whole,
    nothing is written before the journal is opened again.  Then the run is
    one of the register, and the journal always returns the register's
    contents and revision. *)
Theorem journal_refines_register (s s' : jstate) (r : register) (evs : list event) :
  sim s r → run jstep s evs s' → ∃ r', run reg_step r evs r' ∧ sim s' r'.
Proof.
  intros Hs Hrun. revert r Hs.
  induction Hrun as [s|s ev s1 evs s2 Hstep _ IH]; intros r Hs.
  - exists r. split; [constructor|done].
  - destruct (sim_step _ _ _ _ Hs Hstep) as (r1 & Hr1 & Hs1).
    destruct (IH _ Hs1) as (r2 & Hr2 & Hs2). exists r2. split; [|done].
    by econstructor.
Qed.

(** ** Updates *)

(** C7 An [Update] of admissible data either commits it, and then [Data]
    returns it under the next revision and so does the journal when it is
    opened again, provided that what is left of overwritten records fails its
    checksum, or returns an error, and then [Data] still returns what it
    did before. It never panics. *)
Theorem update_commits_or_keeps d j h g es q data :
  journal_inv d j h g es q → admissible d j data →
  ∃ d' j' r, Update data (d, j) = (d', j', r) ∧
    match r with
    | Ok _ => JData j' = (data, Revision (current j) + 1) ∧
        ∃ h' g' es' q', journal_inv d' j' h' g' es' q' ∧
          (torn_detected (BlockSize d) (start j) (jlength j) (contents d') h' →
           ∃ j'', OpenJournal d' (start j) (jlength j) = Ok j'' ∧ JData j'' = JData j')
    | Err _ => JData j' = JData j
    | _ => False
    end.
Proof.
  intros Hinv Hadm. destruct (Update_spec _ _ _ _ _ _ _ Hinv Hadm) as (d' & j' & r & HU & Hwf & Hbs & Hr).
  exists d', j', r. split; [done|]. destruct r as [[]|msg| |]; [| |done..].
  - destruct Hr as [Hcur (g' & es' & q' & Hinv')].
    destruct (new_entry_ok _ _ _ _ _ _ _ Hinv Hadm) as [_ Hrev].
    split; [unfold JData; by rewrite Hcur, Hrev|].
    eexists _, g', es', q'. split; [done|]. intros Ht.
    assert (start j' = start j ∧ jlength j' = jlength j) as [Hst HL].
    { rewrite (Update_admissible _ _ _ _ _ _ _ Hinv Hadm) in HU. cbn zeta in HU.
      destruct (WriteBlocks _ _ _) as [d1 [n| | |]]; [|done..]. by injection HU as _ <-. }
    destruct Hinv' as [G' Hwf' Hlay' Hcur' _ _]. rewrite Hst, HL, Hbs in *.
    rewrite <-Hbs in *.
    destruct (open_layout _ _ _ _ _ _ _ G' Hwf' Hlay' Ht) as (j2 & Ho & _ & _ & Hinv2).
    exists j2. split; [done|]. unfold JData. by rewrite (ji_current _ _ _ _ _ _ Hinv2), Hcur'.
  - destruct Hr as [-> _]. done.
Qed.

(** C4 Crash safety, for a device that stores whole blocks in order.  When
    power is lost during an [Update], after any number [k] of the blocks of
    its record has been stored, opening the journal again succeeds and finds
    either the data that was current before or, completely, the new data under
    the next revision; it finds the new data if all its blocks had been
    stored.  The conditions: the data is admissible (it is within the size
    limit, the revision stays below 2^32, and no block of the record but the
    first begins with the magic), and the records that are not complete on the
    device, the interrupted one and those it overwrites, fail their checksum
    ([torn_detected]).  A block that is itself torn, and data that contains a
    record, are outside of them ([torn_block_loses_current],
    [embedded_record_is_taken]). *)
Theorem crash_recovery d j h g es q data d' k :
  journal_inv d j h g es q → admissible d j data → partial d j data k d' →
  torn_detected (BlockSize d) (start j) (jlength j) (contents d')
    (heads_after h (write_block d j (new_entry j data)) k (new_entry j data)) →
  ∃ j', OpenJournal d' (start j) (jlength j) = Ok j' ∧
    (JData j' = JData j ∨ JData j' = (data, Revision (current j) + 1)) ∧
    (k = extent (BlockSize d) (new_entry j data) → JData j' = (data, Revision (current j) + 1)) ∧
    ∃ h' g' es' q', journal_inv d' j' h' g' es' q'.
Proof.
  intros Hinv Hadm [Hwf Hbs Hk Hc] Ht.
  destruct (recovery_spec _ _ _ _ _ _ _ _ _ Hinv Hadm Hwf Hbs Hk Hc Ht)
    as (j1 & g1 & es1 & q1 & Ho1 & Hinv1 & HD1 & HD2).
  exists j1. split_and!; [done|done|done|]. by eexists _, g1, es1, q1.
Qed.
End Refine.
End JournalRefine.
