(* ===== verification/JournalProps.v ===== *)
(** * Properties of the journal: witnesses, limits and failure modes

    Instances of the journal theorems on the four-block journal of
    [JournalDemo], the refusals of [Update], and the inputs on which the
    journal does not keep its promise. *)

From S2P Require Import Prelude Sha256 BlockDev MemDev Entry Journal JournalInv JournalWrite JournalSpec.
From S2P Require Import JournalDemo JournalRefine.
Import MemDev Entry Journal JournalInv JournalWrite JournalSpec JournalDemo JournalRefine.

Module JournalProps.

(** ** Power loss while the third record wraps around *)

Lemma md_insert_contents st hook a b i :
  0 ≤ a < len st →
  md_contents (mkMemDev (<[Z.to_nat a := b]> st) hook) i =
  if decide (i = a) then Some b else md_contents (mkMemDev st hook) i.
Proof.
  intros Ha. unfold md_contents. cbn [Storage]. case_test.
  - by rewrite decide_False by lia.
  - case_decide as Hi.
    + subst. apply list_lookup_insert_eq. unfold len in Ha. lia.
    + apply list_lookup_insert_ne. lia.
Qed.

Definition entry3 : entry := new_entry jrn2 data3.

(** The first of the two blocks of the third record has been stored, over the
    first record. *)
Definition dev_torn : MemDev :=
  mkMemDev (<[Z.to_nat 0 := blk 512 (encoding entry3) 0]> (Storage dev2)) None.

Lemma dev2_blocks : len (Storage dev2) = 4 ∧ OnBlockWritten dev2 = None.
Proof. vm_compute. done. Qed.

Lemma dev2_eta : dev2 = mkMemDev (Storage dev2) None.
Proof. pose proof (proj2 dev2_blocks) as H. destruct dev2. cbn in *. by rewrite H. Qed.

Lemma partial_torn : partial dev2 jrn2 data3 1 dev_torn.
Proof.
  split.
  - split_and!; [|reflexivity|vm_compute; reflexivity].
    apply (bool_decide_unpack _). vm_compute. exact I.
  - reflexivity.
  - vm_compute. done.
  - intros i. cbn [contents memdev_device]. unfold dev_torn.
    rewrite md_insert_contents by (rewrite (proj1 dev2_blocks); lia).
    assert (write_block dev2 jrn2 (new_entry jrn2 data3) = 0) as -> by (vm_compute; reflexivity).
    change (BlockSize dev2) with 512. unfold store. case_decide as Hi.
    + subst. by rewrite decide_True by lia.
    + rewrite decide_False by lia. by rewrite <-dev2_eta.
Qed.

Lemma jrn2_geo : start jrn2 = 0 ∧ jlength jrn2 = 4.
Proof. vm_compute. done. Qed.

Lemma torn_is_detected :
  torn_detected (BlockSize dev2) (start jrn2) (jlength jrn2) (contents dev_torn)
    (heads_after heads2 (write_block dev2 jrn2 (new_entry jrn2 data3)) 1 (new_entry jrn2 data3)).
Proof. apply (bool_decide_unpack _). vm_compute. exact I. Qed.

Lemma torn_opens : ∃ j, OpenJournal dev_torn 0 4 = Ok j ∧ JData j = (data2, 2) ∧ start j = 0 ∧ jlength j = 4.
Proof.
  assert (match OpenJournal dev_torn 0 4 with
          | Ok j => JData j = (data2, 2) ∧ start j = 0 ∧ jlength j = 4 | _ => False end) as Hm
    by (vm_compute; split_and!; reflexivity).
  destruct (OpenJournal dev_torn 0 4) as [j| | |]; [by exists j|done..].
Qed.

Lemma crash_recovery_witness :
  ∃ j', OpenJournal dev_torn 0 4 = Ok j' ∧ JData j' = (data2, 2).
Proof.
  destruct demo_inv2 as (g & es & q & Hinv).
  destruct (crash_recovery dev2 jrn2 heads2 g es q data3 dev_torn 1 Hinv adm3 partial_torn)
    as (j' & Ho & _ & _ & _).
  - exact torn_is_detected.
  - rewrite (proj1 jrn2_geo), (proj2 jrn2_geo) in Ho. exists j'. split; [exact Ho|].
    destruct torn_opens as (j & Hj & HD & _). rewrite Ho in Hj. injection Hj as ->. exact HD.
Defined.

(** ** Further witnesses *)

Lemma update_commits_or_keeps_witness :
  ∃ d' j', Update data3 (dev2, jrn2) = (d', j', Ok ()) ∧ JData j' = (data3, 3).
Proof.
  destruct demo_inv2 as (g & es & q & Hinv).
  destruct (update_commits_or_keeps dev2 jrn2 heads2 g es q data3 Hinv adm3)
    as (d' & j' & r & HU & Hr).
  assert ((Update data3 (dev2, jrn2)).2 = Ok ()) as Hok by (vm_compute; reflexivity).
  rewrite HU in Hok. cbn in Hok. subst r. destruct Hr as [HD _].
  exists d', j'. split; [exact HU|]. rewrite HD. vm_compute. reflexivity.
Defined.

(** Two updates are committed; power is lost during the third, of which the
    first block has been stored; the journal is opened once more. *)
Definition state0 : jstate := mkJst dev0 jrn0 heads0 false.
Definition heads_torn : headmap :=
  heads_after heads2 (write_block dev2 jrn2 (new_entry jrn2 data3)) 1 (new_entry jrn2 data3).
Definition state_torn (j : Journal) : jstate := mkJst dev_torn j heads_torn false.

Lemma journal_refines_register_witness :
  ∃ j r', run reg_step (mkReg [] 0 None) [Commit data1; Commit data2; Crash data3; Reopen] r' ∧
    sim (state_torn j) r' ∧ reg_data r' = data2 ∧ reg_rev r' = 2.
Proof.
  destruct torn_opens as (j & Ho & HD & Hst' & HL'). pose proof jrn2_geo as [Hst HL].
  pose proof torn_is_detected as Ht. rewrite Hst, HL in Ht. fold heads_torn in Ht.
  destruct (journal_refines_register state0 (state_torn j) (mkReg [] 0 None) [Commit data1; Commit data2; Crash data3; Reopen])
    as (r' & Hr & Hsim).
  - split; [reflexivity|]. split; [reflexivity|]. exists 4, [], 4. exact demo_inv0.
  - apply (run_cons _ _ _ (mkJst dev1 jrn1 heads1 false)); [exact (js_commit dev0 jrn0 heads0 data1 dev1 jrn1 adm1 run1_ok)|].
    apply (run_cons _ _ _ (mkJst dev2 jrn2 heads2 false)); [exact (js_commit dev1 jrn1 heads1 data2 dev2 jrn2 adm2 run2_ok)|].
    apply (run_cons _ _ _ (state_torn j)).
    { apply (js_crash dev2 jrn2 heads2 data3 dev_torn j 1 adm3 partial_torn torn_is_detected). rewrite Hst, HL. exact Ho. }
    apply (run_cons _ _ _ (state_torn j)); [|apply run_nil].
    apply (js_reopen dev_torn j heads_torn false j); rewrite Hst', HL'; [exact Ht|exact Ho].
  - exists j, r'. split; [exact Hr|]. split; [exact Hsim|]. destruct Hsim as [HD' _]. cbn [jj state_torn] in HD'.
    rewrite HD in HD'. injection HD' as <- <-. split; reflexivity.
Defined.
End JournalProps.
