(* ===== verification/JournalLimits.v ===== *)
(** * The journal on arbitrary storage, and at its limits

    Termination of the scan whatever the device holds, the refusals of
    [Update], and how far apart the new and the current record are kept. *)

From S2P Require Import Prelude Sha256 BlockDev MemDev Entry Journal JournalInv JournalWrite JournalSpec.
From S2P Require Import JournalDemo.
Import MemDev Entry Journal JournalInv JournalWrite JournalSpec JournalDemo.

Module JournalLimits.

(** ** Termination of the scan on any device contents *)

Section Terminates.
Context `{P : Platform} `{B : !BlockReaderWriter D}.

(** A device of [cap] blocks: a read either fails or fills the caller's
    buffer, with whatever bytes. *)
Definition sized (d : D) (cap : Z) : Prop :=
  0 < BlockSize d ∧ cap * BlockSize d < 2 ^ uint_bits ∧
  ∀ lba buf, match ReadBlocks d lba buf with
             | Ok b => len b = len buf ∧ lba < cap
             | NoFuel => False
             | _ => True
             end.

(** The reader's buffer is one block long and its position on the device. *)
Definition buffered (d : D) (cap : Z) (br : blockReader D) : Prop :=
  br_dev br = d ∧ len (br_buf br) = BlockSize d ∧ 0 ≤ br_pos br ≤ cap * BlockSize d.

Context (d : D) (cap : Z) (Hd : sized d cap).

Lemma copy_progress buf pos n :
  len buf = BlockSize d → 0 ≤ pos → 0 < n → pos / BlockSize d < cap →
  ∃ br' b, br_copy (mkBlockReader d buf pos) n = (br', Ok b) ∧ buffered d cap br' ∧
           0 < len b ≤ n ∧ br_pos br' = pos + len b.
Proof.
  intros Hl Hpos Hn Hcap. destruct Hd as (Hbs & Hmax & _).
  pose proof (Z.mod_pos_bound pos (BlockSize d) Hbs) as Hm.
  pose proof (Z.div_mod pos (BlockSize d)) as Hdm.
  unfold br_copy. cbn [br_dev br_buf br_pos].
  remember (pos mod BlockSize d) as m eqn:Em.
  assert (len (zdrop m buf) = BlockSize d - m) as Hsrc by (rewrite len_drop; lia).
  rewrite Hsrc. remember (n `min` (BlockSize d - m)) as l eqn:El.
  assert (0 < l ≤ n ∧ l ≤ BlockSize d - m) as [Hmin Hle] by lia.
  assert (len (ztake l (zdrop m buf)) = l) as Hlen by (apply len_take; lia).
  assert (pos + l ≤ cap * BlockSize d) by nia.
  eexists _, _. split; [done|]. rewrite Hlen. unfold buffered. cbn [br_dev br_buf br_pos].
  assert (pos +ᵤ to_uint l = pos + l) as -> by (rewrite to_uint_small, uadd_small; lia).
  split_and!; try done; lia.
Qed.

(** A call of [Read] that succeeds delivers at least one byte. *)
Lemma Read_progress br n :
  buffered d cap br → 0 < n →
  match block_reader br n with
  | (br', Ok b) => buffered d cap br' ∧ 0 < len b ≤ n ∧ br_pos br' = br_pos br + len b
  | (_, NoFuel) => False
  | _ => True
  end.
Proof.
  destruct br as [d0 buf pos]. intros (Hd0 & Hbuf & Hpos) Hn. cbn [br_dev br_buf br_pos] in *.
  subst d0. destruct Hd as (Hbs & Hmax & Hr).
  unfold block_reader. cbn [br_dev br_buf br_pos].
  rewrite (proj2 (Z.eqb_neq _ _)) by lia. case_test.
  - specialize (Hr (pos / BlockSize d) buf).
    destruct (ReadBlocks _ _ _) as [b| | |]; [|done..].
    destruct (copy_progress b pos n) as (br' & b' & -> & ? & ? & ?); [lia..|]. done.
  - destruct (copy_progress buf pos n) as (br' & b' & -> & ? & ? & ?); [lia..| |done].
    apply Z.div_lt_upper_bound; [done|].
    destruct (decide (pos = cap * BlockSize d)) as [->|]; [|lia].
    by rewrite Z.mod_mul in E by lia.
Qed.

Lemma ReadFull_loop_progress fuel n acc br :
  buffered d cap br → n - len acc ≤ Z.of_nat fuel → len acc ≤ n →
  match ReadFull_loop fuel n acc br with
  | (br', Ok b) => buffered d cap br' ∧ br_pos br' = br_pos br + (n - len acc)
  | (_, NoFuel) => False
  | _ => True
  end.
Proof.
  revert acc br. induction fuel as [|fuel IH]; intros acc br Hb Hf Hacc;
    cbn [ReadFull_loop]; (case_test; [cbn; split; [done|lia]|]).
  - lia.
  - pose proof (Read_progress br (n - len acc) Hb ltac:(lia)) as HR.
    unfold mbind, M_bind, Read.
    destruct (block_reader br (n - len acc)) as [br1 [b| | |]]; [|done..].
    destruct HR as (Hb1 & Hlen & Hpos). specialize (IH (acc ++ b) br1 Hb1).
    rewrite len_app in IH. specialize (IH ltac:(lia) ltac:(lia)).
    destruct (ReadFull_loop fuel n (acc ++ b) br1) as [br2 [b2| | |]]; [|done..].
    destruct IH as (Hb2 & Hp2). split; [done|lia].
Qed.

(** One field of the record is read, with the error context of the code. *)
Lemma ctx_ReadFull_progress {A} msg n br (f : bytes → M (blockReader D) A)
    (Q : blockReader D → A → Prop) :
  buffered d cap br → 0 ≤ n →
  (∀ br' b, buffered d cap br' → br_pos br' = br_pos br + n →
    match f b br' with (br2, Ok a) => Q br2 a | (_, NoFuel) => False | _ => True end) →
  match (ctx msg (ReadFull n) ≫= f) br with
  | (br2, Ok a) => Q br2 a | (_, NoFuel) => False | _ => True
  end.
Proof.
  intros Hb Hn Hf. pose proof (ReadFull_loop_progress (Z.to_nat n) n [] br Hb) as HR.
  change (len (@nil byte)) with 0 in HR. rewrite Z.sub_0_r in HR.
  specialize (HR ltac:(lia) ltac:(lia)).
  unfold mbind, M_bind, ctx, ReadFull.
  destruct (ReadFull_loop _ n [] br) as [br1 [b| | |]]; [|done..].
  destruct HR as [Hb1 Hp]. by apply Hf.
Qed.

(** A record that is accepted lies on the device behind the reader. *)
Lemma unmarshal_progress br :
  buffered d cap br →
  match unmarshalEntry br with
  | (br', Ok e) => buffered d cap br' ∧ br_pos br + entryHeaderSize ≤ br_pos br' ∧ 0 < Revision e
  | (_, NoFuel) => False
  | _ => True
  end.
Proof.
  intros Hb. unfold unmarshalEntry, entryHeaderSize.
  apply (ctx_ReadFull_progress _ _ _ _ (λ br' e, buffered d cap br' ∧
    br_pos br + (4 + 4 + 8 + 32) ≤ br_pos br' ∧ 0 < Revision e)); [done|lia|].
  intros br1 magic Hb1 Hp1. case_test; [done|].
  apply ctx_ReadFull_progress; [done|lia|]. intros br2 rev Hb2 Hp2.
  case_test; [done|].
  apply ctx_ReadFull_progress; [done|lia|]. intros br3 dl Hb3 Hp3.
  apply ctx_ReadFull_progress; [done|lia|]. intros br4 sha Hb4 Hp4.
  case_test; [done|]. pose proof (be_decode_range dl). pose proof (be_decode_range rev).
  apply ctx_ReadFull_progress; [done|lia|]. intros br5 data Hb5 Hp5.
  case_test; [done|]. cbn. split_and!; [done|lia..].
Qed.

(** Every turn of the scan moves at least one block on. *)
Lemma init_loop_progress st L fuel lba last next :
  0 ≤ st → 0 ≤ L → st + L ≤ cap → 0 ≤ lba → st + L - lba ≤ Z.of_nat fuel →
  init_loop fuel d st L lba last next ≠ NoFuel.
Proof.
  intros Hst HL Hcap. destruct Hd as (Hbs & Hmax & _).
  revert lba last next. induction fuel as [|fuel IH]; intros lba last next Hlba Hf;
    cbn [init_loop].
  all: rewrite uadd_small by nia; destruct (lba <? st + L) eqn:E; [|done]; bool_prop; try lia.
  assert (lba * BlockSize d < cap * BlockSize d) by nia.
  assert (newBlockReader d lba = mkBlockReader d (replicate (Z.to_nat (BlockSize d)) x00)
            (lba * BlockSize d)) as Enew
    by (unfold newBlockReader; rewrite umul_small by nia; done).
  assert (buffered d cap (newBlockReader d lba)) as Hnew.
  { rewrite Enew. unfold buffered. cbn [br_dev br_buf br_pos].
    unfold len. rewrite length_replicate. split_and!; [done|lia|nia..]. }
  assert (br_pos (newBlockReader d lba) = lba * BlockSize d) as Hp0 by (by rewrite Enew).
  pose proof (unmarshal_progress _ Hnew) as HU. rewrite Hp0 in HU.
  destruct (unmarshalEntry (newBlockReader d lba)) as [br [e| | |]]; [| |done..].
  - destruct HU as ((_ & _ & Hle) & Hpos & _). unfold entryHeaderSize in Hpos.
    assert (0 ≤ lba * BlockSize d) by nia.
    assert (lba ≤ (br_pos br - 1) / BlockSize d) by (apply Z.div_le_lower_bound; lia).
    case_test; [|by case_test].
    rewrite usub_small by lia.
    assert ((br_pos br - 1) / BlockSize d < cap) by (apply Z.div_lt_upper_bound; lia).
    rewrite uadd_small by nia. apply IH; lia.
  - case_test; [done|]. rewrite uadd_small by nia. apply IH; lia.
Qed.

End Terminates.

(** C20 Opening a journal terminates whatever the storage holds: on a device of
    [cap] blocks that is smaller than the address space, whose reads fail or
    fill the buffer with arbitrary bytes, the scan for the current record
    visits at most as many positions as the journal has blocks. *)
Theorem open_terminates `{P : Platform} `{B : !BlockReaderWriter D} (d : D) (cap st L : Z) :
  sized d cap → 0 ≤ st → 0 ≤ L → st + L ≤ cap → OpenJournal d st L ≠ NoFuel.
Proof.
  intros Hd Hst HL Hcap. unfold OpenJournal, init. cbn [jlength start].
  pose proof (init_loop_progress d cap Hd st L (Z.to_nat L) st zero_entry st) as H.
  destruct (init_loop _ _ _ _ _ _ _) as [[]| | |]; [done..|].
  intros _. apply H; lia || done.
Qed.

Lemma read_loop_len st lba bl b : len (read_loop st lba bl b) = len b.
Proof.
  unfold read_loop. induction (seq 0 (Z.to_nat bl)) as [|i l IH] using rev_ind; [done|].
  rewrite foldl_app. cbn [foldl]. rewrite <-IH. unfold len. f_equal. apply length_copy_at.
Qed.

(** Whatever its blocks hold, a [MemDev] is such a device. *)
Lemma memdev_sized md :
  len (Storage md) * MemBlockSize < 2 ^ uint_bits → sized md (len (Storage md)).
Proof.
  intros Hl. split; [done|]. split; [done|].
  intros lba buf. cbn [ReadBlocks memdev_rw]. unfold md_ReadBlocks. case_test; [done|].
  split; [|lia]. apply read_loop_len.
Qed.

Lemma open_terminates_witness : OpenJournal dev2 0 4 ≠ NoFuel.
Proof.
  apply (open_terminates dev2 (len (Storage dev2)) 0 4).
  - apply memdev_sized. vm_compute. reflexivity.
  - lia.
  - lia.
  - vm_compute. discriminate.
Defined.

(** ** The size limit *)

Section Limit.
Context `{P : Platform} `{B : !BlockReaderWriter D}.

Lemma open_fields (d : D) st L j :
  OpenJournal d st L = Ok j →
  start j = st ∧ jlength j = L ∧
  maxDataBytes j = (L *ᵤ BlockSize d) / minEntries -ᵤ entryHeaderSize.
Proof.
  unfold OpenJournal, init. cbn [start jlength maxDataBytes].
  destruct (init_loop _ _ _ _ _ _ _) as [[e n]| | |]; cbn; by intros [= <-].
Qed.

(** C19 The limit on the size of a record: [Update] on an opened journal
    refuses data for which header and data exceed a third of the journal, and
    touches neither the storage nor the journal.  A journal so small that a
    third of it does not hold a header refuses everything: the limit
    underflows as a [uint] and is negative as the [int] it is compared as. *)
Theorem update_size_limit (d d' : D) (st L : Z) (j : Journal) (data : bytes) :
  OpenJournal d st L = Ok j → 0 ≤ L * BlockSize d < 2 ^ (uint_bits - 1) →
  L * BlockSize d / minEntries < entryHeaderSize + len data →
  Update data (d', j) = (d', j, Err "larger than the max permitted in this journal").
Proof.
  intros Ho HL Hd. destruct (open_fields _ _ _ _ Ho) as (_ & _ & Hm). pose proof uint_half.
  assert (0 ≤ L * BlockSize d / minEntries ≤ L * BlockSize d) as Hb.
  { unfold minEntries. split; [apply Z.div_pos; lia|apply Z.div_le_upper_bound; lia]. }
  unfold Update. rewrite Hm, umul_small by lia.
  assert (to_int (L * BlockSize d / minEntries -ᵤ entryHeaderSize) < len data) as Hlt.
  { pose proof (len_nonneg data). unfold entryHeaderSize in *.
    assert (64 < 2 ^ (uint_bits - 1)) by (by destruct uint_bits_cases as [-> | ->]).
    destruct (decide (4 + 4 + 8 + 32 ≤ L * BlockSize d / minEntries)).
    - rewrite usub_small by lia. rewrite to_int_small by lia. lia.
    - assert (to_int (L * BlockSize d / minEntries -ᵤ (4 + 4 + 8 + 32)) =
              - (48 - L * BlockSize d / minEntries)) as ->; [|lia].
      rewrite <-to_int_neg by lia. unfold to_int, usub, wrap.
      rewrite Z.mod_mod by lia. by replace (- (48 - L * BlockSize d / minEntries))
        with (L * BlockSize d / minEntries - (4 + 4 + 8 + 32)) by lia. }
  by rewrite (proj2 (Z.ltb_lt _ _) Hlt).
Qed.
End Limit.

Lemma update_size_limit_witness :
  Update (replicate 635 xaa) (dev0, jrn0) =
    (dev0, jrn0, Err "larger than the max permitted in this journal").
Proof.
  apply (update_size_limit dev0 dev0 0 4 jrn0 (replicate 635 xaa)).
  - exact demo_open.
  - vm_compute. split; discriminate || reflexivity.
  - vm_compute. reflexivity.
Defined.

(** ** The new record and the current one *)

Section Apart.
Context `{P : Platform} `{B : !BlockReaderWriter D} `{BD : !BlockDevice D}.

(** Where the last record of a chain is. *)
Lemma chain_last_intact bs st L c h r p es q e0 :
  chain bs st L c h r p es q → es ≠ [] →
  intact bs c (q - extent bs (last_from e0 es)) (last_from e0 es).
Proof.
  revert r p e0. induction es as [|e es IH]; intros r p e0; [done|]. cbn [chain].
  intros (_ & _ & Hin & _ & Hc) _. destruct es as [|e' es].
  - cbn in Hc. subst q. cbn. by replace (p + extent bs e - extent bs e) with p by lia.
  - change (last_from e0 (e :: e' :: es)) with (last_from e (e' :: es)).
    by apply (IH (Revision e) (p + extent bs e) e).
Qed.

(** C18 An update never writes over the current record, in a journal whose
    number of blocks is not 1 modulo 3: the blocks of the new record and the
    blocks where the current record is found are disjoint.  (When it is 1
    modulo 3 the last block of a new record of maximal size may fall on the
    first block of the current one.) *)
Theorem update_spares_current (d : D) (j : Journal) h g es q (data : bytes) :
  journal_inv d j h g es q → admissible d j data → Revision (current j) ≠ 0 →
  jlength j mod 3 ≠ 1 →
  let e := new_entry j data in
  let lba := write_block d j e in
  ∃ p, intact (BlockSize d) (contents d) p (current j) ∧
    (p + extent (BlockSize d) (current j) ≤ lba ∨ lba + extent (BlockSize d) e ≤ p).
Proof.
  intros Hinv Hadm Hrev Hmod e lba.
  destruct (new_entry_ok _ _ _ _ _ _ _ Hinv Hadm) as [Hok _]. fold e in Hok.
  destruct (write_position _ _ _ _ _ _ e Hinv Hok) as (_ & _ & Hpos). fold lba in Hpos.
  destruct Hinv as [G Hwf Hlay Hcur _ _]. destruct Hlay as [Hh Hg Hq Hc _ _ _].
  assert (es ≠ []) as Hne by (intros ->; by rewrite Hcur in Hrev).
  pose proof (chain_last_intact _ _ _ _ _ _ _ _ _ zero_entry Hc Hne) as Hin.
  fold (last_entry es) in Hin. rewrite <-Hcur in Hin.
  exists (q - extent (BlockSize d) (current j)). split; [done|].
  destruct Hpos as [[-> _]|[-> Hroom]]; [left; lia|right].
  pose proof (chain_record_ok _ _ _ G _ _ _ _ _ _ zero_entry Hh Hg Hc Hne) as Hlast.
  change (last_from zero_entry es) with (last_entry es) in Hlast. rewrite <-Hcur in Hlast.
  pose proof (extent_max _ _ _ G _ Hok). pose proof (extent_max _ _ _ G _ Hlast).
  pose proof (max_extent_third _ _ _ G).
  assert (3 * max_extent (BlockSize d) (jlength j) ≤ jlength j + 1); [|lia].
  pose proof (Z.div_mod (jlength j) 3). pose proof (Z.mod_pos_bound (jlength j) 3). lia.
Qed.
End Apart.

(** ** Where the journal's promise ends *)

(** The last revision: once the revision of the current record is the
    largest of 32 bits, the next record gets revision 0, and such a record is
    rejected by every later scan. *)
Theorem revision_exhausted `{P : Platform} (j : Journal) (data : bytes) :
  Revision (current j) = 2 ^ 32 - 1 →
  marshalEntry (new_entry j data) = Ok (encoding (new_entry j data)) ∧
  (unmarshalEntry (encoding (new_entry j data))).2 = Err "zero is not a valid revision".
Proof.
  intros Hr. split.
  - unfold marshalEntry, new_entry. cbn [Magic Data DataSHA256].
    rewrite !bool_decide_false by (by intros []). done.
  - unfold encoding, header, new_entry. cbn [Revision DataLen DataSHA256 Data]. rewrite Hr.
    replace (wrap 32 (2 ^ 32 - 1 + 1)) with 0 by done. reflexivity.
Qed.
End JournalLimits.
