(* ===== verification/JournalFaults.v ===== *)
(** * Storage faults the journal does not survive

    Concrete runs of the journal on the in-memory device that mark where its
    guarantees end: a torn block under a record of maximal size, data that
    contains a record, and a device that corrupts what it stores.  Also the
    witnesses of the limits of [JournalLimits] that need their own runs. *)

From S2P Require Import Prelude Sha256 BlockDev MemDev Entry Journal JournalInv JournalWrite JournalSpec.
From S2P Require Import JournalDemo JournalLimits.
Import MemDev Entry Journal JournalInv JournalWrite JournalSpec JournalDemo JournalLimits.

Module JournalFaults.

(** Updates one after the other, as far as they succeed. *)
Fixpoint updates (l : list bytes) : M (MemDev * Journal) unit :=
  match l with
  | [] => mret ()
  | b :: l' => Update b ≫= λ _, updates l'
  end.

(** The journal's content after reopening it on the storage. *)
Definition reopen (md : MemDev) (st L : Z) : res (bytes * Z) :=
  j ← OpenJournal md st L; mret (JData j).

(** ** A three-block journal, full, about to wrap around *)

Definition small0 : MemDev * Journal := (NewMemDev 3, mkJournal 0 3 zero_entry 0 464).
Definition small1 : MemDev * Journal := (Update data1 small0).1.
Definition small2 : MemDev * Journal := (Update data1 small1).1.
Definition small3 : MemDev * Journal := (Update data1 small2).1.

Lemma small_inv0 : journal_inv small0.1 small0.2 heads0 3 [] 3.
Proof.
  destruct (open_layout (NewMemDev 3) 0 3 heads0 3 [] 3) as (j & Ho & _ & _ & Hinv).
  - split; vm_compute; done.
  - by apply NewMemDev_wf.
  - apply fresh_layout; [split; vm_compute; done|]. intros p Hp.
    exists (replicate 512 x00). assert (p = 0 ∨ p = 1 ∨ p = 2) as Hc by lia.
    destruct_or!; subst; vm_compute; done.
  - apply fresh_detected.
  - assert (OpenJournal (NewMemDev 3) 0 3 = Ok small0.2) as E by (vm_compute; reflexivity).
    rewrite E in Ho. by injection Ho as <-.
Qed.

(** One more value of [data1]. *)
Lemma small_step s h g es q :
  journal_inv s.1 s.2 h g es q → admissible s.1 s.2 data1 → (Update data1 s).2 = Ok () →
  ∃ h' g' es' q', journal_inv (Update data1 s).1.1 (Update data1 s).1.2 h' g' es' q'.
Proof.
  destruct s as [d j]. cbn [fst snd]. intros Hinv Hadm Hr.
  destruct (Update data1 (d, j)) as [[d' j'] r] eqn:E. cbn [fst snd] in *. subst r.
  destruct (step_inv _ _ _ _ _ _ _ _ _ Hinv Hadm E) as (g' & es' & q' & Hinv'). eauto.
Qed.

Ltac adm_data := split; [vm_compute; done|vm_compute; done|apply (bool_decide_unpack _); vm_compute; exact I].

Lemma small_inv3 : ∃ h g es q, journal_inv small3.1 small3.2 h g es q.
Proof.
  destruct (small_step small0 _ _ _ _ small_inv0) as (h1 & g1 & es1 & q1 & Hinv1);
    [adm_data|vm_compute; reflexivity|].
  destruct (small_step small1 _ _ _ _ Hinv1) as (h2 & g2 & es2 & q2 & Hinv2);
    [adm_data|vm_compute; reflexivity|].
  apply (small_step small2 _ _ _ _ Hinv2); [adm_data|vm_compute; reflexivity].
Qed.

Lemma small_adm3 : admissible small3.1 small3.2 data1.
Proof. adm_data. Qed.

(** The fourth value wraps around. *)
Lemma small3_wraps : write_block small3.1 small3.2 (new_entry small3.2 data1) = 0.
Proof. vm_compute. reflexivity. Qed.

Lemma update_spares_current_witness :
  ∃ p, intact (BlockSize small3.1) (contents small3.1) p (current small3.2) ∧
    (p + extent (BlockSize small3.1) (current small3.2) ≤ 0 ∨
     0 + extent (BlockSize small3.1) (new_entry small3.2 data1) ≤ p).
Proof.
  destruct small_inv3 as (h & g & es & q & Hinv). rewrite <-small3_wraps.
  apply (update_spares_current small3.1 small3.2 h g es q data1 Hinv small_adm3).
  - vm_compute. discriminate.
  - vm_compute. discriminate.
Defined.

Lemma revision_exhausted_witness :
  (unmarshalEntry (encoding (new_entry
     (mkJournal 0 3 (mkEntry magic0 (2 ^ 32 - 1) 0 [] []) 0 464) data1))).2
  = Err "zero is not a valid revision".
Proof.
  apply (revision_exhausted (mkJournal 0 3 (mkEntry magic0 (2 ^ 32 - 1) 0 [] []) 0 464) data1).
  reflexivity.
Defined.

(** ** Faults *)

(** The third record of [JournalDemo] has two blocks, the most a record may
    have there, and wraps around: its second block lies over the header of the
    current record.  Here the first block has been stored and the second one
    in part: its first 128 bytes are new, the others old. *)
Definition torn_block : bytes :=
  ztake 128 (blk 512 (encoding (new_entry jrn2 data3)) 1)
    ++ zdrop 128 (default [] (Storage dev2 !! 1%nat)).
Definition dev_torn_block : MemDev :=
  mkMemDev (<[0%nat := blk 512 (encoding (new_entry jrn2 data3)) 0]>
             (<[1%nat := torn_block]> (Storage dev2))) None.

(** A block torn by power loss can cost the current record when the number
    of blocks of the journal is 1 modulo 3: both earlier updates were
    acknowledged, yet after the interrupted third one the journal opens as
    empty.  The deployed slots, of 1024 blocks, are such journals: three
    records of maximal size need 1026. *)
Theorem torn_block_loses_current :
  reopen dev2 0 4 = Ok (data2, 2) ∧
  reopen dev_torn_block 0 4 = Ok ([], 0) ∧
  3 * max_extent 512 4 = 4 + 2 ∧ 3 * max_extent 512 1024 = 1024 + 2.
Proof. vm_compute. done. Qed.

(** Data whose bytes from the second block on are a record of revision 100. *)
Definition forged : entry := mkEntry magic0 100 3 (Sha256.Sum256 [x66; x66; x66]) [x66; x66; x66].
Definition carrier : bytes := replicate (512 - 48) x00 ++ encoding forged.

(** Data that holds a record at a block boundary can be taken for one: the
    six-block journal is given [carrier] and then three more values, all
    acknowledged; the last one wraps around over the start of the first, so
    that the next scan runs into the record within the remains of [carrier]
    and takes its revision 100 for the newest. *)
Theorem embedded_record_is_taken :
  let '(md, j, r) := updates [carrier; replicate 600 xaa; replicate 600 xbb; [x01]]
                       (NewMemDev 6, mkJournal 0 6 zero_entry 0 976) in
  r = Ok () ∧ JData j = ([x01], 4) ∧ reopen md 0 6 = Ok ([x66; x66; x66], 100).
Proof. vm_compute. done. Qed.

(** The device of the test: it flips bits of the first byte of every block it
    has written. *)
Definition flip (lba : Z) (st : list bytes) : list bytes :=
  alter (λ b, copy_at 0 b [z2b (Z.lxor (b2z (default x00 (b !! 0%nat))) 0x23)]) (Z.to_nat lba) st.
Definition bad_dev : MemDev := mkMemDev (replicate 20 (replicate 512 x00)) (Some flip).

(** [Update] does not read back what it wrote: on a device that corrupts
    every block it reports success, and its own [Data] returns the new value,
    although nothing can be read back from the storage. *)
Theorem update_does_not_verify :
  let '(md, j, r) := Update (replicate 1000 x61) (bad_dev, mkJournal 1 19 zero_entry 1 3194) in
  OpenJournal bad_dev 1 19 = Ok (mkJournal 1 19 zero_entry 1 3194) ∧
  r = Ok () ∧ JData j = (replicate 1000 x61, 1) ∧ reopen md 1 19 = Ok ([], 0).
Proof. vm_compute. done. Qed.
End JournalFaults.
