(* ===== verification/Slots.v ===== *)
(** * Partitions and slots (slots/slots.go)

    A [Partition] owns the device and the slots laid out on it.  The [*Slot]
    that [Partition.Open] returns points into the partition's slice, so it is
    modelled as the index of the slot, and a method called through it acts on
    the partition ([on_slot]).  [journal == nil] is [None]; the methods that
    use the journal then panic. *)

From S2P Require Import Prelude BlockDev Entry Journal.
Import Entry Journal.

Module Slots.

Record Geometry := mkGeometry {
  gStart : Z;
  gLength : Z;
  SlotLengths : list Z;
}.

Record Slot := mkSlot {
  s_start : Z;
  s_length : Z;
  s_journal : option Journal;
}.

Record Partition (D : Type) := mkPartition {
  p_dev : D;
  p_slots : list Slot;
}.
Arguments mkPartition {D} _ _.
Arguments p_dev {D} _.
Arguments p_slots {D} _.

Section Slots.
Context `{P : Platform} `{B : !BlockReaderWriter D}.

Definition Validate (g : Geometry) : res unit :=
  let t := foldl uadd 0 (SlotLengths g) in
  if gLength g <? t then Err "invalid geometry: total slot length exceeds overall length"
  else Ok ().

(** The slots laid out one after the other from block [b] on. *)
Fixpoint lay_out (b : Z) (ls : list Z) : list Slot :=
  match ls with
  | [] => []
  | l :: ls' => mkSlot b l None :: lay_out (b +ᵤ l) ls'
  end.

Definition OpenPartition (rw : D) (geo : Geometry) : res (Partition D) :=
  _ ← Validate geo;
  mret (mkPartition rw (lay_out (gStart geo) (SlotLengths geo))).

(** ** Slots *)

Definition Slot_Open (dev : D) (s : Slot) : Slot * res unit :=
  match s_journal s with
  | Some _ => (s, Ok ())
  | None =>
    match OpenJournal dev (s_start s) (s_length s) with
    | Ok j => (mkSlot (s_start s) (s_length s) (Some j), Ok ())
    | Err _ => (s, Err "failed to open journal")
    | Panic e => (s, Panic e)
    | NoFuel => (s, NoFuel)
    end
  end.

Definition Slot_Read : M (D * Slot) (bytes * Z) := λ '(dev, s),
  match s_journal s with
  | Some j => (dev, s, Ok (JData j))
  | None => (dev, s, Panic "nil pointer dereference")
  end.

(** [s.journal.Update(p)]: the journal is updated in place. *)
Definition Slot_Write (p : bytes) : M (D * Slot) unit := λ '(dev, s),
  match s_journal s with
  | Some j => let '(dev', j', r) := Update p (dev, j) in
              (dev', mkSlot (s_start s) (s_length s) (Some j'), r)
  | None => (dev, s, Panic "nil pointer dereference")
  end.

Definition Slot_CheckAndWrite (token : Z) (p : bytes) : M (D * Slot) unit := λ '(dev, s),
  match s_journal s with
  | Some j => if Revision (current j) =? token then Slot_Write p (dev, s)
              else (dev, s, Err "invalid token, slot updated since then")
  | None => (dev, s, Panic "nil pointer dereference")
  end.

(** ** Partitions *)

Definition NumSlots (p : Partition D) : Z := len (p_slots p).

(** A method of the slot that a pointer into the partition refers to. *)
Definition on_slot {A} (i : Z) (m : M (D * Slot) A) : M (Partition D) A := λ p,
  match p_slots p !! Z.to_nat i with
  | Some s => let '(dev', s', r) := m (p_dev p, s) in
              (mkPartition dev' (<[Z.to_nat i := s']> (p_slots p)), r)
  | None => (p, Panic "index out of range")
  end.

Definition eraseSlot (i : Z) : M (Partition D) unit :=
  on_slot i (λ '(dev, s),
    let s' := mkSlot (s_start s) (s_length s) None in
    let length := s_length s *ᵤ BlockSize dev in
    if max_alloc <? length then (dev, s', Panic "makeslice: len out of range")
    else match WriteBlocks dev (s_start s) (replicate (Z.to_nat length) x00) with
         | (dev', Ok _) => (dev', s', Ok ())
         | (dev', Err _) => (dev', s', Err "slot occupying blocks")
         | (dev', Panic e) => (dev', s', Panic e)
         | (dev', NoFuel) => (dev', s', NoFuel)
         end).

(** The loop of [Erase]: an error is logged and the loop goes on. *)
Fixpoint erase_loop (idxs : list nat) : M (Partition D) unit :=
  match idxs with
  | [] => mret ()
  | i :: idxs' => λ p,
    match eraseSlot (Z.of_nat i) p with
    | (p', Ok _) | (p', Err _) => erase_loop idxs' p'
    | (p', Panic e) => (p', Panic e)
    | (p', NoFuel) => (p', NoFuel)
    end
  end.

(** [borked] is never assigned after its initialisation. *)
Definition Erase : M (Partition D) unit := λ p,
  let borked := false in
  (erase_loop (seq 0 (length (p_slots p))) ≫= λ _,
   if borked then lift (Err "failed to erase one or more slots in partition") else mret ()) p.

(** An error of [Slot.Open] is logged, the slot is returned regardless. *)
Definition Partition_Open (slot : Z) : M (Partition D) Z := λ p,
  if to_uint (len (p_slots p)) <=? slot then (p, Err "invalid slot")
  else on_slot slot (λ '(dev, s),
    let '(s', r) := Slot_Open dev s in
    match r with
    | Ok _ | Err _ => (dev, s', Ok slot)
    | Panic e => (dev, s', Panic e)
    | NoFuel => (dev, s', NoFuel)
    end) p.

Definition Read (i : Z) : M (Partition D) (bytes * Z) := on_slot i Slot_Read.
Definition Write (i : Z) (p : bytes) : M (Partition D) unit := on_slot i (Slot_Write p).
Definition CheckAndWrite (i token : Z) (p : bytes) : M (Partition D) unit :=
  on_slot i (Slot_CheckAndWrite token p).
End Slots.
End Slots.
