(* ===== verification/SlotStore.v ===== *)
(** * What the slots promise to the persistence layer

    [SlotOps] are the operations of slots.Partition and slots.Slot that
    persistence.go calls; [SlotStore] states their contract in terms of one
    register per slot, its data and its revision.  [Slots] implements it over
    any block device. *)

From S2P Require Import Prelude.

(** A register: what [Read] returns. *)
Abbreviation reg := (bytes * Z)%type.

Class SlotOps (S : Type) := {
  slot_NumSlots : S → Z;
  slot_Open : Z → M S Z;
  slot_Read : Z → M S (bytes * Z);
  slot_CheckAndWrite : Z → Z → bytes → M S unit;
}.

Class SlotStore (S : Type) `{Platform} `{!SlotOps S} := {
  (** The registers a store holds. *)
  holds : S → list reg → Prop;
  (** Slot [i] has been opened. *)
  opened : S → Z → Prop;
  (** No write to slot [i] failed in a way that leaves open what is stored. *)
  healthy : S → Z → Prop;
  (** The data can be stored in slot [i]. *)
  storable : S → Z → bytes → Prop;

  NumSlots_spec s rs : holds s rs → slot_NumSlots s = len rs ∧ len rs < 2 ^ (uint_bits - 1);
  holds_rev s rs i r : holds s rs → rs !! i = Some r → 0 ≤ r.2;

  (** Opening a slot changes no register; an invalid index is refused. *)
  Open_spec s rs i :
    holds s rs → 0 ≤ i < len rs →
    ∃ s', slot_Open i s = (s', Ok i) ∧ holds s' rs ∧
      (∀ k, opened s' k ↔ opened s k ∨ k = i) ∧
      (∀ k, healthy s k → healthy s' k) ∧ (∀ k b, storable s' k b ↔ storable s k b);
  Open_invalid s rs i :
    holds s rs → len rs ≤ i → slot_Open i s = (s, Err "invalid slot");

  (** Reading returns the register and changes nothing. *)
  Read_spec s rs i r :
    holds s rs → opened s i → rs !! Z.to_nat i = Some r → slot_Read i s = (s, Ok r);

  (** A write with another token than the revision is refused. *)
  CheckAndWrite_stale s rs i t b r rev :
    holds s rs → opened s i → rs !! Z.to_nat i = Some (r, rev) → rev ≠ t →
    slot_CheckAndWrite i t b s = (s, Err "invalid token, slot updated since then");

  (** Otherwise it either replaces the register of its slot, or fails, and
      then every slot reads as before. *)
  CheckAndWrite_spec s rs i t b r :
    holds s rs → opened s i → healthy s i → storable s i b →
    rs !! Z.to_nat i = Some (r, t) → t + 1 < 2 ^ 32 →
    ∃ s' res, slot_CheckAndWrite i t b s = (s', res) ∧
      (∀ k, opened s' k ↔ opened s k) ∧ (∀ k, k ≠ i → healthy s k → healthy s' k) ∧
      (∀ k b, storable s' k b ↔ storable s k b) ∧
      match res with
      | Ok _ => holds s' (<[Z.to_nat i := (b, t + 1)]> rs) ∧ healthy s' i
      | Err _ => holds s' rs
      | _ => False
      end;
}.

(** ** Restarts *)

(** A slot store whose storage outlives the process: [restart s] is the store
    that a new process opens on the storage of [s].  [accounted s i b] is what
    a restart relies on when [b] is written to slot [i]: whatever part of it
    reaches the storage, a record that is not complete fails its checksum. *)
Class RestartStore (S : Type) `{SlotStore S} := {
  restart : S → S;
  accounted : S → Z → bytes → Prop;

  (** Opening a slot stores nothing. *)
  restart_Open i s s' r : slot_Open i s = (s', r) → restart s' = restart s;
  restart_restart s : restart (restart s) = restart s;
  restart_healthy s k : healthy (restart s) k;
  restart_storable s k b : storable (restart s) k b ↔ storable s k b;

  (** A checked write, of which a restart finds the new data if it returned
      nil, and the new or the old data if not. *)
  CheckAndWrite_restart s rs i t b r s' w :
    holds s rs → opened s i → healthy s i → storable s i b →
    rs !! Z.to_nat i = Some (r, t) → t + 1 < 2 ^ 32 →
    holds (restart s) rs → accounted s i b → slot_CheckAndWrite i t b s = (s', w) →
    ∃ r', holds (restart s') (<[Z.to_nat i := r']> rs) ∧
      (r' = (b, t + 1) ∨ is_ok w = false ∧ r' = (r, t));
}.
