(* ===== verification/SlotsSpec.v ===== *)
(** * The partition implements the slot store

    The invariant of a partition, the isolation of its slots, and the instance
    of [SlotStore] for [Partition] over any block device. *)

From S2P Require Import Prelude Sha256 BlockDev Entry Journal JournalInv JournalWrite JournalSpec.
From S2P Require Import Slots SlotStore.
Import Entry Journal JournalInv JournalWrite JournalSpec Slots.

Module SlotsSpec.

(** ** Which data can be stored, whatever the revision *)

Definition sample_entry (data : bytes) : entry :=
  mkEntry magic0 1 (len data) (Sha256.Sum256 data) data.

Lemma blk_ignores_header bs a b data i :
  0 < bs → len a ≤ bs → len a = len b → 1 ≤ i →
  blk bs (a ++ data) i = blk bs (b ++ data) i.
Proof.
  intros Hbs Ha Hab Hi. unfold blk, pad, zdrop, len in *.
  assert (length b = length a) as Hl by lia.
  rewrite !length_app, <-!app_assoc. rewrite (drop_app_ge a), (drop_app_ge b) by nia. by rewrite Hl.
Qed.

Lemma inert_revision bs j data :
  entryHeaderSize ≤ bs → inert bs (sample_entry data) → inert bs (new_entry j data).
Proof.
  intros Hbs Hin i Hi. specialize (Hin i).
  unfold encoding in *. cbn [new_entry sample_entry Revision DataLen DataSHA256 Data] in *.
  rewrite (blk_ignores_header bs _ (header 1 (len data) (Sha256.Sum256 data))) by
    (rewrite ?len_header by (by rewrite ?Sha256.length_Sum256); unfold entryHeaderSize in *; lia).
  by apply Hin.
Qed.

(** The partition [p] with slot [i] and the device replaced. *)
Abbreviation touched d' p i s' := (mkPartition d' (<[Z.to_nat i := s']> (p_slots p))).

Section Spec.
Context `{P : Platform} `{B : !BlockReaderWriter D} `{BD : !BlockDevice D}.

(** ** One slot *)

(** Slot [s] of a partition on device [d] reads as [r], or will once it is
    opened. *)
Record slot_reads (d : D) (s : Slot) (r : reg) : Prop := {
  sr_geo : geometry_ok (BlockSize d) (s_start s) (s_length s);
  sr_rev : 0 ≤ r.2;
  sr_journal : match s_journal s with
    | Some j => start j = s_start s ∧ jlength j = s_length s ∧ JData j = r
    | None => ∃ h g es q,
        layout (BlockSize d) (s_start s) (s_length s) (contents d) h g es q ∧
        torn_detected (BlockSize d) (s_start s) (s_length s) (contents d) h ∧
        r = (Data (last_entry es), Revision (last_entry es))
    end;
}.

Definition slot_healthy (d : D) (s : Slot) : Prop :=
  match s_journal s with
  | Some j => start j = s_start s ∧ jlength j = s_length s ∧ ∃ h g es q, journal_inv d j h g es q
  | None => True
  end.

(** What can be stored in a slot: the size limit of its journal, and no block
    of the data that would look like a record. *)
Definition slot_storable (d : D) (s : Slot) (b : bytes) : Prop :=
  entryHeaderSize + len b ≤ s_length s * BlockSize d / minEntries ∧
  inert (BlockSize d) (sample_entry b).

(** The slot depends only on its own blocks. *)
Definition same_blocks (d d' : D) (s : Slot) : Prop :=
  dev_wf d' ∧ BlockSize d' = BlockSize d ∧
  ∀ i, s_start s ≤ i < s_start s + s_length s → contents d' i = contents d i.

Lemma slot_reads_frame d d' s r : same_blocks d d' s → slot_reads d s r → slot_reads d' s r.
Proof.
  intros (Hwf & Hbs & Hc) [G Hrv Hj]. split; rewrite ?Hbs; [done|done|].
  destruct (s_journal s) as [j|]; [done|]. destruct Hj as (h & g & es & q & Hl & Ht & ->).
  exists h, g, es, q. split_and!; [by eapply layout_ext| |done].
  eapply torn_detected_ext; [done|done|by destruct Hl|done].
Qed.

Lemma slot_healthy_frame d d' s : same_blocks d d' s → slot_healthy d s → slot_healthy d' s.
Proof.
  intros (Hwf & Hbs & Hc) Hh. unfold slot_healthy in *. destruct (s_journal s) as [j|]; [|done].
  destruct Hh as (Hst & HL & h & g & es & q & [G ? Hl ? ? ?]). split_and!; [done|done|].
  exists h, g, es, q. split; rewrite ?Hbs; [done|done| |done|done|done].
  eapply layout_ext; [done| |done]. by rewrite Hst, HL.
Qed.

(** Opening a slot. *)
Lemma Slot_Open_spec d s r :
  dev_wf d → slot_reads d s r →
  ∃ s', Slot_Open d s = (s', Ok ()) ∧ slot_reads d s' r ∧ (slot_healthy d s → slot_healthy d s') ∧
    is_Some (s_journal s') ∧ s_start s' = s_start s ∧ s_length s' = s_length s.
Proof.
  intros Hwf [G Hrv Hj]. unfold Slot_Open. destruct (s_journal s) as [j|] eqn:E.
  - exists s. split_and!; [done| |done|by rewrite E|done|done]. split; [done|done|]. by rewrite E.
  - destruct Hj as (h & g & es & q & Hl & Ht & ->).
    destruct (open_layout _ _ _ _ _ _ _ G Hwf Hl Ht) as (j & -> & Hst & HL & Hinv).
    exists (mkSlot (s_start s) (s_length s) (Some j)). split_and!; [done| | |done|done|done].
    + split; cbn; [done|done|]. split_and!; [done|done|]. unfold JData.
      by rewrite (ji_current _ _ _ _ _ _ Hinv).
    + intros _. cbn. split_and!; [done|done|]. by exists h, g, es, q.
Qed.

(** Writing to an open, healthy slot. *)
Lemma Slot_Write_spec d s r rev b :
  slot_reads d s (r, rev) → slot_healthy d s → is_Some (s_journal s) →
  slot_storable d s b → rev + 1 < 2 ^ 32 →
  ∃ d' s' res, Slot_Write b (d, s) = (d', s', res) ∧ dev_wf d' ∧ BlockSize d' = BlockSize d ∧
    s_start s' = s_start s ∧ s_length s' = s_length s ∧ is_Some (s_journal s') ∧
    (∀ i, ¬ (s_start s ≤ i < s_start s + s_length s) → contents d' i = contents d i) ∧
    match res with
    | Ok _ => slot_reads d' s' (b, rev + 1) ∧ slot_healthy d' s'
    | Err _ => slot_reads d' s' (r, rev)
    | _ => False
    end.
Proof.
  intros [G Hrev0 Hj] Hh [j Ej] [Hsz Hin] Hrev. unfold slot_healthy in Hh. rewrite Ej in Hj, Hh.
  destruct Hj as (Hst & HL & HD). destruct Hh as (_ & _ & h & g & es & q & Hinv).
  unfold JData in HD. injection HD as Hr Hrv.
  assert (admissible d j b) as Hadm.
  { split; [by rewrite HL|lia|]. apply inert_revision; [by apply (geo_bs _ _ _ G)|done]. }
  destruct (Update_spec _ _ _ _ _ _ _ Hinv Hadm) as (d' & j' & res & HU & Hwf & Hbs & Hres).
  destruct (Update_frame _ _ _ _ _ _ _ _ _ _ Hinv Hadm HU) as (Hst' & HL' & Hc).
  destruct (new_entry_ok _ _ _ _ _ _ _ Hinv Hadm) as [_ Hne].
  unfold Slot_Write. rewrite Ej, HU. rewrite <-Hst, <-HL in *.
  eexists d', _, res. split; [done|]. cbn [s_start s_length s_journal].
  split_and!; [done|done|done|done|done|done|].
  destruct res as [[]|msg| |]; [| |done..].
  - destruct Hres as [Hcur (g' & es' & q' & Hinv')]. split.
    + split; cbn; [by rewrite Hbs|cbn in Hrev0; lia|]. split_and!; [done|done|]. unfold JData.
      rewrite Hcur, Hne. cbn. by rewrite Hrv.
    + cbn. split_and!; [done|done|]. by eexists _, g', es', q'.
  - destruct Hres as [-> _]. split; cbn; [by rewrite Hbs|done|].
    split_and!; [done|done|]. unfold JData. cbn. by rewrite Hr, Hrv.
Qed.

(** ** The partition *)

Definition disjoint_slots (ss : list Slot) : Prop :=
  ∀ a b sa sb, ss !! a = Some sa → ss !! b = Some sb → a ≠ b →
    s_start sa + s_length sa ≤ s_start sb ∨ s_start sb + s_length sb ≤ s_start sa.

Record part_holds (p : Partition D) (rs : list reg) : Prop := {
  ph_wf : dev_wf (p_dev p);
  ph_num : len (p_slots p) < 2 ^ (uint_bits - 1);
  ph_disjoint : disjoint_slots (p_slots p);
  ph_reads : Forall2 (slot_reads (p_dev p)) (p_slots p) rs;
}.

Definition part_opened (p : Partition D) (i : Z) : Prop :=
  0 ≤ i ∧ ∃ s, p_slots p !! Z.to_nat i = Some s ∧ is_Some (s_journal s).

Definition part_healthy (p : Partition D) (i : Z) : Prop :=
  0 ≤ i → ∀ s, p_slots p !! Z.to_nat i = Some s → slot_healthy (p_dev p) s.

Definition part_storable (p : Partition D) (i : Z) (b : bytes) : Prop :=
  0 ≤ i ∧ ∃ s, p_slots p !! Z.to_nat i = Some s ∧ slot_storable (p_dev p) s b.

(** What a method of slot [i] may do to the partition: change the slot, and
    the device within the slot's blocks. *)
Record touches (p : Partition D) (i : Z) (s : Slot) (d' : D) (s' : Slot) : Prop := {
  to_pos : 0 ≤ i;
  to_slot : p_slots p !! Z.to_nat i = Some s;
  to_wf : dev_wf d';
  to_bs : BlockSize d' = BlockSize (p_dev p);
  to_start : s_start s' = s_start s;
  to_length : s_length s' = s_length s;
  to_frame a : ¬ (s_start s ≤ a < s_start s + s_length s) → contents d' a = contents (p_dev p) a;
}.

Section Touch.
Context (p : Partition D) (i : Z) (s : Slot) (d' : D) (s' : Slot).
Context (T : touches p i s d' s').

Lemma touched_lookup k :
  0 ≤ k → p_slots (touched d' p i s') !! Z.to_nat k =
  if decide (k = i) then Some s' else p_slots p !! Z.to_nat k.
Proof.
  intros Hk. pose proof (to_pos _ _ _ _ _ T). cbn. case_decide as E.
  - subst. apply list_lookup_insert_eq. by eapply lookup_lt_Some, to_slot.
  - apply list_lookup_insert_ne. lia.
Qed.

Lemma touched_same_blocks k sk :
  disjoint_slots (p_slots p) → k ≠ Z.to_nat i → p_slots p !! k = Some sk →
  same_blocks (p_dev p) d' sk.
Proof.
  intros Hd Hk Hs. split_and!; [by apply T..|]. intros a Ha. apply (to_frame _ _ _ _ _ T).
  destruct (Hd _ _ _ _ Hs (to_slot _ _ _ _ _ T) Hk); lia.
Qed.

Lemma touched_holds rs r' :
  part_holds p rs → slot_reads d' s' r' →
  part_holds (touched d' p i s') (<[Z.to_nat i := r']> rs).
Proof.
  intros [Hwf Hnum Hdis Hrs] Hr. pose proof (to_slot _ _ _ _ _ T) as Hs.
  split; cbn [p_dev p_slots]; [by apply T|unfold len in *; by rewrite length_insert| |].
  - intros a b sa sb Ha Hb Hab.
    assert (∀ c sc, <[Z.to_nat i:=s']> (p_slots p) !! c = Some sc →
      ∃ sc0, p_slots p !! c = Some sc0 ∧ s_start sc = s_start sc0 ∧ s_length sc = s_length sc0) as Hl.
    { intros c sc [(<- & <- & _)|[? ?]]%list_lookup_insert_Some; [|by eauto].
      exists s. split_and!; [done|by apply T..]. }
    destruct (Hl _ _ Ha) as (sa0 & Ha0 & -> & ->). destruct (Hl _ _ Hb) as (sb0 & Hb0 & -> & ->).
    by eapply Hdis.
  - apply Forall2_same_length_lookup_2; [by rewrite !length_insert; eapply Forall2_length|].
    intros k sk rk Hk Hrk.
    destruct (decide (k = Z.to_nat i)) as [->|Hne].
    + rewrite list_lookup_insert_eq in Hk by (by eapply lookup_lt_Some).
      rewrite list_lookup_insert_eq in Hrk
        by (rewrite <-(Forall2_length _ _ _ Hrs); by eapply lookup_lt_Some).
      by injection Hk as <-; injection Hrk as <-.
    + rewrite list_lookup_insert_ne in Hk by done. rewrite list_lookup_insert_ne in Hrk by done.
      apply (slot_reads_frame (p_dev p)); [by eapply touched_same_blocks|].
      by eapply Forall2_lookup_lr.
Qed.

Lemma touched_healthy k :
  disjoint_slots (p_slots p) → k ≠ i → part_healthy p k → part_healthy (touched d' p i s') k.
Proof.
  intros Hd Hk Hh Hpos sk Hs. rewrite touched_lookup, decide_False in Hs by done.
  pose proof (to_pos _ _ _ _ _ T).
  apply (slot_healthy_frame (p_dev p)); [eapply touched_same_blocks; [done| |done]; lia|].
  by apply Hh.
Qed.

Lemma touched_healthy_self : slot_healthy d' s' → part_healthy (touched d' p i s') i.
Proof.
  intros Hh Hpos sk Hs. rewrite touched_lookup, decide_True in Hs by done. by injection Hs as <-.
Qed.

Lemma touched_storable k b : part_storable (touched d' p i s') k b ↔ part_storable p k b.
Proof.
  unfold part_storable, slot_storable. cbn [p_dev]. rewrite (to_bs _ _ _ _ _ T).
  split; intros (Hk & sk & Hs & Hst); (split; [done|]).
  - rewrite touched_lookup in Hs by done. case_decide as E; [|by exists sk].
    subst. injection Hs as <-. exists s. split; [by apply T|].
    by rewrite <-(to_length _ _ _ _ _ T).
  - rewrite touched_lookup by done. case_decide as E; [|by exists sk].
    subst. rewrite (to_slot _ _ _ _ _ T) in Hs. injection Hs as <-. exists s'.
    by rewrite (to_length _ _ _ _ _ T).
Qed.

Lemma touched_opened k :
  is_Some (s_journal s') → part_opened (touched d' p i s') k ↔ part_opened p k ∨ k = i.
Proof.
  intros Hj. pose proof (to_pos _ _ _ _ _ T). unfold part_opened. split.
  - intros (Hk & sk & Hs & Ho). rewrite touched_lookup in Hs by done.
    case_decide; [by right|left; by eauto].
  - intros [(Hk & sk & Hs & Ho)| ->]; (split; [done|]); rewrite touched_lookup by done.
    + case_decide; eauto.
    + rewrite decide_True by done. eauto.
Qed.
End Touch.

(** ** The operations of the partition *)

Lemma holds_slot p rs i :
  part_holds p rs → 0 ≤ i < len rs →
  ∃ s r, p_slots p !! Z.to_nat i = Some s ∧ rs !! Z.to_nat i = Some r ∧ slot_reads (p_dev p) s r.
Proof.
  intros Hp Hi. destruct (lookup_lt_is_Some_2 rs (Z.to_nat i)) as [r Hr]; [unfold len in Hi; lia|].
  destruct (Forall2_lookup_r _ _ _ _ _ (ph_reads _ _ Hp) Hr) as (s & Hs & Hsr). eauto.
Qed.

Lemma holds_len p rs : part_holds p rs → len (p_slots p) = len rs.
Proof. intros Hp. unfold len. by rewrite (Forall2_length _ _ _ (ph_reads _ _ Hp)). Qed.

Lemma Partition_Open_spec p rs i :
  part_holds p rs → 0 ≤ i < len rs →
  ∃ p', Partition_Open i p = (p', Ok i) ∧ part_holds p' rs ∧
    (∀ k, part_opened p' k ↔ part_opened p k ∨ k = i) ∧
    (∀ k, part_healthy p k → part_healthy p' k) ∧
    (∀ k b, part_storable p' k b ↔ part_storable p k b).
Proof.
  intros Hp Hi. destruct (holds_slot _ _ _ Hp Hi) as (s & r & Hs & Hr & Hsr).
  destruct (Slot_Open_spec _ _ _ (ph_wf _ _ Hp) Hsr) as (s' & HO & Hsr' & Hh & Hj & Hst & HL).
  pose proof uint_half. pose proof (holds_len _ _ Hp) as Hl. pose proof (ph_num _ _ Hp).
  assert (touches p i s (p_dev p) s') as T by (split; try done; [lia|by apply Hp]).
  exists (touched (p_dev p) p i s'). split_and!.
  - unfold Partition_Open, on_slot. rewrite to_uint_small by lia.
    rewrite (proj2 (Z.leb_gt _ _)) by lia. by rewrite Hs, HO.
  - rewrite <-(list_insert_id rs (Z.to_nat i) r) by done. by eapply touched_holds.
  - intros k. by eapply touched_opened.
  - intros k Hk. destruct (decide (k = i)) as [->|].
    + eapply touched_healthy_self; [done|]. apply Hh. by apply Hk; [lia|].
    + eapply touched_healthy; [done|by apply Hp|done|done].
  - intros k b. by eapply touched_storable.
Qed.

Lemma Open_invalid_slot p rs i :
  part_holds p rs → len rs ≤ i → Partition_Open i p = (p, Err "invalid slot").
Proof.
  intros Hp Hi. unfold Partition_Open. pose proof uint_half.
  rewrite (holds_len _ _ Hp). pose proof (ph_num _ _ Hp) as Hn. rewrite (holds_len _ _ Hp) in Hn.
  pose proof (len_nonneg rs). rewrite to_uint_small by lia. by rewrite (proj2 (Z.leb_le _ _)) by lia.
Qed.

Lemma opened_journal p rs i r :
  part_holds p rs → part_opened p i → rs !! Z.to_nat i = Some r →
  ∃ s j, p_slots p !! Z.to_nat i = Some s ∧ s_journal s = Some j ∧
    slot_reads (p_dev p) s r ∧ JData j = r.
Proof.
  intros Hp (Hi & s & Hs & [j Hj]) Hr.
  pose proof (Forall2_lookup_lr _ _ _ _ _ _ (ph_reads _ _ Hp) Hs Hr) as Hsr.
  exists s, j. split_and!; [done..|]. destruct Hsr as [_ _ Hsr]. rewrite Hj in Hsr. by destruct Hsr as (_ & _ & ?).
Qed.

Lemma part_eta (p : Partition D) i s :
  p_slots p !! Z.to_nat i = Some s → touched (p_dev p) p i s = p.
Proof. intros Hs. rewrite list_insert_id by done. by destruct p. Qed.

Lemma Slots_Read_spec p rs i r :
  part_holds p rs → part_opened p i → rs !! Z.to_nat i = Some r → Read i p = (p, Ok r).
Proof.
  intros Hp Ho Hr. destruct (opened_journal _ _ _ _ Hp Ho Hr) as (s & j & Hs & Hj & _ & HD).
  unfold Read, on_slot, Slot_Read. rewrite Hs, Hj, HD. f_equal. by apply part_eta.
Qed.

Lemma CheckAndWrite_stale_token p rs i t b r rev :
  part_holds p rs → part_opened p i → rs !! Z.to_nat i = Some (r, rev) → rev ≠ t →
  CheckAndWrite i t b p = (p, Err "invalid token, slot updated since then").
Proof.
  intros Hp Ho Hr Ht. destruct (opened_journal _ _ _ _ Hp Ho Hr) as (s & j & Hs & Hj & _ & HD).
  injection HD as _ HD.
  unfold CheckAndWrite, on_slot, Slot_CheckAndWrite. rewrite Hs, Hj.
  rewrite (proj2 (Z.eqb_neq _ _)) by lia. f_equal. by apply part_eta.
Qed.

Lemma Slots_CheckAndWrite_spec p rs i t b r :
  part_holds p rs → part_opened p i → part_healthy p i → part_storable p i b →
  rs !! Z.to_nat i = Some (r, t) → t + 1 < 2 ^ 32 →
  ∃ p' res, CheckAndWrite i t b p = (p', res) ∧
    (∀ k, part_opened p' k ↔ part_opened p k) ∧
    (∀ k, k ≠ i → part_healthy p k → part_healthy p' k) ∧
    (∀ k b, part_storable p' k b ↔ part_storable p k b) ∧
    match res with
    | Ok _ => part_holds p' (<[Z.to_nat i := (b, t + 1)]> rs) ∧ part_healthy p' i
    | Err _ => part_holds p' rs
    | _ => False
    end.
Proof.
  intros Hp Ho Hh (Hpos & s0 & Hs0 & Hst) Hr Ht.
  destruct (opened_journal _ _ _ _ Hp Ho Hr) as (s & j & Hs & Hj & Hsr & HD).
  rewrite Hs in Hs0. injection Hs0 as <-. injection HD as _ HD.
  destruct (Slot_Write_spec _ _ _ _ _ Hsr (Hh Hpos s Hs) ltac:(by rewrite Hj) Hst Ht)
    as (d' & s' & res & HW & Hwf & Hbs & Hst' & HL & Hj' & Hc & Hres).
  assert (touches p i s d' s') as T by done.
  exists (touched d' p i s'), res. split_and!.
  - unfold CheckAndWrite, on_slot, Slot_CheckAndWrite. rewrite Hs, Hj.
    rewrite (proj2 (Z.eqb_eq _ _)) by lia. by rewrite HW.
  - intros k. rewrite (touched_opened _ _ _ _ _ T) by done. split; [|tauto]. intros [?| ->]; done.
  - intros k Hk. eapply touched_healthy; [done|by apply Hp|done].
  - intros k b'. by eapply touched_storable.
  - destruct res as [[]|msg| |]; [| |done..].
    + destruct Hres as [Hsr' Hh']. split; [by eapply touched_holds|by eapply touched_healthy_self].
    + rewrite <-(list_insert_id rs (Z.to_nat i) (r, t)) by done. by eapply touched_holds.
Qed.

Lemma holds_rev_nonneg p rs i r : part_holds p rs → rs !! i = Some r → 0 ≤ r.2.
Proof.
  intros Hp Hr. destruct (Forall2_lookup_r _ _ _ _ _ (ph_reads _ _ Hp) Hr) as (s & _ & Hsr).
  by apply Hsr.
Qed.

#[export] Instance partition_ops : SlotOps (Partition D) := {
  slot_NumSlots := NumSlots;
  slot_Open := Partition_Open;
  slot_Read := Read;
  slot_CheckAndWrite := CheckAndWrite;
}.

Lemma NumSlots_holds p rs :
  part_holds p rs → NumSlots p = len rs ∧ len rs < 2 ^ (uint_bits - 1).
Proof.
  intros Hp. pose proof (ph_num _ _ Hp). rewrite (holds_len _ _ Hp) in *. split; [|done].
  by apply holds_len.
Qed.

#[export] Instance partition_store : SlotStore (Partition D) := {
  holds := part_holds;
  opened := part_opened;
  healthy := part_healthy;
  storable := part_storable;
  NumSlots_spec := NumSlots_holds;
  holds_rev := holds_rev_nonneg;
  Open_spec := Partition_Open_spec;
  Open_invalid := Open_invalid_slot;
  Read_spec := Slots_Read_spec;
  CheckAndWrite_stale := CheckAndWrite_stale_token;
  CheckAndWrite_spec := Slots_CheckAndWrite_spec;
}.
End Spec.
End SlotsSpec.
