(* ===== verification/SlotsProps.v ===== *)
(** * Properties of partitions and slots

    The layout of the slots, the contract of reads and checked writes stated
    on the operations themselves, and what [Erase] and [Open] do when the
    storage fails. *)

From S2P Require Import Prelude Sha256 BlockDev MemDev Entry Journal JournalInv JournalWrite JournalSpec.
From S2P Require Import JournalDemo Slots SlotStore SlotsSpec.
Import MemDev Entry Journal JournalInv JournalWrite JournalSpec JournalDemo Slots SlotsSpec.

Module SlotsProps.

(** ** The layout of the slots *)

Definition sum (ls : list Z) : Z := foldr Z.add 0 ls.

Section Layout.
Context `{P : Platform} `{B : !BlockReaderWriter D}.

Lemma sum_nonneg ls : Forall (λ l, 0 < l) ls → 0 ≤ sum ls.
Proof. unfold sum. induction 1; cbn; lia. Qed.

Lemma sum_cons l ls : sum (l :: ls) = l + sum ls.
Proof. done. Qed.

Lemma sum_app l k : sum (l ++ k) = sum l + sum k.
Proof. unfold sum. induction l; cbn; lia. Qed.

Lemma foldl_uadd a ls :
  Forall (λ l, 0 < l) ls → 0 ≤ a → a + sum ls < 2 ^ uint_bits → foldl uadd a ls = a + sum ls.
Proof.
  intros Hls. revert a. induction Hls as [|l ls Hl Hls IH]; intros a Ha Hs; cbn [foldl];
    rewrite ?sum_cons in *; [cbn; lia|].
  pose proof (sum_nonneg ls Hls). rewrite uadd_small by lia. rewrite IH by lia. lia.
Qed.

(** The slot at position [i] starts where the ones before it end. *)
Lemma lay_out_lookup b ls i s :
  Forall (λ l, 0 < l) ls → 0 ≤ b → b + sum ls ≤ 2 ^ uint_bits →
  lay_out b ls !! i = Some s →
  s_start s = b + sum (take i ls) ∧ ls !! i = Some (s_length s) ∧ s_journal s = None.
Proof.
  intros Hls. revert b i. induction Hls as [|l ls Hl Hls IH]; intros b i Hb Hs; [done|].
  pose proof (sum_nonneg ls Hls). cbn [lay_out]. rewrite sum_cons in Hs.
  destruct i as [|i]; [cbn; intros [= <-]; cbn; split_and!; [lia|done..]|].
  destruct ls as [|l' ls]; [done|]. intros Hi.
  assert (0 < sum (l' :: ls)).
  { apply Forall_cons in Hls as [? Hls]. pose proof (sum_nonneg ls Hls). rewrite sum_cons. lia. }
  rewrite uadd_small in Hi by lia. destruct (IH (b + l) i) as (-> & ? & ?); [lia|lia|done|].
  split_and!; [rewrite firstn_cons, sum_cons; lia|done..].
Qed.

(** Slots at different positions share no block. *)
Lemma lay_out_apart ls i k li :
  Forall (λ l, 0 < l) ls → ls !! i = Some li → (i < k)%nat → sum (take i ls) + li ≤ sum (take k ls).
Proof.
  intros Hls Hi Hk. rewrite <-(take_drop i (take k ls)), take_take, Nat.min_l by lia.
  rewrite sum_app. rewrite skipn_firstn_comm, (drop_S _ li) by done.
  destruct (k - i)%nat as [|n] eqn:E; [lia|]. rewrite firstn_cons, sum_cons.
  assert (0 ≤ sum (take n (drop (S i) ls))); [|lia].
  by apply sum_nonneg, Forall_take, Forall_drop.
Qed.

(** The slots of a partition with geometry [geo]. *)
Definition laid_out (rw : D) (geo : Geometry) (p : Partition D) : Prop :=
  p_dev p = rw ∧ s_length <$> p_slots p = SlotLengths geo ∧
  disjoint_slots (p_slots p) ∧
  (∀ i s, p_slots p !! i = Some s →
     s_journal s = None ∧ s_start s = gStart geo + sum (take i (SlotLengths geo)) ∧
     gStart geo ≤ s_start s ∧ s_start s + s_length s ≤ gStart geo + gLength geo).

Lemma partition_layout (rw : D) (geo : Geometry) :
  Forall (λ l, 0 < l) (SlotLengths geo) → 0 ≤ gStart geo →
  gStart geo + gLength geo ≤ 2 ^ uint_bits → sum (SlotLengths geo) < 2 ^ uint_bits →
  match OpenPartition rw geo with
  | Ok p => laid_out rw geo p
  | Err _ => gLength geo < sum (SlotLengths geo)
  | _ => False
  end.
Proof.
  destruct geo as [st L ls]. cbn [gStart gLength SlotLengths]. intros Hls Hst HL Hsum.
  pose proof (sum_nonneg ls Hls). unfold OpenPartition, Validate. cbn [gStart gLength SlotLengths].
  rewrite foldl_uadd by (done || lia). case_test; cbn; [lia|]. unfold laid_out. cbn [p_dev p_slots gStart gLength SlotLengths].
  assert (∀ i s, lay_out st ls !! i = Some s →
    s_start s = st + sum (take i ls) ∧ ls !! i = Some (s_length s) ∧ s_journal s = None) as Hlook
    by (intros; apply lay_out_lookup; done || lia).
  split_and!; [done| | |].
  - clear. revert st. induction ls as [|l ls IH]; intros st; [done|]. cbn. by rewrite IH.
  - intros a b sa sb Ha Hb Hab.
    destruct (Hlook _ _ Ha) as (-> & Hla & _). destruct (Hlook _ _ Hb) as (-> & Hlb & _).
    destruct (decide (a < b)%nat).
    + left. pose proof (lay_out_apart ls a b _ Hls Hla ltac:(lia)). lia.
    + right. pose proof (lay_out_apart ls b a _ Hls Hlb ltac:(lia)). lia.
  - intros i s Hi. destruct (Hlook _ _ Hi) as (-> & Hli & ?).
    pose proof (sum_nonneg (take i ls) ltac:(by apply Forall_take)).
    pose proof (lay_out_apart ls i (length ls) _ Hls Hli ltac:(by eapply lookup_lt_Some)) as Ha.
    rewrite firstn_all in Ha. split_and!; [done|lia..].
Qed.

(** C21 Slots of a partition, for slots of positive length whose total is below
    2^w, the number of values of a [uint], in a partition that ends at 2^w or
    before: [OpenPartition] refuses slots that need more blocks than the
    partition has, and only those; otherwise the slots are, in order and of
    the lengths given, unopened, inside the partition, and no two of them
    share a block.  A total of 2^w or more wraps around and may pass
    ([geometry_total_wraps]). *)
Theorem open_partition_layout (rw : D) (geo : Geometry) :
  Forall (λ l, 0 < l) (SlotLengths geo) → 0 ≤ gStart geo →
  gStart geo + gLength geo ≤ 2 ^ uint_bits → sum (SlotLengths geo) < 2 ^ uint_bits →
  match OpenPartition rw geo with
  | Ok p => laid_out rw geo p
  | Err _ => gLength geo < sum (SlotLengths geo)
  | _ => False
  end.
Proof. apply partition_layout. Qed.
End Layout.

(** The partition of the repository's tests. *)
Definition test_geo : Geometry := mkGeometry 10 10 [1; 1; 2; 4].

Lemma open_partition_layout_witness :
  match OpenPartition (NewMemDev 32) test_geo with
  | Ok p => p_dev p = NewMemDev 32 ∧ s_length <$> p_slots p = [1; 1; 2; 4] ∧
      disjoint_slots (p_slots p) ∧
      (∀ i s, p_slots p !! i = Some s →
         s_journal s = None ∧ s_start s = 10 + sum (take i [1; 1; 2; 4]) ∧
         10 ≤ s_start s ∧ s_start s + s_length s ≤ 10 + 10)
  | Err _ => 10 < 8
  | _ => False
  end.
Proof.
  apply (open_partition_layout (NewMemDev 32) test_geo).
  - repeat constructor.
  - vm_compute. discriminate.
  - vm_compute. discriminate.
  - vm_compute. reflexivity.
Defined.

(** The total is computed in a [uint]: on the 32-bit device a geometry whose
    slots need 2^32 blocks passes the check of a partition of one block. *)
Lemma geometry_total_wraps :
  @Validate arm (mkGeometry 0 1 [2 ^ 31; 2 ^ 31]) = Ok ().
Proof. reflexivity. Qed.

(** ** Reads and checked writes *)

Section Ops.
Context `{P : Platform} `{B : !BlockReaderWriter D} `{BD : !BlockDevice D}.

(** C12 [CheckAndWrite]: with a token that is not the slot's revision it is
    refused and changes nothing.  With the current revision it returns nil,
    and then the slot reads as the new data under the next revision and every
    other open slot as before; or it fails, and then every slot reads as
    before. *)
Theorem check_and_write (p : Partition D) (rs : list reg) (i t : Z) (b r : bytes) (rev : Z) :
  part_holds p rs → part_opened p i → part_healthy p i → part_storable p i b →
  rs !! Z.to_nat i = Some (r, rev) → rev + 1 < 2 ^ 32 →
  (t ≠ rev → CheckAndWrite i t b p = (p, Err "invalid token, slot updated since then")) ∧
  (t = rev → ∃ p' res, CheckAndWrite i t b p = (p', res) ∧
     match res with
     | Ok _ => Read i p' = (p', Ok (b, rev + 1)) ∧
         ∀ k rk, k ≠ i → part_opened p k → rs !! Z.to_nat k = Some rk → Read k p' = (p', Ok rk)
     | Err _ => ∀ k rk, part_opened p k → rs !! Z.to_nat k = Some rk → Read k p' = (p', Ok rk)
     | _ => False
     end).
Proof.
  intros Hp Ho Hh Hs Hr Hrev. split.
  { intros Ht. by eapply CheckAndWrite_stale_token. }
  intros ->. destruct (Slots_CheckAndWrite_spec _ _ _ _ _ _ Hp Ho Hh Hs Hr Hrev)
    as (p' & res & HW & Hop & _ & _ & Hres).
  exists p', res. split; [done|]. pose proof (proj1 Ho) as Hi.
  destruct res as [[]|msg| |]; [| |done..].
  - destruct Hres as [Hp' _]. split.
    + eapply Slots_Read_spec; [done|by apply Hop|].
      apply list_lookup_insert_eq. by eapply lookup_lt_Some.
    + intros k rk Hk Hok Hrk. eapply Slots_Read_spec; [done|by apply Hop|].
      destruct Hok as (Hk0 & _). rewrite list_lookup_insert_ne by lia. done.
  - intros k rk Hok Hrk. eapply Slots_Read_spec; [done|by apply Hop|done].
Qed.

(** ** Erasing *)

(** A device that stores what lies within it. *)
Definition never_fails (d0 : D) : Prop :=
  ∀ d lba b, dev_wf d → BlockSize d = BlockSize d0 → 0 < len b → 0 ≤ lba →
    (∀ i, lba ≤ i < lba + nblocks (BlockSize d) (len b) → is_Some (contents d i)) →
    is_ok (WriteBlocks d lba b).2 = true.

Lemma zeroes_no_magic bs n i :
  entryHeaderSize ≤ bs → 0 ≤ i < n →
  blk bs (replicate (Z.to_nat (n * bs)) x00) i = replicate (Z.to_nat bs) x00.
Proof.
  intros Hbs Hi. unfold entryHeaderSize in Hbs. unfold blk, pad, ztake, zdrop, len.
  rewrite length_replicate, Z2Nat.id by nia. rewrite nblocks_mul by lia.
  replace (n * bs - n * bs) with 0 by lia. rewrite app_nil_r, drop_replicate, take_replicate.
  f_equal. nia.
Qed.

(** Zeroes are an empty journal. *)
Lemma zeroes_layout bs st L c :
  geometry_ok bs st L →
  (∀ p, st ≤ p < st + L → c p = Some (replicate (Z.to_nat bs) x00)) →
  layout bs st L c (λ _, None) (st + L) [] (st + L).
Proof.
  intros G Hc. apply fresh_layout; [done|]. intros p Hp. rewrite Hc by done.
  eexists. split; [done|]. pose proof (geo_bs _ _ _ G) as Hbs. unfold entryHeaderSize in Hbs.
  unfold len, ztake. rewrite length_replicate, take_replicate. split; [lia|].
  by rewrite Nat.min_l by lia.
Qed.

Lemma zeroes_read d s :
  geometry_ok (BlockSize d) (s_start s) (s_length s) → s_journal s = None →
  (∀ p, s_start s ≤ p < s_start s + s_length s →
     contents d p = Some (replicate (Z.to_nat (BlockSize d)) x00)) →
  slot_reads d s ([], 0).
Proof.
  intros G Hj Hc. split; [done|done|]. rewrite Hj.
  eexists _, _, [], _. split_and!; [by apply zeroes_layout|apply fresh_detected|done].
Qed.

(** The blocks of a slot are on the device. *)
Lemma slot_blocks d s r i :
  slot_reads d s r → slot_healthy d s → s_start s ≤ i < s_start s + s_length s →
  is_Some (contents d i).
Proof.
  intros [G _ Hj] Hh Hi. unfold slot_healthy in Hh. destruct (s_journal s) as [j|].
  - destruct Hh as (Hst & HL & h & g & es & q & Hinv). rewrite <-Hst, <-HL in Hi.
    destruct (lay_heads _ _ _ _ _ _ _ _ (ji_layout _ _ _ _ _ _ Hinv) i Hi) as (b & -> & _). done.
  - destruct Hj as (h & g & es & q & Hl & _). 
    destruct (lay_heads _ _ _ _ _ _ _ _ Hl i Hi) as (b & -> & _). done.
Qed.

Lemma eraseSlot_spec p rs i :
  part_holds p rs → (∀ k, part_healthy p k) → never_fails (p_dev p) → 0 ≤ i < len rs →
  ∃ p', eraseSlot i p = (p', Ok ()) ∧ part_holds p' (<[Z.to_nat i := ([], 0)]> rs) ∧
    (∀ k, part_healthy p' k) ∧ BlockSize (p_dev p') = BlockSize (p_dev p) ∧
    length (p_slots p') = length (p_slots p).
Proof.
  intros Hp Hh Hnf Hi. destruct (holds_slot _ _ _ Hp Hi) as (s & r & Hs & Hr & Hsr).
  pose proof (sr_geo _ _ _ Hsr) as G. pose proof (bs_pos _ _ _ G). pose proof max_alloc_int.
  pose proof (geo_length _ _ _ G). pose proof (geo_alloc _ _ _ G). pose proof (geo_start _ _ _ G).
  pose proof uint_half. set (bs := BlockSize (p_dev p)) in *.
  assert (s_length s *ᵤ bs = s_length s * bs) as Hmul by (apply umul_small; nia).
  assert (len (replicate (Z.to_nat (s_length s * bs)) x00) = s_length s * bs) as Hlen
    by (unfold len; rewrite length_replicate; nia).
  assert (nblocks bs (s_length s * bs) = s_length s) as Hnb by (by apply nblocks_mul).
  destruct (WriteBlocks_spec (p_dev p) (s_start s) (replicate (Z.to_nat (s_length s * bs)) x00)
              (ph_wf _ _ Hp)) as (d' & w & HW & Hwf & Hbs & Hw);
    rewrite ?Hlen; fold bs; rewrite ?Hnb; [nia|done|nia| |].
  { intros a Ha. eapply slot_blocks; [done|by apply (Hh i); [lia|]|done]. }
  assert (is_ok w = true) as Hok.
  { specialize (Hnf (p_dev p) (s_start s) (replicate (Z.to_nat (s_length s * bs)) x00)).
    rewrite HW in Hnf. apply Hnf; [by apply Hp|done|nia|done|].
    fold bs. rewrite Hlen, Hnb. intros a Ha. eapply slot_blocks; [done|by apply (Hh i); [lia|]|done]. }
  destruct w as [n| | |]; [|done..]. rewrite Hlen in Hw. fold bs in Hw. rewrite Hnb in Hw.
  destruct Hw as [-> Hc].
  assert (touches p i s d' (mkSlot (s_start s) (s_length s) None)) as T.
  { split; try done; [lia|]. intros a Ha. rewrite Hc. by apply store_out. }
  exists (touched d' p i (mkSlot (s_start s) (s_length s) None)). split_and!.
  - unfold eraseSlot, on_slot. rewrite Hs. fold bs. rewrite Hmul.
    rewrite (proj2 (Z.ltb_ge _ _)) by lia. by rewrite HW.
  - eapply touched_holds; [done|done|]. apply zeroes_read; cbn [s_start s_length]; [by rewrite Hbs|done|].
    intros a Ha. rewrite Hc, store_in by done. rewrite Hbs. fold bs. f_equal.
    apply zeroes_no_magic; [by apply (geo_bs _ _ _ G)|lia].
  - intros k. destruct (decide (k = i)) as [->|]; [by eapply touched_healthy_self|].
    eapply touched_healthy; [done|by apply Hp|done|done].
  - done.
  - cbn. apply length_insert.
Qed.

(** The loop of [Erase], after [k] slots. *)
Lemma erase_loop_spec n p rs k :
  part_holds p (replicate k ([], 0) ++ rs) → (∀ i, part_healthy p i) → never_fails (p_dev p) →
  length rs = n →
  ∃ p', erase_loop (seq k n) p = (p', Ok ()) ∧ part_holds p' (replicate (k + n) ([], 0)) ∧
    (∀ i, part_healthy p' i).
Proof.
  revert p rs k. induction n as [|n IH]; intros p rs k Hp Hh Hnf Hn; cbn [seq erase_loop].
  - destruct rs; [|done]. rewrite app_nil_r in Hp. exists p. by rewrite Nat.add_0_r.
  - destruct rs as [|r rs]; [done|]. injection Hn as Hn.
    destruct (eraseSlot_spec p _ (Z.of_nat k) Hp Hh Hnf) as (p' & -> & Hp' & Hh' & Hbs & Hlen).
    { rewrite len_app. unfold len. rewrite length_replicate. cbn. lia. }
    rewrite Nat2Z.id, insert_app_r_alt in Hp' by (by rewrite length_replicate).
    rewrite length_replicate, Nat.sub_diag in Hp'. cbn in Hp'.
    rewrite cons_middle, app_assoc, <-replicate_cons_app in Hp'.
    destruct (IH p' rs (S k) Hp' Hh') as (p2 & -> & Hp2 & Hh2); [|done|].
    { intros d lba b. rewrite Hbs. apply Hnf. }
    exists p2. by rewrite Nat.add_succ_r.
Qed.

(** [Erase] on a device whose writes succeed: every slot is closed, and
    reads as never written once it is opened again. *)
Theorem erase_clears (p : Partition D) (rs : list reg) :
  part_holds p rs → (∀ i, part_healthy p i) → never_fails (p_dev p) →
  ∃ p', Erase p = (p', Ok ()) ∧
    ∀ i, 0 ≤ i < len rs →
    ∃ p'', Partition_Open i p' = (p'', Ok i) ∧ Read i p'' = (p'', Ok ([], 0)).
Proof.
  intros Hp Hh Hnf.
  destruct (erase_loop_spec (length rs) p rs 0 Hp Hh Hnf eq_refl) as (p' & HE & Hp' & _).
  exists p'. split.
  - unfold Erase. rewrite (Forall2_length _ _ _ (ph_reads _ _ Hp)). by erewrite bind_Ok by exact HE.
  - intros i Hi. cbn [plus] in Hp'.
    destruct (Partition_Open_spec _ _ i Hp') as (p'' & HO & Hp'' & Hop & _ & _).
    { unfold len in *. by rewrite length_replicate. }
    exists p''. split; [done|]. eapply Slots_Read_spec; [done|apply Hop; by right|].
    apply lookup_replicate. unfold len in Hi. split; [done|lia].
Qed.
End Ops.

(** ** A partition on the in-memory device *)

Lemma memdev_never_fails md : @never_fails amd64 _ _ _ md.
Proof.
  intros d lba b Hwf _ Hb Hlba Hc. unfold WriteBlocks, memdev_rw, md_WriteBlocks.
  destruct (Hc lba) as [x Hx].
  { pose proof (nblocks_pos 512 ltac:(done) (len b) Hb). change (BlockSize d) with 512. lia. }
  apply md_contents_lt in Hx. rewrite (proj2 (Z.leb_gt _ _)) by lia. done.
Qed.

Definition demo_geo2 : Geometry := mkGeometry 1 9 [4; 3; 2].
Definition part0 : Partition MemDev := mkPartition (NewMemDev 10) (lay_out 1 [4; 3; 2]).
Definition regs0 : list reg := [([], 0); ([], 0); ([], 0)].

Lemma part0_open : OpenPartition (NewMemDev 10) demo_geo2 = Ok part0.
Proof. reflexivity. Qed.

Lemma part0_holds : part_holds part0 regs0.
Proof.
  split; [by apply NewMemDev_wf|done| |].
  - pose proof (partition_layout (NewMemDev 10) demo_geo2) as H.
    rewrite part0_open in H. apply H; [by repeat constructor|done..].
  - unfold part0, regs0. cbn [p_slots p_dev].
    assert (lay_out 1 [4; 3; 2] = [mkSlot 1 4 None; mkSlot 5 3 None; mkSlot 8 2 None]) as ->
      by reflexivity.
    assert (∀ a, 1 ≤ a < 10 → contents (NewMemDev 10) a = Some (replicate (Z.to_nat 512) x00)) as Hz.
    { intros a Ha. cbn [contents memdev_device]. unfold md_contents. rewrite (proj2 (Z.ltb_ge _ _)) by lia.
      cbn [Storage NewMemDev]. apply lookup_replicate. split; [done|lia]. }
    repeat (apply Forall2_cons; split); [..|by apply Forall2_nil].
    all: apply zeroes_read; [split; vm_compute; done|done|].
    all: intros a Ha; apply Hz; cbn in Ha; lia.
Qed.

Lemma part0_healthy i : part_healthy part0 i.
Proof.
  intros Hi s Hs. unfold slot_healthy. enough (s_journal s = None) as -> by done.
  assert (Forall (λ s, s_journal s = None) (p_slots part0)) as Hall by (by repeat constructor).
  exact (Forall_lookup_1 _ _ _ _ Hall Hs).
Qed.

(** The first slot opened, and written once. *)
Definition part1 : Partition MemDev := (Partition_Open 0 part0).1.
Definition part2 : Partition MemDev := (CheckAndWrite 0 0 data1 part1).1.

Lemma part1_holds :
  part_holds part1 regs0 ∧ part_opened part1 0 ∧ (∀ i, part_healthy part1 i) ∧ part_storable part1 0 data1.
Proof.
  destruct (Partition_Open_spec part0 regs0 0 part0_holds) as (p' & HO & Hp' & Hop & Hh & Hst); [done|].
  unfold part1. rewrite HO. cbn [fst]. split_and!; [done|apply Hop; by right|intros i; apply Hh, part0_healthy|].
  apply Hst. split; [done|]. eexists. split; [done|]. split; [vm_compute; done|].
  apply (bool_decide_unpack _). vm_compute. exact I.
Qed.

Lemma check_and_write_witness :
  ∃ p' res, CheckAndWrite 0 0 data1 part1 = (p', res) ∧
    match res with
    | Ok _ => Read 0 p' = (p', Ok (data1, 1))
    | Err _ => Read 0 p' = (p', Ok ([], 0))
    | _ => False
    end.
Proof.
  destruct part1_holds as (Hp & Ho & Hh & Hst).
  destruct (check_and_write part1 regs0 0 0 data1 [] 0 Hp Ho (Hh 0) Hst) as [_ Hw].
  - reflexivity.
  - lia.
  - destruct (Hw eq_refl) as (p' & res & HW & Hr). exists p', res. split; [exact HW|].
    destruct res as [u|m| |].
    + exact (proj1 Hr).
    + apply (Hr 0 ([], 0)); [exact Ho|reflexivity].
    + exact Hr.
    + exact Hr.
Defined.

Lemma part2_holds :
  part_holds part2 [(data1, 1); ([], 0); ([], 0)] ∧ ∀ i, part_healthy part2 i.
Proof.
  destruct part1_holds as (Hp & Ho & Hh & Hst).
  destruct (Slots_CheckAndWrite_spec part1 regs0 0 0 data1 [] Hp Ho (Hh 0) Hst)
    as (p' & res & HW & _ & Hk & _ & Hres); [done|lia|].
  assert ((CheckAndWrite 0 0 data1 part1).2 = Ok ()) as Hok by (vm_compute; reflexivity).
  unfold part2. rewrite HW in *. cbn [fst snd] in *. subst res. destruct Hres as [Hp' Hh'].
  split; [done|]. intros i. destruct (decide (i = 0)) as [->|Hi]; [done|]. apply (Hk i Hi).
  apply Hh.
Qed.

Lemma erase_clears_witness :
  ∃ p', Erase part2 = (p', Ok ()) ∧
    ∀ i, 0 ≤ i < 3 →
    ∃ p'', Partition_Open i p' = (p'', Ok i) ∧ Read i p'' = (p'', Ok ([], 0)).
Proof.
  apply (erase_clears part2 [(data1, 1); ([], 0); ([], 0)]).
  - exact (proj1 part2_holds).
  - exact (proj2 part2_holds).
  - apply memdev_never_fails.
Defined.

(** ** Failures that are not reported *)

(** A device whose writes fail, and store nothing. *)
Inductive rodev := RO (md : MemDev).
#[export] Instance rodev_rw : BlockReaderWriter rodev := {
  BlockSize '(RO md) := BlockSize md;
  ReadBlocks '(RO md) lba b := ReadBlocks md lba b;
  WriteBlocks d lba b := (d, Err "write protected");
}.

(** [Erase] reports success when no slot could be erased: the flag it
    tests at the end is never set.  On a write-protected device the data of
    the first slot is still there after an [Erase] that returned nil. *)
Theorem erase_hides_errors :
  let p := mkPartition (RO (p_dev part2)) (p_slots part2) in
  (eraseSlot 0 p).2 = Err "slot occupying blocks" ∧
  (Erase p).2 = Ok () ∧
  (Partition_Open 0 ≫= Read) (Erase p).1 = ((Partition_Open 0 (Erase p).1).1, Ok (data1, 1)).
Proof. vm_compute. done. Qed.

(** A slot whose two first blocks hold records of the same revision. *)
Definition twin : entry := mkEntry magic0 7 3 (Sha256.Sum256 data1) data1.
Definition bad_storage : MemDev :=
  mkMemDev (blk 512 (encoding twin) 0 :: blk 512 (encoding twin) 0 :: replicate 2 (replicate 512 x00)) None.

(** [Partition.Open] returns a slot whose journal could not be opened, and
    no error: the first [Read] or [Write] of the slot dereferences a nil
    journal. *)
Theorem open_hides_errors :
  let p := mkPartition bad_storage (lay_out 0 [4]) in
  OpenJournal bad_storage 0 4 = Err "journal is corrupt - found two entries with the same revision" ∧
  Partition_Open 0 p = (p, Ok 0) ∧
  Read 0 p = (p, Panic "nil pointer dereference") ∧
  Write 0 data1 p = (p, Panic "nil pointer dereference").
Proof. vm_compute. done. Qed.
End SlotsProps.
