(* ===== verification/Persistence.v ===== *)
(** * The witness persistence over slots (persistence.go)

    [SlotPersistence] is generic in the slot store [S] it runs on.  The code
    it calls outside the repository is the class [Externals]: the YAML codec
    of the directory and of legacy records, the log identifier function, and
    the iteration order of Go maps. *)

From S2P Require Import Prelude Entry SlotStore.
Import Entry.

(** ** Code outside the repository *)

Class Externals := {
  (** [yaml.Marshal] of the directory. *)
  yaml_marshal_map : gmap string Z → res bytes;
  (** [yaml.Unmarshal] into an existing map: the map afterwards. *)
  yaml_unmarshal_map : bytes → gmap string Z → gmap string Z * res unit;
  (** [yaml.Unmarshal] into the legacy record: its field [Checkpoint]. *)
  yaml_unmarshal_record : bytes → res bytes;
  (** [logfmt.ID]. *)
  logfmt_ID : string → string;
  (** The order in which [range] visits a map. *)
  range_order : gmap string Z → list (string * Z);
}.

(** What is documented of them.  [yaml.Unmarshal] of an empty document leaves
    its target alone, and adds the entries of a mapping to an existing map. *)
Class ExternalsSpec `{Platform} `{!Externals} : Prop := {
  yaml_map_empty m : yaml_unmarshal_map [] m = (m, Ok ());
  yaml_map_roundtrip m m' :
    map_Forall (λ k v, (∃ o, k = logfmt_ID o) ∧ 0 ≤ v < 2 ^ uint_bits) m →
    ∃ b, yaml_marshal_map m = Ok b ∧ yaml_unmarshal_map b m' = (m ∪ m', Ok ());
  yaml_record_empty : yaml_unmarshal_record [] = Ok [];
  range_order_perm m : range_order m ≡ₚ map_to_list m;
}.

Module Persistence.

Definition mappingConfigSlot : Z := 0.

Definition rawRecordMagic : bytes := [x01; x52; x41; x57]. (* "\x01RAW" *)

Record SlotPersistence (S : Type) := mkSP {
  part : S;
  directorySlot : option Z;
  directoryWriteToken : Z;
  idToSlot : gmap string Z;
  freeSlots : list Z;
}.
Arguments mkSP {S} _ _ _ _ _.
Arguments part {S} _.
Arguments directorySlot {S} _.
Arguments directoryWriteToken {S} _.
Arguments idToSlot {S} _.
Arguments freeSlots {S} _.

(** ** Records *)

(** [bytes.CutPrefix]. *)
Definition CutPrefix (b prefix : bytes) : option bytes :=
  if bool_decide (take (length prefix) b = prefix) then Some (drop (length prefix) b) else None.

Definition marshalCheckpoint (cpRaw : bytes) : bytes := rawRecordMagic ++ cpRaw.

Definition unmarshalCheckpoint `{Externals} (b : bytes) : res bytes :=
  match CutPrefix b rawRecordMagic with
  | Some b' => Ok b'
  | None =>
    match yaml_unmarshal_record b with
    | Err _ => Err "failed to unmarshal data"
    | r => r
    end
  end.

Section Persistence.
Context `{P : Platform} `{E : !Externals} {S : Type} `{O : !SlotOps S}.

Definition NewSlotPersistence (p : S) : SlotPersistence S := mkSP p None 0 ∅ [].

(** A call of the slot store. *)
Definition on_part {A} (m : M S A) : M (SlotPersistence S) A := λ p,
  let '(s', r) := m (part p) in
  (mkSP s' (directorySlot p) (directoryWriteToken p) (idToSlot p) (freeSlots p), r).

Definition get {A} (f : SlotPersistence S → A) : M (SlotPersistence S) A := λ p, (p, Ok (f p)).

Definition set_directorySlot (i : Z) : M (SlotPersistence S) unit := λ p,
  (mkSP (part p) (Some i) (directoryWriteToken p) (idToSlot p) (freeSlots p), Ok ()).
Definition set_token (t : Z) : M (SlotPersistence S) unit := λ p,
  (mkSP (part p) (directorySlot p) t (idToSlot p) (freeSlots p), Ok ()).
Definition set_freeSlots (l : list Z) : M (SlotPersistence S) unit := λ p,
  (mkSP (part p) (directorySlot p) (directoryWriteToken p) (idToSlot p) l, Ok ()).
Definition set_idToSlot (m : gmap string Z) : M (SlotPersistence S) unit := λ p,
  (mkSP (part p) (directorySlot p) (directoryWriteToken p) m (freeSlots p), Ok ()).

(** [p.directorySlot], dereferenced. *)
Definition directory : M (SlotPersistence S) Z := λ p,
  (p, match directorySlot p with Some i => Ok i | None => Panic "nil pointer dereference" end).

(** [yaml.Unmarshal(b, &p.idToSlot)]. *)
Definition unmarshal_idToSlot (b : bytes) : M (SlotPersistence S) unit := λ p,
  let '(m, r) := yaml_unmarshal_map b (idToSlot p) in
  (mkSP (part p) (directorySlot p) (directoryWriteToken p) m (freeSlots p), r).

(** Marking the slots in use. *)
Fixpoint mark_used (l : list (string * Z)) (slotState : list bool) : res (list bool) :=
  match l with
  | [] => Ok slotState
  | (_, idx) :: l' =>
    if idx =? mappingConfigSlot then Err "internal-error, reserved slot 0 has been used"
    else if len slotState <=? idx then Panic "index out of range"
    else mark_used l' (<[Z.to_nat idx := true]> slotState)
  end.

(** The indices that are not marked. *)
Definition unused (slotState : list bool) : list Z :=
  Z.of_nat <$> filter (λ i, slotState !! i = Some false) (seq 0 (length slotState)).

Definition populateMap : M (SlotPersistence S) unit :=
  d ← directory;
  '(b, t) ← ctx "failed to read persistence mapping" (on_part (slot_Read d));
  _ ← ctx "failed to unmarshal persistence mapping" (unmarshal_idToSlot b);
  _ ← set_token t;
  n ← get (λ p, slot_NumSlots (part p));
  m ← get idToSlot;
  slotState ← lift (mark_used (range_order m) (replicate (Z.to_nat n) false));
  if len slotState <=? mappingConfigSlot then lift (Panic "index out of range")
  else set_freeSlots (unused (<[Z.to_nat mappingConfigSlot := true]> slotState)).

Definition Init : M (SlotPersistence S) unit :=
  s ← ctx "failed to open mapping slot" (on_part (slot_Open mappingConfigSlot));
  _ ← set_directorySlot s;
  ctx "failed to populate logID → slot map" populateMap.

Definition storeDirectory : M (SlotPersistence S) unit :=
  m ← get idToSlot;
  smRaw ← ctx "failed to marshal mapping" (lift (yaml_marshal_map m));
  d ← directory;
  t ← get directoryWriteToken;
  _ ← ctx "failed to store mapping" (on_part (slot_CheckAndWrite d t smRaw));
  set_token (wrap 32 (t + 1)).

(** The free slot is taken and the map changed before the directory is
    stored; neither is undone when that fails. *)
Definition addLog (id : string) : M (SlotPersistence S) Z :=
  m ← get idToSlot;
  match m !! id with
  | Some idx => mret idx
  | None =>
    fs ← get freeSlots;
    match fs with
    | [] => lift (Err "no free slot available")
    | f :: fs' =>
      _ ← set_freeSlots fs';
      _ ← set_idToSlot (<[id := f]> m);
      _ ← ctx "failed to storeMap" storeDirectory;
      mret f
    end
  end.

Definition logSlot (logID : string) (create : bool) : M (SlotPersistence S) Z :=
  m ← get idToSlot;
  match m !! logID with
  | Some i => mret i
  | None =>
    if negb create then lift (Err "NotFound: no slot for log")
    else ctx "unable to assign slot for log ID" (addLog logID)
  end.

Definition Latest (origin : string) : M (SlotPersistence S) bytes :=
  let logID := logfmt_ID origin in
  i ← logSlot logID false;
  s ← ctx "internal error opening slot" (on_part (slot_Open i));
  '(b, _) ← ctx "failed to read data" (on_part (slot_Read s));
  if len b =? 0 then lift (Err "NotFound: no checkpoint for log")
  else lift (unmarshalCheckpoint b).

Definition Update (origin : string) (f : bytes → res bytes) : M (SlotPersistence S) unit :=
  let logID := logfmt_ID origin in
  i ← logSlot logID true;
  s ← ctx "internal error opening slot" (on_part (slot_Open i));
  '(b, t) ← ctx "failed to read data" (on_part (slot_Read s));
  currCP ← ctx "unmarshalCheckpoint" (lift (unmarshalCheckpoint b));
  newCP ← lift (f currCP);
  ctx "failed to write data" (on_part (slot_CheckAndWrite s t (marshalCheckpoint newCP))).
End Persistence.
End Persistence.
