(* ===== verification/PersistenceImage.v ===== *)
(** * The persistence layer on storage

    The registers of a partition as [SlotPersistence] uses them: the directory
    in the first one and a record in each of the others, from which [Init]
    recovers the checkpoint of every log. *)

From S2P Require Import Prelude Entry SlotStore Persistence.
Import Entry Persistence.

Module PersistenceImage.

(** ** Records *)

Lemma CutPrefix_app prefix b : CutPrefix (prefix ++ b) prefix = Some b.
Proof. unfold CutPrefix. by rewrite take_app_length, bool_decide_true, drop_app_length. Qed.

Lemma unmarshal_marshalCheckpoint `{Externals} cp : unmarshalCheckpoint (marshalCheckpoint cp) = Ok cp.
Proof. unfold unmarshalCheckpoint, marshalCheckpoint. by rewrite CutPrefix_app. Qed.

Section Image.
Context `{P : Platform} `{X : !Externals} `{XS : !ExternalsSpec}.

(** ** The directory and the records *)

(** A directory: log identifiers mapped to distinct data slots of a partition
    with [n] slots. *)
Record directory_ok (m : gmap string Z) (n : Z) : Prop := {
  do_range : map_Forall (λ k v, (∃ o, k = logfmt_ID o) ∧ 1 ≤ v < n) m;
  do_inj k k' v : m !! k = Some v → m !! k' = Some v → k = k';
}.

(** The bytes in the directory slot from which a restart recovers [m]. *)
Definition stores_directory (b : bytes) (m : gmap string Z) : Prop :=
  (b = [] ∧ m = ∅) ∨ yaml_marshal_map m = Ok b.

(** What a data slot holds: nothing yet, or a record. *)
Definition record_of (b : bytes) : option bytes :=
  if len b =? 0 then None
  else match unmarshalCheckpoint b with Ok cp => Some cp | _ => None end.

Lemma directory_values m n : directory_ok m n → n < 2 ^ uint_bits →
  map_Forall (λ k v, (∃ o, k = logfmt_ID o) ∧ 0 ≤ v < 2 ^ uint_bits) m.
Proof. intros [Hm _] Hn k v Hk. destruct (Hm k v Hk). split; [done|lia]. Qed.

(** Reading the directory back, over what is already in memory. *)
Lemma stored_roundtrip b m n m0 :
  stores_directory b m → directory_ok m n → n < 2 ^ uint_bits → m0 = ∅ ∨ m0 = m →
  yaml_unmarshal_map b m0 = (m, Ok ()).
Proof.
  intros Hb Hm Hn Hm0. destruct Hb as [[-> ->]|Hb].
  - rewrite yaml_map_empty. by destruct Hm0 as [->| ->].
  - destruct (yaml_map_roundtrip m m0 (directory_values _ _ Hm Hn)) as (b' & Hb' & Hu).
    rewrite Hb in Hb'. injection Hb' as <-. rewrite Hu.
    destruct Hm0 as [->| ->]; [by rewrite map_union_empty|by rewrite map_union_idemp].
Qed.

(** Registers from which a restart recovers the directory [m]. *)
Record image_ok (rs : list reg) (m : gmap string Z) : Prop := {
  im_directory : directory_ok m (len rs);
  im_stored : ∃ b t, rs !! 0%nat = Some (b, t) ∧ stores_directory b m;
  im_clean v : 1 ≤ v < len rs → (∀ k, m !! k ≠ Some v) → ∃ t, rs !! Z.to_nat v = Some ([], t);
  im_records k v b t : m !! k = Some v → rs !! Z.to_nat v = Some (b, t) →
    b = [] ∨ ∃ cp, unmarshalCheckpoint b = Ok cp;
}.

(** The checkpoints they hold. *)
Definition shows (rs : list reg) (m : gmap string Z) (id : string) : option bytes :=
  v ← m !! id; r ← rs !! Z.to_nat v; record_of r.1.

(** ** Changing the registers *)

(** Adding a log to the directory. *)
Lemma directory_ok_insert m n o v :
  directory_ok m n → 1 ≤ v < n → (∀ k, m !! k ≠ Some v) →
  directory_ok (<[logfmt_ID o := v]> m) n.
Proof.
  intros [Hm Hinj] Hv Hfree. split.
  - apply map_Forall_insert_2; [by eauto|done].
  - intros k k' w. rewrite !lookup_insert_Some.
    intros [[<- ->]|[_ Hk]] [[<- ?]|[_ Hk']]; [done| | |by eapply Hinj].
    + by destruct (Hfree k').
    + subst. by destruct (Hfree k).
Qed.

Lemma record_of_marshal cp : record_of (marshalCheckpoint cp) = Some cp.
Proof. unfold record_of. by rewrite unmarshal_marshalCheckpoint. Qed.

Lemma insert_0_ne {A} (l : list A) x v : 1 ≤ v → <[0%nat := x]> l !! Z.to_nat v = l !! Z.to_nat v.
Proof. intros. apply list_lookup_insert_ne. lia. Qed.

(** A new record for the log [id]. *)
Lemma image_record rs m id v cp t :
  image_ok rs m → m !! id = Some v →
  let rs' := <[Z.to_nat v := (marshalCheckpoint cp, t)]> rs in
  image_ok rs' m ∧ ∀ k, shows rs' m k = if decide (k = id) then Some cp else shows rs m k.
Proof.
  intros [Hm (b0 & t0 & Hr & Hb) Hclean Hrec] Hv rs'.
  assert (len rs' = len rs) as Hlen by (unfold len, rs'; by rewrite length_insert).
  assert (∀ k w, m !! k = Some w → rs' !! Z.to_nat w =
            if decide (k = id) then Some (marshalCheckpoint cp, t) else rs !! Z.to_nat w) as Hlook.
  { intros k w Hk. pose proof (proj2 (do_range _ _ Hm _ _ Hk)). pose proof (proj2 (do_range _ _ Hm _ _ Hv)).
    unfold rs'. case_decide as E.
    - subst. rewrite Hk in Hv. injection Hv as ->. apply list_lookup_insert_eq. unfold len in *. lia.
    - apply list_lookup_insert_ne. intros ?. apply E. assert (w = v) as -> by lia. by eapply (do_inj _ _ Hm). }
  pose proof (proj2 (do_range _ _ Hm _ _ Hv)) as Hvr. split.
  - split; rewrite ?Hlen; [done| | |].
    + exists b0, t0. unfold rs'. rewrite list_lookup_insert_ne by lia. done.
    + intros w Hw Hk. unfold rs'. rewrite list_lookup_insert_ne; [by apply Hclean|].
      intros ?. apply (Hk id). rewrite Hv. f_equal. lia.
    + intros k w b t' Hk. rewrite (Hlook _ _ Hk). case_decide; [|by apply (Hrec k)].
      intros [= <- _]. right. exists cp. apply unmarshal_marshalCheckpoint.
  - intros k. unfold shows. case_decide as E.
    + subst. rewrite Hv. cbn. rewrite (Hlook _ _ Hv), decide_True by done. apply record_of_marshal.
    + destruct (m !! k) as [w|] eqn:Hk; [|done]. cbn. by rewrite (Hlook _ _ Hk), decide_False.
Qed.

(** A new log in the directory, mapped to a clean slot: it has no checkpoint
    yet, and the other logs keep theirs. *)
Lemma shows_add rs rs' m id f k :
  image_ok rs m → 1 ≤ f < len rs → (∀ k, m !! k ≠ Some f) → m !! id = None →
  (∀ v, 1 ≤ v → rs' !! Z.to_nat v = rs !! Z.to_nat v) → shows rs' (<[id := f]> m) k = shows rs m k.
Proof.
  intros [Hm _ Hclean _] Hf Hfk Hn Hrs. destruct (Hclean f Hf Hfk) as [tf Htf]. unfold shows.
  destruct (decide (k = id)) as [->|Hk].
  - rewrite lookup_insert_eq, Hn. cbn. by rewrite Hrs, Htf by lia.
  - rewrite lookup_insert_ne by done. destruct (m !! k) as [v|] eqn:Hv; [|done]. cbn.
    destruct (do_range _ _ Hm _ _ Hv). by rewrite Hrs by lia.
Qed.

Lemma image_add rs m o f b t :
  image_ok rs m → 1 ≤ f < len rs → (∀ k, m !! k ≠ Some f) → m !! logfmt_ID o = None →
  yaml_marshal_map (<[logfmt_ID o := f]> m) = Ok b →
  image_ok (<[0%nat := (b, t)]> rs) (<[logfmt_ID o := f]> m).
Proof.
  intros [Hm (b0 & t0 & Hr & Hb) Hclean Hrec] Hf Hfk Hn Henc. destruct (Hclean f Hf Hfk) as [tf Htf].
  assert (len (<[0%nat := (b, t)]> rs) = len rs) as Hlen by (unfold len; by rewrite length_insert).
  split; rewrite ?Hlen; [by apply directory_ok_insert| | |].
  - exists b, t. split; [|by right]. apply list_lookup_insert_eq. by eapply lookup_lt_Some.
  - intros v Hv Hk. rewrite insert_0_ne by lia. apply Hclean; [done|].
    intros k Hk'. apply (Hk k). rewrite lookup_insert_ne; [done|]. intros <-. by rewrite Hn in Hk'.
  - intros k v b' t'. rewrite lookup_insert_Some. intros [[_ <-]|[_ Hk]].
    + rewrite insert_0_ne, Htf by lia. intros [= <- _]. by left.
    + destruct (do_range _ _ Hm _ _ Hk). rewrite insert_0_ne by lia. by apply (Hrec k).
Qed.
End Image.
End PersistenceImage.
