(* ===== verification/PersistenceSpec.v ===== *)
(** * The persistence layer keeps one checkpoint per log

    The invariant of [SlotPersistence], its establishment by [Init] and its
    preservation by [Update], proved against the contract of the slot store
    and the documented behaviour of the external code. *)

From S2P Require Import Prelude Entry SlotStore Persistence PersistenceImage.
Import Entry Persistence.

Module PersistenceSpec.
Export PersistenceImage.

(** ** Steps of stateful code *)

Lemma ctx_Ok {S A} msg (m : M S A) s s' a : m s = (s', Ok a) → ctx msg m s = (s', Ok a).
Proof. unfold ctx. by intros ->. Qed.

Lemma ctx_Err {S A} msg (m : M S A) s s' e : m s = (s', Err e) → ctx msg m s = (s', Err msg).
Proof. unfold ctx. by intros ->. Qed.

(** ** Marking slots *)

Lemma mark_used_ok l st n :
  len st = n → (∀ x, x ∈ l → 1 ≤ x.2 < n) →
  ∃ st', mark_used l st = Ok st' ∧ length st' = length st ∧
    ∀ i, st' !! i = if decide (Z.of_nat i ∈ l.*2) then Some true else st !! i.
Proof.
  revert st. induction l as [|[k v] l IH]; intros st Hn Hl; cbn [mark_used].
  - exists st. split_and!; [done|done|]. intros i. by rewrite decide_False by (by intros ?%elem_of_nil).
  - pose proof (Hl (k, v) ltac:(by left)) as Hv. cbn in Hv. unfold mappingConfigSlot.
    rewrite (proj2 (Z.eqb_neq _ _)) by lia. rewrite (proj2 (Z.leb_gt _ _)) by lia.
    destruct (IH (<[Z.to_nat v := true]> st)) as (st' & -> & Hlen & Hlook).
    { unfold len in *. by rewrite length_insert. }
    { intros x Hx. apply Hl. by right. }
    rewrite length_insert in Hlen. exists st'. split_and!; [done|done|].
    intros i. rewrite Hlook. cbn [fmap list_fmap]. fold (l.*2).
    destruct (decide (Z.of_nat i ∈ l.*2)) as [Hin|Hin].
    + by rewrite decide_True by (by right).
    + destruct (decide (i = Z.to_nat v)) as [->|Hne].
      * rewrite decide_True by (rewrite Z2Nat.id by lia; by left).
        apply list_lookup_insert_eq. unfold len in *. lia.
      * rewrite list_lookup_insert_ne by done.
        rewrite decide_False; [done|]. intros [Heq|?]%elem_of_cons; [cbn in Heq; lia|done].
Qed.

Lemma elem_of_unused v st : v ∈ unused st ↔ 0 ≤ v ∧ st !! Z.to_nat v = Some false.
Proof.
  unfold unused. rewrite list_elem_of_fmap. split.
  - intros (i & -> & [Hi _]%list_elem_of_filter). rewrite Nat2Z.id. split; [lia|done].
  - intros [Hv Hs]. exists (Z.to_nat v). rewrite Z2Nat.id by lia. split; [done|].
    apply list_elem_of_filter. split; [done|]. apply elem_of_seq.
    apply lookup_lt_Some in Hs. lia.
Qed.

Lemma NoDup_unused st : NoDup (unused st).
Proof. unfold unused. apply NoDup_fmap; [apply _|]. apply NoDup_filter, NoDup_seq. Qed.

Section Spec.
Context `{P : Platform} `{X : !Externals} `{XS : !ExternalsSpec}.
Context {S : Type} `{O : !SlotOps S} `{SS : !SlotStore S}.

(** ** The invariant *)

Record state_ok (p : SlotPersistence S) (rs : list reg) : Prop := {
  so_holds : holds (part p) rs;
  so_slot : directorySlot p = Some mappingConfigSlot;
  so_opened : opened (part p) mappingConfigSlot;
  so_directory : directory_ok (idToSlot p) (len rs);
  so_stored : ∃ b, rs !! 0%nat = Some (b, directoryWriteToken p) ∧ stores_directory b (idToSlot p);
  so_free_nodup : NoDup (freeSlots p);
  so_free v : v ∈ freeSlots p ↔ 1 ≤ v < len rs ∧ ∀ k, idToSlot p !! k ≠ Some v;
  so_clean v : v ∈ freeSlots p → ∃ t, rs !! Z.to_nat v = Some ([], t);
  so_records k v b t : idToSlot p !! k = Some v → rs !! Z.to_nat v = Some (b, t) →
    b = [] ∨ ∃ cp, unmarshalCheckpoint b = Ok cp;
}.

(** The abstract state: the checkpoint of each log. *)
Definition view (p : SlotPersistence S) (rs : list reg) (id : string) : option bytes :=
  shows rs (idToSlot p) id.

(** The part of the invariant that is about the storage, and the rest. *)
Lemma state_image p rs : state_ok p rs → image_ok rs (idToSlot p).
Proof.
  intros [_ _ _ Hm (b & Hr & Hb) _ Hfree Hclean Hrec]. split; [done|by eauto| |done].
  intros v Hv Hk. by apply Hclean, Hfree.
Qed.

Lemma image_state p rs b :
  image_ok rs (idToSlot p) → holds (part p) rs → directorySlot p = Some mappingConfigSlot →
  opened (part p) mappingConfigSlot → rs !! 0%nat = Some (b, directoryWriteToken p) →
  NoDup (freeSlots p) → (∀ v, v ∈ freeSlots p ↔ 1 ≤ v < len rs ∧ ∀ k, idToSlot p !! k ≠ Some v) →
  state_ok p rs.
Proof.
  intros [Hm (b' & t & Hr & Hb) Hclean Hrec] Hh Hd Ho Ht Hnd Hfree. split; try done.
  - exists b. rewrite Hr in Ht. injection Ht as -> ->. done.
  - intros v Hv. apply Hfree in Hv as []. by apply Hclean.
Qed.

(** ** [Init] *)

Lemma free_of_marked m n st :
  directory_ok m n → len st = n → 1 ≤ n →
  (∀ i, st !! i = if decide (Z.of_nat i ∈ (range_order m).*2) then Some true
                  else replicate (Z.to_nat n) false !! i) →
  ∀ v, v ∈ unused (<[0%nat := true]> st) ↔ 1 ≤ v < n ∧ ∀ k, m !! k ≠ Some v.
Proof.
  intros [Hm _] Hl Hn Hst v. rewrite elem_of_unused.
  assert (∀ v, v ∈ (range_order m).*2 ↔ ∃ k, m !! k = Some v) as Hval.
  { intros v'. rewrite list_elem_of_fmap. split.
    - intros ([k x] & -> & Hin). rewrite range_order_perm, elem_of_map_to_list in Hin. eauto.
    - intros [k Hk]. exists (k, v'). rewrite range_order_perm. by rewrite elem_of_map_to_list. }
  destruct (decide (v = 0)) as [->|Hv0].
  { rewrite list_lookup_insert_eq by (unfold len in *; lia). split; [by intros []|lia]. }
  split.
  - intros [Hv Hs]. rewrite list_lookup_insert_ne in Hs by lia. rewrite Hst in Hs.
    rewrite Z2Nat.id in Hs by lia. case_decide as Hin; [done|].
    apply lookup_replicate in Hs as [_ Hs]. split; [lia|]. intros k Hk. apply Hin, Hval. eauto.
  - intros [Hv Hk]. split; [lia|]. rewrite list_lookup_insert_ne by lia. rewrite Hst.
    rewrite Z2Nat.id by lia. rewrite decide_False.
    + apply lookup_replicate. split; [done|lia].
    + intros Hin. apply Hval in Hin as [k Hk']. by apply (Hk k).
Qed.

Lemma Init_spec p rs b t m :
  holds (part p) rs → 1 ≤ len rs → rs !! 0%nat = Some (b, t) → stores_directory b m →
  directory_ok m (len rs) → idToSlot p = ∅ ∨ idToSlot p = m →
  (∀ v, 1 ≤ v < len rs → (∀ k, m !! k ≠ Some v) → ∃ t, rs !! Z.to_nat v = Some ([], t)) →
  (∀ k v b t, m !! k = Some v → rs !! Z.to_nat v = Some (b, t) →
     b = [] ∨ ∃ cp, unmarshalCheckpoint b = Ok cp) →
  ∃ p', Init p = (p', Ok ()) ∧ state_ok p' rs ∧ idToSlot p' = m ∧
    slot_Open mappingConfigSlot (part p) = (part p', Ok mappingConfigSlot) ∧
    (∀ k, healthy (part p) k → healthy (part p') k) ∧
    (∀ k b, storable (part p') k b ↔ storable (part p) k b).
Proof.
  intros Hh Hn Hr Hb Hm Hm0 Hclean Hrec.
  destruct (NumSlots_spec _ _ Hh) as [_ Hmax]. pose proof uint_half.
  destruct (Open_spec _ _ mappingConfigSlot Hh) as (s' & HO & Hh' & Hop & Hhl & Hst);
    [unfold mappingConfigSlot; lia|].
  assert (len rs < 2 ^ uint_bits) as Hmax' by lia.
  pose proof (stored_roundtrip b m (len rs) (idToSlot p) Hb Hm Hmax' Hm0) as Hu.
  destruct (mark_used_ok (range_order m) (replicate (Z.to_nat (len rs)) false) (len rs))
    as (st & Hmark & Hlen & Hlook).
  { unfold len. rewrite length_replicate. lia. }
  { intros [k v] Hin. rewrite range_order_perm, elem_of_map_to_list in Hin.
    by destruct (do_range _ _ Hm k v Hin). }
  rewrite length_replicate in Hlen.
  assert (len st = len rs) as Hlst by (unfold len in *; lia).
  exists (mkSP s' (Some mappingConfigSlot) t m (unused (<[0%nat := true]> st))). split_and!.
  - unfold Init. erewrite bind_Ok by (apply ctx_Ok; unfold on_part; by rewrite HO).
    erewrite bind_Ok by done. apply ctx_Ok. unfold populateMap.
    erewrite bind_Ok by done.
    erewrite bind_Ok by (apply ctx_Ok; unfold on_part; cbn [part directorySlot];
      rewrite (Read_spec s' rs mappingConfigSlot (b, t)) by (done || (apply Hop; by right)); done).
    cbn beta iota. erewrite bind_Ok by (apply ctx_Ok; unfold unmarshal_idToSlot; cbn; by rewrite Hu).
    erewrite bind_Ok by done. erewrite bind_Ok by done. erewrite bind_Ok by done. cbn.
    rewrite (proj1 (NumSlots_spec _ _ Hh')). erewrite bind_Ok by (unfold lift; by rewrite Hmark).
    rewrite (proj2 (Z.leb_gt _ _)) by (unfold mappingConfigSlot; lia). done.
  - pose proof (free_of_marked m (len rs) st Hm Hlst Hn Hlook) as Hfree.
    split; cbn [part directorySlot idToSlot directoryWriteToken freeSlots];
      [done|done|apply Hop; by right|done|by exists b|apply NoDup_unused|done| |done].
    intros v Hv. apply Hfree in Hv as []. by apply Hclean.
  - done.
  - done.
  - done.
  - done.
Qed.

(** ** Storing the directory *)

(** What an operation on slot [i] leaves of the store's promises. *)
Record after (s s' : S) (i : Z) : Prop := {
  af_opened k : opened s k → opened s' k;
  af_healthy k : k ≠ i → healthy s k → healthy s' k;
  af_storable k b : storable s' k b ↔ storable s k b;
}.

(** The directory with the log [id] added can be stored. *)
Record assignable (p : SlotPersistence S) (id : string) : Prop := {
  asg_healthy : healthy (part p) mappingConfigSlot;
  asg_rev : directoryWriteToken p + 1 < 2 ^ 32;
  asg_directory f fs b :
    idToSlot p !! id = None → freeSlots p = f :: fs →
    yaml_marshal_map (<[id := f]> (idToSlot p)) = Ok b → storable (part p) mappingConfigSlot b;
}.

(** The store can take an update for the log [id]. *)
Record ready (p : SlotPersistence S) (rs : list reg) (id : string) : Prop := {
  rd_assignable : assignable p id;
  rd_healthy k : healthy (part p) k;
  rd_rev i r t : rs !! i = Some (r, t) → t + 1 < 2 ^ 32;
}.

(** The write of the directory [m], encoded as [b], with an outcome like that
    of the operation it is part of. *)
Record directory_write {A} (p : SlotPersistence S) (m : gmap string Z) (b : bytes) (s' : S)
    (r : res A) : Prop := {
  dw_encoded : yaml_marshal_map m = Ok b;
  dw_written : ∃ w, slot_CheckAndWrite mappingConfigSlot (directoryWriteToken p) b (part p) = (s', w) ∧
    is_ok w = is_ok r;
}.

Lemma storeDirectory_spec p rs b0 :
  holds (part p) rs → directorySlot p = Some mappingConfigSlot →
  opened (part p) mappingConfigSlot → healthy (part p) mappingConfigSlot →
  rs !! 0%nat = Some (b0, directoryWriteToken p) → directoryWriteToken p + 1 < 2 ^ 32 →
  directory_ok (idToSlot p) (len rs) →
  (∀ b, yaml_marshal_map (idToSlot p) = Ok b → storable (part p) mappingConfigSlot b) →
  ∃ s' t' b r, storeDirectory p = (mkSP s' (directorySlot p) t' (idToSlot p) (freeSlots p), r) ∧
    after (part p) s' mappingConfigSlot ∧ directory_write p (idToSlot p) b s' r ∧
    match r with
    | Ok _ => t' = directoryWriteToken p + 1 ∧
        holds s' (<[0%nat := (b, t')]> rs) ∧ healthy s' mappingConfigSlot
    | Err _ => holds s' rs
    | _ => False
    end.
Proof.
  intros Hh Hd Ho Hhl Hr Hrev Hm Hdir.
  destruct (NumSlots_spec _ _ Hh) as [_ Hmax]. pose proof uint_half.
  assert (len rs < 2 ^ uint_bits) as Hmax' by lia.
  destruct (yaml_map_roundtrip _ ∅ (directory_values _ _ Hm Hmax')) as (b & Hb & _).
  set (t := directoryWriteToken p) in *.
  pose proof (holds_rev _ _ _ _ Hh Hr) as Hpos. cbn in Hpos.
  destruct (CheckAndWrite_spec _ _ mappingConfigSlot t b b0 Hh Ho Hhl (Hdir _ Hb) Hr Hrev)
    as (s' & r & HW & Hop & Hhl' & Hst & Hres).
  assert (after (part p) s' mappingConfigSlot) as Ha
    by (split; [intros k; by apply Hop|done|done]).
  unfold storeDirectory. erewrite bind_Ok by done. erewrite bind_Ok by (apply ctx_Ok; unfold lift; by rewrite Hb).
  unfold directory. erewrite bind_Ok by (by rewrite Hd). erewrite bind_Ok by done.
  fold t. destruct r as [[]|msg| |]; [| |done..].
  - exists s', (t + 1), b, (Ok ()). erewrite bind_Ok by (apply ctx_Ok; unfold on_part; by rewrite HW).
    unfold set_token. rewrite wrap_small by lia. destruct Hres.
    split_and!; [done|done| |done|done|done]. split; [done|]. by exists (Ok ()).
  - exists s', t, b, (Err "failed to store mapping").
    erewrite bind_Err by (eapply ctx_Err; unfold on_part; by rewrite HW).
    split_and!; [done|done| |done]. split; [done|]. by exists (Err msg).
Qed.

(** ** Assigning a slot *)

Lemma logSlot_mapped p id v create : idToSlot p !! id = Some v → logSlot id create p = (p, Ok v).
Proof. intros Hv. unfold logSlot. erewrite bind_Ok by done. by rewrite Hv. Qed.

Lemma logSlot_full p id :
  idToSlot p !! id = None → freeSlots p = [] →
  logSlot id true p = (p, Err "unable to assign slot for log ID").
Proof.
  intros Hn Hf. unfold logSlot. erewrite bind_Ok by done. rewrite Hn. cbn [negb].
  eapply ctx_Err. unfold addLog. erewrite bind_Ok by done. rewrite Hn.
  erewrite bind_Ok by done. by rewrite Hf.
Qed.

(** ... takes its slot off the free list. *)
Lemma free_insert (m : gmap string Z) n id f fs :
  NoDup (f :: fs) → (∀ v, v ∈ f :: fs ↔ 1 ≤ v < n ∧ ∀ k, m !! k ≠ Some v) → m !! id = None →
  ∀ v, v ∈ fs ↔ 1 ≤ v < n ∧ ∀ k, <[id := f]> m !! k ≠ Some v.
Proof.
  intros [Hffs _]%NoDup_cons Hfree Hn v. specialize (Hfree v). rewrite elem_of_cons in Hfree. split.
  - intros Hv. destruct (proj1 Hfree (or_intror Hv)) as [? Hk]. split; [done|].
    intros k. rewrite lookup_insert_Some. intros [[_ ->]|[_ ?]]; [done|by apply (Hk k)].
  - intros [Hv Hk]. assert (v ≠ f) by (intros ->; apply (Hk id); by rewrite lookup_insert_eq).
    destruct (proj2 Hfree) as [?|?]; [|done|done]. split; [done|]. intros k Hk'.
    apply (Hk k). rewrite lookup_insert_ne; [done|]. intros <-. by rewrite Hn in Hk'.
Qed.

Lemma logSlot_new p rs o f fs :
  let id := logfmt_ID o in
  state_ok p rs → assignable p id → idToSlot p !! id = None → freeSlots p = f :: fs →
  ∃ s' t' b r, logSlot id true p = (mkSP s' (directorySlot p) t' (<[id := f]> (idToSlot p)) fs, r) ∧
    after (part p) s' mappingConfigSlot ∧ directory_write p (<[id := f]> (idToSlot p)) b s' r ∧
    match r with
    | Ok i => i = f ∧ t' = directoryWriteToken p + 1 ∧ healthy s' mappingConfigSlot ∧
        state_ok (mkSP s' (directorySlot p) t' (<[id := f]> (idToSlot p)) fs) (<[0%nat := (b, t')]> rs)
    | Err _ => holds s' rs
    | _ => False
    end.
Proof.
  intros id Hok [Hhl Hrev Hdir] Hn Hfs. pose proof Hok as [Hh Hd Ho Hm (b0 & Hr & Hb0) Hnd Hfree _ _].
  destruct (proj1 (Hfree f)) as [Hf Hfk]; [rewrite Hfs; by left|].
  pose proof (directory_ok_insert _ _ o f Hm Hf Hfk) as Hm'. fold id in Hm'.
  set (p1 := mkSP (part p) (directorySlot p) (directoryWriteToken p) (<[id := f]> (idToSlot p)) fs).
  destruct (storeDirectory_spec p1 rs b0) as (s' & t' & b & r & HS & Ha & Hw & Hres);
    [done..|intros b; by eapply Hdir|].
  destruct Hw as [Hb (w & HW & Hwr)].
  cbn [part directorySlot directoryWriteToken idToSlot freeSlots p1] in *.
  assert (logSlot id true p = ctx "unable to assign slot for log ID"
            (ctx "failed to storeMap" storeDirectory ≫= λ _, mret f) p1) as ->.
  { unfold logSlot. erewrite bind_Ok by done. rewrite Hn. cbn [negb]. unfold ctx at 1 3, addLog.
    erewrite bind_Ok by done. rewrite Hn. erewrite bind_Ok by done. by rewrite Hfs. }
  exists s', t', b. destruct r as [[]|msg| |]; [| |done..].
  2: { eexists (Err _). split_and!; [|done|by split; [|exists w]|done]. eapply ctx_Err, bind_Err, ctx_Err. exact HS. }
  exists (Ok f). destruct Hres as (Ht' & Hh' & Hhl').
  split_and!; [|done|by split; [|exists w]|done|done|done|].
  { apply ctx_Ok. by erewrite bind_Ok by (apply ctx_Ok; exact HS). }
  rewrite Hfs in Hnd. pose proof (image_add rs _ o f b t' (state_image _ _ Hok) Hf Hfk Hn Hb) as Him.
  apply (image_state _ _ b); cbn [part directorySlot directoryWriteToken idToSlot freeSlots]; try done.
  - by apply (af_opened _ _ _ Ha).
  - apply list_lookup_insert_eq. by eapply lookup_lt_Some.
  - by apply NoDup_cons in Hnd as [_ ?].
  - unfold len. rewrite length_insert. fold (len rs). apply free_insert; [done| |done].
    intros v. rewrite <-Hfs. apply Hfree.
Qed.

(** ** Changing the registers *)

(** The slot store of [p] replaced. *)
Definition with_part (p : SlotPersistence S) (s : S) : SlotPersistence S :=
  mkSP s (directorySlot p) (directoryWriteToken p) (idToSlot p) (freeSlots p).

Lemma state_ok_part p rs s' :
  state_ok p rs → holds s' rs → (∀ k, opened (part p) k → opened s' k) → state_ok (with_part p s') rs.
Proof. intros [] Hh Hop. split; cbn; auto. Qed.

(** A new record for a log. *)
Lemma state_ok_record p rs s' id v cp t :
  state_ok p rs → idToSlot p !! id = Some v →
  holds s' (<[Z.to_nat v := (marshalCheckpoint cp, t)]> rs) →
  (∀ k, opened (part p) k → opened s' k) →
  state_ok (with_part p s') (<[Z.to_nat v := (marshalCheckpoint cp, t)]> rs).
Proof.
  intros Hok Hv Hh' Hop. destruct (image_record rs _ id v cp t (state_image _ _ Hok) Hv) as [Him _].
  pose proof Hok as [_ Hd Ho Hm (b & Hr & _) Hnd Hfree _ _]. destruct (do_range _ _ Hm _ _ Hv) as [_ Hvr].
  apply (image_state _ _ b); cbn [part directorySlot directoryWriteToken idToSlot freeSlots with_part];
    [done|done|done|by apply Hop| |done|].
  - by rewrite list_lookup_insert_ne by lia.
  - unfold len. rewrite length_insert. exact Hfree.
Qed.

Lemma view_record p rs s' id v cp t k :
  state_ok p rs → idToSlot p !! id = Some v →
  view (with_part p s') (<[Z.to_nat v := (marshalCheckpoint cp, t)]> rs) k =
  if decide (k = id) then Some cp else view p rs k.
Proof. intros Hok Hv. by apply (image_record rs _ id v cp t (state_image _ _ Hok) Hv). Qed.

(** Mapping a log to a clean slot shows no new checkpoint. *)
Lemma view_new p rs s' t' o f fs b k :
  let m := <[logfmt_ID o := f]> (idToSlot p) in
  state_ok p rs → idToSlot p !! logfmt_ID o = None → freeSlots p = f :: fs →
  view (mkSP s' (directorySlot p) t' m fs) (<[0%nat := b]> rs) k = view p rs k ∧
  view (mkSP s' (directorySlot p) t' m fs) rs k = view p rs k.
Proof.
  intros m Hok Hn Hfs. destruct (proj1 (so_free _ _ Hok f)) as [Hf Hfk]; [rewrite Hfs; by left|].
  unfold view, m. cbn [idToSlot]. pose proof (state_image _ _ Hok).
  split; apply shows_add; try done. intros v Hv. by apply insert_0_ne.
Qed.

(** ** Reading *)

Lemma unmarshal_empty : unmarshalCheckpoint [] = Ok [].
Proof. unfold unmarshalCheckpoint. cbn. by rewrite yaml_record_empty. Qed.

(** A record decodes to the checkpoint it shows, and to no bytes if it shows
    none. *)
Lemma record_decodes b :
  b = [] ∨ (∃ cp, unmarshalCheckpoint b = Ok cp) →
  unmarshalCheckpoint b = Ok (default [] (record_of b)) ∧ (len b = 0 ↔ record_of b = None).
Proof.
  intros Hb. unfold record_of. case_test.
  - destruct b; [|unfold len in E; cbn in E; lia]. split; [apply unmarshal_empty|done].
  - destruct Hb as [->|[cp Hcp]]; [done|]. by rewrite Hcp.
Qed.

Lemma view_mapped p rs id v b t :
  idToSlot p !! id = Some v → rs !! Z.to_nat v = Some (b, t) → view p rs id = record_of b.
Proof. intros Hv Hr. unfold view, shows. rewrite Hv. cbn. by rewrite Hr. Qed.

(** Opening and reading the slot of a log. *)
Lemma read_slot p rs id v {A} (k : Z → bytes * Z → M (SlotPersistence S) A) :
  state_ok p rs → idToSlot p !! id = Some v →
  ∃ s' b t, slot_Open v (part p) = (s', Ok v) ∧
    rs !! Z.to_nat v = Some (b, t) ∧ state_ok (with_part p s') rs ∧ opened s' v ∧ (∀ k, healthy (part p) k → healthy s' k) ∧
    (∀ k b, storable s' k b ↔ storable (part p) k b) ∧
    unmarshalCheckpoint b = Ok (default [] (view p rs id)) ∧
    (len b = 0 ↔ view p rs id = None) ∧
    (s ← ctx "internal error opening slot" (on_part (slot_Open v));
     r ← ctx "failed to read data" (on_part (slot_Read s)); k s r) p
    = k v (b, t) (with_part p s').
Proof.
  intros Hok Hv. pose proof Hok as [Hh Hd Ho Hm _ _ _ _ Hrec].
  destruct (do_range _ _ Hm _ _ Hv) as [_ Hvr].
  destruct (Open_spec _ _ v Hh) as (s' & HO & Hh' & Hop & Hhl & Hst); [lia|].
  destruct (lookup_lt_is_Some_2 rs (Z.to_nat v)) as [[b t] Hr]; [unfold len in *; lia|].
  exists s', b, t. split_and!; [done|done| |apply Hop; by right|done|done| | |].
  - apply state_ok_part; [done..|]. intros k' Hk'. apply Hop. by left.
  - rewrite (view_mapped _ _ _ _ _ _ Hv Hr). by apply record_decodes, (Hrec _ _ _ _ Hv Hr).
  - rewrite (view_mapped _ _ _ _ _ _ Hv Hr). by apply record_decodes, (Hrec _ _ _ _ Hv Hr).
  - erewrite bind_Ok by (apply ctx_Ok; unfold on_part; by rewrite HO).
    erewrite bind_Ok; [done|]. apply ctx_Ok. unfold on_part. cbn [part].
    rewrite (Read_spec s' rs v (b, t)); [done|done|apply Hop; by right|done].
Qed.

Lemma Latest_spec p rs o :
  state_ok p rs →
  ∃ s', state_ok (with_part p s') rs ∧ (∀ k, healthy (part p) k → healthy s' k) ∧
    (s' = part p ∨ ∃ v, slot_Open v (part p) = (s', Ok v)) ∧
    Latest o p = (with_part p s',
      match view p rs (logfmt_ID o) with
      | Some cp => Ok cp
      | None => Err (if decide (idToSlot p !! logfmt_ID o = None) then "NotFound: no slot for log"
                     else "NotFound: no checkpoint for log")
      end).
Proof.
  intros Hok. unfold Latest. destruct (idToSlot p !! logfmt_ID o) as [v|] eqn:Hv.
  - erewrite bind_Ok by (by apply logSlot_mapped).
    destruct (read_slot p rs (logfmt_ID o) v
      (λ _ r, let '(b, _) := r in if len b =? 0 then lift (Err "NotFound: no checkpoint for log")
                                  else lift (unmarshalCheckpoint b)) Hok Hv)
      as (s' & b & t & HO & Hr & Hok' & _ & Hhl & _ & Hu & Hlen & HK).
    exists s'. split_and!; [done|done|by eauto|]. rewrite decide_False by done.
    etransitivity; [exact HK|]. cbn beta iota.
    destruct (view p rs (logfmt_ID o)) as [cp|] eqn:Hview.
    + rewrite (proj2 (Z.eqb_neq _ _)) by (intros ?; by apply Hlen in H). unfold lift. by rewrite Hu.
    + rewrite (proj2 (Z.eqb_eq _ _)) by (by apply Hlen). done.
  - exists (part p). assert (with_part p (part p) = p) as Hp by (by destruct p).
    rewrite Hp. split_and!; [done|done|by left|]. unfold view, shows. rewrite Hv. cbn.
    unfold logSlot, get, mbind at 1, M_bind at 1. unfold mbind, M_bind. rewrite Hv. done.
Qed.

(** ** [Update] *)

(** [Update] of a log that has a slot: the slot is opened and read, and the
    result of the update function written under the revision read. *)
Lemma Update_mapped_run p rs o f v :
  state_ok p rs → idToSlot p !! logfmt_ID o = Some v →
  ∃ s1 b t, slot_Open v (part p) = (s1, Ok v) ∧ rs !! Z.to_nat v = Some (b, t) ∧
    state_ok (with_part p s1) rs ∧ opened s1 v ∧ (∀ k, healthy (part p) k → healthy s1 k) ∧
    (∀ k b, storable s1 k b ↔ storable (part p) k b) ∧
    Update o f p =
    match f (default [] (view p rs (logfmt_ID o))) with
    | Ok cp =>
      let '(s2, w) := slot_CheckAndWrite v t (marshalCheckpoint cp) s1 in
      (with_part p s2, match w with Err _ => Err "failed to write data" | _ => w end)
    | Err e => (with_part p s1, Err e)
    | Panic e => (with_part p s1, Panic e)
    | NoFuel => (with_part p s1, NoFuel)
    end.
Proof.
  intros Hok Hv. set (id := logfmt_ID o) in *.
  destruct (read_slot p rs id v
    (λ s r, let '(b, t) := r in
       currCP ← ctx "unmarshalCheckpoint" (lift (unmarshalCheckpoint b));
       newCP ← lift (f currCP);
       ctx "failed to write data" (on_part (slot_CheckAndWrite s t (marshalCheckpoint newCP)))) Hok Hv)
    as (s1 & b & t & HO & Hr & Hok1 & Hop1 & Hhl1 & Hst1 & Hu & _ & HK).
  exists s1, b, t. split_and!; [done..|].
  unfold Update. fold id. erewrite bind_Ok by (by apply logSlot_mapped).
  unfold mbind, M_bind in HK |- *. rewrite HK. clear HK. unfold ctx at 1, lift at 1. rewrite Hu.
  unfold lift. destruct (f (default [] (view p rs id))) as [cp| | |]; [|done..].
  unfold ctx, on_part. cbn [part with_part].
  by destruct (slot_CheckAndWrite v t (marshalCheckpoint cp) s1) as [s2 [[]| | |]].
Qed.

Lemma Update_mapped p rs o f v :
  let id := logfmt_ID o in
  state_ok p rs → (∀ k, healthy (part p) k) →
  (∀ r t, rs !! Z.to_nat v = Some (r, t) → t + 1 < 2 ^ 32) → idToSlot p !! id = Some v →
  (∀ cp, f (default [] (view p rs id)) = Ok cp → storable (part p) v (marshalCheckpoint cp)) →
  (∀ e, f (default [] (view p rs id)) ≠ Panic e) → f (default [] (view p rs id)) ≠ NoFuel →
  ∃ s' rs' r, Update o f p = (with_part p s', r) ∧ state_ok (with_part p s') rs' ∧
    len rs' = len rs ∧
    match r with
    | Ok _ => (∀ k, healthy s' k) ∧ ∃ cp, f (default [] (view p rs id)) = Ok cp ∧
        ∀ k, view (with_part p s') rs' k = if decide (k = id) then Some cp else view p rs k
    | Err _ => ∀ k, view (with_part p s') rs' k = view p rs k
    | _ => False
    end.
Proof.
  intros id Hok Hhl Hrev Hv Hst Hnp Hnf.
  destruct (Update_mapped_run p rs o f v Hok Hv) as (s1 & b & t & HO & Hr & Hok1 & Hop1 & Hhl1 & Hst1 & ->).
  fold id. destruct (f (default [] (view p rs id))) as [cp|msg|msg|] eqn:Hf.
  2: { by exists s1, rs, (Err msg). }
  2: { by destruct (Hnp msg). }
  2: { done. }
  destruct (CheckAndWrite_spec s1 rs v t (marshalCheckpoint cp) b) as (s2 & r & -> & Hop2 & Hhl2 & Hst2 & Hres);
    [by apply Hok1|done|by apply Hhl1|by apply Hst1, Hst|done|by eapply Hrev|].
  destruct r as [[]|msg| |]; [| |done..].
  - eexists s2, _, (Ok ()). destruct Hres as [Hh2 Hhv]. split_and!; [done| | | |].
    + apply (state_ok_record (with_part p s1) rs s2 id); [done..|]. intros k. by apply Hop2.
    + unfold len. by rewrite length_insert.
    + intros k. destruct (decide (k = v)) as [->|]; [done|]. by apply Hhl2, Hhl1.
    + exists cp. split; [done|]. intros k. by apply view_record.
  - exists s2, rs, (Err "failed to write data"). split_and!; [done| |done|done].
    apply (state_ok_part (with_part p s1) rs s2); [done..|]. intros k. by apply Hop2.
Qed.

(** Once the log has a slot, [Update] goes on as if it always had. *)
Lemma Update_after_slot p p1 o f v :
  logSlot (logfmt_ID o) true p = (p1, Ok v) → idToSlot p1 !! logfmt_ID o = Some v →
  Update o f p = Update o f p1.
Proof.
  intros HL Hv. unfold Update. rewrite (bind_Ok _ _ _ _ _ HL).
  by rewrite (bind_Ok (logSlot (logfmt_ID o) true) _ p1 p1 v) by (by apply logSlot_mapped).
Qed.

(** The mapping of a new log was changed in memory only. *)
Definition directory_lost (p p' : SlotPersistence S) (id : string) : Prop :=
  ∃ f fs, freeSlots p = f :: fs ∧ freeSlots p' = fs ∧ idToSlot p' = <[id := f]> (idToSlot p).

Lemma persist_Update_spec p rs o f :
  let id := logfmt_ID o in
  let cur := default [] (view p rs id) in
  state_ok p rs → ready p rs id →
  (∀ cp v, f cur = Ok cp → 1 ≤ v < len rs → storable (part p) v (marshalCheckpoint cp)) →
  (∀ e, f cur ≠ Panic e) → f cur ≠ NoFuel →
  ∃ p' rs' r, Update o f p = (p', r) ∧ holds (part p') rs' ∧ len rs' = len rs ∧
    match r with
    | Ok _ => state_ok p' rs' ∧ (∀ k, healthy (part p') k) ∧ ∃ cp, f cur = Ok cp ∧
        ∀ k, view p' rs' k = if decide (k = id) then Some cp else view p rs k
    | Err _ => (∀ k, view p' rs' k = view p rs k) ∧ (state_ok p' rs' ∨ directory_lost p p' id)
    | _ => False
    end.
Proof.
  intros id cur Hok Hready Hst Hnp Hnf. destruct Hready as [Hasg Hhl Hrev].
  destruct (idToSlot p !! id) as [v|] eqn:Hv.
  { destruct (do_range _ _ (so_directory _ _ Hok) _ _ Hv) as [_ ?].
    destruct (Update_mapped p rs o f v Hok Hhl) as (s' & rs' & r & HU & Hok' & Hlen & Hres); [by eauto..|].
    exists (with_part p s'), rs', r. split_and!; [done|by apply Hok'|done|].
    destruct r; [|by split; [|left]|done..]. by destruct Hres. }
  destruct (freeSlots p) as [|fr fs] eqn:Hfs.
  { exists p, rs, (Err "unable to assign slot for log ID"). unfold Update. fold id.
    erewrite bind_Err by (by apply logSlot_full).
    split_and!; [done|by apply Hok|done|done|by left]. }
  destruct (logSlot_new p rs o fr fs Hok Hasg Hv Hfs) as (s1 & t1 & b & r & HL & Ha & _ & Hr).
  fold id in HL, Hr.
  pose proof (λ b, view_new p rs s1 t1 o fr fs b) as Hview.
  set (p1 := mkSP s1 (directorySlot p) t1 (<[id := fr]> (idToSlot p)) fs) in *.
  destruct r as [i|msg| |]; [| |done..].
  2: { exists p1, rs, (Err msg). unfold Update. fold id. erewrite bind_Err by exact HL.
       split_and!; [done|done|done| |right; by exists fr, fs].
       intros k. by destruct (Hview ([], 0) k Hok Hv Hfs). }
  destruct Hr as (-> & _ & Hh0 & Hok1). set (rs1 := <[0%nat := (b, t1)]> rs) in *.
  assert (∀ k, view p1 rs1 k = view p rs k) as Hv1 by (intros k; by destruct (Hview (b, t1) k Hok Hv Hfs)).
  destruct (proj1 (so_free _ _ Hok fr)) as [Hfr _]; [rewrite Hfs; by left|].
  assert (len rs1 = len rs) as Hl1 by (unfold len, rs1; by rewrite length_insert).
  assert (idToSlot p1 !! id = Some fr) as Hm1 by apply lookup_insert_eq.
  rewrite (Update_after_slot p p1 o f fr HL Hm1).
  destruct (Update_mapped p1 rs1 o f fr Hok1) as (s' & rs' & r & HU & Hok' & Hlen & Hres);
    fold id; rewrite ?Hv1; [|..|exact Hnp|exact Hnf|].
  - intros k. destruct (decide (k = mappingConfigSlot)) as [->|]; [done|]. by apply (af_healthy _ _ _ Ha).
  - intros r' t'. unfold rs1. rewrite insert_0_ne by lia. apply Hrev.
  - done.
  - intros cp Hcp. apply (af_storable _ _ _ Ha). by apply Hst.
  - exists (with_part p1 s'), rs', r. split_and!; [done|by apply Hok'|lia|].
    destruct r as [u|msg| |]; [| |done..].
    + destruct Hres as (Hhl' & cp & Hcp & Hk). split_and!; [done|done|]. exists cp.
      fold id in Hcp, Hk. rewrite Hv1 in Hcp. split; [done|]. intros k. by rewrite Hk, Hv1.
    + split; [|by left]. intros k. by rewrite Hres, Hv1.
Qed.
End Spec.
End PersistenceSpec.
