(* ===== verification/PersistenceProps.v ===== *)
(** * Properties of the persistence layer

    What a witness observes of [SlotPersistence]: updates and reads as of one
    checkpoint per log, the assignment of slots on any storage, restarts, and
    the directory it cannot load. *)

From S2P Require Import Prelude Entry SlotStore Persistence PersistenceSpec.
Import Entry Persistence PersistenceSpec.

Module PersistenceProps.

(** The checkpoint [Latest] returns, if it finds one. *)
Definition latest `{E : Externals} {S} `{O : SlotOps S} (o : string) (p : SlotPersistence S) : option bytes :=
  match (Latest o p).2 with Ok cp => Some cp | _ => None end.

(** ** One checkpoint per log *)

Section Observed.
Context `{P : Platform} `{X : !Externals} `{XS : !ExternalsSpec}.
Context {S : Type} `{O : !SlotOps S} `{SS : !SlotStore S}.

Lemma latest_view p rs o : state_ok p rs → latest o p = view p rs (logfmt_ID o).
Proof.
  intros Hok. destruct (Latest_spec p rs o Hok) as (s' & _ & _ & _ & HL).
  unfold latest. rewrite HL. cbn. by destruct (view p rs (logfmt_ID o)).
Qed.


End Observed.

(** ** The assignment of slots, whatever the storage does *)

Section Assignment.
Context `{P : Platform} `{X : !Externals}.
Context {S : Type} `{O : !SlotOps S}.

(** The directory in memory maps logs to distinct data slots, and the free
    list holds every other data slot once. *)
Record assignment_ok (p : SlotPersistence S) (n : Z) : Prop := {
  as_directory : directory_ok (idToSlot p) n;
  as_nodup : NoDup (freeSlots p);
  as_free v : v ∈ freeSlots p ↔ 1 ≤ v < n ∧ ∀ k, idToSlot p !! k ≠ Some v;
}.

(** The calls of the API after [Init]. *)
Inductive call := CallLatest (o : string) | CallUpdate (o : string) (f : bytes → res bytes).

Definition run_call (c : call) (p : SlotPersistence S) : SlotPersistence S :=
  match c with
  | CallLatest o => (Latest o p).1
  | CallUpdate o f => (Update o f p).1
  end.

Definition run_calls (cs : list call) (p : SlotPersistence S) : SlotPersistence S :=
  foldl (λ p c, run_call c p) p cs.

(** What leaves the assignment alone. *)
Definition keeps {A} (m : M (SlotPersistence S) A) : Prop :=
  ∀ p, idToSlot (m p).1 = idToSlot p ∧ freeSlots (m p).1 = freeSlots p.

Lemma keeps_bind {A B} (m : M (SlotPersistence S) A) (f : A → M (SlotPersistence S) B) :
  keeps m → (∀ a, keeps (f a)) → keeps (m ≫= f).
Proof.
  intros Hm Hf p. specialize (Hm p). unfold mbind, M_bind.
  destruct (m p) as [p1 [a| | |]]; [|done..]. specialize (Hf a p1). cbn in *.
  by destruct Hf as [-> ->].
Qed.

Lemma keeps_ctx {A} msg (m : M (SlotPersistence S) A) : keeps m → keeps (ctx msg m).
Proof. intros Hm p. specialize (Hm p). unfold ctx. by destruct (m p) as [p1 []]. Qed.

Lemma keeps_on_part {A} (m : M S A) : keeps (on_part m).
Proof. intros p. unfold on_part. by destruct (m (part p)). Qed.

Lemma keeps_lift {A} (r : res A) : keeps (lift r).
Proof. done. Qed.

Lemma keeps_storeDirectory : keeps storeDirectory.
Proof.
  unfold storeDirectory. apply keeps_bind; [done|intros m].
  apply keeps_bind; [apply keeps_ctx, keeps_lift|intros b].
  apply keeps_bind; [done|intros d]. apply keeps_bind; [done|intros t].
  apply keeps_bind; [apply keeps_ctx, keeps_on_part|done].
Qed.

Lemma logSlot_assignment id create p n :
  (∃ o, id = logfmt_ID o) → assignment_ok p n → assignment_ok (logSlot id create p).1 n.
Proof.
  intros [o ->] Hp. unfold logSlot. erewrite bind_Ok by done.
  destruct (idToSlot p !! logfmt_ID o) as [v|] eqn:Hn; [done|]. destruct create; [|done]. cbn [negb].
  unfold ctx. destruct (addLog (logfmt_ID o) p) as [p1 r] eqn:HA.
  enough (assignment_ok p1 n) by (by destruct r).
  unfold addLog in HA. erewrite bind_Ok in HA by done. rewrite Hn in HA.
  erewrite bind_Ok in HA by done. destruct (freeSlots p) as [|f fs] eqn:Hfs.
  { injection HA as <- _. done. }
  erewrite bind_Ok in HA by done. erewrite bind_Ok in HA by done.
  cbn [part directorySlot directoryWriteToken idToSlot freeSlots] in HA.
  match type of HA with ?m ?q = _ => set (p2 := q) in HA; assert (keeps m) as Hk end.
  { apply keeps_bind; [apply keeps_ctx, keeps_storeDirectory|done]. }
  specialize (Hk p2). rewrite HA in Hk. cbn in Hk. destruct Hk as [Hid Hf].
  destruct Hp as [Hm Hnd Hfree]. rewrite Hfs in Hnd, Hfree.
  destruct (proj1 (Hfree f)) as [Hfr Hfk]; [by left|].
  split; rewrite ?Hid, ?Hf; [by apply directory_ok_insert|by apply NoDup_cons in Hnd as [_ ?]|].
  by apply free_insert.
Qed.

(** A computation that starts with [logSlot] and then uses the store. *)
Lemma after_logSlot_assignment {A} id create (k : Z → M (SlotPersistence S) A) p n :
  (∃ o, id = logfmt_ID o) → (∀ i, keeps (k i)) → assignment_ok p n →
  assignment_ok ((logSlot id create ≫= k) p).1 n.
Proof.
  intros Hid Hk Hp. pose proof (logSlot_assignment id create p n Hid Hp) as Hl.
  unfold mbind, M_bind. destruct (logSlot id create p) as [p1 [i| | |]]; [|done..].
  cbn in Hl. destruct (Hk i p1) as [E1 E2]. destruct Hl as [Hm Hnd Hfree].
  split; rewrite ?E1, ?E2; done.
Qed.

(** C11 No two logs ever share a slot, and slot 0 is never given to a log: the
    assignment of slots is kept by every sequence of calls of [Latest] and
    [Update], whatever their update functions return and however the storage
    fails. *)
Theorem assignment_invariant (p : SlotPersistence S) (n : Z) (cs : list call) :
  assignment_ok p n → assignment_ok (run_calls cs p) n.
Proof.
  revert p. induction cs as [|c cs IH]; intros p Hp; [done|]. apply IH. destruct c as [o|o f]; cbn.
  - apply after_logSlot_assignment; [by eauto| |done]. intros i.
    apply keeps_bind; [apply keeps_ctx, keeps_on_part|intros s].
    apply keeps_bind; [apply keeps_ctx, keeps_on_part|intros [b t]]. by case_test.
  - apply after_logSlot_assignment; [by eauto| |done]. intros i.
    apply keeps_bind; [apply keeps_ctx, keeps_on_part|intros s].
    apply keeps_bind; [apply keeps_ctx, keeps_on_part|intros [b t]].
    apply keeps_bind; [apply keeps_ctx, keeps_lift|intros cur].
    apply keeps_bind; [apply keeps_lift|intros cp]. apply keeps_ctx, keeps_on_part.
Qed.
End Assignment.

(** ** A directory for another partition *)

Section BadDirectory.
Context `{P : Platform} `{X : !Externals} `{XS : !ExternalsSpec}.
Context {S : Type} `{O : !SlotOps S} `{SS : !SlotStore S}.

Lemma mark_used_panics l st :
  (∀ x, x ∈ l → 1 ≤ x.2) → (∃ x, x ∈ l ∧ len st ≤ x.2) →
  mark_used l st = Panic "index out of range".
Proof.
  revert st. induction l as [|[k v] l IH]; intros st Hpos (x & Hx & Hv).
  { by apply elem_of_nil in Hx. }
  cbn [mark_used]. pose proof (Hpos (k, v) ltac:(by left)) as H1. cbn in H1. unfold mappingConfigSlot.
  rewrite (proj2 (Z.eqb_neq _ _)) by lia. case_test; [done|].
  apply IH; [intros y Hy; apply Hpos; by right|].
  apply elem_of_cons in Hx as [->|Hx]; [cbn in Hv; lia|]. exists x. split; [done|].
  unfold len in *. by rewrite length_insert.
Qed.

(** A stored directory that names a slot the partition does not have makes
    [Init] panic: the index is used on the list of slots without a check. *)
Theorem init_panics_on_foreign_directory (s : S) (rs : list reg) (b : bytes) (t : Z)
    (m : gmap string Z) (id : string) (v : Z) :
  holds s rs → rs !! 0%nat = Some (b, t) → yaml_unmarshal_map b ∅ = (m, Ok ()) →
  map_Forall (λ _ i, 1 ≤ i) m → m !! id = Some v → len rs ≤ v →
  (Init (NewSlotPersistence s)).2 = Panic "index out of range".
Proof.
  intros Hh Hr Hu Hpos Hv Hlen.
  assert (0 < len rs) by (destruct rs; [done|unfold len; cbn; lia]).
  destruct (Open_spec _ _ mappingConfigSlot Hh) as (s' & HO & Hh' & Hop & _);
    [unfold mappingConfigSlot; lia|].
  unfold Init. erewrite bind_Ok by (apply ctx_Ok; unfold on_part; cbn [part NewSlotPersistence]; by rewrite HO).
  erewrite bind_Ok by done. unfold populateMap, ctx at 1.
  erewrite bind_Ok by done.
  erewrite bind_Ok by (apply ctx_Ok; unfold on_part; cbn [part];
    rewrite (Read_spec s' rs mappingConfigSlot (b, t)) by (done || (apply Hop; by right)); done).
  cbn beta iota. erewrite bind_Ok by (apply ctx_Ok; unfold unmarshal_idToSlot; cbn; by rewrite Hu).
  erewrite bind_Ok by done. erewrite bind_Ok by done. erewrite bind_Ok by done. cbn [part idToSlot].
  rewrite (proj1 (NumSlots_spec _ _ Hh')). unfold mbind, M_bind, lift.
  rewrite mark_used_panics; [done| |].
  - intros [k i] Hin. rewrite range_order_perm, elem_of_map_to_list in Hin. by apply (Hpos k i).
  - exists (id, v). rewrite range_order_perm, elem_of_map_to_list. split; [done|].
    unfold len in *. rewrite length_replicate. cbn. lia.
Qed.
End BadDirectory.
End PersistenceProps.
