(* ===== verification/PersistenceConc.v ===== *)
(** * Concurrent updates

    [SlotPersistence.Update] takes the lock of the persistence only to look up
    the slot, and the lock of the slot for each operation on it; between its
    [Read] and its [CheckAndWrite] other calls may run.  Here [Update] is cut
    at these points, and any number of calls interleave.  The token makes
    every acknowledged update atomic: it is applied to the checkpoint that is
    current when it is written. *)

From S2P Require Import Prelude Entry SlotStore Persistence PersistenceSpec.
Import Entry Persistence PersistenceSpec.

Module PersistenceConc.

(** A call of [Update], between two critical sections. *)
Inductive thread :=
  | Start (o : string) (f : bytes → res bytes)
  | HaveSlot (o : string) (f : bytes → res bytes) (i : Z)
  | Opened (o : string) (f : bytes → res bytes) (s : Z)
  | HaveRead (o : string) (f : bytes → res bytes) (s : Z) (b : bytes) (t : Z)
  | Done (r : res unit).

Section Threads.
Context `{P : Platform} `{X : !Externals}.
Context {S : Type} `{OP : !SlotOps S}.

(** Continue with the result of a critical section, or return its error. *)
Definition proceed {A} (r : SlotPersistence S * res A) (k : A → thread) : SlotPersistence S * thread :=
  match r with
  | (p, Ok a) => (p, k a)
  | (p, Err e) => (p, Done (Err e))
  | (p, Panic e) => (p, Done (Panic e))
  | (p, NoFuel) => (p, Done NoFuel)
  end.

(** The next critical section of a call. *)
Definition advance (th : thread) (p : SlotPersistence S) : SlotPersistence S * thread :=
  match th with
  | Start o f => proceed (logSlot (logfmt_ID o) true p) (HaveSlot o f)
  | HaveSlot o f i =>
    proceed (ctx "internal error opening slot" (on_part (slot_Open i)) p) (Opened o f)
  | Opened o f s =>
    proceed (ctx "failed to read data" (on_part (slot_Read s)) p) (λ '(b, t), HaveRead o f s b t)
  | HaveRead o f s b t =>
    proceed ((currCP ← ctx "unmarshalCheckpoint" (lift (unmarshalCheckpoint b));
              newCP ← lift (f currCP);
              ctx "failed to write data" (on_part (slot_CheckAndWrite s t (marshalCheckpoint newCP)))) p)
            (λ _, Done (Ok ()))
  | Done r => (p, Done r)
  end.

(** A call that runs alone. *)
Fixpoint run_alone (n : nat) (th : thread) (p : SlotPersistence S) : SlotPersistence S * thread :=
  match n with
  | O => (p, th)
  | Datatypes.S n' => let '(p', th') := advance th p in run_alone n' th' p'
  end.

Lemma run_alone_done n r p : run_alone n (Done r) p = (p, Done r).
Proof. by induction n. Qed.

(** The four critical sections of a call that is not interrupted are the
    sequential [Update]: the steps below and [Persistence.Update] are the same
    code. *)
Lemma uninterrupted_update (o : string) (f : bytes → res bytes) (p : SlotPersistence S) :
  run_alone 4 (Start o f) p = ((Update o f p).1, Done (Update o f p).2).
Proof.
  unfold Update. cbn [run_alone advance].
  unfold mbind, M_bind. destruct (logSlot (logfmt_ID o) true p) as [p1 [i| | |]]; [|done..].
  cbn [proceed advance].
  destruct (ctx "internal error opening slot" (on_part (slot_Open i)) p1) as [p2 [s| | |]]; [|done..].
  cbn [proceed advance].
  destruct (ctx "failed to read data" (on_part (slot_Read s)) p2) as [p3 [[b t]| | |]]; [|done..].
  cbn [proceed advance]. unfold mbind, M_bind.
  destruct (ctx "unmarshalCheckpoint" (lift (unmarshalCheckpoint b)) p3) as [p4 [cur| | |]]; [|done..].
  unfold lift. destruct (f cur) as [cp| | |]; [|done..].
  by destruct (ctx _ _ p4) as [p5 [[]| | |]].
Qed.

(** ** Interleavings *)

Record config := mkConfig { cf_state : SlotPersistence S; cf_threads : list thread }.

Context `{SS : !SlotStore S}.

(** The conditions under which the store keeps its promises for a step. *)
Definition may_step (p : SlotPersistence S) (th : thread) : Prop :=
  match th with
  | Start o f => assignable p (logfmt_ID o) ∧
      match logSlot (logfmt_ID o) true p with (p', Err _) => p' = p | _ => True end
  | HaveRead o f s b t => healthy (part p) s ∧ t + 1 < 2 ^ 32 ∧
      (∀ cur, match f cur with
              | Ok cp => storable (part p) s (marshalCheckpoint cp)
              | Err _ => True
              | _ => False
              end)
  | _ => True
  end.

(** The update a step commits, if it does. *)
Definition commits (th th' : thread) : list (string * (bytes → res bytes)) :=
  match th, th' with
  | HaveRead o f _ _ _, Done (Ok _) => [(logfmt_ID o, f)]
  | _, _ => []
  end.

Inductive steps : config → list (string * (bytes → res bytes)) → config → Prop :=
  | steps_nil c : steps c [] c
  | steps_cons p ths n th p' th' l c' :
      ths !! n = Some th → may_step p th → advance th p = (p', th') →
      steps (mkConfig p' (<[n := th']> ths)) l c' →
      steps (mkConfig p ths) (commits th th' ++ l) c'.

(** ** The invariant of a configuration *)

Context `{XS : !ExternalsSpec}.

(** What a call knows.  A register it has read may have been replaced since,
    but then under a later revision. *)
Definition thread_ok (p : SlotPersistence S) (rs : list reg) (th : thread) : Prop :=
  match th with
  | HaveSlot o f i => idToSlot p !! logfmt_ID o = Some i
  | Opened o f s => idToSlot p !! logfmt_ID o = Some s ∧ opened (part p) s
  | HaveRead o f s b t => idToSlot p !! logfmt_ID o = Some s ∧ opened (part p) s ∧
      unmarshalCheckpoint b = Ok (default [] (record_of b)) ∧
      ∃ b' t', rs !! Z.to_nat s = Some (b', t') ∧ t ≤ t' ∧ (t' = t → b' = b)
  | _ => True
  end.

(** How a step changes what the other calls rely on. *)
Record evolves (p : SlotPersistence S) (rs : list reg) (p' : SlotPersistence S) (rs' : list reg) : Prop := {
  ev_map : idToSlot p ⊆ idToSlot p';
  ev_opened k : opened (part p) k → opened (part p') k;
  ev_regs i b t : rs !! i = Some (b, t) →
    ∃ b' t', rs' !! i = Some (b', t') ∧ t ≤ t' ∧ (t' = t → b' = b);
}.

Lemma evolves_same p rs p' :
  idToSlot p' = idToSlot p → (∀ k, opened (part p) k → opened (part p') k) → evolves p rs p' rs.
Proof. intros Hm Ho. split; [by rewrite Hm|done|]. intros i b t Hi. exists b, t. done. Qed.

Lemma evolves_insert p rs p' i b t b' t' :
  idToSlot p ⊆ idToSlot p' → (∀ k, opened (part p) k → opened (part p') k) →
  rs !! i = Some (b, t) → t < t' → evolves p rs p' (<[i := (b', t')]> rs).
Proof.
  intros Hm Ho Hi Ht. split; [done|done|]. intros k bk tk Hk.
  destruct (decide (k = i)) as [->|].
  - rewrite list_lookup_insert_eq by (by eapply lookup_lt_Some).
    rewrite Hi in Hk. injection Hk as <- <-. exists b', t'. split_and!; [done|lia|lia].
  - rewrite list_lookup_insert_ne by done. by exists bk, tk.
Qed.

Lemma thread_ok_evolves p rs p' rs' th :
  evolves p rs p' rs' → thread_ok p rs th → thread_ok p' rs' th.
Proof.
  intros [Hm Ho Hr]. destruct th as [o f|o f i|o f s|o f s b t|r]; cbn; [done| | | |done].
  - intros Hi. by eapply lookup_weaken.
  - intros [Hi ?]. split; [by eapply lookup_weaken|by apply Ho].
  - intros (Hi & Hop & Hu & b' & t' & Hb & Ht & Heq).
    destruct (Hr _ _ _ Hb) as (b2 & t2 & Hb2 & Ht2 & Heq2).
    split_and!; [by eapply lookup_weaken|by apply Ho|done|]. exists b2, t2.
    split_and!; [done|lia|]. intros ->. assert (t' = t) by lia. subst. by rewrite Heq2, Heq.
Qed.

(** Updates applied one after the other to the checkpoints [v]. *)
Inductive committed : (string → option bytes) → list (string * (bytes → res bytes)) →
    (string → option bytes) → Prop :=
  | committed_nil v v' : (∀ k, v' k = v k) → committed v [] v'
  | committed_cons v id f l cp v1 v' :
      f (default [] (v id)) = Ok cp →
      (∀ k, v1 k = if decide (k = id) then Some cp else v k) →
      committed v1 l v' → committed v ((id, f) :: l) v'.

(** One critical section. *)
Lemma advance_slot p rs o f p' th' :
  state_ok p rs → may_step p (Start o f) → advance (Start o f) p = (p', th') →
  ∃ rs', state_ok p' rs' ∧ thread_ok p' rs' th' ∧ evolves p rs p' rs' ∧
    (∀ k, view p' rs' k = view p rs k) ∧ commits (Start o f) th' = [] ∧ th' ≠ Done (Ok ()).
Proof.
  intros Hok [Hready Hlost]. cbn [advance].
  destruct (idToSlot p !! logfmt_ID o) as [v|] eqn:Hv.
  { rewrite (logSlot_mapped p _ v true Hv). cbn. intros [= <- <-]. exists rs.
    split_and!; [done|done|by apply evolves_same|done|done|done]. }
  destruct (freeSlots p) as [|fr fs] eqn:Hfs.
  { rewrite (logSlot_full p _ Hv Hfs). cbn. intros [= <- <-]. exists rs.
    split_and!; [done|done|by apply evolves_same|done|done|done]. }
  destruct (logSlot_new p rs o fr fs Hok Hready Hv Hfs) as (s1 & t1 & b & r & HL & Ha & _ & Hr).
  rewrite HL in Hlost |- *. pose proof (so_stored _ _ Hok) as (b0 & Hb0 & _).
  destruct r as [i|msg| |]; [| |done..]; cbn.
  2: { rewrite <-Hlost in Hv. cbn in Hv. by rewrite lookup_insert_eq in Hv. }
  destruct Hr as (-> & -> & _ & Hok1). intros [= <- <-].
  eexists. split_and!; [done| | | |done|done].
  - cbn. apply lookup_insert_eq.
  - eapply evolves_insert; [by apply insert_subseteq|intros k; apply (af_opened _ _ _ Ha)|done|lia].
  - intros k. by apply (view_new p rs s1 _ o fr fs _ k Hok Hv Hfs).
Qed.

Lemma advance_open_read p rs th p' th' :
  state_ok p rs → thread_ok p rs th →
  match th with HaveSlot _ _ _ | Opened _ _ _ => True | _ => False end →
  advance th p = (p', th') →
  state_ok p' rs ∧ thread_ok p' rs th' ∧ evolves p rs p' rs ∧
    (∀ k, view p' rs k = view p rs k) ∧ commits th th' = [] ∧ th' ≠ Done (Ok ()).
Proof.
  intros Hok Hth Hpc. destruct th as [|o f i|o f s| |]; [done| | |done..]; cbn [advance].
  - cbn in Hth. destruct (do_range _ _ (so_directory _ _ Hok) _ _ Hth) as [_ Hi].
    destruct (Open_spec _ _ i (so_holds _ _ Hok)) as (s' & HO & Hh' & Hop & _); [lia|].
    unfold ctx, on_part. rewrite HO. cbn. intros [= <- <-].
    assert (∀ k, opened (part p) k → opened s' k) as Hmono by (intros k Hk; apply Hop; by left).
    split_and!; [by apply state_ok_part| |by apply evolves_same|done|done|done].
    cbn. split; [done|apply Hop; by right].
  - destruct Hth as [Hi Hop]. destruct (do_range _ _ (so_directory _ _ Hok) _ _ Hi) as [_ Hr].
    destruct (lookup_lt_is_Some_2 rs (Z.to_nat s)) as [[b t] Hb]; [unfold len in *; lia|].
    unfold ctx, on_part. rewrite (Read_spec _ _ _ _ (so_holds _ _ Hok) Hop Hb). cbn. intros [= <- <-].
    assert (with_part p (part p) = p) as Hp by (by destruct p). unfold with_part in Hp. rewrite Hp.
    split_and!; [done| |by apply evolves_same|done|done|done].
    cbn. split_and!; [done|done| |by exists b, t].
    by apply record_decodes, (so_records _ _ Hok _ _ _ _ Hi Hb).
Qed.

Lemma advance_write p rs o f s b t p' th' :
  state_ok p rs → thread_ok p rs (HaveRead o f s b t) → may_step p (HaveRead o f s b t) →
  advance (HaveRead o f s b t) p = (p', th') →
  ∃ rs' r, th' = Done r ∧ state_ok p' rs' ∧ evolves p rs p' rs' ∧
    match r with
    | Ok _ => ∃ cp, f (default [] (view p rs (logfmt_ID o))) = Ok cp ∧
        ∀ k, view p' rs' k = if decide (k = logfmt_ID o) then Some cp else view p rs k
    | _ => ∀ k, view p' rs' k = view p rs k
    end.
Proof.
  intros Hok (Hi & Hop & Hu & b' & t' & Hb & Ht & Heq) (Hhl & Hrev & Hf). cbn [advance].
  unfold mbind, M_bind, ctx at 1, lift. rewrite Hu. specialize (Hf (default [] (record_of b))).
  assert (with_part p (part p) = p) as Hp by (by destruct p). unfold with_part in Hp.
  destruct (f (default [] (record_of b))) as [cp|msg| |] eqn:Ef; [| |done..].
  2: { cbn. intros [= <- <-]. exists rs, (Err msg). split_and!; [done|done|by apply evolves_same|done]. }
  unfold ctx, on_part. destruct (decide (t' = t)) as [->|Hne].
  2: { rewrite (CheckAndWrite_stale _ rs s t _ b' t') by (done || apply Hok).
       cbn. rewrite Hp. intros [= <- <-]. exists rs, (Err "failed to write data").
       split_and!; [done|done|by apply evolves_same|done]. }
  rewrite (Heq eq_refl) in Hb.
  destruct (CheckAndWrite_spec _ rs s t (marshalCheckpoint cp) b (so_holds _ _ Hok) Hop Hhl Hf Hb Hrev)
    as (s' & r & HW & Hop' & _ & _ & Hres). rewrite HW.
  assert (∀ k, opened (part p) k → opened s' k) as Hmono by (intros k; by apply Hop').
  destruct r as [[]|msg| |]; [| |done..]; cbn; intros [= <- <-].
  - destruct Hres as [Hh' _]. eexists _, (Ok ()). split_and!; [done| | |].
    + by apply (state_ok_record p rs s' (logfmt_ID o)).
    + eapply evolves_insert; [done|done|done|lia].
    + exists cp. rewrite (view_mapped _ _ _ _ _ _ Hi Hb). split; [done|].
      intros k. by apply view_record.
  - exists rs, (Err "failed to write data").
    split_and!; [done|by apply state_ok_part|by apply evolves_same|done].
Qed.

(** ** All interleavings *)

Record config_ok (c : config) (rs : list reg) : Prop := {
  co_state : state_ok (cf_state c) rs;
  co_threads : Forall (thread_ok (cf_state c) rs) (cf_threads c);
}.

(** The calls that have returned nil. *)
Definition ack (th : thread) : nat := match th with Done (Ok _) => 1 | _ => 0 end.
Definition acked (ths : list thread) : nat := foldr (λ th n, ack th + n)%nat 0%nat ths.

Lemma acked_insert ths n th th' :
  ths !! n = Some th → (acked (<[n := th']> ths) + ack th = acked ths + ack th')%nat.
Proof.
  revert n. induction ths as [|th0 ths IH]; intros n; [done|]. destruct n as [|n].
  - intros [= ->]. cbn. lia.
  - intros Hn. specialize (IH n Hn).
    change (<[Datatypes.S n := th']> (th0 :: ths)) with (th0 :: <[n := th']> ths).
    cbn [acked foldr]. fold (acked ths). fold (acked (<[n := th']> ths)). lia.
Qed.

(** Any critical section of any call. *)
Lemma advance_ok p rs th p' th' :
  state_ok p rs → thread_ok p rs th → may_step p th → advance th p = (p', th') →
  ∃ rs', state_ok p' rs' ∧ thread_ok p' rs' th' ∧ evolves p rs p' rs' ∧
    (∀ l v', committed (view p' rs') l v' → committed (view p rs) (commits th th' ++ l) v') ∧
    (ack th' = ack th + length (commits th th'))%nat.
Proof.
  intros Hok Hth Hmay Hadv.
  assert (∀ rs', (∀ k, view p' rs' k = view p rs k) →
    ∀ l v', committed (view p' rs') l v' → committed (view p rs) l v') as Hsame.
  { intros rs' Hv l v' Hc. inversion Hc as [v w Hw|v id f l' cp v1 w Hf Hv1 Hc']; subst.
    - apply committed_nil. intros k. by rewrite Hw.
    - rewrite Hv in Hf. eapply committed_cons; [done| |done]. intros k. by rewrite Hv1, Hv. }
  destruct th as [o f|o f i|o f s|o f s b t|r].
  - destruct (advance_slot p rs o f p' th' Hok Hmay Hadv) as (rs' & ? & ? & ? & Hv & Hc & Hd).
    exists rs'. rewrite Hc. split_and!; [done..|by apply Hsame|].
    destruct th' as [| | | |[[]| | |]]; done.
  - destruct (advance_open_read p rs _ p' th' Hok Hth I Hadv) as (? & ? & ? & Hv & Hc & Hd).
    exists rs. rewrite Hc. split_and!; [done..|by apply Hsame|].
    destruct th' as [| | | |[[]| | |]]; done.
  - destruct (advance_open_read p rs _ p' th' Hok Hth I Hadv) as (? & ? & ? & Hv & Hc & Hd).
    exists rs. rewrite Hc. split_and!; [done..|by apply Hsame|].
    destruct th' as [| | | |[[]| | |]]; done.
  - destruct (advance_write p rs o f s b t p' th' Hok Hth Hmay Hadv) as (rs' & r & -> & ? & ? & Hr).
    exists rs'. split_and!; [done..| |by destruct r as [[]| | |]].
    destruct r as [[]| | |]; cbn; [|by apply Hsame..].
    destruct Hr as (cp & Hf & Hv). intros l v' Hc. by eapply committed_cons.
  - injection Hadv as <- <-. exists rs. split_and!; [done|done|by apply evolves_same|done|].
    by destruct r.
Qed.

(** C9 Concurrent updates are atomic: in every interleaving of any number of
    calls of [Update], the checkpoints at the end are those of applying the
    acknowledged updates one after the other, each to the checkpoint that the
    ones before it left, and each exactly once.  No acknowledged update is
    lost.  Each step is taken while the store can take it ([may_step]): the
    directory can be written, and has been if a slot was assigned; the slot
    that is written has no failed write before, its revision stays below 2^32,
    and the checkpoint can be stored in it; the update function returns. *)
Theorem concurrent_updates_atomic (c : config) (rs : list reg)
    (l : list (string * (bytes → res bytes))) (c' : config) :
  config_ok c rs → steps c l c' →
  ∃ rs', config_ok c' rs' ∧ committed (view (cf_state c) rs) l (view (cf_state c') rs') ∧
    acked (cf_threads c') = (acked (cf_threads c) + length l)%nat.
Proof.
  intros Hc Hsteps. revert rs Hc.
  induction Hsteps as [c|p ths n th p' th' l c' Hn Hmay Hadv Hsteps IH]; intros rs [Hok Hths].
  { exists rs. split_and!; [done|by apply committed_nil|cbn; lia]. }
  cbn [cf_state cf_threads] in *.
  destruct (advance_ok p rs th p' th' Hok) as (rs1 & Hok1 & Hth1 & Hev & Hcom & Hack);
    [by eapply Forall_lookup_1|done|done|].
  destruct (IH rs1) as (rs2 & Hc2 & Hcom2 & Hack2).
  { split; [done|]. apply Forall_insert; [|done].
    eapply Forall_impl; [done|]. intros th0. by apply thread_ok_evolves. }
  exists rs2. split_and!; [done|by apply Hcom|]. cbn [cf_threads] in Hack2.
  pose proof (acked_insert ths n th th' Hn). rewrite length_app. lia.
Qed.
End Threads.
End PersistenceConc.
