(* ===== verification/PersistenceDemo.v ===== *)
(** * The persistence layer on a real partition

    A sample of the external code that meets its documented behaviour, the
    persistence layer over a partition of the in-memory device, the instances
    of the theorems there, and the run in which a log's slot is lost. *)

From S2P Require Import Prelude BlockDev MemDev Entry Journal JournalInv JournalSpec JournalDemo.
From S2P Require Import Slots SlotStore SlotsSpec SlotsProps Persistence PersistenceSpec PersistenceProps PersistenceConc.
Import MemDev Entry JournalInv JournalDemo Slots SlotsSpec SlotsProps.
Import Persistence PersistenceSpec PersistenceProps PersistenceConc.

Module PersistenceDemo.

(** ** Sample external code *)

(** A positive number as bytes, one per bit. *)
Fixpoint pos_bytes (p : positive) : bytes :=
  match p with
  | xH => [x01]
  | xO p' => x00 :: pos_bytes p'
  | xI p' => x02 :: pos_bytes p'
  end.

Fixpoint bytes_pos (b : bytes) : option positive :=
  match b with
  | [x01] => Some xH
  | x00 :: b' => xO <$> bytes_pos b'
  | x02 :: b' => xI <$> bytes_pos b'
  | _ => None
  end.

Lemma bytes_pos_bytes p : bytes_pos (pos_bytes p) = Some p.
Proof.
  induction p as [p IH|p IH|]; cbn; [by rewrite IH|rewrite IH|done].
  by destruct (pos_bytes p).
Qed.

Lemma pos_bytes_not_nil p : pos_bytes p ≠ [].
Proof. by destruct p. Qed.

#[export] Instance sample_externals : Externals := {
  yaml_marshal_map m := Ok (pos_bytes (encode m));
  yaml_unmarshal_map b m :=
    match b with
    | [] => (m, Ok ())
    | _ => match bytes_pos b ≫= decode with
           | Some m' => (m' ∪ m, Ok ())
           | None => (m, Err "yaml: cannot unmarshal")
           end
    end;
  yaml_unmarshal_record b := match b with [] => Ok [] | _ => Err "yaml: cannot unmarshal" end;
  logfmt_ID o := o;
  range_order m := map_to_list m;
}.

#[export] Instance sample_externals_spec `{P : Platform} : ExternalsSpec.
Proof.
  split; [done| |done|done]. intros m m' _. eexists. split; [done|]. cbn [yaml_unmarshal_map sample_externals].
  destruct (pos_bytes (encode m)) eqn:E; [by destruct (pos_bytes_not_nil (encode m))|].
  rewrite <-E, bytes_pos_bytes. cbn. by rewrite decode_encode.
Qed.

(** ** A partition of three slots *)

Abbreviation SP := (SlotPersistence (Partition MemDev)).

Definition sp0 : SP := (Init (NewSlotPersistence part0)).1.
Definition cp1 : bytes := [x63; x70; x31].
Definition write_cp (cp : bytes) (cur : bytes) : res bytes := Ok cp.

Lemma sp0_state :
  state_ok sp0 regs0 ∧ (∀ k, healthy (part sp0) k) ∧ idToSlot sp0 = ∅ ∧
  (∀ k b, storable (part sp0) k b ↔ storable part0 k b).
Proof.
  destruct (Init_spec (NewSlotPersistence part0) regs0 [] 0 ∅) as (p' & HI & Hok & Hid & _ & Hhl & Hst).
  - exact part0_holds.
  - done.
  - done.
  - by left.
  - split; [done|]. by intros k k' v ?%lookup_empty_Some.
  - by left.
  - intros v Hv _. assert (v = 1 ∨ v = 2) as [-> | ->] by (unfold len in Hv; cbn in Hv; lia); by exists 0.
  - by intros k v b t ?%lookup_empty_Some.
  - unfold sp0. rewrite HI. cbn [fst]. split_and!; [done| |done|done].
    intros k. apply Hhl, part0_healthy.
Qed.

Lemma sp0_free : freeSlots sp0 = [1; 2].
Proof. vm_compute. reflexivity. Qed.

Lemma part0_storable i s b :
  0 ≤ i → p_slots part0 !! Z.to_nat i = Some s → slot_storable (p_dev part0) s b → storable part0 i b.
Proof. intros Hi Hs Hb. split; [done|]. by exists s. Qed.

Ltac storable_tac := split; [vm_compute; done|apply (bool_decide_unpack _); vm_compute; exact I].

Lemma sp0_assignable : assignable sp0 "a".
Proof.
  destruct sp0_state as (_ & Hhl & Hid & Hst). split; [done|vm_compute; reflexivity|].
  intros f fs b _ Hf. rewrite sp0_free in Hf. injection Hf as <- <-. rewrite Hid. cbn.
  intros [= <-]. apply Hst. eapply part0_storable; [done|reflexivity|]. storable_tac.
Qed.

Lemma sp0_ready : ready sp0 regs0 "a".
Proof.
  destruct sp0_state as (_ & Hhl & _ & _). split; [exact sp0_assignable|done|].
  intros i r t Hi. assert (Forall (λ x : reg, x.2 = 0) regs0) as Hz by (by repeat constructor).
  pose proof (Forall_lookup_1 _ _ _ _ Hz Hi) as Ht. clear -Ht. cbn in Ht. lia.
Qed.

Lemma sp0_records v : 1 ≤ v < 3 → storable (part sp0) v (marshalCheckpoint cp1).
Proof.
  destruct sp0_state as (_ & _ & _ & Hst). intros Hv. apply Hst.
  assert (v = 1 ∨ v = 2) as [-> | ->] by lia;
    (eapply part0_storable; [done|reflexivity|storable_tac]).
Qed.

Lemma sp0_update_ok : (Update "a" (write_cp cp1) sp0).2 = Ok ().
Proof. vm_compute. reflexivity. Qed.


(** The state after that update. *)
Definition sp1 : SP := (Update "a" (write_cp cp1) sp0).1.

Lemma sp1_state :
  ∃ rs, state_ok sp1 rs ∧ latest "a" sp1 = Some cp1 ∧ (∀ k, healthy (part sp1) k) ∧ len rs = 3.
Proof.
  destruct sp0_state as (Hok & _ & _ & _).
  destruct (persist_Update_spec sp0 regs0 "a" (write_cp cp1) Hok sp0_ready) as (p' & rs' & r & HU & _ & Hlen & Hr).
  - intros cp v Hcp Hv. injection Hcp as <-. by apply sp0_records.
  - done.
  - done.
  - pose proof sp0_update_ok as Hu. unfold sp1. rewrite HU in Hu |- *. cbn in Hu. subst r.
    destruct Hr as (Hok' & Hhl & cp & [= <-] & Hview). exists rs'. cbn [fst].
    rewrite (latest_view p' rs' "a" Hok'). rewrite Hview. split_and!; done.
Qed.


Lemma sp0_assignment : assignment_ok sp0 3.
Proof. destruct sp0_state as ([_ _ _ Hm _ Hnd Hf _ _] & _). exact (Build_assignment_ok _ _ Hm Hnd Hf). Qed.

Lemma assignment_invariant_witness :
  assignment_ok (run_calls [CallUpdate "a" (write_cp cp1); CallLatest "b"; CallUpdate "b" (write_cp cp1)] sp0) 3.
Proof.
  apply (assignment_invariant sp0 3
    [CallUpdate "a" (write_cp cp1); CallLatest "b"; CallUpdate "b" (write_cp cp1)]).
  exact sp0_assignment.
Defined.

(** ** Two concurrent updates *)

Definition cp2 : bytes := [x63; x70; x32].
Definition call1 : thread := HaveRead "a" (write_cp cp2) 1 (marshalCheckpoint cp1) 1.
Definition sp2 : SP := (advance call1 sp1).1.

(** Both calls have read the first checkpoint; the first one writes. *)
Definition race : config := mkConfig sp1 [call1; call1].
Definition race_end : config := mkConfig sp2 [Done (Ok ()); call1].

Lemma sp1_slot : p_slots (part sp1) !! 1%nat = Some (default (mkSlot 0 0 None) (p_slots (part sp1) !! 1%nat)) ∧
  s_length (default (mkSlot 0 0 None) (p_slots (part sp1) !! 1%nat)) = 3 ∧
  bool_decide (is_Some (s_journal (default (mkSlot 0 0 None) (p_slots (part sp1) !! 1%nat)))) = true.
Proof. vm_compute. done. Qed.

Lemma sp1_opened : opened (part sp1) 1.
Proof.
  destruct sp1_slot as (Hs & _ & Hj). split; [done|]. eexists. split; [exact Hs|].
  by apply bool_decide_eq_true in Hj.
Qed.

Lemma sp1_read : (Read 1 (part sp1)).2 = Ok (marshalCheckpoint cp1, 1).
Proof. vm_compute. reflexivity. Qed.

Lemma sp1_mapped : idToSlot sp1 !! "a" = Some 1.
Proof. vm_compute. reflexivity. Qed.

Lemma call1_result : (advance call1 sp1).2 = Done (Ok ()).
Proof. vm_compute. reflexivity. Qed.

Lemma sp1_storable : storable (part sp1) 1 (marshalCheckpoint cp2).
Proof.
  destruct sp1_slot as (Hs & Hl & _). split; [done|]. eexists. split; [exact Hs|].
  unfold slot_storable. rewrite Hl. change (BlockSize (p_dev (part sp1))) with 512. storable_tac.
Qed.

(** A call that has just read. *)
Lemma just_read (p : SP) rs o f s b t :
  idToSlot p !! o = Some s → opened (part p) s → rs !! Z.to_nat s = Some (b, t) →
  unmarshalCheckpoint b = Ok (default [] (record_of b)) → thread_ok p rs (HaveRead o f s b t).
Proof. intros. split_and!; [done|done|done|]. exists b, t. split_and!; [done|lia|done]. Qed.

Lemma may_write (p : SP) o cp s b t :
  healthy (part p) s → t + 1 < 2 ^ 32 → storable (part p) s (marshalCheckpoint cp) →
  may_step p (HaveRead o (write_cp cp) s b t).
Proof. intros. by split_and!. Qed.

Lemma two_threads (p : SP) rs th : state_ok p rs → thread_ok p rs th → config_ok (mkConfig p [th; th]) rs.
Proof. intros Hok Hth. split; [done|]. by repeat constructor. Qed.

Lemma read_register (p : SP) rs i r :
  state_ok p rs → opened (part p) i → 0 ≤ i < len rs → (Read i (part p)).2 = Ok r →
  rs !! Z.to_nat i = Some r.
Proof.
  intros Hok Ho Hi HV. destruct (lookup_lt_is_Some_2 rs (Z.to_nat i)) as [r' Hr]; [unfold len in Hi; lia|].
  pose proof (Slots_Read_spec (part p) rs i r' (so_holds _ _ Hok) Ho Hr) as HR.
  rewrite HR in HV. cbn in HV. by injection HV as ->.
Qed.

Lemma race_ok : ∃ rs, config_ok race rs ∧ may_step sp1 call1.
Proof.
  destruct sp1_state as (rs & Hok & _ & Hhl & Hlen). exists rs.
  assert (0 ≤ 1 < len rs) as Hi by (rewrite Hlen; lia).
  pose proof (read_register sp1 rs 1 _ Hok sp1_opened Hi sp1_read) as Hr.
  split; [|exact (may_write sp1 "a" cp2 1 (marshalCheckpoint cp1) 1 (Hhl 1) eq_refl sp1_storable)].
  apply (two_threads sp1 rs call1 Hok).
  exact (just_read sp1 rs "a" (write_cp cp2) 1 _ 1 sp1_mapped sp1_opened Hr eq_refl).
Qed.

Lemma race_steps : may_step sp1 call1 → steps race [("a", write_cp cp2)] race_end.
Proof.
  intros Hmay. unfold race, race_end.
  apply (steps_cons sp1 [call1; call1] 0 call1 sp2 (Done (Ok ())) []
           (mkConfig sp2 [Done (Ok ()); call1]) eq_refl Hmay).
  - rewrite <-call1_result. apply surjective_pairing.
  - apply steps_nil.
Qed.

Lemma concurrent_updates_atomic_witness :
  ∃ rs rs', config_ok race_end rs' ∧
    committed (view (cf_state race) rs) [("a", write_cp cp2)] (view (cf_state race_end) rs') ∧
    acked (cf_threads race_end) = (acked (cf_threads race) + length [("a", write_cp cp2)])%nat.
Proof.
  destruct race_ok as (rs & Hok & Hmay). exists rs.
  exact (concurrent_updates_atomic race rs [("a", write_cp cp2)] race_end Hok (race_steps Hmay)).
Defined.

(** ** A directory for a larger partition *)

Definition foreign : gmap string Z := {["a" := 7]}.
Definition foreign_part : Partition MemDev := (CheckAndWrite 0 0 (pos_bytes (encode foreign)) part1).1.

Lemma foreign_holds :
  holds foreign_part [(pos_bytes (encode foreign), 1); ([], 0); ([], 0)].
Proof.
  destruct part1_holds as (Hp & Ho & Hh & _).
  destruct (Slots_CheckAndWrite_spec part1 regs0 0 0 (pos_bytes (encode foreign)) [] Hp Ho (Hh 0))
    as (p' & res & HW & _ & _ & _ & Hres).
  - split; [done|]. eexists. split; [reflexivity|]. storable_tac.
  - done.
  - lia.
  - assert ((CheckAndWrite 0 0 (pos_bytes (encode foreign)) part1).2 = Ok ()) as Hok
      by (vm_compute; reflexivity).
    unfold foreign_part. rewrite HW in Hok |- *. cbn in Hok. subst res. exact (proj1 Hres).
Qed.

Lemma init_panics_on_foreign_directory_witness :
  (Init (NewSlotPersistence foreign_part)).2 = Panic "index out of range".
Proof.
  apply (init_panics_on_foreign_directory foreign_part
    [(pos_bytes (encode foreign), 1); ([], 0); ([], 0)] (pos_bytes (encode foreign)) 1 foreign "a" 7).
  - exact foreign_holds.
  - reflexivity.
  - vm_compute. reflexivity.
  - apply map_Forall_singleton. lia.
  - vm_compute. reflexivity.
  - vm_compute. discriminate.
Defined.

(** ** A slot that is lost and given away *)

(** A device some of whose writes fail, and then store nothing. *)
Record flaky := mkFlaky { fl_dev : MemDev; fl_fails : list bool }.
#[export] Instance flaky_rw : BlockReaderWriter flaky := {
  BlockSize d := BlockSize (fl_dev d);
  ReadBlocks d lba b := ReadBlocks (fl_dev d) lba b;
  WriteBlocks d lba b :=
    match fl_fails d with
    | true :: l => (mkFlaky (fl_dev d) l, Err "I/O error")
    | _ => let '(md, r) := WriteBlocks (fl_dev d) lba b in (mkFlaky md (tail (fl_fails d)), r)
    end;
}.

(** The storage as a restarted process finds it. *)
Definition reboot (p : SlotPersistence (Partition flaky)) : SlotPersistence (Partition flaky) :=
  NewSlotPersistence (mkPartition (p_dev (part p)) (lay_out 1 [4; 3; 2])).

Definition first_boot : SlotPersistence (Partition flaky) :=
  (Init (NewSlotPersistence (mkPartition (mkFlaky (NewMemDev 10) [true]) (lay_out 1 [4; 3; 2])))).1.
Definition failed_once : SlotPersistence (Partition flaky) := (Update "a" (write_cp cp1) first_boot).1.
Definition stored_a : SlotPersistence (Partition flaky) := (Update "a" (write_cp cp1) failed_once).1.
Definition second_boot : SlotPersistence (Partition flaky) := (Init (reboot stored_a)).1.

(** A mapping that could not be stored is used all the same: the first
    update of log "a" fails to write the directory, but leaves the log mapped
    in memory, so that its second update succeeds without the directory being
    written.  After a restart the checkpoint of "a" is gone, and its slot is
    given to log "b", whose update function is handed the checkpoint of "a" as
    its own. *)
Theorem unstored_mapping_is_used :
  (Update "a" (write_cp cp1) first_boot).2 = Err "unable to assign slot for log ID" ∧
  (Update "a" (write_cp cp1) failed_once).2 = Ok () ∧
  latest "a" stored_a = Some cp1 ∧
  (Init (reboot stored_a)).2 = Ok () ∧ latest "a" second_boot = None ∧
  latest "b" (Update "b" (λ cur, Ok (cur ++ [x21])) second_boot).1 = Some (cp1 ++ [x21]).
Proof. vm_compute. done. Qed.
End PersistenceDemo.
