(* ===== verification/SlotsCrash.v ===== *)
(** * The partition across restarts

    What a new process finds in a partition after a write that was completed,
    failed, or was cut short by a loss of power: the instance of
    [RestartStore] for [Partition] over any block device. *)

From S2P Require Import Prelude Sha256 BlockDev Entry Journal JournalInv JournalWrite JournalSpec.
From S2P Require Import Slots SlotStore SlotsSpec.
Import Entry Journal JournalInv JournalWrite JournalSpec Slots SlotsSpec.

Module SlotsCrash.

(** A slot of which no journal is in memory. *)
Definition closed (s : Slot) : Slot := mkSlot (s_start s) (s_length s) None.

Section Crash.
Context `{P : Platform} `{B : !BlockReaderWriter D} `{BD : !BlockDevice D}.

(** The partition as a new process lays it out. *)
Definition reopened (p : Partition D) : Partition D := mkPartition (p_dev p) (closed <$> p_slots p).

(** It is what [OpenPartition] returns. *)
Lemma OpenPartition_reopened (rw : D) geo p0 p :
  OpenPartition rw geo = Ok p0 → closed <$> p_slots p = closed <$> p_slots p0 →
  OpenPartition (p_dev p) geo = Ok (reopened p).
Proof.
  unfold OpenPartition, reopened. destruct (Validate geo); [|done..]. cbn.
  intros [= <-] ->. cbn [p_slots]. do 2 f_equal.
  generalize (gStart geo). induction (SlotLengths geo) as [|l ls IH]; intros b; [done|].
  cbn. f_equal. apply IH.
Qed.

(** The write of [b] to slot [i], accounted for: some prefix of its blocks has
    been stored, and of the records that start on the slot's blocks, those
    that are not complete fail their checksum. *)
Definition write_accounted (p : Partition D) (i : Z) (b : bytes) : Prop :=
  ∀ s j, p_slots p !! Z.to_nat i = Some s → s_journal s = Some j →
  let d := p_dev p in
  let e := new_entry j b in
  let lba := write_block d j e in
  ∃ h g es q k, journal_inv d j h g es q ∧
    let '(d', w) := WriteBlocks d lba (encoding e) in
    match w with Ok n => k = n | _ => 0 ≤ k ≤ extent (BlockSize d) e end ∧
    (∀ a, contents d' a = store (BlockSize d) lba (encoding e) k (contents d) a) ∧
    torn_detected (BlockSize d) (start j) (jlength j) (contents d') (heads_after h lba k e).

(** The account of a write, given for the journal of its slot. *)
Lemma write_accounted_at p i b s j h g es q k d' w :
  p_slots p !! Z.to_nat i = Some s → s_journal s = Some j → journal_inv (p_dev p) j h g es q →
  WriteBlocks (p_dev p) (write_block (p_dev p) j (new_entry j b)) (encoding (new_entry j b)) = (d', w) →
  match w with Ok n => k = n | _ => 0 ≤ k ≤ extent (BlockSize (p_dev p)) (new_entry j b) end →
  (∀ a, contents d' a = store (BlockSize (p_dev p)) (write_block (p_dev p) j (new_entry j b))
                          (encoding (new_entry j b)) k (contents (p_dev p)) a) →
  torn_detected (BlockSize (p_dev p)) (start j) (jlength j) (contents d')
    (heads_after h (write_block (p_dev p) j (new_entry j b)) k (new_entry j b)) →
  write_accounted p i b.
Proof.
  intros Hs Hj Hinv HW Hk Hc Ht s0 j0 Hs0 Hj0. rewrite Hs in Hs0. injection Hs0 as <-.
  rewrite Hj in Hj0. injection Hj0 as <-. exists h, g, es, q, k. by rewrite HW.
Qed.

Lemma closed_reads d s j r h g es q :
  journal_inv d j h g es q → start j = s_start s → jlength j = s_length s →
  torn_detected (BlockSize d) (start j) (jlength j) (contents d) h → JData j = r → 0 ≤ r.2 →
  slot_reads d (closed s) r.
Proof.
  intros [G Hwf Hl Hcur _ _] Hst HL Ht <- Hr. rewrite Hst, HL in *. split; [done|done|]. cbn.
  exists h, g, es, q. split_and!; [done|done|]. unfold JData. by rewrite Hcur.
Qed.

(** A write to an open slot, as a restart finds it. *)
Lemma Slot_Write_restart p i s j b rev r d' s' w :
  p_slots p !! Z.to_nat i = Some s → s_journal s = Some j → slot_reads (p_dev p) s (r, rev) →
  slot_healthy (p_dev p) s → slot_storable (p_dev p) s b → rev + 1 < 2 ^ 32 →
  write_accounted p i b → Slot_Write b (p_dev p, s) = (d', s', w) →
  ∃ r', slot_reads d' (closed s) r' ∧ (r' = (b, rev + 1) ∨ is_ok w = false ∧ r' = (r, rev)).
Proof.
  intros Hs Ej [G Hrev0 Hj] Hh [Hsz Hin] Hrev Hacc HW. cbn in Hrev0. unfold slot_healthy in Hh. rewrite Ej in Hj, Hh.
  destruct Hj as (Hst & HL & HD). injection HD as Hr Hrv.
  destruct (Hacc s j Hs Ej) as (h & g & es & q & k & Hinv & Hk). set (d := p_dev p) in *.
  assert (admissible d j b) as Hadm.
  { split; [by rewrite HL|lia|]. apply inert_revision; [by apply (geo_bs _ _ _ G)|done]. }
  destruct (write_new _ _ _ _ _ _ _ Hinv Hadm) as (d1 & w1 & HW1 & Hwf & Hbs & Hw1).
  rewrite HW1 in Hk. destruct Hk as (Hk & Hc & Ht).
  assert (0 ≤ k ≤ extent (BlockSize d) (new_entry j b)) as Hkr.
  { destruct w1; [|done..]. destruct Hw1 as [-> _]. subst k. pose proof (extent_pos _ _ _ G (new_entry j b)). lia. }
  destruct (recovery_spec _ _ _ _ _ _ _ d1 k Hinv Hadm Hwf Hbs Hkr Hc Ht)
    as (j' & g' & es' & q' & Ho & Hinv' & Hold & Hnew).
  assert (d' = d1 ∧ is_ok w = is_ok w1) as [-> Hww].
  { unfold Slot_Write in HW. rewrite Ej, (Update_admissible _ _ _ _ _ _ _ Hinv Hadm) in HW.
    cbn zeta in HW. rewrite HW1 in HW. by destruct w1; injection HW as <- _ <-. }
  assert (start j' = s_start s ∧ jlength j' = s_length s) as [Hst' HL'].
  { rewrite <-Hst, <-HL. unfold OpenJournal, init in Ho. cbn [start jlength] in Ho.
    destruct (init_loop _ _ _ _ _ _ _) as [[e' nw]| | |]; try done. cbn in Ho. by injection Ho as <-. }
  assert (∀ r', JData j' = r' → 0 ≤ r'.2 → slot_reads d1 (closed s) r') as Hread.
  { intros r' HD Hr'. eapply closed_reads; [done|done|done| |done|done].
    rewrite Hst', HL', <-Hst, <-HL, Hbs. done. }
  rewrite Hww. destruct Hold as [Hold|Hold].
  - destruct w1 as [n|msg| |]; [|exists (r, rev); split; [apply Hread; cbn; [|lia]; rewrite Hold; unfold JData; by rewrite Hr, Hrv|by right]|done..].
    exists (b, rev + 1). split; [|by left]. apply Hread; cbn; [|lia].
    rewrite <-Hrv. apply Hnew. by destruct Hw1 as [<- _].
  - exists (b, rev + 1). split; [|by left]. apply Hread; cbn; [|lia]. by rewrite Hold, Hrv.
Qed.
(** ** The partition *)

Lemma closed_eq s s' : s_start s' = s_start s → s_length s' = s_length s → closed s' = closed s.
Proof. unfold closed. by intros -> ->. Qed.

Lemma reopened_lookup p k s : p_slots p !! k = Some s → p_slots (reopened p) !! k = Some (closed s).
Proof. intros Hs. cbn. by rewrite list_lookup_fmap, Hs. Qed.

Lemma reopened_touched p i d' s s' :
  closed s' = closed s → reopened (touched d' p i s') = touched d' (reopened p) i (closed s).
Proof. intros Hs. unfold reopened. cbn. by rewrite list_fmap_insert, Hs. Qed.

Lemma reopened_Open i p p' r : Partition_Open i p = (p', r) → reopened p' = reopened p.
Proof.
  unfold Partition_Open, on_slot. case_test; [by intros [= <- _]|].
  destruct (p_slots p !! Z.to_nat i) as [s|] eqn:Hs; [|by intros [= <- _]].
  destruct (Slot_Open (p_dev p) s) as [s' w] eqn:HO.
  assert (closed s' = closed s) as Hcl.
  { unfold Slot_Open in HO. destruct (s_journal s); [by injection HO as <- _|].
    by destruct (OpenJournal _ _ _); injection HO as <- _. }
  assert (reopened (touched (p_dev p) p i s') = reopened p) as Hre.
  { rewrite (reopened_touched _ _ _ _ _ Hcl), list_insert_id; [done|by apply reopened_lookup]. }
  by destruct w; intros [= <- _].
Qed.

Lemma reopened_reopened p : reopened (reopened p) = reopened p.
Proof. unfold reopened. cbn. by rewrite <-list_fmap_compose. Qed.

Lemma reopened_healthy p k : part_healthy (reopened p) k.
Proof. intros _ s. cbn. rewrite list_lookup_fmap_Some. by intros (s0 & -> & _). Qed.

Lemma reopened_storable p k b : part_storable (reopened p) k b ↔ part_storable p k b.
Proof.
  split; intros (Hk & s & Hs & Hb); (split; [done|]).
  - cbn in Hs. apply list_lookup_fmap_Some in Hs as (s0 & -> & Hs). by exists s0.
  - exists (closed s). split; [by apply reopened_lookup|done].
Qed.

Lemma CheckAndWrite_reopened p rs i t b r p' w :
  part_holds p rs → part_opened p i → part_healthy p i → part_storable p i b →
  rs !! Z.to_nat i = Some (r, t) → t + 1 < 2 ^ 32 →
  part_holds (reopened p) rs → write_accounted p i b → CheckAndWrite i t b p = (p', w) →
  ∃ r', part_holds (reopened p') (<[Z.to_nat i := r']> rs) ∧
    (r' = (b, t + 1) ∨ is_ok w = false ∧ r' = (r, t)).
Proof.
  intros Hp Ho Hh (Hpos & s0 & Hs0 & Hst) Hr Ht Hre Hacc HC.
  destruct (opened_journal _ _ _ _ Hp Ho Hr) as (s & j & Hs & Hj & Hsr & HD).
  rewrite Hs in Hs0. injection Hs0 as <-. injection HD as _ HD.
  destruct (Slot_Write_spec _ _ _ _ _ Hsr (Hh Hpos s Hs) ltac:(by rewrite Hj) Hst Ht)
    as (d' & s' & w' & HW & Hwf & Hbs & Hst' & HL & _ & Hc & _).
  unfold CheckAndWrite, on_slot, Slot_CheckAndWrite in HC. rewrite Hs, Hj in HC.
  rewrite (proj2 (Z.eqb_eq _ _)), HW in HC by lia. injection HC as <- <-.
  destruct (Slot_Write_restart _ _ _ _ _ _ _ _ _ _ Hs Hj Hsr (Hh Hpos s Hs) Hst Ht Hacc HW)
    as (r' & Hsr' & Hr').
  exists r'. split; [|done]. rewrite (reopened_touched _ _ _ s) by (by apply closed_eq).
  assert (touches (reopened p) i (closed s) d' (closed s)) as T
    by (split; try done; by apply reopened_lookup).
  by eapply touched_holds.
Qed.

#[export] Instance partition_restart : RestartStore (Partition D) := {
  restart := reopened;
  accounted := write_accounted;
  restart_Open := reopened_Open;
  restart_restart := reopened_reopened;
  restart_healthy := reopened_healthy;
  restart_storable := reopened_storable;
  CheckAndWrite_restart := CheckAndWrite_reopened;
}.
End Crash.
End SlotsCrash.
