(* ===== verification/PowerCut.v ===== *)
(** * A device that loses power

    [Cut D] is the device [D] with power for a number of blocks.  The write
    that exceeds it stores the blocks it still can and fails; nothing is
    stored after it.  What a program leaves on it is what the program would
    have left on [D] if power had been lost at that block. *)

From S2P Require Import Prelude BlockDev.

Module PowerCut.

Record Cut (D : Type) := mkCut {
  cut_dev : D;
  (** The blocks that can still be stored; no limit if [None]. *)
  cut_left : option Z;
}.
Arguments mkCut {D} _ _.
Arguments cut_dev {D} _.
Arguments cut_left {D} _.

Section Cut.
Context `{P : Platform} `{B : !BlockReaderWriter D} `{BD : !BlockDevice D}.

Definition cut_WriteBlocks (c : Cut D) (lba : Z) (b : bytes) : Cut D * res Z :=
  let bs := BlockSize (cut_dev c) in
  let whole left := let '(d', r) := WriteBlocks (cut_dev c) lba b in (mkCut d' left, r) in
  match cut_left c with
  | None => whole None
  | Some k =>
    if nblocks bs (len b) <=? k then whole (Some (k - nblocks bs (len b)))
    else if k <=? 0 then (c, Err "power lost")
    else (mkCut (WriteBlocks (cut_dev c) lba (ztake (k * bs) b)).1 (Some 0), Err "power lost")
  end.

#[export] Instance cut_rw : BlockReaderWriter (Cut D) := {
  BlockSize c := BlockSize (cut_dev c);
  ReadBlocks c lba b := ReadBlocks (cut_dev c) lba b;
  WriteBlocks := cut_WriteBlocks;
}.

(** ** The first blocks of a byte string *)

Lemma nblocks_prefix bs k (b : bytes) :
  0 < bs → 0 ≤ k < nblocks bs (len b) →
  len (ztake (k * bs) b) = k * bs ∧ nblocks bs (len (ztake (k * bs) b)) = k.
Proof.
  intros Hbs Hk. pose proof (nblocks_bounds bs Hbs (len b)).
  rewrite len_take by nia. split; [done|by apply nblocks_mul].
Qed.

Lemma blk_prefix bs k b i :
  0 < bs → 0 ≤ i < k → k < nblocks bs (len b) → blk bs (ztake (k * bs) b) i = blk bs b i.
Proof.
  intros Hbs Hi Hk. pose proof (nblocks_bounds bs Hbs (len b)).
  destruct (nblocks_prefix bs k b Hbs ltac:(lia)) as [Hl Hn].
  unfold blk, pad. rewrite Hn, Hl, Z.sub_diag, app_nil_r. unfold ztake, zdrop, len in *.
  rewrite skipn_firstn_comm, firstn_firstn, drop_app_le by nia. rewrite take_app_le by (rewrite length_drop; nia).
  f_equal. nia.
Qed.

Lemma store_prefix bs lba k n b c i :
  0 < bs → 0 ≤ n ≤ k → k < nblocks bs (len b) →
  store bs lba (ztake (k * bs) b) n c i = store bs lba b n c i.
Proof. intros. unfold store. case_decide; [|done]. by rewrite blk_prefix by lia. Qed.

(** ** It keeps the promises of a block device *)

Lemma cut_WriteBlocks_spec c lba b :
  dev_wf (cut_dev c) → 0 < len b → 0 ≤ lba →
  nblocks (BlockSize (cut_dev c)) (len b) * BlockSize (cut_dev c) < 2 ^ (uint_bits - 1) →
  (∀ i, lba ≤ i < lba + nblocks (BlockSize (cut_dev c)) (len b) → is_Some (contents (cut_dev c) i)) →
  ∃ c' r, WriteBlocks c lba b = (c', r) ∧ dev_wf (cut_dev c') ∧
    BlockSize (cut_dev c') = BlockSize (cut_dev c) ∧
    match r with
    | Ok n => n = nblocks (BlockSize (cut_dev c)) (len b) ∧
              ∀ i, contents (cut_dev c') i = store (BlockSize (cut_dev c)) lba b n (contents (cut_dev c)) i
    | Err _ => ∃ k, 0 ≤ k ≤ nblocks (BlockSize (cut_dev c)) (len b) ∧
              ∀ i, contents (cut_dev c') i = store (BlockSize (cut_dev c)) lba b k (contents (cut_dev c)) i
    | _ => False
    end.
Proof.
  intros Hwf Hb Hlba Hint Hin. pose proof (BlockSize_pos _ Hwf) as Hbs. set (d := cut_dev c) in *.
  pose proof (nblocks_pos _ Hbs _ Hb) as Hn.
  cbn [WriteBlocks cut_rw]. unfold cut_WriteBlocks. fold d. cbn zeta.
  destruct (WriteBlocks_spec d lba b Hwf Hb Hlba Hint Hin) as (d' & r & HW & Hres).
  rewrite HW. destruct (cut_left c) as [k|]; [|by exists (mkCut d' None), r].
  case_test; [by exists (mkCut d' (Some (k - nblocks (BlockSize d) (len b)))), r|]. case_test.
  { exists c, (Err "power lost"). split_and!; [done|done|done|]. exists 0. split; [lia|].
    intros i. by rewrite store_0. }
  destruct (nblocks_prefix (BlockSize d) k b Hbs ltac:(lia)) as [Hl Hk].
  destruct (WriteBlocks_spec d lba (ztake (k * BlockSize d) b)) as (d2 & r2 & -> & Hwf2 & Hbs2 & Hr2);
    [done|nia|done|rewrite Hk; nia|rewrite Hk; intros i Hi; apply Hin; lia|].
  eexists _, _. split_and!; [done|done|done|].
  assert (∃ n, 0 ≤ n ≤ k ∧ ∀ i, contents d2 i = store (BlockSize d) lba (ztake (k * BlockSize d) b) n (contents d) i)
    as (n & Hnk & Hc).
  { rewrite Hk in Hr2. destruct r2; [destruct Hr2 as [-> Hc]; by exists k; split; [lia|]|done|done|done]. }
  exists n. split; [lia|]. intros i. cbn [cut_dev]. rewrite Hc. apply store_prefix; lia.
Qed.

#[export] Instance cut_device : BlockDevice (Cut D) := {
  contents c := contents (cut_dev c);
  dev_wf c := dev_wf (cut_dev c);
  BlockSize_pos c := BlockSize_pos (cut_dev c);
  contents_len c := contents_len (cut_dev c);
  ReadBlocks_spec c := ReadBlocks_spec (cut_dev c);
  WriteBlocks_spec := cut_WriteBlocks_spec;
}.

(** Power that lasts for the first [k] blocks of a write leaves exactly them,
    if the device itself works. *)
Lemma cut_stores_prefix (d : D) lba b k d' n :
  dev_wf d → 0 ≤ lba → 0 < k < nblocks (BlockSize d) (len b) →
  nblocks (BlockSize d) (len b) * BlockSize d < 2 ^ (uint_bits - 1) →
  (∀ i, lba ≤ i < lba + nblocks (BlockSize d) (len b) → is_Some (contents d i)) →
  WriteBlocks d lba (ztake (k * BlockSize d) b) = (d', Ok n) →
  WriteBlocks (mkCut d (Some k)) lba b = (mkCut d' (Some 0), Err "power lost") ∧
  ∀ i, contents d' i = store (BlockSize d) lba b k (contents d) i.
Proof.
  intros Hwf Hlba Hk Hint Hin HW. pose proof (BlockSize_pos _ Hwf) as Hbs. split.
  - cbn [WriteBlocks cut_rw]. unfold cut_WriteBlocks. cbn [cut_left cut_dev].
    rewrite !(proj2 (Z.leb_gt _ _)) by lia. by rewrite HW.
  - destruct (nblocks_prefix (BlockSize d) k b Hbs ltac:(lia)) as [Hl Hn].
    destruct (WriteBlocks_spec d lba (ztake (k * BlockSize d) b)) as (d2 & r2 & HW2 & _ & _ & Hr2);
      [done|nia|done|rewrite Hn; nia|rewrite Hn; intros i Hi; apply Hin; lia|].
    rewrite HW in HW2. injection HW2 as <- <-. rewrite Hn in Hr2. destruct Hr2 as [-> Hc].
    intros i. rewrite Hc. apply store_prefix; lia.
Qed.

(** ... and a device without power stores nothing any more. *)
Lemma cut_stores_nothing (d : D) lba b :
  dev_wf d → 0 < len b → WriteBlocks (mkCut d (Some 0)) lba b = (mkCut d (Some 0), Err "power lost").
Proof.
  intros Hwf Hb. pose proof (nblocks_pos _ (BlockSize_pos _ Hwf) _ Hb).
  cbn [WriteBlocks cut_rw]. unfold cut_WriteBlocks. cbn [cut_left cut_dev].
  by rewrite (proj2 (Z.leb_gt _ _)) by lia.
Qed.
End Cut.
End PowerCut.
