(* ===== verification/PersistenceCrash.v ===== *)
(** * The persistence layer across failed and interrupted updates

    An [Update] during which a write of the storage fails or is cut short, and
    the [Init] of the process started after it.  A device that loses power is
    one whose write stores a prefix of its blocks and fails, and whose later
    writes store nothing (file [PowerCut]), so that a loss of power at any
    point of an [Update] is one of the outcomes covered here. *)

From S2P Require Import Prelude Entry SlotStore Persistence PersistenceSpec PersistenceProps.
Import Entry Persistence PersistenceSpec PersistenceProps.

Module PersistenceCrash.

Section Crash.
Context `{P : Platform} `{X : !Externals} `{XS : !ExternalsSpec}.
Context {S : Type} `{O : !SlotOps S} `{SS : !SlotStore S} `{RS : !RestartStore S}.

(** ** A restart *)

(** The process started on storage that holds [rs]. *)
Lemma image_boot s rs m :
  holds (restart s) rs → image_ok rs m →
  ∃ p, Init (NewSlotPersistence (restart s)) = (p, Ok ()) ∧ state_ok p rs ∧
    holds (restart (part p)) rs ∧ (∀ k, healthy (part p) k) ∧ idToSlot p = m.
Proof.
  intros Hh [Hm (b & t & Hr & Hb) Hclean Hrec].
  destruct (Init_spec (NewSlotPersistence (restart s)) rs b t m) as (p & HI & Hok & Hid & HO & Hhl & _);
    [done| |done|done|done|by left|done|done|].
  { destruct rs; [done|]. unfold len. cbn. lia. }
  exists p. split_and!; [done|done| |intros k; apply Hhl, restart_healthy|done].
  rewrite (restart_Open _ _ _ _ HO). cbn [part NewSlotPersistence]. by rewrite restart_restart.
Qed.

(** ** An update and a restart *)

(** A restart from [s] finds the checkpoints [v]. *)
Definition recoverable (s : S) (v : string → option bytes) : Prop :=
  ∃ rs m, holds (restart s) rs ∧ image_ok rs m ∧ ∀ k, shows rs m k = v k.

(** The checkpoints [v] with that of [id] replaced. *)
Definition put (v : string → option bytes) (id : string) (cp : bytes) (k : string) : option bytes :=
  if decide (k = id) then Some cp else v k.

(** What an update with outcome [r] leaves for a restart: the new checkpoint,
    or, unless it returned nil, the old one. *)
Definition update_recoverable (s : S) (v : string → option bytes) (id : string)
    (f : bytes → res bytes) (r : res unit) : Prop :=
  (∃ cp, f (default [] (v id)) = Ok cp ∧ recoverable s (put v id cp)) ∨
  (is_ok r = false ∧ recoverable s v).

(** [Update] of a log that has a slot. *)
Lemma Update_mapped_restart p rs o f v p' r :
  let id := logfmt_ID o in
  let cur := default [] (view p rs id) in
  state_ok p rs → holds (restart (part p)) rs → healthy (part p) v →
  (∀ r t, rs !! Z.to_nat v = Some (r, t) → t + 1 < 2 ^ 32) → idToSlot p !! id = Some v →
  (∀ cp, f cur = Ok cp → storable (part p) v (marshalCheckpoint cp)) →
  (∀ s1 cp, slot_Open v (part p) = (s1, Ok v) → f cur = Ok cp → accounted s1 v (marshalCheckpoint cp)) →
  Update o f p = (p', r) → update_recoverable (part p') (view p rs) id f r.
Proof.
  intros id cur Hok Hre Hhl Hrev Hv Hst Hacc. pose proof (state_image _ _ Hok) as Him.
  destruct (Update_mapped_run p rs o f v Hok Hv) as (s1 & b & t & HO & Hr & Hok1 & Hop1 & Hhl1 & Hst1 & ->).
  fold id cur. unfold update_recoverable. fold cur.
  rewrite <-(restart_Open _ _ _ _ HO) in Hre.
  destruct (f cur) as [cp|msg|msg|] eqn:Hf;
    [|intros [= <- <-]; right; split; [done|]; by exists rs, (idToSlot p)..].
  destruct (slot_CheckAndWrite v t (marshalCheckpoint cp) s1) as [s2 w] eqn:HW.
  destruct (CheckAndWrite_restart s1 rs v t (marshalCheckpoint cp) b s2 w) as (r' & Hh2 & Hr');
    [by apply Hok1|done|by apply Hhl1|by apply Hst1, Hst|done|by eapply Hrev|done|by apply Hacc|done|].
  intros Hret. assert (part p' = s2 ∧ is_ok r = is_ok w) as [-> ->] by (by destruct w; injection Hret as <- <-).
  destruct Hr' as [->|[Hw ->]].
  - left. exists cp. split; [done|].
    destruct (image_record rs _ id v cp (t + 1) Him Hv) as [Him' Hsh]. by eexists _, _.
  - right. split; [done|]. rewrite list_insert_id in Hh2 by done. by exists rs, (idToSlot p).
Qed.

(** The writes of an update, accounted for. *)
Record update_accounted (p : SlotPersistence S) (o : string) (f : bytes → res bytes) (cur : bytes) : Prop := {
  ua_directory fr fs b :
    idToSlot p !! logfmt_ID o = None → freeSlots p = fr :: fs →
    yaml_marshal_map (<[logfmt_ID o := fr]> (idToSlot p)) = Ok b →
    accounted (part p) mappingConfigSlot b;
  ua_record p1 v s1 cp :
    logSlot (logfmt_ID o) true p = (p1, Ok v) → slot_Open v (part p1) = (s1, Ok v) →
    f cur = Ok cp → accounted s1 v (marshalCheckpoint cp);
}.

(** ... of a log that has a slot. *)
Lemma update_accounted_mapped p o f cur v :
  idToSlot p !! logfmt_ID o = Some v →
  (∀ s1 cp, slot_Open v (part p) = (s1, Ok v) → f cur = Ok cp → accounted s1 v (marshalCheckpoint cp)) →
  update_accounted p o f cur.
Proof.
  intros Hv Hacc. split; [by rewrite Hv|]. intros p1 v1 s1 cp HL.
  rewrite (logSlot_mapped _ _ _ _ Hv) in HL. injection HL as <- <-. apply Hacc.
Qed.

Lemma recoverable_ext s v v' : (∀ k, v k = v' k) → recoverable s v → recoverable s v'.
Proof. intros Hv (rs & m & ? & ? & Hsh). exists rs, m. split_and!; [done|done|]. intros k. by rewrite Hsh, Hv. Qed.

Lemma update_recoverable_ext s v v' id f r :
  (∀ k, v k = v' k) → update_recoverable s v id f r → update_recoverable s v' id f r.
Proof.
  intros Hv [(cp & Hf & Hr)|[Hr Hrec]]; [left; exists cp|right; split; [done|by eapply recoverable_ext]].
  rewrite <-Hv. split; [done|]. eapply recoverable_ext; [|done]. intros k. unfold put. by rewrite Hv.
Qed.

(** The revisions in the registers. *)
Definition revisions_le (rs : list reg) (M : Z) : Prop := ∀ i b t, rs !! i = Some (b, t) → t ≤ M.

Lemma revisions_insert rs i b t M :
  revisions_le rs M → t ≤ M → revisions_le (<[i := (b, t + 1)]> rs) (M + 1).
Proof.
  intros Hrs Ht k b' t'. intros [(_ & [= _ <-] & _)|[_ Hk]]%list_lookup_insert_Some; [lia|].
  apply Hrs in Hk. lia.
Qed.

(** The slot of a new log: the directory as a restart finds it. *)
Lemma logSlot_new_restart p rs o fr fs p1 r :
  state_ok p rs → holds (restart (part p)) rs → assignable p (logfmt_ID o) →
  idToSlot p !! logfmt_ID o = None → freeSlots p = fr :: fs →
  (∀ b, yaml_marshal_map (<[logfmt_ID o := fr]> (idToSlot p)) = Ok b → accounted (part p) mappingConfigSlot b) →
  logSlot (logfmt_ID o) true p = (p1, r) →
  recoverable (part p1) (view p rs) ∧
  (is_ok r = true → ∃ rs1, state_ok p1 rs1 ∧ holds (restart (part p1)) rs1 ∧
     (∀ k, view p1 rs1 k = view p rs k) ∧ after (part p) (part p1) mappingConfigSlot ∧
     healthy (part p1) mappingConfigSlot ∧
     idToSlot p1 !! logfmt_ID o = Some fr ∧ r = Ok fr ∧ len rs1 = len rs ∧
     (∀ M, revisions_le rs M → revisions_le rs1 (M + 1)) ∧
     ∀ v, 1 ≤ v → rs1 !! Z.to_nat v = rs !! Z.to_nat v).
Proof.
  intros Hok Hre Hasg Hn Hfs Hacc HL. pose proof (state_image _ _ Hok) as Him.
  destruct (logSlot_new p rs o fr fs Hok Hasg Hn Hfs) as (s1 & t1 & b & r1 & HL' & Ha & [Henc (w & HW & Hw)] & Hr).
  rewrite HL' in HL. injection HL as <- <-. cbn [part idToSlot].
  destruct (proj1 (so_free _ _ Hok fr)) as [Hfr Hfk]; [rewrite Hfs; by left|].
  destruct (so_stored _ _ Hok) as (b0 & Hb0 & _). destruct Hasg as [Hhl Hrev Hdir].
  destruct (CheckAndWrite_restart (part p) rs mappingConfigSlot (directoryWriteToken p) b b0 s1 w)
    as (r' & Hh & Hr'); [by apply Hok|by apply Hok|done|by eapply Hdir|done|done|done|by apply Hacc|done|].
  change (Z.to_nat mappingConfigSlot) with 0%nat in Hh.
  pose proof (image_add rs _ o fr b (directoryWriteToken p + 1) Him Hfr Hfk Hn Henc) as Him'.
  split.
  - destruct Hr' as [->|[_ ->]].
    { eexists _, _. split_and!; [done|done|]. intros k. apply shows_add; try done.
      intros v Hv. by apply insert_0_ne. } rewrite list_insert_id in Hh by done.
    by exists rs, (idToSlot p).
  - intros Hr1. destruct Hr' as [->|[? _]]; [|congruence]. destruct r1 as [i| | |]; [|done..].
    destruct Hr as (-> & -> & Hh0 & Hok1). eexists. split_and!; [done|done| |done|done| |done| | |].
    + intros k. by apply (view_new p rs s1 _ o fr fs _ k Hok Hn Hfs).
    + apply lookup_insert_eq.
    + unfold len. by rewrite length_insert.
    + intros M HM. apply revisions_insert; [done|by eapply HM].
    + intros v Hv. by apply insert_0_ne.
Qed.

Lemma Update_restart p rs o f p' r :
  let id := logfmt_ID o in
  let cur := default [] (view p rs id) in
  state_ok p rs → ready p rs id → holds (restart (part p)) rs →
  (∀ cp v, f cur = Ok cp → 1 ≤ v < len rs → storable (part p) v (marshalCheckpoint cp)) →
  update_accounted p o f cur → Update o f p = (p', r) → update_recoverable (part p') (view p rs) id f r.
Proof.
  intros id cur Hok [Hasg Hhl Hrev] Hre Hst [Hdir Hrec] HU.
  destruct (idToSlot p !! id) as [v|] eqn:Hv.
  { destruct (do_range _ _ (so_directory _ _ Hok) _ _ Hv) as [_ ?].
    eapply Update_mapped_restart; [done|done|done|intros ??; by apply Hrev|done|intros; by apply Hst| |done].
    intros s1 cp HO Hf. eapply Hrec; [by apply logSlot_mapped|done|done]. }
  destruct (logSlot id true p) as [p1 rl] eqn:HL.
  assert (recoverable (part p1) (view p rs) ∧ (is_ok rl = true → ∃ fr fs, freeSlots p = fr :: fs)) as [Hr1 Hfree].
  { destruct (freeSlots p) as [|fr fs] eqn:Hfs; [|split; [|by eauto]].
    - rewrite (logSlot_full p id Hv Hfs) in HL. injection HL as <- <-. split; [|done].
      exists rs, (idToSlot p). split_and!; [done|by apply state_image|done].
    - eapply logSlot_new_restart; [done|done|done|done|done|intros b; by eapply Hdir|done]. }
  destruct (is_ok rl) eqn:Hrl.
  2: { right. unfold Update, mbind, M_bind in HU. fold id in HU. rewrite HL in HU.
       destruct rl; [done|by injection HU as <- <-..]. }
  destruct (Hfree eq_refl) as (fr & fs & Hfs).
  destruct (logSlot_new_restart p rs o fr fs p1 rl) as [_ Hnew]; [done|done|done|done|done|intros b; by eapply Hdir|done|].
  destruct (Hnew Hrl) as (rs1 & Hok1 & Hre1 & Hv1 & Ha & _ & Hm1 & -> & Hlen & _ & Hrs1). fold id in Hm1.
  destruct (do_range _ _ (so_directory _ _ Hok1) _ _ Hm1) as [_ Hfr].
  apply (update_recoverable_ext _ (view p1 rs1)); [done|].
  eapply Update_mapped_restart; fold id; rewrite ?Hv1; [done|done| | |done| | |].
  - apply (af_healthy _ _ _ Ha); [unfold mappingConfigSlot; lia|done].
  - intros r' t'. rewrite Hrs1 by lia. apply Hrev.
  - intros cp Hcp. apply (af_storable _ _ _ Ha), Hst; [done|lia].
  - intros s1 cp HO Hf. by eapply Hrec.
  - rewrite <-HU. symmetry. by apply (Update_after_slot p p1 o f fr).
Qed.

(** C5 Power loss and storage failures during an update, from a process whose
    memory agrees with its storage ([state_ok]) and that could be restarted on
    it.  The conditions: no write has failed since the process started, and no
    revision reaches 2^32 ([ready]); the checkpoint and the directory are
    short enough for their slots, and no block of their records but the first
    begins with the magic ([storable], [assignable]); of a write that fails or
    is cut short a number of whole blocks has been stored, from the first on,
    and records that are not complete fail their checksum
    ([update_accounted]).  Then, whatever [Update] returns, and at whichever
    block power is lost, the next process starts, every other log has the
    checkpoint it had, and the log of the update has the new checkpoint, or,
    unless [Update] returned nil, the one it had.  The new process is again in
    a state that survives restarts. *)
Theorem update_survives_restart (p : SlotPersistence S) (rs : list reg) (o : string) (f : bytes → res bytes) :
  let cur := default [] (latest o p) in
  state_ok p rs → ready p rs (logfmt_ID o) → holds (restart (part p)) rs →
  (∀ cp v, f cur = Ok cp → 1 ≤ v < len rs → storable (part p) v (marshalCheckpoint cp)) →
  update_accounted p o f cur →
  let '(p', r) := Update o f p in
  ∃ p2 rs2, Init (NewSlotPersistence (restart (part p'))) = (p2, Ok ()) ∧
    state_ok p2 rs2 ∧ holds (restart (part p2)) rs2 ∧ (∀ k, healthy (part p2) k) ∧
    (∀ o', logfmt_ID o' ≠ logfmt_ID o → latest o' p2 = latest o' p) ∧
    ((∃ cp, f cur = Ok cp ∧ latest o p2 = Some cp) ∨ (r ≠ Ok () ∧ latest o p2 = latest o p)).
Proof.
  intros cur Hok Hready Hre Hst Hacc. unfold cur in *. rewrite (latest_view p rs o Hok) in *.
  destruct (Update o f p) as [p' r] eqn:HU.
  destruct (Update_restart p rs o f p' r Hok Hready Hre Hst Hacc HU)
    as [(cp & Hf & rs2 & m & Hh & Him & Hsh)|(Hr & rs2 & m & Hh & Him & Hsh)];
    destruct (image_boot _ _ _ Hh Him) as (p2 & HI & Hok2 & Hre2 & Hhl2 & Hid);
    assert (∀ o', latest o' p2 = shows rs2 m (logfmt_ID o')) as HL
      by (intros o'; rewrite (latest_view p2 rs2 o' Hok2); unfold view; by rewrite Hid); exists p2, rs2;
    (split_and!; [done|done|done|done|intros o' Ho; rewrite HL, Hsh, (latest_view p rs o' Hok)|]).
  - unfold put. by rewrite decide_False.
  - left. exists cp. split; [done|]. rewrite HL, Hsh. unfold put. by rewrite decide_True.
  - done.
  - right. split; [by intros ->|]. by rewrite HL, Hsh.
Qed.
End Crash.
End PersistenceCrash.
