(* ===== verification/PersistenceLife.v ===== *)
(** * The life of the persistence layer

    Sequences of updates, reads, clean restarts, and updates that are cut short
    by a loss of power or a failure of the storage.  Within limits that are
    spelled out in [within_limits], the checkpoints that are read along them
    are those of a map from logs to checkpoints in which an acknowledged update
    is final, and an interrupted one took place or did not. *)

From S2P Require Import Prelude Entry SlotStore Persistence PersistenceSpec PersistenceProps PersistenceCrash.
Import Entry Persistence PersistenceSpec PersistenceProps PersistenceCrash.

Module PersistenceLife.

(** ** What is observed *)

Inductive event :=
  | Updated (o : string) (f : bytes → res bytes)     (** [Update] returned nil *)
  | Refused (o : string) (f : bytes → res bytes)     (** the update function refused, or there is no slot left *)
  | Interrupted (o : string) (f : bytes → res bytes) (** with whatever outcome, and then restarted *)
  | Failed (o : string) (f : bytes → res bytes)      (** any other error, after which the process goes on *)
  | Restarted
  | Seen (o : string) (cp : option bytes).           (** the answer of [Latest] *)

(** ** The abstract map *)

Section Life.
Context `{P : Platform} `{X : !Externals} `{XS : !ExternalsSpec}.
Context {S : Type} `{O : !SlotOps S} `{SS : !SlotStore S} `{RS : !RestartStore S}.

Inductive map_step (v : string → option bytes) : event → (string → option bytes) → Prop :=
  | ms_updated o f cp v' :
      f (default [] (v (logfmt_ID o))) = Ok cp → (∀ k, v' k = put v (logfmt_ID o) cp k) →
      map_step v (Updated o f) v'
  | ms_refused o f v' : (∀ k, v' k = v k) → map_step v (Refused o f) v'
  | ms_done o f cp v' :
      f (default [] (v (logfmt_ID o))) = Ok cp → (∀ k, v' k = put v (logfmt_ID o) cp k) →
      map_step v (Interrupted o f) v'
  | ms_not_done o f v' : (∀ k, v' k = v k) → map_step v (Interrupted o f) v'
  | ms_restarted v' : (∀ k, v' k = v k) → map_step v Restarted v'
  | ms_seen o v' : (∀ k, v' k = v k) → map_step v (Seen o (v (logfmt_ID o))) v'.

Inductive map_run : (string → option bytes) → list event → (string → option bytes) → Prop :=
  | mr_nil v : map_run v [] v
  | mr_cons v e v1 l v' : map_step v e v1 → map_run v1 l v' → map_run v (e :: l) v'.

(** ** The program *)

(** An update that the storage is not asked to store. *)
Definition refuses (p : SlotPersistence S) (o : string) (f : bytes → res bytes) : Prop :=
  (is_ok (logSlot (logfmt_ID o) true p).2 = true ∧ ∃ e, f (default [] (latest o p)) = Err e) ∨
  (idToSlot p !! logfmt_ID o = None ∧ freeSlots p = []).

(** The next process. *)
Definition rebooted (p : SlotPersistence S) : SlotPersistence S * res unit :=
  Init (NewSlotPersistence (restart (part p))).

(** The process after an event, and when the event is what is observed. *)
Definition next (p : SlotPersistence S) (e : event) : SlotPersistence S :=
  match e with
  | Updated o f | Refused o f | Failed o f => (Update o f p).1
  | Interrupted o f => (rebooted (Update o f p).1).1
  | Restarted => (rebooted p).1
  | Seen o _ => (Latest o p).1
  end.

Definition observed (p : SlotPersistence S) (e : event) : Prop :=
  match e with
  | Updated o f => (Update o f p).2 = Ok ()
  | Refused o f => refuses p o f
  | Failed o f => is_ok (Update o f p).2 = false
  | Interrupted _ _ | Restarted => True
  | Seen o cp => latest o p = cp
  end.

Inductive life : SlotPersistence S → list event → SlotPersistence S → Prop :=
  | life_nil p : life p [] p
  | life_cons p e l p' : observed p e → life (next p e) l p' → life p (e :: l) p'.

(** ** The limits *)

(** What the storage must allow for an update: a revision below 2^32, room for
    the record and the directory, none of whose later blocks may begin like a
    record ([storable]), no failed write of the directory since the last start
    ([assignable]), and checksums that tell a torn record from a complete one
    ([update_accounted]). *)
Record can_update (p : SlotPersistence S) (o : string) (f : bytes → res bytes) : Prop := {
  cu_assignable : assignable p (logfmt_ID o);
  cu_revision i b t : 0 ≤ i → ((slot_Open i ≫= slot_Read) (part p)).2 = Ok (b, t) → t + 1 < 2 ^ 32;
  cu_storable cp v :
    f (default [] (latest o p)) = Ok cp → 1 ≤ v < slot_NumSlots (part p) →
    storable (part p) v (marshalCheckpoint cp);
  cu_accounted : update_accounted p o f (default [] (latest o p));
}.

(** Updates are within the storage's limits, and one that fails in the storage
    is followed by a restart. *)
Definition limits (p : SlotPersistence S) (e : event) : Prop :=
  match e with
  | Updated o f | Refused o f | Interrupted o f => can_update p o f
  | Failed _ _ => False
  | Restarted | Seen _ _ => True
  end.

Fixpoint within_limits (p : SlotPersistence S) (l : list event) : Prop :=
  match l with
  | [] => True
  | e :: l' => limits p e ∧ within_limits (next p e) l'
  end.

(** ** The invariant *)

(** The process is in order, and so is its successor if it is restarted. *)
Record durable (p : SlotPersistence S) (rs : list reg) : Prop := {
  du_state : state_ok p rs;
  du_stored : holds (restart (part p)) rs;
  du_healthy k : healthy (part p) k;
}.

Lemma register_read s rs i b t :
  holds s rs → rs !! Z.to_nat i = Some (b, t) → 0 ≤ i →
  ((slot_Open i ≫= slot_Read) s).2 = Ok (b, t).
Proof.
  intros Hh Hr Hi. destruct (Open_spec s rs i Hh) as (s' & HO & Hh' & Hop & _).
  { apply lookup_lt_Some in Hr. unfold len. lia. }
  rewrite (bind_Ok _ _ _ _ _ HO). rewrite (Read_spec s' rs i (b, t)); [done|done|apply Hop; by right|done].
Qed.

(** Bounded revisions, in terms of the registers. *)
Lemma revisions_bounded s rs :
  holds s rs → (∀ i b t, rs !! i = Some (b, t) → t + 1 < 2 ^ 32) →
  ∀ i b t, 0 ≤ i → ((slot_Open i ≫= slot_Read) s).2 = Ok (b, t) → t + 1 < 2 ^ 32.
Proof.
  intros Hh Hrs i b t Hi Hr. destruct (rs !! Z.to_nat i) as [[b' t']|] eqn:E.
  - rewrite (register_read s rs i b' t' Hh E Hi) in Hr. injection Hr as <- <-. by eapply Hrs.
  - rewrite (bind_Err _ _ _ _ _ (Open_invalid s rs i Hh ltac:(apply lookup_ge_None in E; unfold len; lia))) in Hr.
    done.
Qed.

Lemma can_update_ready p rs o f :
  durable p rs → can_update p o f → ready p rs (logfmt_ID o) ∧
  (∀ cp v, f (default [] (view p rs (logfmt_ID o))) = Ok cp → 1 ≤ v < len rs →
     storable (part p) v (marshalCheckpoint cp)) ∧
  update_accounted p o f (default [] (view p rs (logfmt_ID o))).
Proof.
  intros [Hok _ Hhl] [Hasg Hrev Hst Hacc]. rewrite (latest_view p rs o Hok) in Hst, Hacc.
  destruct (NumSlots_spec _ _ (so_holds _ _ Hok)) as [Hn _]. rewrite Hn in Hst.
  split_and!; [|done|done]. split; [done|done|]. intros i b t Hi. apply (Hrev (Z.of_nat i) b t); [lia|].
  eapply register_read; [by apply Hok|by rewrite Nat2Z.id|lia].
Qed.

(** An update of a log that has a slot. *)
Lemma Update_mapped_durable p rs o f v p' r :
  let id := logfmt_ID o in
  let cur := default [] (view p rs id) in
  durable p rs → idToSlot p !! id = Some v →
  (∀ r t, rs !! Z.to_nat v = Some (r, t) → t + 1 < 2 ^ 32) →
  (∀ cp, f cur = Ok cp → storable (part p) v (marshalCheckpoint cp)) →
  (∀ s1 cp, slot_Open v (part p) = (s1, Ok v) → f cur = Ok cp → accounted s1 v (marshalCheckpoint cp)) →
  Update o f p = (p', r) →
  (r = Ok () → ∃ cp rs', f cur = Ok cp ∧ durable p' rs' ∧ (∀ k, view p' rs' k = put (view p rs) id cp k) ∧
     ∀ M, revisions_le rs M → revisions_le rs' (M + 1)) ∧
  (∀ e, f cur = Err e → durable p' rs ∧ ∀ k, view p' rs k = view p rs k).
Proof.
  intros id cur [Hok Hre Hhl] Hv Hrev Hst Hacc.
  destruct (Update_mapped_run p rs o f v Hok Hv) as (s1 & b & t & HO & Hr & Hok1 & Hop1 & Hhl1 & Hst1 & ->).
  fold id cur. rewrite <-(restart_Open _ _ _ _ HO) in Hre.
  destruct (f cur) as [cp|e0|e0|] eqn:Hf; [|by intros [= <- <-]; split_and?; [done|intros e _; split; [split|]; eauto]|by intros [= <- <-]..].
  destruct (CheckAndWrite_spec s1 rs v t (marshalCheckpoint cp) b) as (s2 & w & HW & Hop2 & Hhl2 & _ & Hres);
    [by apply Hok1|done|by apply Hhl1|by apply Hst1, Hst|done|by eapply Hrev|].
  destruct (CheckAndWrite_restart s1 rs v t (marshalCheckpoint cp) b s2 w) as (r' & Hh2 & Hr');
    [by apply Hok1|done|by apply Hhl1|by apply Hst1, Hst|done|by eapply Hrev|done|by apply Hacc|done|].
  rewrite HW. intros [= <- <-]. split; [|done]. intros Hw. destruct w as [[]| | |]; [|done..].
  destruct Hr' as [->|[? _]]; [|done]. destruct Hres as [Hh Hhv].
  exists cp, (<[Z.to_nat v := (marshalCheckpoint cp, t + 1)]> rs). split; [done|]. split_and!.
  - split; [|done|].
    + apply (state_ok_record (with_part p s1) rs s2 id); [done..|]. intros k. by apply Hop2.
    + intros k. destruct (decide (k = v)) as [->|]; [done|]. by apply Hhl2, Hhl1.
  - intros k. by apply view_record.
  - intros M HM. apply revisions_insert; [done|by eapply HM].
Qed.

(** The slot of a new log. *)
Lemma logSlot_durable p rs o p1 v :
  durable p rs → ready p rs (logfmt_ID o) →
  (∀ fr fs b, idToSlot p !! logfmt_ID o = None → freeSlots p = fr :: fs →
     yaml_marshal_map (<[logfmt_ID o := fr]> (idToSlot p)) = Ok b → accounted (part p) mappingConfigSlot b) →
  logSlot (logfmt_ID o) true p = (p1, Ok v) →
  ∃ rs1, durable p1 rs1 ∧ idToSlot p1 !! logfmt_ID o = Some v ∧ len rs1 = len rs ∧ 1 ≤ v < len rs ∧
    (∀ k, view p1 rs1 k = view p rs k) ∧ (∀ k b, storable (part p1) k b ↔ storable (part p) k b) ∧
    rs1 !! Z.to_nat v = rs !! Z.to_nat v ∧ ∀ M, revisions_le rs M → revisions_le rs1 (M + 1).
Proof.
  intros [Hok Hre Hhl] [Hasg _ _] Hacc HL. destruct (idToSlot p !! logfmt_ID o) as [v'|] eqn:Hv.
  { rewrite (logSlot_mapped _ _ _ _ Hv) in HL. injection HL as <- ->.
    destruct (do_range _ _ (so_directory _ _ Hok) _ _ Hv) as [_ ?]. exists rs. split_and!; try done; try lia.
    intros M HM i b t Hi. apply HM in Hi. lia. }
  destruct (freeSlots p) as [|fr fs] eqn:Hfs; [by rewrite (logSlot_full p _ Hv Hfs) in HL|].
  destruct (logSlot_new_restart p rs o fr fs p1 (Ok v)) as [_ Hnew]; [done|done|done|done|done|intros b; by eapply Hacc|done|].
  destruct (Hnew eq_refl) as (rs1 & Hok1 & Hre1 & Hv1 & Ha & Hh0 & Hm1 & [= ->] & Hlen & Hgrow & Hrs1).
  destruct (do_range _ _ (so_directory _ _ Hok1) _ _ Hm1) as [_ Hfr].
  exists rs1. split_and!; [|done|done|lia|lia|done|apply (af_storable _ _ _ Ha)|apply Hrs1; lia|done].
  split; [done|done|]. intros k. destruct (decide (k = mappingConfigSlot)) as [->|]; [done|].
  by apply (af_healthy _ _ _ Ha).
Qed.

(** An update that is acknowledged, and one that is refused. *)
Lemma Update_durable p rs o f p' r :
  let id := logfmt_ID o in
  durable p rs → can_update p o f → Update o f p = (p', r) →
  (r = Ok () → ∃ cp rs', f (default [] (view p rs id)) = Ok cp ∧ durable p' rs' ∧
                 (∀ k, view p' rs' k = put (view p rs) id cp k) ∧
                 ∀ M, revisions_le rs M → revisions_le rs' (M + 2)) ∧
  (refuses p o f → ∃ rs', durable p' rs' ∧ ∀ k, view p' rs' k = view p rs k).
Proof.
  intros id Hd Hcan HU. destruct (can_update_ready _ _ _ _ Hd Hcan) as (Hrd & Hst & [Hdir Hrec]).
  unfold refuses. rewrite (latest_view p rs o (du_state _ _ Hd)). fold id in Hst, Hdir, Hrec |- *.
  destruct (logSlot id true p) as [p1 rl] eqn:HL. cbn [snd].
  destruct (is_ok rl) eqn:Hrl.
  2: { split.
    - intros ->. unfold Update, mbind, M_bind in HU. fold id in HU. rewrite HL in HU. by destruct rl.
    - intros [[? _]|[Hn Hfs]]; [done|]. rewrite (logSlot_full p id Hn Hfs) in HL. injection HL as <- <-.
      unfold Update in HU. fold id in HU. erewrite bind_Err in HU by (by apply logSlot_full).
      injection HU as <- _. by exists rs. }
  destruct rl as [v| | |]; [|done..].
  destruct (logSlot_durable p rs o p1 v Hd Hrd Hdir HL) as (rs1 & Hd1 & Hm1 & Hlen & Hv & Hv1 & Hst1 & Hrs1 & Hgrow).
  fold id in Hm1. rewrite (Update_after_slot p p1 o f v HL Hm1) in HU.
  destruct (Update_mapped_durable p1 rs1 o f v p' r Hd1 Hm1) as [Hyes Hno]; fold id; rewrite ?Hv1; [..|done|].
  - intros r' t' Hr'. rewrite Hrs1 in Hr'. by eapply (rd_rev _ _ _ Hrd).
  - intros cp Hcp. by apply Hst1, Hst.
  - intros s1 cp HO Hf. by eapply Hrec.
  - fold id in Hyes, Hno. rewrite Hv1 in Hyes, Hno. split.
    + intros Hr. destruct (Hyes Hr) as (cp & rs' & ? & ? & Hp & Hgrow'). exists cp, rs'. split_and!; [done|done| |].
      * intros k. rewrite Hp. unfold put. by rewrite Hv1.
      * intros M HM. replace (M + 2) with (M + 1 + 1) by lia. by apply Hgrow', Hgrow.
    + intros [[_ [e He]]|[Hn Hfs]]; [|by rewrite (logSlot_full p id Hn Hfs) in HL].
      destruct (Hno e He) as [? Hk]. exists rs1. split; [done|]. intros k. by rewrite Hk.
Qed.

(** ** The simulation *)

Lemma rebooted_durable p v p2 w :
  recoverable (part p) v → rebooted p = (p2, w) →
  ∃ rs2, durable p2 rs2 ∧ ∀ k, view p2 rs2 k = v k.
Proof.
  intros (rs & m & Hh & Him & Hsh) Hb. destruct (image_boot _ _ _ Hh Him) as (p' & HI & Hok & Hre & Hhl & Hm).
  unfold rebooted in Hb. rewrite HI in Hb. injection Hb as <- _. exists rs. split; [done|].
  intros k. unfold view. by rewrite Hm.
Qed.

Lemma durable_recoverable p rs : durable p rs → recoverable (part p) (view p rs).
Proof. intros [Hok Hre _]. exists rs, (idToSlot p). split_and!; [done|by apply state_image|done]. Qed.

Lemma next_simulates p rs e :
  durable p rs → observed p e → limits p e →
  ∃ rs', durable (next p e) rs' ∧ map_step (view p rs) e (view (next p e) rs').
Proof.
  intros Hd Hob Hlim. pose proof (du_state _ _ Hd) as Hok.
  destruct e as [o f|o f|o f|o f| |o cp]; cbn [next observed limits] in *; [| | |done| |].
  - destruct (Update o f p) as [p' r] eqn:HU. destruct (Update_durable _ _ _ _ _ _ Hd Hlim HU) as [Hyes _].
    destruct (Hyes Hob) as (cp & rs' & Hf & Hd' & Hv & _). exists rs'. split; [done|by eapply ms_updated].
  - destruct (Update o f p) as [p' r] eqn:HU. destruct (Update_durable _ _ _ _ _ _ Hd Hlim HU) as [_ Hno].
    destruct (Hno Hob) as (rs' & Hd' & Hv). exists rs'. split; [done|by apply ms_refused].
  - destruct (can_update_ready _ _ _ _ Hd Hlim) as (Hrd & Hst & Hacc).
    destruct (Update o f p) as [p' r] eqn:HU. cbn [fst].
    pose proof (surjective_pairing (rebooted p')) as Hb.
    destruct (Update_restart p rs o f p' r Hok Hrd (du_stored _ _ Hd) Hst Hacc HU)
      as [(cp & Hf & Hr)|[_ Hr]]; destruct (rebooted_durable _ _ _ _ Hr Hb) as (rs2 & Hd2 & Hv);
      exists rs2; (split; [done|]); [by eapply ms_done|by apply ms_not_done].
  - destruct (rebooted_durable _ _ _ _ (durable_recoverable _ _ Hd) (surjective_pairing (rebooted p)))
      as (rs2 & Hd2 & Hv). exists rs2. split; [done|by apply ms_restarted].
  - destruct (Latest_spec p rs o Hok) as (s' & Hok' & Hhl' & Hopen & HL). rewrite HL. cbn [fst].
    assert (restart s' = restart (part p)) as Hre' by (destruct Hopen as [->|[v HO]]; [done|by eapply restart_Open]).
    exists rs. split; [|rewrite <-Hob, (latest_view p rs o Hok); by apply ms_seen].
    split; [done|cbn; rewrite Hre'; by apply Hd|]. intros k. by apply Hhl', Hd.
Qed.

Lemma life_simulates p rs l p' :
  durable p rs → life p l p' → within_limits p l →
  ∃ v rs', map_run (view p rs) l v ∧ durable p' rs' ∧ ∀ o, latest o p' = v (logfmt_ID o).
Proof.
  intros Hd Hl. revert rs Hd. induction Hl as [p|p e l p' Hob Hl IH]; intros rs Hd Hlim.
  - exists (view p rs), rs. split_and!; [constructor|done|]. intros o. by apply latest_view, Hd.
  - destruct Hlim as [Hlim Hlims]. destruct (next_simulates _ _ _ Hd Hob Hlim) as (rs1 & Hd1 & Hm).
    destruct (IH rs1 Hd1 Hlims) as (v & rs' & Hr & Hd' & Hv). exists v, rs'. split_and!; [by econstructor|done|done].
Qed.

(** Maps that agree have the same runs. *)
Lemma map_step_ext v w e v' : (∀ k, w k = v k) → map_step v e v' → map_step w e v'.
Proof.
  intros Hw Hs. destruct Hs as [o f cp v' Hf Hv|o f v' Hv|o f cp v' Hf Hv|o f v' Hv|v' Hv|o v' Hv].
  - eapply ms_updated; [by rewrite Hw|]. intros k. rewrite Hv. unfold put. by rewrite Hw.
  - apply ms_refused. intros k. by rewrite Hv.
  - eapply ms_done; [by rewrite Hw|]. intros k. rewrite Hv. unfold put. by rewrite Hw.
  - apply ms_not_done. intros k. by rewrite Hv.
  - apply ms_restarted. intros k. by rewrite Hv.
  - rewrite <-Hw. apply ms_seen. intros k. by rewrite Hv.
Qed.

Lemma map_run_ext v w l v' :
  (∀ k, w k = v k) → map_run v l v' → ∃ w', map_run w l w' ∧ ∀ k, w' k = v' k.
Proof.
  intros Hw Hr. revert w Hw. induction Hr as [v|v e v1 l v' Hs Hr IH]; intros w Hw.
  - exists w. split; [constructor|done].
  - exists v'. split; [|done]. econstructor; [by eapply map_step_ext|done].
Qed.

(** C1 The witness's memory across its life.  Take a process whose memory agrees
    with its storage ([durable]), as after [Init], and a sequence of updates,
    reads, restarts, and updates during which power is lost or the storage
    fails, that stays within these limits ([within_limits]): no revision
    reaches 2^32; the checkpoints and the directory are short enough for their
    slots, and no block of their records but the first begins with the magic;
    of a write that is cut short a number of whole blocks has been stored, from
    the first on, and the checksum of a record that is not complete does not
    match; and an update that fails in the storage is followed by a restart
    before the process is used again.  Then what is read along the sequence is
    what a map from logs to checkpoints would give, in which an acknowledged
    update is final, a refused one does nothing, and an interrupted one
    happened or did not; and at the end every log has the checkpoint of that
    map.  The limits are needed: outside of them the theorems
    [unstored_mapping_is_used], [embedded_record_is_taken] and
    [torn_block_loses_current] show other behaviour. *)
Theorem life_refines_map (p : SlotPersistence S) (rs : list reg) (l : list event) (p' : SlotPersistence S) :
  durable p rs → life p l p' → within_limits p l →
  ∃ v rs', map_run (view p rs) l v ∧ durable p' rs' ∧ ∀ o, latest o p' = v (logfmt_ID o).
Proof. apply life_simulates. Qed.
End Life.
End PersistenceLife.
