(* ===== verification/PersistenceCrashDemo.v ===== *)
(** * Power lost while a checkpoint is written

    A partition with one log, a device that loses power after the first of
    the two blocks of the log's next record, and the process started after
    it: the instances of [update_survives_restart] and [life_refines_map]
    there. *)

From S2P Require Import Prelude Sha256 BlockDev MemDev Entry Journal JournalInv JournalWrite JournalSpec.
From S2P Require Import JournalDemo JournalProps Slots SlotStore SlotsSpec SlotsProps SlotsCrash PowerCut.
From S2P Require Import Persistence PersistenceSpec PersistenceProps PersistenceDemo PersistenceCrash PersistenceLife.
Import MemDev Entry Journal JournalInv JournalWrite JournalSpec JournalDemo JournalProps.
Import Slots SlotsSpec SlotsProps SlotsCrash PowerCut.
Import Persistence PersistenceSpec PersistenceProps PersistenceDemo PersistenceCrash PersistenceLife.

Module PersistenceCrashDemo.

(** ** A slot with one record *)

(** The only record starts on block [st]. *)
Definition one_head (st : Z) (e : entry) : headmap := λ p, if decide (p = st) then Some e else None.

Section One.
Context `{P : Platform} `{B : !BlockReaderWriter D} `{BD : !BlockDevice D}.

Lemma one_layout bs st L c e :
  geometry_ok bs st L → record_ok bs L e → 0 < Revision e → extent bs e = 1 →
  c st = Some (blk bs (encoding e) 0) →
  (∀ p, st < p < st + L → c p = Some (replicate (Z.to_nat bs) x00)) →
  layout bs st L c (one_head st e) st [e] (st + 1) ∧ torn_detected bs st L c (one_head st e).
Proof.
  intros G Hok Hrev Hext Hc0 Hc. pose proof (geo_bs _ _ _ G) as Hbs. pose proof (geo_length _ _ _ G).
  unfold entryHeaderSize in Hbs.
  assert (intact bs c st e) as Hin.
  { intros i Hi. rewrite Hext in Hi. assert (i = 0) as -> by lia. by rewrite Z.add_0_r. }
  split.
  - split; [|lia|lia| |done|lia|].
    + intros p Hp. unfold one_head. case_decide as E.
      * subst. eexists. split; [done|]. split_and!; [|done|done|lia].
        apply len_blk; [lia|]. rewrite (len_encoding e (rec_wf _ _ _ Hok)).
        fold (extent bs e). lia.
      * rewrite Hc by lia. eexists. split; [done|]. unfold len, ztake.
        rewrite length_replicate, take_replicate. split; [lia|]. by rewrite Nat.min_l by lia.
    + cbn [chain]. unfold one_head. rewrite decide_True, Hext by done. split_and!; [done|done|done|lia|done].
    + intros p e0 Hp. unfold one_head. by rewrite decide_False by lia.
  - intros p e0 _. unfold one_head. case_decide as E; [|done]. subst. intros [= <-] Hn. done.
Qed.
End One.

(** ** The storage *)

Definition dir_a : bytes := pos_bytes (encode ({["a" := 1]} : gmap string Z)).
Definition rec_a : bytes := marshalCheckpoint cp1.
Definition long_cp : bytes := replicate 600 xab.

(** Slot 0 on blocks 1 to 4, slot 1 on blocks 5 to 8. *)
Definition image : MemDev :=
  mkMemDev (<[Z.to_nat 1 := blk 512 (encoding (sample_entry dir_a)) 0]>
    (<[Z.to_nat 5 := blk 512 (encoding (sample_entry rec_a)) 0]> (replicate 10 (replicate 512 x00)))) None.

(** Power for one more block. *)
Definition dying : Cut MemDev := mkCut image (Some 1).
Definition cpart : Partition (Cut MemDev) := mkPartition dying (lay_out 1 [4; 4]).
Definition cregs : list reg := [(dir_a, 1); (rec_a, 1)].
Definition cstate : SlotPersistence (Partition (Cut MemDev)) := (Init (NewSlotPersistence cpart)).1.

Lemma image_contents a :
  contents image a =
  if decide (a = 1) then Some (blk 512 (encoding (sample_entry dir_a)) 0)
  else if decide (a = 5) then Some (blk 512 (encoding (sample_entry rec_a)) 0)
  else contents (NewMemDev 10) a.
Proof.
  cbn [contents memdev_device]. unfold image.
  rewrite md_insert_contents by (unfold len; rewrite length_insert, length_replicate; lia).
  case_decide; [done|]. by rewrite md_insert_contents by (unfold len; rewrite length_replicate; lia).
Qed.

Lemma image_zero a : 1 ≤ a < 10 → a ≠ 1 → a ≠ 5 → contents image a = Some (replicate (Z.to_nat 512) x00).
Proof.
  intros Ha H1 H5. rewrite image_contents, !decide_False by done.
  cbn [contents memdev_device]. unfold md_contents. rewrite (proj2 (Z.ltb_ge _ _)) by lia.
  cbn [Storage NewMemDev]. apply lookup_replicate. split; [done|lia].
Qed.

Lemma image_wf : md_wf image.
Proof. split_and!; [|done|done]. apply (bool_decide_unpack _). vm_compute. exact I. Qed.

Lemma sample_record data :
  bool_decide (entryHeaderSize + len data ≤ 4 * 512 / minEntries) = true →
  bool_decide (inert 512 (sample_entry data)) = true → record_ok 512 4 (sample_entry data).
Proof.
  intros Hs%bool_decide_eq_true Hi%bool_decide_eq_true. pose proof (len_nonneg data).
  assert (len data ≤ 682) by (change (4 * 512 / minEntries) with 682 in Hs; unfold entryHeaderSize in Hs; lia).
  split; [|done|done].
  split; [done|cbn; lia|done|cbn [Data sample_entry]; change max_alloc with (2 ^ 48); lia|done].
Qed.

Lemma slot_one st data :
  geometry_ok 512 st 4 → record_ok 512 4 (sample_entry data) → extent 512 (sample_entry data) = 1 →
  contents image st = Some (blk 512 (encoding (sample_entry data)) 0) →
  (∀ p, st < p < st + 4 → contents image p = Some (replicate (Z.to_nat 512) x00)) →
  layout 512 st 4 (contents dying) (one_head st (sample_entry data)) st [sample_entry data] (st + 1) ∧
  torn_detected 512 st 4 (contents dying) (one_head st (sample_entry data)).
Proof. intros. by apply one_layout. Qed.

Lemma dir_record : record_ok 512 4 (sample_entry dir_a).
Proof. apply sample_record; vm_compute; reflexivity. Qed.

Lemma rec_record : record_ok 512 4 (sample_entry rec_a).
Proof. apply sample_record; vm_compute; reflexivity. Qed.

Lemma slots_one :
  (layout 512 1 4 (contents dying) (one_head 1 (sample_entry dir_a)) 1 [sample_entry dir_a] 2 ∧
   torn_detected 512 1 4 (contents dying) (one_head 1 (sample_entry dir_a))) ∧
  (layout 512 5 4 (contents dying) (one_head 5 (sample_entry rec_a)) 5 [sample_entry rec_a] 6 ∧
   torn_detected 512 5 4 (contents dying) (one_head 5 (sample_entry rec_a))).
Proof.
  split.
  - apply (slot_one 1 dir_a); [split; vm_compute; done|exact dir_record|vm_compute; reflexivity| |].
    + by rewrite image_contents.
    + intros p Hp. apply image_zero; lia.
  - apply (slot_one 5 rec_a); [split; vm_compute; done|exact rec_record|vm_compute; reflexivity| |].
    + by rewrite image_contents.
    + intros p Hp. apply image_zero; lia.
Qed.
Lemma cpart_slots : p_slots cpart = [mkSlot 1 4 None; mkSlot 5 4 None].
Proof. reflexivity. Qed.

Lemma cpart_holds : part_holds cpart cregs.
Proof.
  destruct slots_one as [[Hl0 Ht0] [Hl1 Ht1]].
  split; [exact image_wf|done| |].
  - rewrite cpart_slots. intros [|[|a]] [|[|b]] sa sb; cbn; try done; intros [= <-] [= <-]; cbn; lia.
  - rewrite cpart_slots. repeat (apply Forall2_cons; split); [..|by apply Forall2_nil].
    + split; [split; vm_compute; done|done|]. cbn [s_journal]. by exists (one_head 1 (sample_entry dir_a)), 1, [sample_entry dir_a], 2.
    + split; [split; vm_compute; done|done|]. cbn [s_journal]. by exists (one_head 5 (sample_entry rec_a)), 5, [sample_entry rec_a], 6.
Qed.

Lemma only_a (k : string) (v : Z) : ({["a" := 1]} : gmap string Z) !! k = Some v → k = "a" ∧ v = 1.
Proof. by intros [<- <-]%lookup_singleton_Some. Qed.

(** The process that runs when power fails. *)
Lemma cstate_ok :
  state_ok cstate cregs ∧ idToSlot cstate = {["a" := 1]} ∧ holds (restart (part cstate)) cregs ∧
  (∀ k, healthy (part cstate) k) ∧ slot_Open mappingConfigSlot cpart = (part cstate, Ok mappingConfigSlot) ∧
  ∀ k b, storable (part cstate) k b ↔ storable cpart k b.
Proof.
  destruct (Init_spec (NewSlotPersistence cpart) cregs dir_a 1 {["a" := 1]})
    as (p & HI & Hok & Hid & HO & Hhl & Hst).
  - exact cpart_holds.
  - done.
  - done.
  - by right.
  - split; [|by intros k k' v [-> ->]%only_a [-> _]%only_a]. intros k v [-> ->]%only_a.
    split; [by exists "a"|done].
  - by left.
  - intros v Hv Hk. assert (v = 1) as -> by (change (len cregs) with 2 in Hv; lia).
    by destruct (Hk "a"); rewrite lookup_singleton_eq.
  - intros k v b t [-> ->]%only_a. cbn. intros [= <- _]. right. exists cp1. apply unmarshal_marshalCheckpoint.
  - assert (cstate = p) as -> by (unfold cstate; by rewrite HI). cbn [part NewSlotPersistence] in *.
    split_and!; [done|done| | |done|done].
    + rewrite (restart_Open _ _ _ _ HO). change (restart cpart) with cpart. exact cpart_holds.
    + intros k. apply Hhl. change cpart with (restart cpart). apply restart_healthy.
Qed.

Lemma cstate_rev i r t : cregs !! i = Some (r, t) → t + 1 < 2 ^ 32.
Proof.
  intros Hi. assert (Forall (λ x : reg, x.2 = 1) cregs) as Hz by (by repeat constructor).
  pose proof (Forall_lookup_1 _ _ _ _ Hz Hi) as Ht. clear -Ht. cbn in Ht. lia.
Qed.

Lemma cstate_ready : ready cstate cregs "a".
Proof.
  destruct cstate_ok as (Hok & Hid & _ & Hhl & _). split; [|done|exact cstate_rev].
  destruct (so_stored _ _ Hok) as (b & Hb & _).
  split; [done|by eapply cstate_rev|]. intros f fs b' Hn. exfalso. rewrite Hid, lookup_singleton_eq in Hn. discriminate Hn.
Qed.

Lemma cstate_storable v : 1 ≤ v < 2 → storable (part cstate) v (marshalCheckpoint long_cp).
Proof.
  destruct cstate_ok as (_ & _ & _ & _ & _ & Hst). intros Hv. assert (v = 1) as -> by lia.
  apply Hst. split; [done|]. eexists. split; [reflexivity|]. storable_tac.
Qed.

(** ** The torn record *)

Definition cjrn : Journal :=
  match OpenJournal dying 5 4 with Ok j => j | _ => mkJournal 0 0 zero_entry 0 0 end.
Definition torn : entry := new_entry cjrn (marshalCheckpoint long_cp).
Definition torn_dev : MemDev := (WriteBlocks image 6 (ztake (1 * 512) (encoding torn))).1.

Lemma cjrn_inv :
  start cjrn = 5 ∧ jlength cjrn = 4 ∧
  journal_inv dying cjrn (one_head 5 (sample_entry rec_a)) 5 [sample_entry rec_a] 6.
Proof.
  destruct slots_one as [_ [Hl Ht]].
  destruct (open_layout dying 5 4 _ _ _ _ ltac:(split; vm_compute; done) image_wf Hl Ht) as (j & HO & Hst & HL & Hinv).
  assert (cjrn = j) as -> by (unfold cjrn; rewrite HO; reflexivity). exact (conj Hst (conj HL Hinv)).
Qed.

Lemma torn_block : write_block dying cjrn torn = 6 ∧ extent 512 torn = 2 ∧ nblocks 512 (len (encoding torn)) = 2.
Proof. vm_compute. done. Qed.

Lemma torn_written :
  WriteBlocks dying 6 (encoding torn) = (mkCut torn_dev (Some 0), Err "power lost") ∧
  ∀ i, contents torn_dev i = store 512 6 (encoding torn) 1 (contents image) i.
Proof.
  destruct torn_block as (_ & _ & Hn).
  pose proof (cut_stores_prefix image 6 (encoding torn) 1 torn_dev 1) as Hcut.
  change (BlockSize image) with 512 in Hcut. rewrite Hn in Hcut. unfold dying. apply Hcut; clear Hcut.
  - exact image_wf.
  - lia.
  - lia.
  - done.
  - intros i Hi. apply md_contents_is_Some. change (len (Storage image)) with 10. lia.
  - vm_compute. reflexivity.
Qed.

Lemma torn_seen :
  torn_detected 512 5 4 (contents torn_dev) (heads_after (one_head 5 (sample_entry rec_a)) 6 1 torn).
Proof. apply (bool_decide_unpack _). vm_compute. exact I. Qed.
Lemma opened_slot (s1 : Partition (Cut MemDev)) :
  slot_Open 1 (part cstate) = (s1, Ok 1) →
  p_dev s1 = dying ∧ p_slots s1 !! 1%nat = Some (mkSlot 5 4 (Some cjrn)).
Proof.
  destruct cstate_ok as (_ & _ & _ & _ & HO & _). intros Ho.
  assert (p_dev (slot_Open 1 (slot_Open mappingConfigSlot cpart).1).1 = dying ∧
    p_slots (slot_Open 1 (slot_Open mappingConfigSlot cpart).1).1 !! 1%nat = Some (mkSlot 5 4 (Some cjrn))) as Hc
    by (vm_compute; split; reflexivity).
  rewrite HO in Hc. cbn [fst] in Hc. rewrite Ho in Hc. exact Hc.
Qed.

Lemma record_accounted (s1 : Partition (Cut MemDev)) :
  slot_Open 1 (part cstate) = (s1, Ok 1) → accounted s1 1 (marshalCheckpoint long_cp).
Proof.
  intros Ho. destruct (opened_slot s1 Ho) as [Hd Hs]. destruct cjrn_inv as (Hst & HL & Hinv).
  destruct torn_block as (Hb & He & _). destruct torn_written as [HW Hc].
  apply (write_accounted_at s1 1 (marshalCheckpoint long_cp) _ cjrn (one_head 5 (sample_entry rec_a))
    5 [sample_entry rec_a] 6 1 (mkCut torn_dev (Some 0)) (Err "power lost") Hs eq_refl);
    rewrite Hd; fold torn; change (BlockSize dying) with 512; rewrite ?Hb, ?Hst, ?HL, ?He.
  - exact Hinv.
  - exact HW.
  - lia.
  - exact Hc.
  - exact torn_seen.
Qed.

Lemma update_accounted_a cur : update_accounted cstate "a" (write_cp long_cp) cur.
Proof.
  destruct cstate_ok as (_ & Hid & _). apply (update_accounted_mapped cstate "a" (write_cp long_cp) cur 1).
  - rewrite Hid. apply lookup_singleton_eq.
  - intros s1 cp HO [= <-]. apply record_accounted. exact HO.
Qed.

Lemma update_survives_restart_witness :
  (Update "a" (write_cp long_cp) cstate).2 = Err "failed to write data" ∧
  ∃ p2, Init (NewSlotPersistence (restart (part (Update "a" (write_cp long_cp) cstate).1))) = (p2, Ok ()) ∧
    (latest "a" p2 = Some long_cp ∨ latest "a" p2 = latest "a" cstate) ∧
    latest "b" p2 = latest "b" cstate.
Proof.
  split; [vm_compute; reflexivity|]. destruct cstate_ok as (Hok & _ & Hre & _).
  pose proof (update_survives_restart cstate cregs "a" (write_cp long_cp) Hok cstate_ready Hre) as Hu.
  destruct (Update "a" (write_cp long_cp) cstate) as [p' r]. cbn [fst].
  destruct Hu as (p2 & rs2 & HI & _ & _ & _ & Hother & Ha).
  - intros cp v [= <-] Hv. apply cstate_storable. exact Hv.
  - apply update_accounted_a.
  - exists p2. split; [exact HI|]. split.
    + destruct Ha as [(cp & [= <-] & Ha)|[_ Ha]]; [left|right]; exact Ha.
    + apply Hother. discriminate.
Defined.

Lemma cstate_can_update : can_update cstate "a" (write_cp long_cp).
Proof.
  destruct cstate_ok as (Hok & Hid & Hre & Hhl & _). split.
  - exact (rd_assignable _ _ _ cstate_ready).
  - exact (revisions_bounded _ _ (so_holds _ _ Hok) cstate_rev).
  - intros cp v [= <-] Hv. apply cstate_storable.
    rewrite (proj1 (NumSlots_spec _ _ (so_holds _ _ Hok))) in Hv. exact Hv.
  - apply update_accounted_a.
Qed.

Definition after_cut : SlotPersistence (Partition (Cut MemDev)) :=
  (rebooted (Update "a" (write_cp long_cp) cstate).1).1.

(** The log has its old checkpoint afterwards. *)
Lemma after_cut_seen : latest "a" after_cut = Some cp1.
Proof. vm_compute. reflexivity. Qed.

Lemma life_refines_map_witness :
  ∃ v, map_run (view cstate cregs) [Interrupted "a" (write_cp long_cp); Seen "a" (Some cp1)] v ∧
       latest "a" (Latest "a" after_cut).1 = v "a".
Proof.
  destruct cstate_ok as (Hok & _ & Hre & Hhl & _).
  destruct (life_refines_map cstate cregs [Interrupted "a" (write_cp long_cp); Seen "a" (Some cp1)]
              (Latest "a" after_cut).1) as (v & rs' & Hrun & _ & Hv).
  - split; [exact Hok|exact Hre|exact Hhl].
  - apply life_cons; [exact I|]. apply life_cons; [exact after_cut_seen|apply life_nil].
  - split; [exact cstate_can_update|]. split; [exact I|exact I].
  - exists v. split; [exact Hrun|]. exact (Hv "a").
Defined.

(** In this run the torn record is passed over. *)
Example torn_update_lost :
  latest "a" (Init (NewSlotPersistence (restart (part (Update "a" (write_cp long_cp) cstate).1)))).1 = Some cp1.
Proof. vm_compute. reflexivity. Qed.
End PersistenceCrashDemo.
