(* ===== verification/SlotsSingle.v ===== *)
(** * Records of one block

    If every record fits one block of the storage, a write that is cut short
    leaves the record whole or leaves nothing of it, and no block of a record
    is taken for another record.  The partition then implements the slot store
    across restarts with no condition on torn records or on the data but
    their length: a second instance of [SlotStore] and [RestartStore]. *)

From S2P Require Import Prelude Sha256 BlockDev Entry Journal JournalInv JournalWrite JournalSpec.
From S2P Require Import Slots SlotStore SlotsSpec SlotsCrash.
Import Entry Journal JournalInv JournalWrite JournalSpec Slots SlotsSpec SlotsCrash.

Module SlotsSingle.

(** All records on the storage have one block. *)
Definition single (bs : Z) (h : headmap) : Prop := ∀ p e, h p = Some e → extent bs e = 1.

Lemma single_heads_after bs h lba k e : single bs h → extent bs e = 1 → single bs (heads_after h lba k e).
Proof.
  intros Hs He p e0. unfold heads_after, put_head. case_decide; [|by apply Hs].
  case_decide; [by intros [= <-]|]. case_decide; [done|by apply Hs].
Qed.

Section Single.
Context `{P : Platform} `{B : !BlockReaderWriter D} `{BD : !BlockDevice D}.

(** Such records are never torn. *)
Lemma single_detected bs st L c h : heads_ok bs st L c h → single bs h → torn_detected bs st L c h.
Proof.
  intros Hh Hs p e Hp He Hn. exfalso. apply Hn. intros i Hi. rewrite (Hs _ _ He) in Hi.
  replace i with 0 by lia. rewrite Z.add_0_r. destruct (Hh p Hp) as (b & Hb & _ & Hm). rewrite He in Hm.
  destruct Hm as [<- _]. done.
Qed.

(** ** One slot *)

Definition closed_single (d : D) (s : Slot) : Prop :=
  ∃ h g es q, single (BlockSize d) h ∧ layout (BlockSize d) (s_start s) (s_length s) (contents d) h g es q.

Definition open_single (d : D) (s : Slot) (j : Journal) : Prop :=
  start j = s_start s ∧ jlength j = s_length s ∧
  ∃ h g es q, single (BlockSize d) h ∧ journal_inv d j h g es q.

Lemma closed_single_frame d d' s :
  geometry_ok (BlockSize d) (s_start s) (s_length s) → same_blocks d d' s → closed_single d s → closed_single d' s.
Proof.
  intros G (_ & Hbs & Hc) (h & g & es & q & Hs & Hl). exists h, g, es, q. rewrite Hbs.
  split; [done|]. by eapply layout_ext.
Qed.

Lemma open_single_frame d d' s j : same_blocks d d' s → open_single d s j → open_single d' s j.
Proof.
  intros (Hwf & Hbs & Hc) (Hst & HL & h & g & es & q & Hs & [G ? Hl ? ? ?]).
  split_and!; [done|done|]. exists h, g, es, q. rewrite Hbs. split; [done|].
  split; rewrite ?Hbs; [done|done| |done|done|done]. eapply layout_ext; [done| |done]. by rewrite Hst, HL.
Qed.

Lemma open_single_healthy d s j : s_journal s = Some j → open_single d s j → slot_healthy d s.
Proof.
  intros Hj (? & ? & h & g & es & q & _ & ?). unfold slot_healthy. rewrite Hj. split_and!; [done|done|].
  by exists h, g, es, q.
Qed.

(** Opening. *)
Lemma Slot_Open_single d s r :
  dev_wf d → slot_reads d s r → s_journal s = None → closed_single d s →
  ∃ j, Slot_Open d s = (mkSlot (s_start s) (s_length s) (Some j), Ok ()) ∧ open_single d s j.
Proof.
  intros Hwf Hsr Hj (h & g & es & q & Hs & Hl). pose proof (sr_geo _ _ _ Hsr) as G.
  destruct (open_layout _ _ _ _ _ _ _ G Hwf Hl (single_detected _ _ _ _ _ (lay_heads _ _ _ _ _ _ _ _ Hl) Hs))
    as (j & HO & Hst & HL & Hinv).
  exists j. unfold Slot_Open. rewrite Hj, HO. split; [done|]. split_and!; [done|done|]. by exists h, g, es, q.
Qed.

(** Writing: whatever the device answers, the records on it are of one block. *)
Lemma single_write d j h g es q b :
  journal_inv d j h g es q → single (BlockSize d) h → admissible d j b →
  extent (BlockSize d) (new_entry j b) = 1 →
  let e := new_entry j b in
  let lba := write_block d j e in
  ∃ d' w k, WriteBlocks d lba (encoding e) = (d', w) ∧ BlockSize d' = BlockSize d ∧
    match w with Ok n => k = n | _ => 0 ≤ k ≤ extent (BlockSize d) e end ∧
    (∀ a, contents d' a = store (BlockSize d) lba (encoding e) k (contents d) a) ∧
    single (BlockSize d) (heads_after h lba k e) ∧
    ∃ g' es' q', layout (BlockSize d) (start j) (jlength j) (contents d') (heads_after h lba k e) g' es' q'.
Proof.
  intros Hinv Hs Hadm He e lba. destruct (new_entry_ok _ _ _ _ _ _ _ Hinv Hadm) as [Hok Hrev].
  destruct (write_position _ _ _ _ _ _ _ Hinv Hok) as (Hlba & Hfit & Hpos).
  destruct (write_new _ _ _ _ _ _ _ Hinv Hadm) as (d' & w & HW & _ & Hbs & Hw).
  assert (∃ k, match w with Ok n => k = n | _ => 0 ≤ k ≤ extent (BlockSize d) e end ∧ 0 ≤ k ≤ extent (BlockSize d) e ∧
    ∀ a, contents d' a = store (BlockSize d) lba (encoding e) k (contents d) a) as (k & Hk & Hkr & Hc).
  { destruct w as [n|msg| |]; [|destruct Hw as (k & ? & ?); by exists k|done..].
    destruct Hw as [-> Hc]. exists (extent (BlockSize d) e). unfold e. rewrite He. split_and!; [done|lia|lia|].
    intros a. rewrite Hc. unfold e, lba. by rewrite He. }
  exists d', w, k. split_and!; [done|done|done|done|by apply single_heads_after|].
  destruct Hinv as [G _ Hlay Hcur _ _].
  destruct (write_outcome _ _ _ G _ _ h g es q lba k e Hlay Hok ltac:(unfold e; rewrite <-Hcur, Hrev; lia) Hlba Hfit Hpos Hkr Hc)
    as [(g' & es' & ? & _)|(g' & es' & ? & _)]; by eexists g', es', _.
Qed.

(** The size of a record of one block. *)
Lemma extent_single bs j b : 0 < bs → entryHeaderSize + len b ≤ bs → extent bs (new_entry j b) = 1.
Proof.
  intros Hbs Hb. pose proof (nblocks_pos bs Hbs (Size (new_entry j b)) (Size_pos _)) as Hp.
  assert (Size (new_entry j b) ≤ 1 * bs) as Hsz by (unfold Size; cbn [Data new_entry]; lia).
  pose proof (nblocks_le bs Hbs _ _ Hsz). unfold extent. lia.
Qed.

Lemma single_admissible d s j r rev b :
  slot_reads d s (r, rev) → s_journal s = Some j → rev + 1 < 2 ^ 32 →
  entryHeaderSize + len b ≤ s_length s * BlockSize d / minEntries → entryHeaderSize + len b ≤ BlockSize d →
  admissible d j b ∧ extent (BlockSize d) (new_entry j b) = 1.
Proof.
  intros [G Hrev0 Hj] Ej Hrev Hsz Hb. rewrite Ej in Hj. destruct Hj as (Hst & HL & HD). injection HD as _ Hrv.
  pose proof (extent_single (BlockSize d) j b (bs_pos _ _ _ G) Hb) as He.
  split; [|done]. split; [by rewrite HL|lia|]. intros i Hi. lia.
Qed.

(** ** The partition *)

Context (bs : Z).

(** The blocks have [bs] bytes, and every slot has room for three of them. *)
Record single_holds (p : Partition D) (rs : list reg) : Prop := {
  sh_part : part_holds p rs;
  sh_bs : BlockSize (p_dev p) = bs;
  sh_room k s : p_slots p !! k = Some s → minEntries ≤ s_length s;
  sh_closed k s : p_slots p !! k = Some s → s_journal s = None → closed_single (p_dev p) s;
}.

Definition single_healthy (p : Partition D) (i : Z) : Prop :=
  0 ≤ i → ∀ s j, p_slots p !! Z.to_nat i = Some s → s_journal s = Some j → open_single (p_dev p) s j.

(** What can be stored: data that fit, with the header, one block. *)
Definition single_storable (p : Partition D) (i : Z) (b : bytes) : Prop :=
  0 ≤ i < len (p_slots p) ∧ entryHeaderSize + len b ≤ bs.

Lemma single_part_healthy p i : single_healthy p i → part_healthy p i.
Proof.
  intros Hh Hi s Hs. destruct (s_journal s) as [j|] eqn:Hj; [|by unfold slot_healthy; rewrite Hj].
  eapply open_single_healthy; [done|by apply Hh].
Qed.

Lemma single_room p rs k s (b : bytes) :
  single_holds p rs → p_slots p !! k = Some s → entryHeaderSize + len b ≤ bs →
  entryHeaderSize + len b ≤ s_length s * BlockSize (p_dev p) / minEntries ∧
  entryHeaderSize + len b ≤ BlockSize (p_dev p).
Proof.
  intros [Hp Hbs Hroom _] Hs Hb. rewrite Hbs. split; [|done]. specialize (Hroom _ _ Hs).
  apply Z.div_le_lower_bound; [done|]. pose proof (len_nonneg b). unfold entryHeaderSize, minEntries in *. nia.
Qed.

Lemma single_part_storable p rs i b : single_holds p rs → single_storable p i b → part_storable p i b.
Proof.
  intros Hh (Hi & Hb). split; [lia|].
  destruct (lookup_lt_is_Some_2 (p_slots p) (Z.to_nat i)) as [s Hs]; [unfold len in Hi; lia|].
  destruct (single_room _ _ _ _ b Hh Hs Hb) as [Hsz Hb'].
  exists s. split; [done|]. split; [done|].
  destruct (Forall2_lookup_l _ _ _ _ _ (ph_reads _ _ (sh_part _ _ Hh)) Hs) as (r & _ & [G _ _]).
  intros k Hk. pose proof (nblocks_le (BlockSize (p_dev p)) (bs_pos _ _ _ G) (Size (sample_entry b)) 1) as He.
  unfold extent, Size in *. cbn [Data sample_entry] in *. lia.
Qed.

(** What a method of slot [i] may do to the rest. *)
Lemma touched_single_holds p i s d' s' rs r' :
  touches p i s d' s' → single_holds p rs → slot_reads d' s' r' →
  (s_journal s' = None → closed_single d' s') →
  single_holds (touched d' p i s') (<[Z.to_nat i := r']> rs).
Proof.
  intros T [Hp Hbs Hroom Hc] Hr Hs'. split; cbn [p_dev p_slots] in *.
  - by eapply touched_holds.
  - by rewrite (to_bs _ _ _ _ _ T).
  - intros k sk [(<- & <- & _)|[_ Hk]]%list_lookup_insert_Some; [|by eapply Hroom].
    rewrite (to_length _ _ _ _ _ T). eapply Hroom, (to_slot _ _ _ _ _ T).
  - intros k sk Hk Hj.
    apply list_lookup_insert_Some in Hk as [(<- & <- & _)|[Hne Hk]]; [by apply Hs'|].
    destruct (Forall2_lookup_l _ _ _ _ _ (ph_reads _ _ Hp) Hk) as (rk & _ & [G _ _]).
    eapply closed_single_frame; [done| |by eapply Hc].
    apply (touched_same_blocks _ _ _ _ _ T k); [by apply Hp|congruence|done].
Qed.

Lemma touched_single_healthy p i s d' s' k :
  touches p i s d' s' → disjoint_slots (p_slots p) → k ≠ i → single_healthy p k →
  single_healthy (touched d' p i s') k.
Proof.
  intros T Hd Hk Hh Hpos sk j Hs Hj. rewrite (touched_lookup _ _ _ _ _ T), decide_False in Hs by done.
  pose proof (to_pos _ _ _ _ _ T) as Hi0.
  apply (open_single_frame (p_dev p)); [|by apply Hh].
  apply (touched_same_blocks _ _ _ _ _ T (Z.to_nat k)); [done|lia|done].
Qed.

Lemma touched_single_self p i s d' s' j :
  touches p i s d' s' → s_journal s' = Some j → open_single d' s' j → single_healthy (touched d' p i s') i.
Proof.
  intros T Hj Ho Hpos sk jk Hs Hjk. rewrite (touched_lookup _ _ _ _ _ T), decide_True in Hs by done.
  injection Hs as <-. rewrite Hj in Hjk. by injection Hjk as <-.
Qed.

Lemma touched_single_storable p i d' s' k b :
  single_storable (touched d' p i s') k b ↔ single_storable p k b.
Proof. unfold single_storable, len. cbn [p_slots]. by rewrite length_insert. Qed.

(** ** The operations *)

Lemma single_Open_spec p rs i :
  single_holds p rs → 0 ≤ i < len rs →
  ∃ p', Partition_Open i p = (p', Ok i) ∧ single_holds p' rs ∧
    (∀ k, part_opened p' k ↔ part_opened p k ∨ k = i) ∧
    (∀ k, single_healthy p k → single_healthy p' k) ∧
    (∀ k b, single_storable p' k b ↔ single_storable p k b).
Proof.
  intros Hh Hi. pose proof Hh as [Hp _ _ Hc]. destruct (holds_slot _ _ _ Hp Hi) as (s & r & Hs & Hr & Hsr).
  pose proof uint_half. pose proof (holds_len _ _ Hp) as Hl. pose proof (ph_num _ _ Hp).
  assert (∀ s', Slot_Open (p_dev p) s = (s', Ok ()) → Partition_Open i p = (touched (p_dev p) p i s', Ok i)) as HO.
  { intros s' E. unfold Partition_Open, on_slot. rewrite to_uint_small by lia.
    rewrite (proj2 (Z.leb_gt _ _)) by lia. by rewrite Hs, E. }
  destruct (s_journal s) as [j|] eqn:Ej.
  - exists p. rewrite (HO s), part_eta by (done || unfold Slot_Open; by rewrite Ej). split_and!; [done|done| |done|done].
    intros k. split; [by left|]. intros [?| ->]; [done|]. split; [lia|]. exists s. by rewrite Ej.
  - destruct (Slot_Open_single _ _ _ (ph_wf _ _ Hp) Hsr Ej (Hc _ _ Hs Ej)) as (j & E & Ho).
    destruct (Slot_Open_spec _ _ _ (ph_wf _ _ Hp) Hsr) as (s' & E' & Hsr' & _ & Hj & Hst & HL).
    rewrite E in E'. injection E' as <-.
    assert (touches p i s (p_dev p) (mkSlot (s_start s) (s_length s) (Some j))) as T by (split; try done; [lia|by apply Hp]).
    eexists. split; [by apply HO|]. split_and!.
    + rewrite <-(list_insert_id rs (Z.to_nat i) r) by done. by eapply touched_single_holds.
    + intros k. by eapply touched_opened.
    + intros k Hk. destruct (decide (k = i)) as [->|]; [by eapply touched_single_self|].
      eapply touched_single_healthy; [done|by apply Hp|done|done].
    + intros k b. apply touched_single_storable.
Qed.

Lemma Slot_Write_single d s j r rev b d' s' w :
  slot_reads d s (r, rev) → s_journal s = Some j → open_single d s j → rev + 1 < 2 ^ 32 →
  entryHeaderSize + len b ≤ s_length s * BlockSize d / minEntries → entryHeaderSize + len b ≤ BlockSize d →
  Slot_Write b (d, s) = (d', s', w) →
  closed_single d' (closed s) ∧ (w = Ok () → ∃ j', s_journal s' = Some j' ∧ open_single d' s' j').
Proof.
  intros Hsr Ej (Hst & HL & h & g & es & q & Hs & Hinv) Hrev Hsz Hb HW.
  destruct (single_admissible _ _ _ _ _ _ Hsr Ej Hrev Hsz Hb) as [Hadm He].
  destruct (single_write _ _ _ _ _ _ _ Hinv Hs Hadm He) as (d1 & w1 & k & HW1 & Hbs & Hk & Hc & Hs' & g' & es' & q' & Hl').
  destruct (Update_spec _ _ _ _ _ _ _ Hinv Hadm) as (d2 & j' & res & HU & _ & Hbs2 & Hres).
  unfold Slot_Write in HW. rewrite Ej, HU in HW. injection HW as -> <- ->.
  assert (d' = d1) as ->.
  { rewrite (Update_admissible _ _ _ _ _ _ _ Hinv Hadm) in HU. cbn zeta in HU. rewrite HW1 in HU.
    by destruct w1; injection HU as <-. }
  split.
  - exists (heads_after h (write_block d j (new_entry j b)) k (new_entry j b)), g', es', q'. rewrite Hbs.
    cbn [closed s_start s_length]. rewrite <-Hst, <-HL. done.
  - intros ->. destruct Hres as [_ (g2 & es2 & q2 & Hinv2)]. exists j'. split; [done|].
    destruct (Update_frame _ _ _ _ _ _ _ _ _ _ Hinv Hadm HU) as (Hst' & HL' & _).
    split_and!; cbn [s_start s_length]; [congruence|congruence|]. eexists _, g2, es2, q2. rewrite Hbs.
    split; [|done]. by apply single_heads_after.
Qed.

(** The slot that a write is for. *)
Lemma single_slot p rs i b r t :
  single_holds p rs → part_opened p i → single_healthy p i → single_storable p i b →
  rs !! Z.to_nat i = Some (r, t) →
  ∃ s j, p_slots p !! Z.to_nat i = Some s ∧ s_journal s = Some j ∧ slot_reads (p_dev p) s (r, t) ∧
    Revision (current j) = t ∧ open_single (p_dev p) s j ∧
    entryHeaderSize + len b ≤ s_length s * BlockSize (p_dev p) / minEntries ∧
    entryHeaderSize + len b ≤ BlockSize (p_dev p).
Proof.
  intros Hp Ho Hh (Hpos & Hb) Hr.
  destruct (opened_journal _ _ _ _ (sh_part _ _ Hp) Ho Hr) as (s & j & Hs & Hj & Hsr & HD).
  injection HD as _ HD. exists s, j. split_and!; [done|done|done|done|apply Hh; [lia|done|done]|by eapply single_room..].
Qed.

Lemma single_CheckAndWrite_spec p rs i t b r :
  single_holds p rs → part_opened p i → single_healthy p i → single_storable p i b →
  rs !! Z.to_nat i = Some (r, t) → t + 1 < 2 ^ 32 →
  ∃ p' res, CheckAndWrite i t b p = (p', res) ∧
    (∀ k, part_opened p' k ↔ part_opened p k) ∧
    (∀ k, k ≠ i → single_healthy p k → single_healthy p' k) ∧
    (∀ k b, single_storable p' k b ↔ single_storable p k b) ∧
    match res with
    | Ok _ => single_holds p' (<[Z.to_nat i := (b, t + 1)]> rs) ∧ single_healthy p' i
    | Err _ => single_holds p' rs
    | _ => False
    end.
Proof.
  intros Hh Ho Hhl Hst Hr Ht. pose proof Hst as [[Hpos _] _].
  destruct (single_slot _ _ _ _ _ _ Hh Ho Hhl Hst Hr) as (s & j & Hs & Hj & Hsr & HD & Hop & Hsz & Hb).
  destruct (single_part_storable _ _ _ _ Hh Hst) as (_ & s0 & Hs0 & Hsts).
  rewrite Hs in Hs0. injection Hs0 as <-.
  destruct (Slot_Write_spec _ _ _ _ _ Hsr (open_single_healthy _ _ _ Hj Hop) ltac:(by rewrite Hj) Hsts Ht)
    as (d' & s' & res & HW & Hwf & Hbs & Hst' & HL & Hj' & Hc & Hres).
  destruct (Slot_Write_single _ _ _ _ _ _ _ _ _ Hsr Hj Hop Ht Hsz Hb HW) as [_ Hself].
  assert (touches p i s d' s') as T by done.
  assert (s_journal s' = None → closed_single d' s') as Hopen by (intros E; rewrite E in Hj'; by destruct Hj').
  exists (touched d' p i s'), res. split_and!.
  - unfold CheckAndWrite, on_slot, Slot_CheckAndWrite. rewrite Hs, Hj.
    rewrite (proj2 (Z.eqb_eq _ _)) by done. by rewrite HW.
  - intros k. rewrite (touched_opened _ _ _ _ _ T) by done. split; [|tauto]. intros [?| ->]; done.
  - intros k Hk. eapply touched_single_healthy; [done|by apply (sh_part _ _ Hh)|done].
  - intros k b'. apply touched_single_storable.
  - destruct res as [[]|msg| |]; [| |done..].
    + destruct Hres as [Hsr' _]. destruct (Hself eq_refl) as (j' & ? & ?).
      split; [by eapply touched_single_holds|by eapply touched_single_self].
    + rewrite <-(list_insert_id rs (Z.to_nat i) (r, t)) by done. by eapply touched_single_holds.
Qed.

(** A record of one block is accounted for, whatever the device does. *)
Lemma single_accounted p rs i b r t :
  single_holds p rs → part_opened p i → single_healthy p i → single_storable p i b →
  rs !! Z.to_nat i = Some (r, t) → t + 1 < 2 ^ 32 → write_accounted p i b.
Proof.
  intros Hh Ho Hhl Hst Hr Ht.
  destruct (single_slot _ _ _ _ _ _ Hh Ho Hhl Hst Hr) as (s & j & Hs & Hj & Hsr & HD & Hop & Hsz & Hb).
  destruct Hop as (_ & _ & h & g & es & q & Hsi & Hinv).
  destruct (single_admissible _ _ _ _ _ _ Hsr Hj Ht Hsz Hb) as [Hadm He].
  destruct (single_write _ _ _ _ _ _ _ Hinv Hsi Hadm He) as (d' & w & k & HW & _ & Hk & Hc & Hs' & g' & es' & q' & Hl').
  eapply write_accounted_at; [done..|]. eapply single_detected; [by apply Hl'|done].
Qed.

Lemma single_CheckAndWrite_restart p rs i t b r p' w :
  single_holds p rs → part_opened p i → single_healthy p i → single_storable p i b →
  rs !! Z.to_nat i = Some (r, t) → t + 1 < 2 ^ 32 →
  single_holds (reopened p) rs → True → CheckAndWrite i t b p = (p', w) →
  ∃ r', single_holds (reopened p') (<[Z.to_nat i := r']> rs) ∧
    (r' = (b, t + 1) ∨ is_ok w = false ∧ r' = (r, t)).
Proof.
  intros Hh Ho Hhl Hst Hr Ht Hre _ HC. pose proof (single_accounted _ _ _ _ _ _ Hh Ho Hhl Hst Hr Ht) as Hacc.
  destruct (single_slot _ _ _ _ _ _ Hh Ho Hhl Hst Hr) as (s & j & Hs & Hj & Hsr & HD & Hop & Hsz & Hb).
  destruct (single_part_storable _ _ _ _ Hh Hst) as (Hpos & s0 & Hs0 & Hsts).
  rewrite Hs in Hs0. injection Hs0 as <-. pose proof (open_single_healthy _ _ _ Hj Hop) as Hsh.
  destruct (Slot_Write_spec _ _ _ _ _ Hsr Hsh ltac:(by rewrite Hj) Hsts Ht)
    as (d' & s' & w' & HW & Hwf & Hbs & Hst' & HL & _ & Hc & _).
  destruct (Slot_Write_single _ _ _ _ _ _ _ _ _ Hsr Hj Hop Ht Hsz Hb HW) as [Hcl _].
  unfold CheckAndWrite, on_slot, Slot_CheckAndWrite in HC. rewrite Hs, Hj in HC.
  rewrite (proj2 (Z.eqb_eq _ _)), HW in HC by done. injection HC as <- <-.
  destruct (Slot_Write_restart _ _ _ _ _ _ _ _ _ _ Hs Hj Hsr Hsh Hsts Ht Hacc HW) as (r' & Hsr' & Hr').
  exists r'. split; [|done]. rewrite (reopened_touched _ _ _ s) by (by apply closed_eq).
  assert (touches (reopened p) i (closed s) d' (closed s)) as T by (split; try done; by apply reopened_lookup).
  by eapply touched_single_holds.
Qed.

(** ** The second instance *)

Lemma single_reopened_storable p k b : single_storable (reopened p) k b ↔ single_storable p k b.
Proof. unfold single_storable, len. cbn [p_slots reopened]. by rewrite length_fmap. Qed.

Lemma single_reopened_healthy p k : single_healthy (reopened p) k.
Proof. intros _ s j. cbn. rewrite list_lookup_fmap_Some. by intros (s0 & -> & _). Qed.

Definition single_store : SlotStore (Partition D) := {|
  holds := single_holds;
  opened := part_opened;
  healthy := single_healthy;
  storable := single_storable;
  NumSlots_spec p rs Hp := NumSlots_holds p rs (sh_part p rs Hp);
  holds_rev p rs i r Hp := holds_rev_nonneg p rs i r (sh_part p rs Hp);
  Open_spec := single_Open_spec;
  Open_invalid p rs i Hp := Open_invalid_slot p rs i (sh_part p rs Hp);
  Read_spec p rs i r Hp := Slots_Read_spec p rs i r (sh_part p rs Hp);
  CheckAndWrite_stale p rs i t b r rev Hp := CheckAndWrite_stale_token p rs i t b r rev (sh_part p rs Hp);
  CheckAndWrite_spec := single_CheckAndWrite_spec;
|}.

Definition single_restart : @RestartStore (Partition D) P partition_ops single_store :=
  @Build_RestartStore (Partition D) P partition_ops single_store
    reopened (λ _ _ _, True) reopened_Open reopened_reopened single_reopened_healthy single_reopened_storable
    single_CheckAndWrite_restart.
End Single.
End SlotsSingle.
