(* ===== verification/PersistenceSingle.v ===== *)
(** * The life of a persistence layer whose records fit one block

    On a partition where every record, of the directory too, fits one block,
    nothing has to be assumed of torn records or of the contents of the data:
    the limits of [PersistenceLife] come down to lengths and revisions. *)

From S2P Require Import Prelude BlockDev Entry Slots SlotStore SlotsSpec SlotsCrash SlotsSingle.
From S2P Require Import Persistence PersistenceSpec PersistenceProps PersistenceCrash PersistenceLife.
Import Entry Slots SlotsSpec SlotsCrash SlotsSingle.
Import Persistence PersistenceSpec PersistenceProps PersistenceCrash PersistenceLife.

Module PersistenceSingle.

Section Single.
Context `{P : Platform} `{B : !BlockReaderWriter D} `{BD : !BlockDevice D} `{X : !Externals} `{XS : !ExternalsSpec}.
Context (bs : Z).

#[local] Instance blocks_store : SlotStore (Partition D) := single_store bs.
#[local] Instance blocks_restart : RestartStore (Partition D) := single_restart bs.

(** An update whose records fit one block of [bs] bytes, with their headers. *)
Record small (p : SlotPersistence (Partition D)) (o : string) (f : bytes → res bytes) : Prop := {
  sm_revision i b t : 0 ≤ i → ((slot_Open i ≫= slot_Read) (part p)).2 = Ok (b, t) → t + 1 < 2 ^ 32;
  sm_record cp : f (default [] (latest o p)) = Ok cp → entryHeaderSize + len (marshalCheckpoint cp) ≤ bs;
  sm_directory fr fs b :
    idToSlot p !! logfmt_ID o = None → freeSlots p = fr :: fs →
    yaml_marshal_map (<[logfmt_ID o := fr]> (idToSlot p)) = Ok b → entryHeaderSize + len b ≤ bs;
}.

Lemma small_can_update p rs o f : durable p rs → small p o f → can_update p o f.
Proof.
  intros [Hok _ Hhl] [Hrev Hrec Hdir]. pose proof (so_holds _ _ Hok) as Hh.
  destruct (NumSlots_spec _ _ Hh) as [Hn _]. destruct (so_stored _ _ Hok) as (b0 & Hb0 & _).
  assert (0 < len rs) as Hpos by (destruct rs; [done|unfold len; cbn [length]; lia]).
  pose proof (holds_len _ _ (sh_part _ _ _ Hh)) as Hl. split.
  - split; [apply Hhl| |].
    + apply (Hrev 0 b0); [lia|]. by eapply register_read.
    + intros fr fs b Hm Hfs Hb. split; [unfold mappingConfigSlot; lia|by eapply Hdir].
  - exact Hrev.
  - intros cp v Hcp Hv. rewrite Hn in Hv. split; [lia|by apply Hrec].
  - by split.
Qed.

(** The limits: records of one block, revisions below 2^32, and a restart after
    an update that failed in the storage. *)
Fixpoint within_blocks (p : SlotPersistence (Partition D)) (l : list event) : Prop :=
  match l with
  | [] => True
  | e :: l' =>
    match e with
    | Updated o f | Refused o f | Interrupted o f => small p o f
    | Failed _ _ => False
    | Restarted | Seen _ _ => True
    end ∧ within_blocks (next p e) l'
  end.

Lemma within_blocks_limits p rs l p' :
  durable p rs → life p l p' → within_blocks p l → within_limits p l.
Proof.
  intros Hd Hl. revert rs Hd. induction Hl as [p|p e l p' Hob Hl IH]; intros rs Hd; [done|].
  intros [He Hls]. assert (limits p e) as Hlim by (destruct e; try done; by eapply small_can_update).
  split; [done|]. destruct (next_simulates _ _ _ Hd Hob Hlim) as (rs1 & Hd1 & _). by eapply IH.
Qed.

Lemma single_life p rs l p' :
  durable p rs → life p l p' → within_blocks p l →
  ∃ v rs', map_run (view p rs) l v ∧ durable p' rs' ∧ ∀ o, latest o p' = v (logfmt_ID o).
Proof. intros Hd Hl Hb. eapply life_simulates; [done|done|]. by eapply within_blocks_limits. Qed.
End Single.
End PersistenceSingle.
