(* ===== verification/Mmc.v ===== *)
(** * The eMMC device (mmc/internal.go)

    [Device] transfers blocks through two calls of the trusted OS, in chunks
    of at most [MaxTransferBytes].  The card behind the calls is the class
    [Card]; [CardSpec] states what the OS documents of them.  Under it the
    device implements [BlockDevice], so that everything proved of the journal
    and the slots holds of the deployed storage. *)

From S2P Require Import Prelude BlockDev.

(** ** The calls of the trusted OS *)

Class Card (C : Type) := {
  card_BlockSize : C → Z;
  (** RPC.WriteBlocks with [LBA] and [Data]. *)
  rpc_WriteBlocks : C → Z → bytes → C * res unit;
  (** RPC.Read with [Offset] and [Size]: the bytes read. *)
  rpc_Read : C → Z → Z → res bytes;
}.

Class CardSpec (C : Type) `{Platform} `{!Card C} := {
  card_contents : C → Z → option bytes;
  card_wf : C → Prop;
  card_bs_pos c : card_wf c → 0 < card_BlockSize c < 2 ^ (uint_bits - 1);
  card_len c i b : card_wf c → card_contents c i = Some b → len b = card_BlockSize c;
  (** The blocks have [int] addresses and [int64] offsets. *)
  card_range c i : card_wf c → is_Some (card_contents c i) →
    0 ≤ i < 2 ^ (uint_bits - 1) ∧ i * card_BlockSize c < 2 ^ 63;
  rpc_Read_spec c i blks : card_wf c → blks ≠ [] →
    (∀ j b, blks !! j = Some b → card_contents c (i + Z.of_nat j) = Some b) →
    rpc_Read c (i * card_BlockSize c) (len blks * card_BlockSize c) = Ok (concat blks);
  rpc_WriteBlocks_spec c lba n data :
    card_wf c → 0 < n → len data = n * card_BlockSize c → len data < 2 ^ (uint_bits - 1) →
    (∀ i, lba ≤ i < lba + n → is_Some (card_contents c i)) →
    ∃ c' r, rpc_WriteBlocks c lba data = (c', r) ∧ card_wf c' ∧
      card_BlockSize c' = card_BlockSize c ∧
      match r with
      | Ok _ => ∀ i, card_contents c' i = store (card_BlockSize c) lba data n (card_contents c) i
      | Err _ => ∃ k, 0 ≤ k ≤ n ∧
          ∀ i, card_contents c' i = store (card_BlockSize c) lba data k (card_contents c) i
      | _ => False
      end;
}.

Module Mmc.

Definition MaxTransferBytes : Z := 32 * 1024.

(** The block size that the card reported, and the card. *)
Record Device (C : Type) := mkDevice {
  CardInfo_BlockSize : Z;
  card : C;
}.
Arguments mkDevice {C} _ _.
Arguments CardInfo_BlockSize {C} _.
Arguments card {C} _.

(** [int64(z)] of a product. *)
Definition to_int64 (z : Z) : Z :=
  let u := wrap 64 z in if u <? 2 ^ 63 then u else u - 2 ^ 64.

Section Mmc.
Context `{P : Platform} `{K : !Card C}.

Definition mmc_BlockSize (d : Device C) : Z := to_uint (CardInfo_BlockSize d).

(** The chunks of a transfer; every one takes at least one byte off [b]. *)
Fixpoint write_chunks (fuel : nat) (bs lba : Z) (b : bytes) (c : C) : C * res unit :=
  if len b =? 0 then (c, Ok ())
  else match fuel with
  | O => (c, NoFuel)
  | S fuel' =>
    let bl := if MaxTransferBytes <? len b then MaxTransferBytes else len b in
    match rpc_WriteBlocks c (to_int lba) (ztake bl b) with
    | (c', Ok _) => write_chunks fuel' bs (lba +ᵤ to_uint (bl / bs)) (zdrop bl b) c'
    | (c', Err e) => (c', Err e)
    | (c', Panic e) => (c', Panic e)
    | (c', NoFuel) => (c', NoFuel)
    end
  end.

Definition mmc_WriteBlocks (d : Device C) (lba : Z) (b : bytes) : Device C * res Z :=
  if len b =? 0 then (d, Ok 0)
  else
    let bs := to_int (mmc_BlockSize d) in
    if bs =? 0 then (d, Panic "integer divide by zero")
    else
      let r := len b mod bs in
      let b := if r =? 0 then b else b ++ replicate (Z.to_nat (bs - r)) x00 in
      let numBlocks := to_uint (len b / bs) in
      let '(c', res) := write_chunks (length b) bs lba b (card d) in
      (mkDevice (CardInfo_BlockSize d) c', _ ← res; mret numBlocks).

(** The buffer [b] is filled from its front; what is done of it is returned. *)
Fixpoint read_chunks (fuel : nat) (bs lba : Z) (b : bytes) (c : C) : res bytes :=
  if len b =? 0 then Ok []
  else match fuel with
  | O => NoFuel
  | S fuel' =>
    let bl := if MaxTransferBytes <? len b then MaxTransferBytes else len b in
    readBuf ← rpc_Read c (to_int64 (lba * bs)) bl;
    let b := copy_at 0 b readBuf in
    if bs =? 0 then Panic "integer divide by zero"
    else
      rest ← read_chunks fuel' bs (lba +ᵤ to_uint (bl / bs)) (zdrop bl b) c;
      mret (ztake bl b ++ rest)
  end.

Definition mmc_ReadBlocks (d : Device C) (lba : Z) (b : bytes) : res bytes :=
  if len b =? 0 then Ok b
  else read_chunks (length b) (to_int (mmc_BlockSize d)) lba b (card d).

#[export] Instance mmc_rw : BlockReaderWriter (Device C) := {
  BlockSize := mmc_BlockSize;
  ReadBlocks := mmc_ReadBlocks;
  WriteBlocks := mmc_WriteBlocks;
}.
End Mmc.

(** ** The device keeps the promises of block storage *)

Section Chunks.
Context (bs n : Z) (a b : bytes) (Hbs : 0 < bs) (Ha : len a = n * bs) (Hb : len b mod bs = 0).

(** The blocks of a chunk and of the rest. *)
Lemma pad_whole (x : bytes) : len x mod bs = 0 → pad bs x = x.
Proof.
  intros Hx. apply Z.mod_divide in Hx as [m Hm]; [|lia]. unfold pad.
  rewrite Hm, nblocks_mul by done. rewrite Z.sub_diag. apply app_nil_r.
Qed.

Lemma pad_chunks : pad bs a = a ∧ pad bs b = b ∧ pad bs (a ++ b) = a ++ b.
Proof.
  split_and!; apply pad_whole; [rewrite Ha; apply Z.mod_mul; lia|done|].
  rewrite len_app, Ha, Z.add_comm, Z.mod_add by lia. done.
Qed.

Lemma blk_app_l j : 0 ≤ j < n → blk bs (a ++ b) j = blk bs a j.
Proof.
  intros Hj. destruct pad_chunks as (Pa & _ & Pab). unfold blk. rewrite Pa, Pab.
  unfold ztake, zdrop. rewrite drop_app_le by (unfold len in *; nia).
  rewrite take_app_le; [done|]. rewrite length_drop. unfold len in *. nia.
Qed.

Lemma blk_app_r j : 0 ≤ n → 0 ≤ j → blk bs (a ++ b) (n + j) = blk bs b j.
Proof.
  intros Hn Hj. destruct pad_chunks as (_ & Pb & Pab). unfold blk. rewrite Pb, Pab.
  unfold ztake, zdrop. rewrite drop_app_ge by (unfold len in *; nia).
  do 2 f_equal. unfold len in *. nia.
Qed.

(** Storing a part of the chunk, and the chunk and a part of the rest. *)
Lemma store_chunk lba k c i : k ≤ n → store bs lba a k c i = store bs lba (a ++ b) k c i.
Proof. intros Hk. unfold store. case_decide; [|done]. by rewrite blk_app_l by lia. Qed.

Lemma store_app lba k c i :
  0 ≤ k → store bs (lba + n) b k (store bs lba a n c) i = store bs lba (a ++ b) (n + k) c i.
Proof.
  intros Hk. pose proof (len_nonneg a). assert (0 ≤ n) by nia.
  unfold store. destruct (decide (lba + n ≤ i < lba + n + k)) as [Hi|Hi].
  - rewrite decide_True by lia. f_equal. rewrite <-(blk_app_r (i - (lba + n))) by lia. f_equal. lia.
  - destruct (decide (lba ≤ i < lba + n)) as [Hi'|Hi'].
    + rewrite decide_True by lia. by rewrite blk_app_l by lia.
    + by rewrite decide_False by lia.
Qed.
End Chunks.

Section Spec.
Context `{P : Platform} `{K : !Card C} `{KS : !CardSpec C}.

(** The chunks are whole numbers of blocks. *)
Definition mmc_wf (d : Device C) : Prop :=
  card_wf (card d) ∧ CardInfo_BlockSize d = card_BlockSize (card d) ∧
  MaxTransferBytes mod CardInfo_BlockSize d = 0.

Definition mmc_contents (d : Device C) (i : Z) : option bytes := card_contents (card d) i.

Lemma mmc_bs d : mmc_wf d →
  BlockSize d = CardInfo_BlockSize d ∧ to_int (BlockSize d) = CardInfo_BlockSize d ∧
  0 < CardInfo_BlockSize d < 2 ^ (uint_bits - 1) ∧ CardInfo_BlockSize d ≤ MaxTransferBytes.
Proof.
  intros (Hwf & Hbs & Hmax). pose proof (card_bs_pos _ Hwf) as Hpos. rewrite <-Hbs in Hpos.
  pose proof uint_half. cbn [BlockSize mmc_rw]. unfold mmc_BlockSize.
  rewrite to_uint_small by lia. rewrite to_int_small by lia. split_and!; try done; try lia.
  apply Z.mod_divide in Hmax; [|lia]. by apply Z.divide_pos_le in Hmax.
Qed.

(** The write loop, on data of a whole number of blocks. *)
Lemma write_chunks_spec fuel bs lba b n c :
  card_wf c → card_BlockSize c = bs → MaxTransferBytes mod bs = 0 →
  len b = n * bs → 0 ≤ lba → len b ≤ Z.of_nat fuel →
  (∀ i, lba ≤ i < lba + n → is_Some (card_contents c i)) →
  ∃ c' r, write_chunks fuel bs lba b c = (c', r) ∧ card_wf c' ∧ card_BlockSize c' = bs ∧
    match r with
    | Ok _ => ∀ i, card_contents c' i = store bs lba b n (card_contents c) i
    | Err _ => ∃ k, 0 ≤ k ≤ n ∧ ∀ i, card_contents c' i = store bs lba b k (card_contents c) i
    | _ => False
    end.
Proof.
  revert lba b n c. induction fuel as [|fuel IH]; intros lba b n c Hwf Hbs Hmax Hlen Hlba Hf Hc;
    pose proof (card_bs_pos _ Hwf) as Hpos; rewrite Hbs in Hpos; pose proof (len_nonneg b);
    cbn [write_chunks]; (case_test;
    [exists c, (Ok ()); split_and!; try done; intros i; by rewrite store_out by nia|]).
  { lia. }
  assert (0 < n) by nia.
  set (bl := if MaxTransferBytes <? len b then MaxTransferBytes else len b).
  assert (∃ m, bl = m * bs ∧ 0 < m ≤ n) as (m & Hbl & Hm).
  { apply Z.mod_divide in Hmax as [m Hm]; [|lia]. unfold bl. case_test.
    - exists m. split; [done|]. assert (MaxTransferBytes = 32768) by done. nia.
    - exists n. lia. }
  assert (bl ≤ len b) by nia. assert (len (ztake bl b) = m * bs) as Ht by (rewrite len_take; lia).
  assert (len (zdrop bl b) = (n - m) * bs) as Hd by (rewrite len_drop; lia).
  destruct (card_range c lba Hwf ltac:(apply Hc; lia)) as [Hr _]. pose proof uint_half.
  destruct (card_range c (lba + n - 1) Hwf ltac:(apply Hc; lia)) as [Hr2 _].
  rewrite to_int_small by lia.
  destruct (rpc_WriteBlocks_spec c lba m (ztake bl b) Hwf) as (c1 & r & HW & Hwf1 & Hbs1 & Hres);
    [lia|by rewrite Hbs| |intros i Hi; apply Hc; lia|].
  { assert (m * bs ≤ MaxTransferBytes) by (rewrite <-Hbl; unfold bl; case_test; lia). rewrite Ht.
    destruct uint_bits_cases as [-> | ->]; unfold MaxTransferBytes in *; lia. }
  rewrite HW, Hbs in *. destruct r as [[]|msg| |]; [| |done..].
  2: { exists c1, (Err msg). split_and!; [done|done|done|]. destruct Hres as (k & Hk & Hres).
       exists k. split; [lia|]. intros i. rewrite Hres. rewrite <-(ztake_zdrop b bl) at 2.
       apply (store_chunk bs m); [lia|done|rewrite Hd; apply Z.mod_mul; lia|lia]. }
  rewrite Hbl, Z.div_mul by lia. rewrite to_uint_small, uadd_small by lia. rewrite <-Hbl.
  destruct (IH (lba + m) (zdrop bl b) (n - m) c1) as (c2 & r & HW2 & Hwf2 & Hbs2 & Hres2);
    [done|done|done|done|lia|lia| |].
  { intros i Hi. rewrite Hres. rewrite store_out by lia. apply Hc. lia. }
  exists c2, r. split_and!; [done|done|done|].
  assert (∀ k i, 0 ≤ k → store bs (lba + m) (zdrop bl b) k (card_contents c1) i =
                store bs lba b (m + k) (card_contents c) i) as Happ.
  { intros k i Hk. rewrite <-(ztake_zdrop b bl) at 2.
    rewrite <-(store_app bs m) by (done || lia || (rewrite Hd; apply Z.mod_mul; lia)).
    unfold store at 1 2. case_decide; [done|]. apply Hres. }
  destruct r as [[]|msg| |]; [| |done..].
  - intros i. rewrite Hres2, Happ by lia. f_equal. lia.
  - destruct Hres2 as (k & Hk & Hres2). exists (m + k). split; [lia|]. intros i.
    rewrite Hres2. apply Happ. lia.
Qed.

Lemma padded_by_code bs b :
  0 < bs →
  (if len b mod bs =? 0 then b else b ++ replicate (Z.to_nat (bs - len b mod bs)) x00) = pad bs b.
Proof.
  intros Hbs. unfold pad. pose proof (nblocks_bounds bs Hbs (len b)).
  pose proof (Z.div_mod (len b) bs ltac:(lia)) as Hdm. pose proof (Z.mod_pos_bound (len b) bs Hbs) as Hm.
  remember (len b mod bs) as r. remember (len b / bs) as q. case_test.
  - assert (nblocks bs (len b) = q) as -> by nia.
    replace (q * bs - len b) with 0 by lia. symmetry. apply app_nil_r.
  - assert (nblocks bs (len b) = q + 1) as -> by nia. do 3 f_equal. lia.
Qed.

(** A chunk of a buffer of [n] blocks is a whole number of blocks. *)
Lemma chunk_blocks bs l n :
  0 < bs → MaxTransferBytes mod bs = 0 → l = Z.of_nat n * bs → 0 < l →
  ∃ m, (if MaxTransferBytes <? l then MaxTransferBytes else l) = Z.of_nat m * bs ∧ 0 < Z.of_nat m ≤ Z.of_nat n.
Proof.
  intros Hpos Hmax -> Hl. apply Z.mod_divide in Hmax as [m Hm]; [|lia]. assert (MaxTransferBytes = 32768) by done.
  case_test.
  - exists (Z.to_nat m). nia.
  - exists n. nia.
Qed.

(** The read loop, into a buffer of a whole number of blocks. *)
Lemma read_chunks_spec fuel bs lba blks buf c :
  card_wf c → card_BlockSize c = bs → MaxTransferBytes mod bs = 0 →
  len buf = len blks * bs → len buf ≤ Z.of_nat fuel →
  (∀ j b, blks !! j = Some b → card_contents c (lba + Z.of_nat j) = Some b) →
  read_chunks fuel bs lba buf c = Ok (concat blks).
Proof.
  intros Hwf Hbs Hmax. pose proof (card_bs_pos _ Hwf) as Hpos. rewrite Hbs in Hpos.
  revert lba blks buf. induction fuel as [|fuel IH]; intros lba blks buf Hlen Hf Hc;
    pose proof (len_nonneg buf); cbn [read_chunks];
    (case_test; [destruct blks; [done|unfold len in *; cbn [length] in *; nia]|]).
  { lia. }
  set (bl := if MaxTransferBytes <? len buf then MaxTransferBytes else len buf).
  destruct (chunk_blocks bs (len buf) (length blks)) as (m & Hbl & Hm); [lia|done|unfold len in *; lia|lia|]. fold bl in Hbl. change (Z.of_nat (length blks)) with (len blks) in Hm.
  assert (bl ≤ len buf) by nia.
  assert (∀ j, (j < length blks)%nat → ∃ b, card_contents c (lba + Z.of_nat j) = Some b ∧ len b = bs) as Hblk.
  { intros j Hj. destruct (lookup_lt_is_Some_2 blks j Hj) as [b Hb]. exists b.
    rewrite (Hc _ _ Hb). split; [done|]. rewrite <-Hbs. eapply card_len; [done|by apply (Hc j)]. }
  destruct (Hblk 0%nat) as (b0 & Hb0 & _); [unfold len in *; lia|]. rewrite Z.add_0_r in Hb0.
  destruct (card_range _ _ Hwf (ex_intro _ _ Hb0)) as [Hr H63]. rewrite Hbs in H63.
  assert (to_int64 (lba * bs) = lba * bs) as ->.
  { unfold to_int64. rewrite wrap_small by nia. by rewrite (proj2 (Z.ltb_lt _ _)) by lia. }
  assert (length (take m blks) = m) as Htl by (rewrite length_take; unfold len in *; lia).
  assert (rpc_Read c (lba * bs) bl = Ok (concat (take m blks))) as ->.
  { rewrite Hbl, <-Hbs. replace (Z.of_nat m) with (len (take m blks)) by (unfold len; lia).
    apply rpc_Read_spec; [done|by intros Heq; rewrite Heq in Htl; cbn in Htl; lia|].
    intros j b Hj. apply Hc. by apply lookup_take_Some in Hj as []. }
  assert (len (concat (take m blks)) = bl) as Hcl.
  { rewrite (len_concat_blocks_of bs), Hbl; [unfold len; by rewrite Htl|].
    apply Forall_lookup. intros j b Hj. apply lookup_take_Some in Hj as [Hj _].
    rewrite <-Hbs. eapply card_len; [done|by apply (Hc j)]. }
  cbn [mbind res_bind]. rewrite (proj2 (Z.eqb_neq bs 0)) by lia.
  assert (ztake bl (copy_at 0 buf (concat (take m blks))) = concat (take m blks)) as ->
    by (rewrite <-Hcl at 1; apply copy_front; lia).
  rewrite Hbl, Z.div_mul by lia. rewrite <-Hbl.
  assert (lba + len blks ≤ 2 ^ (uint_bits - 1)) as Hend.
  { destruct (Hblk (length blks - 1)%nat) as (b1 & Hb1 & _); [unfold len in *; lia|].
    destruct (card_range _ _ Hwf (ex_intro _ _ Hb1)) as [? _]. unfold len in *. lia. }
  pose proof uint_half. rewrite to_uint_small, uadd_small by lia.
  rewrite (IH (lba + Z.of_nat m) (drop m blks)).
  - cbn. rewrite <-concat_app. by rewrite take_drop.
  - rewrite len_drop by lia. unfold len in *. rewrite length_copy_at, length_drop. nia.
  - rewrite len_drop by lia. unfold len in *. rewrite length_copy_at. lia.
  - intros j b Hj. rewrite lookup_drop in Hj. apply Hc in Hj. rewrite <-Hj. f_equal. lia.
Qed.

Lemma mmc_ReadBlocks_many d lba buf blks :
  mmc_wf d → len buf = len blks * BlockSize d →
  (∀ j b, blks !! j = Some b → mmc_contents d (lba + Z.of_nat j) = Some b) →
  mmc_ReadBlocks d lba buf = Ok (concat blks).
Proof.
  intros Hd Hbuf Hc. destruct (mmc_bs d Hd) as (Ebs & Eint & Hpos & Hle). destruct Hd as (Hwf & Hcb & Hmax).
  rewrite Ebs in Hbuf. unfold mmc_ReadBlocks. change (mmc_BlockSize d) with (BlockSize d). rewrite Eint.
  case_test.
  - destruct buf; [|unfold len in E; cbn in E; lia]. destruct blks; [done|].
    unfold len in Hbuf. cbn [length] in Hbuf. nia.
  - apply read_chunks_spec; done || (unfold len; lia).
Qed.

Lemma mmc_ReadBlocks_spec d lba buf b :
  mmc_wf d → mmc_contents d lba = Some b → len buf = BlockSize d → mmc_ReadBlocks d lba buf = Ok b.
Proof.
  intros Hd Hb Hbuf. rewrite (mmc_ReadBlocks_many d lba buf [b] Hd).
  - cbn. by rewrite app_nil_r.
  - unfold len at 2. cbn [length]. lia.
  - intros j x Hj. apply list_lookup_singleton_Some in Hj as [-> <-]. by rewrite Z.add_0_r.
Qed.

Lemma mmc_WriteBlocks_spec d lba b :
  mmc_wf d → 0 < len b → 0 ≤ lba →
  nblocks (BlockSize d) (len b) * BlockSize d < 2 ^ (uint_bits - 1) →
  (∀ i, lba ≤ i < lba + nblocks (BlockSize d) (len b) → is_Some (mmc_contents d i)) →
  ∃ d' r, mmc_WriteBlocks d lba b = (d', r) ∧ mmc_wf d' ∧ BlockSize d' = BlockSize d ∧
    match r with
    | Ok n => n = nblocks (BlockSize d) (len b) ∧
              ∀ i, mmc_contents d' i = store (BlockSize d) lba b n (mmc_contents d) i
    | Err _ => ∃ k, 0 ≤ k ≤ nblocks (BlockSize d) (len b) ∧
              ∀ i, mmc_contents d' i = store (BlockSize d) lba b k (mmc_contents d) i
    | _ => False
    end.
Proof.
  intros Hd Hb Hlba Hn Hc. destruct (mmc_bs d Hd) as (Ebs & Eint & Hpos & Hle).
  destruct Hd as (Hwf & Hcb & Hmax). pose proof uint_half.
  unfold mmc_WriteBlocks. change (mmc_BlockSize d) with (BlockSize d). rewrite Eint, Ebs in *.
  set (bs := CardInfo_BlockSize d) in *. rewrite (proj2 (Z.eqb_neq _ _)) by lia.
  rewrite (proj2 (Z.eqb_neq bs 0)) by lia. rewrite padded_by_code by lia.
  pose proof (len_pad bs ltac:(lia) b) as Hlp. pose proof (nblocks_pos bs ltac:(lia) _ Hb).
  destruct (write_chunks_spec (length (pad bs b)) bs lba (pad bs b) (nblocks bs (len b)) (card d))
    as (c' & r & -> & Hwf' & Hbs' & Hr); [done|done|done|done|done|unfold len; lia|done|].
  rewrite Hlp, Z.div_mul by lia. rewrite to_uint_small by nia.
  eexists (mkDevice bs c'), _. split; [done|].
  assert (mmc_wf (mkDevice bs c')) as Hd' by done.
  destruct (mmc_bs _ Hd') as [-> _]. split_and!; [done|done|].
  assert (∀ k c i, store bs lba (pad bs b) k c i = store bs lba b k c i) as Hpad
    by (intros; unfold store, blk; by rewrite pad_pad by lia).
  destruct r as [[]|msg| |]; [| |done..]; cbn [mbind res_bind mret res_ret].
  - split; [done|]. intros i. rewrite <-Hpad. apply Hr.
  - destruct Hr as (k & Hk & Hr). exists k. split; [done|]. intros i. rewrite <-Hpad. apply Hr.
Qed.

Lemma mmc_BlockSize_pos d : mmc_wf d → 0 < BlockSize d.
Proof. intros Hd. destruct (mmc_bs d Hd) as (-> & _ & ? & _). lia. Qed.

Lemma mmc_contents_len d i b : mmc_wf d → mmc_contents d i = Some b → len b = BlockSize d.
Proof.
  intros Hd Hb. destruct (mmc_bs d Hd) as (-> & _). destruct Hd as (Hwf & -> & _).
  by eapply card_len.
Qed.

#[export] Instance mmc_device : BlockDevice (Device C) := {
  contents := mmc_contents;
  dev_wf := mmc_wf;
  BlockSize_pos := mmc_BlockSize_pos;
  contents_len := mmc_contents_len;
  ReadBlocks_spec := mmc_ReadBlocks_spec;
  WriteBlocks_spec := mmc_WriteBlocks_spec;
}.

(** C22 Transfers in chunks: what [WriteBlocks] reports as written is read
    back, as one transfer of any size, padded with zeroes to whole blocks,
    and the blocks around it are as before; for every card that stores the
    blocks it acknowledges and a block size that divides the chunk size. *)
Theorem mmc_write_read (d d' : Device C) (lba n : Z) (b : bytes) :
  mmc_wf d → 0 < len b → 0 ≤ lba →
  nblocks (BlockSize d) (len b) * BlockSize d < 2 ^ (uint_bits - 1) →
  (∀ i, lba ≤ i < lba + nblocks (BlockSize d) (len b) → is_Some (mmc_contents d i)) →
  mmc_WriteBlocks d lba b = (d', Ok n) →
  n = nblocks (BlockSize d) (len b) ∧
  (∀ buf, len buf = n * BlockSize d → mmc_ReadBlocks d' lba buf = Ok (pad (BlockSize d) b)) ∧
  (∀ i, ¬ (lba ≤ i < lba + n) → mmc_contents d' i = mmc_contents d i).
Proof.
  intros Hd Hb Hlba Hn Hc HW. pose proof (mmc_BlockSize_pos d Hd) as Hbs.
  destruct (mmc_WriteBlocks_spec d lba b Hd Hb Hlba Hn Hc) as (d1 & r & HW1 & Hd1 & Hbs1 & Hr).
  rewrite HW in HW1. injection HW1 as <- <-. destruct Hr as [-> Hr]. split_and!; [done| |].
  - intros buf Hbuf. pose proof (nblocks_pos _ Hbs _ Hb).
    change (pad (BlockSize d) b) with (zdrop (0 * BlockSize d) (pad (BlockSize d) b)).
    rewrite <-(concat_blks_from (BlockSize d) Hbs b 0 (Z.to_nat (nblocks (BlockSize d) (len b)))) by lia.
    apply mmc_ReadBlocks_many; [done| |].
    + rewrite Hbs1, Hbuf. remember (nblocks (BlockSize d) (len b)) as nb.
      f_equal. unfold len. rewrite length_fmap, length_seq. lia.
    + intros j x Hj. apply list_lookup_fmap_Some in Hj as (y & -> & Hy). apply lookup_seq in Hy as [-> Hj].
      rewrite Hr, store_in by lia. do 2 f_equal. lia.
  - intros i Hi. rewrite Hr. by apply store_out.
Qed.
End Spec.
End Mmc.
