(* ===== verification/OpenStorage.v ===== *)
(** * The deployed storage (trusted_applet/main.go, [openStorage])

    The partition the applet opens on the card: its constants, the loop that
    cuts it into slots, and that on the 32-bit device every slot meets the
    conditions under which the journal is proved to work.  Also a card on
    which the theorems of [Mmc] are instantiated. *)

From S2P Require Import Prelude BlockDev MemDev Entry Journal JournalInv Slots SlotsSpec SlotsProps Mmc.
Import MemDev Entry JournalInv Slots SlotsSpec SlotsProps Mmc.

Module OpenStorage.

Definition slotsPartitionStartBlock : Z := 0x400000.
Definition slotsPartitionLengthBlocks : Z := 0x400000.
Definition slotSizeBytes : Z := Z.shiftl 512 10.

Section OpenStorage.
Context `{P : Platform} `{K : !Card C}.

(** The loop [for i := uint(0); i < length; i += sl]; it ends only if [sl] is
    positive and the counter does not wrap. *)
Fixpoint slot_lengths (fuel : nat) (length sl i : Z) : res (list Z) :=
  if i <? length then
    match fuel with
    | O => NoFuel
    | S fuel' => rest ← slot_lengths fuel' length sl (i +ᵤ sl); mret (sl :: rest)
    end
  else Ok [].

(** [card_info] is the answer to RPC.CardInfo; the calls of [klog.Exitf] end
    the process with the error. *)
Definition openStorage (card_info : res (Device C)) : res (Partition (Device C)) :=
  match card_info with
  | Ok dev =>
    let bs := BlockSize dev in
    if bs =? 0 then Panic "integer divide by zero"
    else
      let sl := slotSizeBytes / bs in
      ls ← slot_lengths (Z.to_nat slotsPartitionLengthBlocks) slotsPartitionLengthBlocks sl 0;
      match OpenPartition dev (mkGeometry slotsPartitionStartBlock slotsPartitionLengthBlocks ls) with
      | Err _ => Err "Failed to open partition"
      | r => r
      end
  | Err _ => Err "Failed to get cardinfo"
  | Panic e => Panic e
  | NoFuel => NoFuel
  end.

(** The slots of a card with 512-byte blocks. *)
Definition deployed_lengths : list Z := replicate 4096 1024.

Lemma slot_lengths_count n fuel sl i len :
  0 < sl → 0 ≤ i → i + Z.of_nat n * sl = len → len + sl < 2 ^ uint_bits → (n ≤ fuel)%nat →
  slot_lengths fuel len sl i = Ok (replicate n sl).
Proof.
  revert fuel i. induction n as [|n IH]; intros fuel i Hsl Hi Hlen Hmax Hf.
  - destruct fuel; cbn [slot_lengths]; by rewrite (proj2 (Z.ltb_ge _ _)) by lia.
  - destruct fuel as [|fuel]; [lia|]. cbn [slot_lengths].
    rewrite (proj2 (Z.ltb_lt _ _)) by nia. rewrite uadd_small by nia.
    by rewrite (IH fuel (i + sl)) by lia.
Qed.

Lemma deployed_slot_lengths :
  slot_lengths (Z.to_nat slotsPartitionLengthBlocks) slotsPartitionLengthBlocks 1024 0 = Ok deployed_lengths.
Proof.
  apply (slot_lengths_count 4096); [lia|lia|reflexivity| |].
  - unfold slotsPartitionLengthBlocks. destruct uint_bits_cases as [-> | ->]; reflexivity.
  - unfold slotsPartitionLengthBlocks. lia.
Qed.

Lemma sum_replicate n x : sum (replicate n x) = Z.of_nat n * x.
Proof.
  induction n as [|n IH]; [done|]. change (replicate (S n) x) with (x :: replicate n x).
  rewrite sum_cons, IH. lia.
Qed.

Lemma openStorage_512 (dev : Device C) :
  CardInfo_BlockSize dev = 512 →
  openStorage (Ok dev) =
  match OpenPartition dev
          (mkGeometry slotsPartitionStartBlock slotsPartitionLengthBlocks deployed_lengths) with
  | Err _ => Err "Failed to open partition"
  | r => r
  end.
Proof.
  intros Hbs. unfold openStorage. cbn [BlockSize mmc_rw]. unfold mmc_BlockSize. rewrite Hbs.
  rewrite to_uint_small by (destruct uint_bits_cases as [-> | ->]; lia). cbn [Z.eqb].
  change (slotSizeBytes / 512) with 1024. rewrite deployed_slot_lengths. reflexivity.
Qed.
End OpenStorage.

Lemma deployed_open `{K : !Card C} (dev : Device C) :
  CardInfo_BlockSize dev = 512 →
  ∃ p, @openStorage arm C K (Ok dev) = Ok p ∧ p_dev p = dev ∧ length (p_slots p) = 4096%nat ∧
    (∀ i s, p_slots p !! i = Some s →
       s_start s = 0x400000 + 1024 * Z.of_nat i ∧ s_length s = 1024 ∧ s_journal s = None ∧
       @geometry_ok arm 512 (s_start s) (s_length s) ∧ (s_start s + s_length s) * 512 ≤ 2 ^ 32) ∧
    (∃ s, p_slots p !! 4095%nat = Some s ∧ (s_start s + s_length s) * 512 = 2 ^ 32).
Proof.
  intros Hbs. set (geo := mkGeometry slotsPartitionStartBlock slotsPartitionLengthBlocks deployed_lengths).
  pose proof (partition_layout (P:=arm) (D:=Device C) dev geo) as Hlay.
  rewrite (openStorage_512 (P:=arm) dev Hbs). fold geo.
  assert (sum deployed_lengths = 4194304) as Hsum by (unfold deployed_lengths; by rewrite sum_replicate).
  unfold geo in Hlay. cbn [gStart gLength SlotLengths] in Hlay. rewrite Hsum in Hlay. fold geo in Hlay.
  specialize (Hlay ltac:(by apply Forall_replicate) ltac:(done) ltac:(done) ltac:(done)).
  destruct (OpenPartition (P:=arm) dev geo) as [p|msg| |]; [| |by destruct Hlay..].
  2: { exfalso. unfold slotsPartitionLengthBlocks in Hlay. lia. }
  unfold laid_out, geo in Hlay. cbn [gStart gLength SlotLengths] in Hlay.
  destruct Hlay as (Hdev & Hls & _ & Hslots). exists p.
  assert (∀ i s, p_slots p !! i = Some s → (i < 4096)%nat ∧ s_length s = 1024 ∧
    s_start s = 0x400000 + 1024 * Z.of_nat i) as Hs.
  { intros i s Hi. assert (deployed_lengths !! i = Some (s_length s)) as Hl
      by (rewrite <-Hls, list_lookup_fmap, Hi; done).
    apply lookup_replicate in Hl as [Hl Hlt]. destruct (Hslots i s Hi) as (_ & -> & _).
    unfold deployed_lengths. rewrite take_replicate, sum_replicate, Nat.min_l by lia.
    split_and!; [done|done|]. unfold slotsPartitionStartBlock. lia. }
  assert (length (p_slots p) = 4096%nat) as Hlen
    by (rewrite <-(length_fmap s_length), Hls; apply length_replicate).
  split_and!; [done|done|done| |].
  - intros i s Hi. destruct (Hs i s Hi) as (Hlt & -> & ->). destruct (Hslots i s Hi) as (Hj & _).
    split_and!; [done|done|done| |lia]. split; cbn; unfold entryHeaderSize; lia.
  - destruct (lookup_lt_is_Some_2 (p_slots p) 4095) as [s Hi]; [lia|]. exists s. split; [done|].
    destruct (Hs _ _ Hi) as (_ & -> & ->). done.
Qed.

(** The deployed storage: on a card with 512-byte blocks the 32-bit applet
    opens a partition of 4096 slots of 1024 blocks, one after the other from
    block 0x400000 on.  All of them meet the conditions of the journal, up to
    the last one, which ends at the last byte a 32-bit [uint] can address. *)
Theorem deployed_partition `{K : !Card C} (dev : Device C) :
  CardInfo_BlockSize dev = 512 →
  ∃ p, @openStorage arm C K (Ok dev) = Ok p ∧ p_dev p = dev ∧ length (p_slots p) = 4096%nat ∧
    (∀ i s, p_slots p !! i = Some s →
       s_start s = 0x400000 + 1024 * Z.of_nat i ∧ s_length s = 1024 ∧ s_journal s = None ∧
       @geometry_ok arm 512 (s_start s) (s_length s) ∧ (s_start s + s_length s) * 512 ≤ 2 ^ 32) ∧
    (∃ s, p_slots p !! 4095%nat = Some s ∧ (s_start s + s_length s) * 512 = 2 ^ 32).
Proof. apply deployed_open. Qed.

(** ** A card *)

Section MemCard.
Context `{P : Platform}.

(** A card with the blocks of a [MemDev]. *)
Record memcard := MC { mc_dev : MemDev }.

#[export] Instance memcard_card : Card memcard := {
  card_BlockSize _ := 512;
  rpc_WriteBlocks c lba data :=
    let '(md, r) := md_WriteBlocks (mc_dev c) lba data in (MC md, _ ← r; mret ());
  rpc_Read c off size :=
    if off + size <=? len (Storage (mc_dev c)) * 512
    then Ok (concat (ztake (size / 512) (zdrop (off / 512) (Storage (mc_dev c)))))
    else Err "read out of range";
}.

Definition mc_wf (c : memcard) : Prop :=
  md_wf (mc_dev c) ∧ len (Storage (mc_dev c)) * 512 < 2 ^ 62.

Lemma mc_Read_spec (c : memcard) i blks :
  mc_wf c → blks ≠ [] →
  (∀ j b, blks !! j = Some b → md_contents (mc_dev c) (i + Z.of_nat j) = Some b) →
  rpc_Read c (i * 512) (len blks * 512) = Ok (concat blks).
Proof.
  intros [_ Hmax] Hne Hc. cbn [rpc_Read memcard_card].
  assert (0 ≤ i ∧ i + len blks ≤ len (Storage (mc_dev c))) as [Hi Hend].
  { destruct blks as [|b blks]; [done|]. split.
    - specialize (Hc 0%nat b eq_refl). apply md_contents_lt in Hc. lia.
    - destruct (lookup_lt_is_Some_2 (b :: blks) (length blks)) as [x Hx]; [cbn; lia|].
      apply Hc, md_contents_lt in Hx. unfold len at 1. cbn [length]. lia. }
  rewrite (proj2 (Z.leb_le _ _)) by lia. rewrite !Z.div_mul by done. do 2 f_equal.
  apply list_eq. intros j. unfold ztake, zdrop. rewrite lookup_take, lookup_drop.
  case_decide as Hj.
  - destruct (blks !! j) as [b|] eqn:Hb.
    + specialize (Hc j b Hb). unfold md_contents in Hc. rewrite (proj2 (Z.ltb_ge _ _)) in Hc by lia.
      rewrite <-Hc. f_equal. lia.
    + apply lookup_ge_None in Hb. unfold len in *. lia.
  - symmetry. apply lookup_ge_None. unfold len in *. lia.
Qed.

Lemma mc_Write_spec (c : memcard) lba n data :
  mc_wf c → 0 < n → len data = n * 512 → len data < 2 ^ (uint_bits - 1) →
  (∀ i, lba ≤ i < lba + n → is_Some (md_contents (mc_dev c) i)) →
  ∃ c' r, rpc_WriteBlocks c lba data = (c', r) ∧ mc_wf c' ∧ 512 = 512 ∧
    match r with
    | Ok _ => ∀ i, md_contents (mc_dev c') i = store 512 lba data n (md_contents (mc_dev c)) i
    | Err _ => ∃ k, 0 ≤ k ≤ n ∧
        ∀ i, md_contents (mc_dev c') i = store 512 lba data k (md_contents (mc_dev c)) i
    | _ => False
    end.
Proof.
  intros [Hwf Hmax] Hn Hlen Hint Hc.
  assert (nblocks 512 (len data) = n) as Hnb by (rewrite Hlen; by apply nblocks_mul).
  destruct (Hc lba ltac:(lia)) as [b0 Hb0]. apply md_contents_lt in Hb0.
  destruct (Hc (lba + n - 1) ltac:(lia)) as [b1 Hb1]. apply md_contents_lt in Hb1.
  assert (MemBlockSize = 512) as E512 by done.
  destruct (md_WriteBlocks_spec (mc_dev c) lba data Hwf) as (d' & HW & Hwf' & Hl & Hr);
    rewrite ?E512, ?Hnb; [lia|lia|lia|exact Hc|].
  rewrite E512, Hnb in *.
  exists (MC d'), (Ok ()). split_and!; [cbn; by rewrite HW|split; cbn; [done|lia]|done|exact Hr].
Qed.

Lemma mc_bs (c : memcard) : mc_wf c → 0 < card_BlockSize c < 2 ^ (uint_bits - 1).
Proof. intros _. cbn [card_BlockSize memcard_card]. destruct uint_bits_cases as [-> | ->]; lia. Qed.

Lemma mc_len (c : memcard) i b : mc_wf c → md_contents (mc_dev c) i = Some b → len b = card_BlockSize c.
Proof.
  intros [[Hall _] _] Hb. unfold md_contents in Hb. destruct (i <? 0); [done|].
  exact (Forall_lookup_1 _ _ _ _ Hall Hb).
Qed.

Lemma mc_range (c : memcard) i : mc_wf c → is_Some (md_contents (mc_dev c) i) →
  0 ≤ i < 2 ^ (uint_bits - 1) ∧ i * card_BlockSize c < 2 ^ 63.
Proof. intros [(_ & _ & Hn) Hmax] Hi%md_contents_is_Some. cbn [card_BlockSize memcard_card]. lia. Qed.

#[export] Instance memcard_spec : CardSpec memcard := {
  card_contents c := md_contents (mc_dev c);
  card_wf := mc_wf;
  card_bs_pos := mc_bs;
  card_len := mc_len;
  card_range := mc_range;
  rpc_Read_spec := mc_Read_spec;
  rpc_WriteBlocks_spec := mc_Write_spec;
}.

End MemCard.

#[local] Existing Instance amd64.

Definition card0 : Device memcard := mkDevice 512 (MC (NewMemDev 80)).

Lemma card0_wf : mmc_wf card0.
Proof. split_and!; [split; [by apply NewMemDev_wf|done]|done|done]. Qed.

(** A transfer of two chunks. *)
Definition long_data : bytes := replicate (Z.to_nat 33000) xaa.

Lemma mmc_write_read_witness :
  ∃ d', mmc_WriteBlocks card0 3 long_data = (d', Ok 65) ∧
    mmc_ReadBlocks d' 3 (replicate (Z.to_nat (65 * 512)) x00) = Ok (pad (BlockSize card0) long_data).
Proof.
  destruct (mmc_WriteBlocks card0 3 long_data) as [d' r] eqn:HW.
  assert ((mmc_WriteBlocks card0 3 long_data).2 = Ok 65) as Hr by (vm_compute; reflexivity).
  rewrite HW in Hr. cbn in Hr. subst r. exists d'. split; [reflexivity|].
  assert (nblocks (BlockSize card0) (len long_data) = 65) as Hn by (vm_compute; reflexivity).
  destruct (mmc_write_read card0 d' 3 65 long_data) as (_ & Hread & _).
  - exact card0_wf.
  - vm_compute. reflexivity.
  - lia.
  - rewrite Hn. vm_compute. reflexivity.
  - intros i Hi. rewrite Hn in Hi. apply md_contents_is_Some. change (len (Storage (mc_dev (card card0)))) with 80. lia.
  - exact HW.
  - apply Hread. vm_compute. reflexivity.
Defined.

Lemma deployed_partition_witness :
  ∃ p, openStorage (P:=arm) (Ok card0) = Ok p ∧ length (p_slots p) = 4096%nat.
Proof.
  destruct (deployed_partition card0) as (p & Hp & _ & Hn & _).
  - reflexivity.
  - exists p. split; [exact Hp|exact Hn].
Defined.
End OpenStorage.
