(* ===== verification/Deployed.v ===== *)
(** * The deployed witness storage

    The parts of the storage put together as [main] does it: the partition
    that [openStorage] cuts out of the card, the journals in its slots and the
    persistence layer on top of them, on the 32-bit device, from the first
    boot with an empty card on. *)

From S2P Require Import Prelude BlockDev MemDev Entry Journal JournalInv Slots SlotStore SlotsSpec SlotsProps SlotsCrash.
From S2P Require Import SlotsSingle Persistence PersistenceImage PersistenceSpec PersistenceProps PersistenceCrash.
From S2P Require Import PersistenceLife PersistenceSingle Mmc OpenStorage.
Import MemDev Entry JournalInv Slots SlotsSpec SlotsProps SlotsCrash SlotsSingle Mmc OpenStorage.
Import Persistence PersistenceImage PersistenceSpec PersistenceProps PersistenceCrash PersistenceLife PersistenceSingle.

Module Deployed.

#[local] Existing Instance arm.

(** The blocks of the partition are zero, as on a new card. *)
Definition empty_card `{K : !Card C} `{KS : !CardSpec C} (dev : Device C) : Prop :=
  mmc_wf dev ∧ CardInfo_BlockSize dev = 512 ∧
  ∀ i, slotsPartitionStartBlock ≤ i < slotsPartitionStartBlock + slotsPartitionLengthBlocks →
    mmc_contents dev i = Some (replicate 512 x00).

Definition empty_registers : list reg := replicate 4096 ([], 0).

Lemma empty_image `{X : !Externals} `{XS : !ExternalsSpec} : image_ok empty_registers ∅.
Proof.
  split.
  - split; intros k; intros *; by rewrite lookup_empty.
  - exists [], 0. split; [done|by left].
  - intros v Hv _. exists 0. apply lookup_replicate. split; [done|]. change (len empty_registers) with 4096 in Hv. lia.
  - intros k v b t. by rewrite lookup_empty.
Qed.

Lemma empty_revisions : revisions_le empty_registers 0.
Proof. by intros i b t [[= _ ->] _]%lookup_replicate. Qed.

Section Deployed.
Context `{K : !Card C} `{KS : !CardSpec C} `{X : !Externals} `{XS : !ExternalsSpec}.

(** The partition as it is opened the first time. *)
Lemma first_open dev :
  empty_card dev →
  ∃ p, openStorage (Ok dev) = Ok p ∧ part_holds p empty_registers ∧ single_holds 512 p empty_registers ∧ reopened p = p.
Proof.
  intros (Hwf & Hbs & Hz). destruct (deployed_open dev Hbs) as (p & HO & Hdev & Hn & Hs & _).
  assert (BlockSize dev = 512) as Hb by (destruct (mmc_bs dev Hwf) as [-> _]; done).
  assert (∀ i s, p_slots p !! i = Some s → ∀ a, s_start s ≤ a < s_start s + s_length s →
    contents dev a = Some (replicate 512 x00)) as Hzero.
  { intros i s Hi a Ha. destruct (Hs _ _ Hi) as (Hst & HL & _ & G & Hend). apply lookup_lt_Some in Hi. apply Hz.
    unfold slotsPartitionStartBlock, slotsPartitionLengthBlocks. lia. }
  assert (part_holds p empty_registers) as Hp.
  { split.
    - by rewrite Hdev.
    - unfold len. rewrite Hn. cbn. lia.
    - intros a b sa sb Ha Hb' Hab. destruct (Hs _ _ Ha) as (-> & -> & _). destruct (Hs _ _ Hb') as (-> & -> & _). lia.
    - rewrite Hdev. apply Forall2_replicate_r; [done|]. apply Forall_lookup_2. intros i s Hi.
      destruct (Hs _ _ Hi) as (_ & _ & Hj & G & _).
      apply zeroes_read; rewrite ?Hb; [done|done|]. by apply (Hzero i). }
  exists p. split_and!; [done|done| |].
  - split; [done|by rewrite Hdev| |].
    + intros k s Hk. destruct (Hs _ _ Hk) as (_ & -> & _). done.
    + intros k s Hk _. destruct (Hs _ _ Hk) as (_ & _ & _ & G & _). rewrite Hdev.
      eexists (λ _, None), _, [], _. split; [done|]. rewrite Hb.
      apply zeroes_layout; [done|]. by apply (Hzero k).
  - unfold reopened. destruct p as [d sl]. cbn in *. f_equal.
    apply list_eq. intros i. rewrite list_lookup_fmap. destruct (sl !! i) as [s|] eqn:Hi; [|done]. cbn. f_equal.
    destruct (Hs _ _ Hi) as (_ & _ & Hj & _). unfold closed. destruct s. cbn in *. by subst.
Qed.

(** The first boot. *)
Lemma deployed_boot dev :
  empty_card dev →
  ∃ p q, openStorage (Ok dev) = Ok p ∧ Init (NewSlotPersistence p) = (q, Ok ()) ∧
    (∀ o, latest o q = None) ∧ durable q empty_registers.
Proof.
  intros (p & HO & Hp & _ & Hre)%first_open.
  destruct (image_boot p empty_registers ∅) as (q & HI & Hok & Hst & Hhl & Hid);
    [cbn; by rewrite Hre|exact empty_image|].
  cbn in HI. rewrite Hre in HI. exists p, q. split_and!; [done|done| |by split].
  intros o. rewrite (latest_view q _ o Hok). unfold view, shows. by rewrite Hid, lookup_empty.
Qed.

(** ** Records of one block *)

#[local] Instance card_store : SlotStore (Partition (Device C)) := blocks_store 512.
#[local] Instance card_restart : RestartStore (Partition (Device C)) := blocks_restart 512.

Lemma deployed_blocks dev :
  empty_card dev →
  ∃ p q, openStorage (Ok dev) = Ok p ∧ Init (NewSlotPersistence p) = (q, Ok ()) ∧
    (∀ k, view q empty_registers k = None) ∧ durable q empty_registers.
Proof.
  intros (p & HO & _ & Hp & Hre)%first_open.
  destruct (image_boot p empty_registers ∅) as (q & HI & Hok & Hst & Hhl & Hid);
    [cbn; by rewrite Hre|exact empty_image|].
  cbn in HI. rewrite Hre in HI. exists p, q. split_and!; [done|done| |by split].
  intros k. unfold view, shows. by rewrite Hid, lookup_empty.
Qed.

(** C2 The deployed storage from the first boot on.  On the 32-bit device, with
    a card of 512-byte blocks whose partition is still zero, [openStorage]
    opens the partition and [Init] the persistence layer, and no log has a
    checkpoint.  From there take a sequence of updates, reads, restarts, and
    updates during which power is lost or the card fails, within these limits
    ([within_blocks]): every record, of a checkpoint and of the directory,
    fits one block with its header; no revision reaches 2^32; and an update
    that fails in the storage is followed by a restart before the process is
    used again.  The card stores each block whole or not at all, the blocks
    of a write in order, and otherwise keeps what it has ([CardSpec]).  Then
    the persistence layer on the journals in the slots of the partition on the
    card behaves as a map from logs to checkpoints that starts empty: an
    acknowledged update is final, a refused one does nothing, an interrupted
    one happened or did not.  Nothing is assumed of checksums or of the
    contents of the data. *)
Theorem deployed_life (dev : Device C) :
  empty_card dev →
  ∃ p q, openStorage (Ok dev) = Ok p ∧ Init (NewSlotPersistence p) = (q, Ok ()) ∧
    (∀ o, latest o q = None) ∧
    ∀ l q', life q l q' → within_blocks 512 q l →
      ∃ v, map_run (λ _, None) l v ∧ ∀ o, latest o q' = v (logfmt_ID o).
Proof.
  intros (p & q & HO & HI & Hview & Hd)%deployed_blocks. exists p, q.
  split_and!; [done|done|intros o; by rewrite (latest_view q _ o (du_state _ _ Hd))|].
  intros l q' Hl Hb. destruct (single_life 512 q empty_registers l q' Hd Hl Hb) as (v & rs' & Hr & _ & Hv).
  destruct (map_run_ext _ (λ _, None) _ _ (λ k, eq_sym (Hview k)) Hr) as (w & Hw & Hwv). exists w.
  split; [done|]. intros o. by rewrite Hv, Hwv.
Qed.
End Deployed.
End Deployed.
