(* ===== verification/DeployedDemo.v ===== *)
(** * A card that loses power

    A card of which only the blocks that have been written are kept, and which
    stores a given number of blocks before power is lost.  On it a new unit
    stores a checkpoint and loses power during the next update: the instance
    of [deployed_life] there. *)

From S2P Require Import Prelude BlockDev Entry Slots SlotStore SlotsSpec SlotsCrash SlotsSingle Persistence.
From S2P Require Import PersistenceSpec PersistenceProps PersistenceDemo PersistenceCrash PersistenceLife.
From S2P Require Import PersistenceSingle Mmc OpenStorage Deployed.
Import Entry Slots SlotsSpec SlotsCrash Persistence PersistenceSpec PersistenceProps PersistenceDemo.
Import PersistenceCrash PersistenceLife PersistenceSingle Mmc OpenStorage Deployed.

Module DeployedDemo.

#[local] Existing Instance arm.

(** ** The card *)

Record powercard := mkPC {
  pc_size : Z;
  pc_blocks : gmap Z bytes;
  (** The blocks that can still be stored. *)
  pc_left : Z;
}.

Definition zero_block : bytes := replicate 512 x00.

Definition pc_contents (c : powercard) (i : Z) : option bytes :=
  if decide (0 ≤ i < pc_size c) then Some (default zero_block (pc_blocks c !! i)) else None.

(** The first [n] blocks of [data]. *)
Fixpoint put_blocks (n : nat) (lba : Z) (data : bytes) (m : gmap Z bytes) : gmap Z bytes :=
  match n with
  | O => m
  | S n' => <[lba + Z.of_nat n' := blk 512 data (Z.of_nat n')]> (put_blocks n' lba data m)
  end.

#[export] Instance powercard_card : Card powercard := {
  card_BlockSize _ := 512;
  rpc_WriteBlocks c lba data :=
    let n := len data / 512 in
    let k := n `min` pc_left c in
    (mkPC (pc_size c) (put_blocks (Z.to_nat k) lba data (pc_blocks c)) (pc_left c - k),
     if n <=? k then Ok () else Err "power lost");
  rpc_Read c off size :=
    if (0 <=? off) && (off + size <=? pc_size c * 512)
    then Ok (concat ((λ j, default zero_block (pc_blocks c !! (off / 512 + Z.of_nat j))) <$> seq 0 (Z.to_nat (size / 512))))
    else Err "read out of range";
}.

Record pc_wf (c : powercard) : Prop := {
  pc_wf_size : pc_size c < 2 ^ 31;
  pc_wf_left : 0 ≤ pc_left c;
  pc_wf_blocks i b : pc_blocks c !! i = Some b → len b = 512;
}.

Lemma put_blocks_lookup n lba data m i :
  put_blocks n lba data m !! i =
  if decide (lba ≤ i < lba + Z.of_nat n) then Some (blk 512 data (i - lba)) else m !! i.
Proof.
  induction n as [|n IH]; cbn [put_blocks]; [by rewrite decide_False by lia|].
  destruct (decide (i = lba + Z.of_nat n)) as [->|Hne].
  - rewrite lookup_insert_eq, decide_True by lia. do 2 f_equal. lia.
  - rewrite lookup_insert_ne, IH by done. destruct (decide (lba ≤ i < lba + Z.of_nat n)).
    + by rewrite decide_True by lia.
    + by rewrite decide_False by lia.
Qed.

Lemma pc_len (c : powercard) i b : pc_wf c → pc_contents c i = Some b → len b = card_BlockSize c.
Proof.
  intros Hwf. unfold pc_contents. case_decide; [|done]. intros [= <-].
  destruct (pc_blocks c !! i) as [x|] eqn:E; [by eapply (pc_wf_blocks _ Hwf)|done].
Qed.

Lemma pc_range (c : powercard) i : pc_wf c → is_Some (pc_contents c i) →
  0 ≤ i < 2 ^ (uint_bits - 1) ∧ i * card_BlockSize c < 2 ^ 63.
Proof.
  intros Hwf [b Hb]. unfold pc_contents in Hb. case_decide; [|done]. pose proof (pc_wf_size _ Hwf).
  change (2 ^ (uint_bits - 1)) with (2 ^ 31). cbn [card_BlockSize powercard_card]. lia.
Qed.

Lemma pc_Read_spec (c : powercard) i blks :
  pc_wf c → blks ≠ [] →
  (∀ j b, blks !! j = Some b → pc_contents c (i + Z.of_nat j) = Some b) →
  rpc_Read c (i * 512) (len blks * 512) = Ok (concat blks).
Proof.
  intros Hwf Hne Hc. cbn [rpc_Read powercard_card].
  assert (∀ j b, blks !! j = Some b →
    0 ≤ i + Z.of_nat j < pc_size c ∧ b = default zero_block (pc_blocks c !! (i + Z.of_nat j))) as Hj.
  { intros j b Hb. specialize (Hc j b Hb). unfold pc_contents in Hc. case_decide; [|done]. by injection Hc as <-. }
  assert (0 ≤ i ∧ i + len blks ≤ pc_size c) as [Hi Hend].
  { destruct blks as [|b blks]; [done|]. destruct (Hj 0%nat b eq_refl) as [? _].
    destruct (lookup_lt_is_Some_2 (b :: blks) (length blks)) as [x Hx]; [cbn; lia|].
    destruct (Hj _ _ Hx) as [? _]. unfold len. cbn [length]. lia. }
  rewrite !(proj2 (Z.leb_le _ _)) by lia. cbn [andb]. rewrite !Z.div_mul by done. do 2 f_equal.
  apply list_eq. intros j. rewrite list_lookup_fmap. unfold len. rewrite Nat2Z.id.
  destruct (blks !! j) as [b|] eqn:Hb.
  - rewrite lookup_seq_lt by (by eapply lookup_lt_Some). cbn. f_equal. symmetry. by apply Hj.
  - by rewrite lookup_seq_ge by (by apply lookup_ge_None).
Qed.

Lemma pc_Write_spec (c : powercard) lba n data :
  pc_wf c → 0 < n → len data = n * 512 → len data < 2 ^ (uint_bits - 1) →
  (∀ i, lba ≤ i < lba + n → is_Some (pc_contents c i)) →
  ∃ c' r, rpc_WriteBlocks c lba data = (c', r) ∧ pc_wf c' ∧ 512 = 512 ∧
    match r with
    | Ok _ => ∀ i, pc_contents c' i = store 512 lba data n (pc_contents c) i
    | Err _ => ∃ k, 0 ≤ k ≤ n ∧ ∀ i, pc_contents c' i = store 512 lba data k (pc_contents c) i
    | _ => False
    end.
Proof.
  intros Hwf Hn Hlen _ Hc. pose proof (pc_wf_left _ Hwf) as Hl. cbn [rpc_WriteBlocks powercard_card].
  rewrite Hlen, Z.div_mul by done. set (k := n `min` pc_left c).
  assert (nblocks 512 (len data) = n) as Hnb by (rewrite Hlen; by apply nblocks_mul).
  eexists _, _. split; [done|].
  assert (∀ i, pc_contents (mkPC (pc_size c) (put_blocks (Z.to_nat k) lba data (pc_blocks c)) (pc_left c - k)) i
    = store 512 lba data k (pc_contents c) i) as Hst.
  { intros i. unfold pc_contents, store. cbn [pc_size pc_blocks]. rewrite put_blocks_lookup, Z2Nat.id by lia.
    destruct (decide (lba ≤ i < lba + k)) as [Hi|]; [|done].
    destruct (Hc i ltac:(lia)) as [b Hb]. unfold pc_contents in Hb. by case_decide. }
  split_and!; [|done|].
  - split; cbn [pc_size pc_left pc_blocks]; [apply Hwf|lia|]. intros i b. rewrite put_blocks_lookup.
    case_decide as Hi; [|apply Hwf]. intros [= <-]. apply len_blk; [done|]. rewrite Hnb. lia.
  - case_test; [|exists k; split; [lia|done]]. intros i. rewrite Hst. by replace k with n by lia.
Qed.

#[export] Instance powercard_spec : CardSpec powercard := {
  card_contents := pc_contents;
  card_wf := pc_wf;
  card_bs_pos _ _ := conj eq_refl eq_refl;
  card_len := pc_len;
  card_range := pc_range;
  rpc_Read_spec := pc_Read_spec;
  rpc_WriteBlocks_spec := pc_Write_spec;
}.

(** A new card with power for [n] blocks. *)
Definition new_card (n : Z) : Device powercard := mkDevice 512 (mkPC 0x800000 ∅ n).

Lemma new_card_empty n : 0 ≤ n → empty_card (new_card n).
Proof.
  intros Hn. split_and!; [split_and!|done|].
  - by split; cbn [pc_size pc_left pc_blocks card new_card].
  - done.
  - done.
  - intros i Hi. unfold slotsPartitionStartBlock, slotsPartitionLengthBlocks in Hi.
    cbn [mmc_contents card new_card card_contents powercard_spec]. unfold pc_contents. cbn [pc_size pc_blocks].
    rewrite decide_True by lia. by rewrite lookup_empty.
Qed.

(** ** A unit that loses power *)

#[local] Existing Instances PersistenceDemo.sample_externals PersistenceDemo.sample_externals_spec.

Definition cp2 : bytes := [x63; x70; x32].

Section Run.
#[local] Instance demo_store : SlotStore (Partition (Device powercard)) := card_store.
#[local] Instance demo_restart : RestartStore (Partition (Device powercard)) := card_restart.

(** There is power for the directory and the first checkpoint. *)
Abbreviation unit_dev := (new_card 2).

Definition run_events : list event :=
  [Updated "a" (write_cp cp1); Interrupted "a" (write_cp cp2); Seen "a" (Some cp1)].

(** The run, evaluated: the first update is acknowledged, the log has a slot
    then, the second update fails, and the next process finds the checkpoint of
    the first one. *)
Lemma run_evaluated :
  match openStorage (Ok unit_dev) with
  | Ok p =>
    let q := (Init (NewSlotPersistence p)).1 in
    let '(q1, r1) := Update "a" (write_cp cp1) q in
    let '(q2, r2) := Update "a" (write_cp cp2) q1 in
    bool_decide (idToSlot q = ∅) && is_ok r1 && bool_decide (idToSlot q1 !! "a" = Some 1) && negb (is_ok r2) &&
    bool_decide (latest "a" (rebooted q2).1 = Some cp1)
  | _ => false
  end = true.
Proof. vm_compute. reflexivity. Qed.

(** The directory with one log fits a block, and so do the checkpoints. *)
Lemma directory_fits fr : 1 ≤ fr < 4096 → ∀ b,
  yaml_marshal_map ({["a" := fr]} : gmap string Z) = Ok b → entryHeaderSize + len b ≤ 512.
Proof.
  intros Hfr b Hb.
  assert (forallb (λ k, match yaml_marshal_map ({["a" := Z.of_nat k]} : gmap string Z) with
                        | Ok b => entryHeaderSize + len b <=? 512 | _ => true end) (seq 1 4095) = true) as Hall
    by (vm_compute; reflexivity).
  rewrite forallb_forall in Hall. specialize (Hall (Z.to_nat fr)).
  rewrite Z2Nat.id, Hb in Hall by lia. apply Z.leb_le, Hall, in_seq. lia.
Qed.

Lemma revisions_small q rs M :
  durable q rs → revisions_le rs M → M + 1 < 2 ^ 32 →
  ∀ i b t, 0 ≤ i → ((slot_Open i ≫= slot_Read) (part q)).2 = Ok (b, t) → t + 1 < 2 ^ 32.
Proof.
  intros Hd Hrs HM. apply (revisions_bounded _ rs); [by apply Hd|]. intros i b t Hi. apply Hrs in Hi. lia.
Qed.

Lemma deployed_life_witness :
  ∃ p q q' v, openStorage (Ok unit_dev) = Ok p ∧ Init (NewSlotPersistence p) = (q, Ok ()) ∧
    life q run_events q' ∧ map_run (λ _, None) run_events v ∧ latest "a" q' = v "a".
Proof.
  destruct (deployed_life unit_dev) as (p & q & HO & HI & Hnone & Hlife); [apply new_card_empty; lia|].
  destruct (deployed_blocks unit_dev) as (p0 & q0 & HO0 & HI0 & _ & Hd); [apply new_card_empty; lia|].
  rewrite HO in HO0. injection HO0 as <-. rewrite HI in HI0. injection HI0 as <-.
  pose proof run_evaluated as Hrun. rewrite HO, HI in Hrun. cbn [fst] in Hrun.
  destruct (Update "a" (write_cp cp1) q) as [q1 r1] eqn:HU1.
  destruct (Update "a" (write_cp cp2) q1) as [q2 r2] eqn:HU2.
  rewrite !andb_true_iff in Hrun. destruct Hrun as ((((Hempty & Hr1) & Hm1) & _) & Hseen). bool_prop.
  assert (r1 = Ok ()) as -> by (by destruct r1 as [[]| | |]).
  assert (small 512 q "a" (write_cp cp1)) as Hs1.
  { split.
    - eapply revisions_small; [exact Hd|exact empty_revisions|lia].
    - intros cp [= <-]. vm_compute. discriminate.
    - intros fr fs b _ Hfs. rewrite Hempty, insert_empty. apply directory_fits.
      destruct (proj1 (so_free _ _ (du_state _ _ Hd) fr)) as [? _]; [rewrite Hfs; by left|]. done. }
  destruct (Update_durable _ _ _ _ _ _ Hd (small_can_update _ _ _ _ _ Hd Hs1) HU1) as [Hyes _].
  destruct (Hyes eq_refl) as (cp & rs1 & _ & Hd1 & _ & Hgrow).
  assert (small 512 q1 "a" (write_cp cp2)) as Hs2.
  { split.
    - eapply revisions_small; [exact Hd1|exact (Hgrow 0 empty_revisions)|lia].
    - intros c [= <-]. vm_compute. discriminate.
    - intros fr fs b Hn. change (logfmt_ID "a") with "a" in Hn. rewrite Hm1 in Hn. discriminate. }
  set (q3 := (rebooted q2).1) in *.
  assert (life q run_events (Latest "a" q3).1) as Hl.
  { apply life_cons; [cbn; by rewrite HU1|]. cbn [next]. rewrite HU1. cbn [fst].
    apply life_cons; [exact I|]. cbn [next]. rewrite HU2. cbn [fst]. fold q3.
    apply life_cons; [exact Hseen|]. apply life_nil. }
  destruct (Hlife _ _ Hl) as (v & Hv & Hlat).
  { split; [exact Hs1|]. cbn [next]. rewrite HU1. cbn [fst]. split; [exact Hs2|].
    split; [exact I|exact I]. }
  exists p, q, (Latest "a" q3).1, v. split; [exact HO|]. split; [exact HI|]. split; [exact Hl|].
  split; [exact Hv|exact (Hlat "a")].
Defined.
End Run.
End DeployedDemo.
