(* ===== verification/Text.v ===== *)
(** * Text

    Go strings are sequences of bytes.  The verbs of [fmt.Sprintf] that the
    applet uses ([%d], [%02x], [%064x]), lines, and what can be read back. *)

From Stdlib Require Import String.
From S2P Require Import Prelude.

Module Text.

(** A string literal. *)
Definition str (s : string) : bytes := String.list_byte_of_string s.

(** ** Decimal numbers *)

Definition digit (n : Z) : byte := z2b (48 + n).

Fixpoint dec_loop (fuel : nat) (n : Z) (acc : bytes) : bytes :=
  if n <? 10 then digit n :: acc
  else match fuel with
  | O => acc
  | S fuel' => dec_loop fuel' (n / 10) (digit (n mod 10) :: acc)
  end.

(** [%d] of a number that is not negative. *)
Definition dec (n : Z) : bytes := dec_loop (Z.to_nat (Z.log2 n)) n [].

Definition undec (b : bytes) : Z := foldl (λ a c, a * 10 + (b2z c - 48)) 0 b.

Definition is_digit (c : byte) : Prop := 48 ≤ b2z c ≤ 57.

Lemma b2z_digit n : 0 ≤ n < 10 → b2z (digit n) = 48 + n.
Proof. intros. unfold digit. rewrite b2z_z2b. apply Z.mod_small. lia. Qed.

Lemma dec_loop_spec fuel n acc :
  0 ≤ n < 2 ^ Z.of_nat (S fuel) →
  ∃ ds, dec_loop fuel n acc = ds ++ acc ∧ undec ds = n ∧ Forall is_digit ds ∧ ds ≠ [].
Proof.
  revert n acc. induction fuel as [|fuel IH]; intros n acc Hn; cbn [dec_loop].
  { rewrite (proj2 (Z.ltb_lt _ _)) by lia. exists [digit n]. unfold undec, is_digit. cbn.
    rewrite Forall_singleton, b2z_digit by lia. split_and!; [done|lia..|done]. }
  case_test.
  { exists [digit n]. unfold undec, is_digit. cbn.
    rewrite Forall_singleton, b2z_digit by lia. split_and!; [done|lia..|done]. }
  pose proof (Z.mod_pos_bound n 10 ltac:(lia)). pose proof (Z.div_mod n 10 ltac:(lia)).
  rewrite Nat2Z.inj_succ, Z.pow_succ_r in Hn by lia.
  destruct (IH (n / 10) (digit (n mod 10) :: acc)) as (ds & -> & Hu & Hd & _); [lia|].
  exists (ds ++ [digit (n mod 10)]). split_and!.
  - by rewrite <-app_assoc.
  - unfold undec in *. rewrite foldl_app, Hu. cbn. rewrite b2z_digit by lia. lia.
  - apply Forall_app. split; [done|]. unfold is_digit. rewrite Forall_singleton, b2z_digit by lia. lia.
  - by destruct ds.
Qed.

Lemma dec_spec n : 0 ≤ n → undec (dec n) = n ∧ Forall is_digit (dec n) ∧ dec n ≠ [].
Proof.
  intros Hn. unfold dec. destruct (dec_loop_spec (Z.to_nat (Z.log2 n)) n []) as (ds & -> & ? & ? & ?).
  - split; [done|]. rewrite Nat2Z.inj_succ, Z2Nat.id by apply Z.log2_nonneg.
    destruct (decide (n = 0)) as [->|]; [done|]. apply Z.log2_spec. lia.
  - by rewrite app_nil_r.
Qed.

Lemma dec_inj n m : 0 ≤ n → 0 ≤ m → dec n = dec m → n = m.
Proof.
  intros Hn Hm E. destruct (dec_spec n Hn) as (<- & _). destruct (dec_spec m Hm) as (<- & _). by rewrite E.
Qed.

(** ** Hexadecimal *)

Definition hex_digit (n : Z) : byte := if n <? 10 then z2b (48 + n) else z2b (87 + n).

(** [%02x] of a byte, and [%x] of a sequence of bytes. *)
Definition hex2 (b : byte) : bytes := [hex_digit (b2z b / 16); hex_digit (b2z b mod 16)].
Definition hex (b : bytes) : bytes := concat (hex2 <$> b).

(** The value of a hexadecimal digit of either case. *)
Definition unhex_digit (c : byte) : option Z :=
  let n := b2z c in
  if (48 <=? n) && (n <=? 57) then Some (n - 48)
  else if (97 <=? n) && (n <=? 102) then Some (n - 87)
  else if (65 <=? n) && (n <=? 70) then Some (n - 55)
  else None.

Definition unhex2 (a b : byte) : option byte :=
  x ← unhex_digit a; y ← unhex_digit b; Some (z2b (16 * x + y)).

Fixpoint unhex (b : bytes) : option bytes :=
  match b with
  | [] => Some []
  | x :: y :: b' => z ← unhex2 x y; r ← unhex b'; Some (z :: r)
  | _ => None
  end.

Lemma unhex_hex_digit n : 0 ≤ n < 16 → unhex_digit (hex_digit n) = Some n.
Proof.
  intros Hn. assert (∃ k, (k < 16)%nat ∧ n = Z.of_nat k) as (k & Hk & ->) by (exists (Z.to_nat n); lia).
  do 16 (destruct k as [|k]; [by vm_compute|]). lia.
Qed.

Lemma unhex2_hex2 b : unhex2 (hex_digit (b2z b / 16)) (hex_digit (b2z b mod 16)) = Some b.
Proof.
  pose proof (b2z_range b). pose proof (Z.mod_pos_bound (b2z b) 16 ltac:(lia)).
  pose proof (Z.div_mod (b2z b) 16 ltac:(lia)).
  unfold unhex2. rewrite !unhex_hex_digit by lia. cbn. f_equal.
  by rewrite <-Z.div_mod, z2b_b2z by lia.
Qed.

Lemma unhex_hex b : unhex (hex b) = Some b.
Proof.
  induction b as [|x b IH]; [done|]. change (hex (x :: b)) with (hex2 x ++ hex b).
  unfold hex2. cbn [app unhex]. rewrite unhex2_hex2. cbn. by rewrite IH.
Qed.

Lemma length_hex b : length (hex b) = (2 * length b)%nat.
Proof.
  induction b as [|x b IH]; [done|]. change (hex (x :: b)) with (hex2 x ++ hex b).
  rewrite length_app, IH. cbn. lia.
Qed.

(** Digits are printable: neither line breaks nor colons. *)
Definition is_hex (c : byte) : Prop := unhex_digit c ≠ None.

Lemma hex_is_hex b : Forall is_hex (hex b).
Proof.
  induction b as [|x b IH]; [done|]. change (hex (x :: b)) with (hex2 x ++ hex b).
  apply Forall_app. split; [|done]. unfold hex2, is_hex. pose proof (b2z_range x).
  pose proof (Z.mod_pos_bound (b2z x) 16 ltac:(lia)). pose proof (Z.div_mod (b2z x) 16 ltac:(lia)).
  apply Forall_cons; split; [rewrite unhex_hex_digit by lia; done|].
  apply Forall_singleton. rewrite unhex_hex_digit by lia. done.
Qed.

(** ** Lines *)

Definition newline : byte := x0a.

Definition unlines (ls : list bytes) : bytes := concat ((λ l, l ++ [newline]) <$> ls).

(** The lines of a text in which every line is ended. *)
Fixpoint lines_from (acc : bytes) (b : bytes) : list bytes :=
  match b with
  | [] => []
  | c :: b' => if bool_decide (c = newline) then acc :: lines_from [] b' else lines_from (acc ++ [c]) b'
  end.

Definition lines (b : bytes) : list bytes := lines_from [] b.

Definition one_line (l : bytes) : Prop := newline ∉ l.

Lemma lines_from_line acc l b :
  one_line l → lines_from acc (l ++ newline :: b) = (acc ++ l) :: lines_from [] b.
Proof.
  revert acc. induction l as [|c l IH]; intros acc Hl; cbn.
  { by rewrite app_nil_r. }
  rewrite bool_decide_false by (intros ->; apply Hl; by left).
  rewrite IH by (intros ?; apply Hl; by right). by rewrite <-app_assoc.
Qed.

Lemma lines_unlines ls : Forall one_line ls → lines (unlines ls) = ls.
Proof.
  unfold lines. induction 1 as [|l ls Hl _ IH]; [done|].
  change (unlines (l :: ls)) with ((l ++ [newline]) ++ unlines ls). rewrite <-app_assoc. cbn [app].
  rewrite lines_from_line by done. by rewrite IH.
Qed.

Lemma digits_one_line b : Forall is_digit b → one_line b.
Proof. intros Hb Hin. rewrite Forall_forall in Hb. destruct (Hb _ Hin). cbn in *. lia. Qed.

Lemma hex_one_line b : Forall is_hex b → one_line b.
Proof. intros Hb Hin. rewrite Forall_forall in Hb. by apply (Hb _ Hin). Qed.
End Text.
