(* ===== verification/Dhcp.v ===== *)
(** * DHCP messages (third_party/dhcp/dhcp.go)

    A packet [hdr] is a byte string that the setters update in place; an index
    or slice outside of it panics.  The addresses and masks of the network
    stack are the class [Tcpip]. *)

From S2P Require Import Prelude.

(** ** Addresses of the network stack *)

Class Tcpip := {
  Address : Type;
  Address_eq : EqDecision Address;
  zeroAddress : Address;
  addr_of_bytes : bytes → Address;
  AsSlice : Address → bytes;
  AddrLen : Address → Z;
  AddressMask : Type;
  AddressMask_eq : EqDecision AddressMask;
  zeroMask : AddressMask;
  mask_of_bytes : bytes → AddressMask;
  MaskAsSlice : AddressMask → bytes;
  MaskLen : AddressMask → Z;
}.
#[export] Existing Instances Address_eq AddressMask_eq.

(** Addresses and masks made of four bytes are those four bytes; the zero
    values have no bytes. *)
Class TcpipSpec `{Tcpip} : Prop := {
  AddrLen_spec a : AddrLen a = len (AsSlice a);
  AsSlice_zero : AsSlice zeroAddress = [];
  AsSlice_from b : len b = 4 → AsSlice (addr_of_bytes b) = b;
  addr_of_bytes_as a : len (AsSlice a) = 4 → addr_of_bytes (AsSlice a) = a;
  AddrLen_0 a : AddrLen a = 0 → a = zeroAddress;
  MaskLen_spec a : MaskLen a = len (MaskAsSlice a);
  MaskAsSlice_zero : MaskAsSlice zeroMask = [];
  MaskAsSlice_from b : len b = 4 → MaskAsSlice (mask_of_bytes b) = b;
  mask_of_bytes_as a : len (MaskAsSlice a) = 4 → mask_of_bytes (MaskAsSlice a) = a;
  MaskLen_0 a : MaskLen a = 0 → a = zeroMask;
}.

Module Dhcp.

(** ** Options *)

Definition optSubnetMask : Z := 1.
Definition optRouter : Z := 3.
Definition optDomainNameServer : Z := 6.
Definition optHostname : Z := 12.
Definition optDomainName : Z := 15.
Definition optReqIPAddr : Z := 50.
Definition optLeaseTime : Z := 51.
Definition optDHCPMsgType : Z := 53.
Definition optDHCPServer : Z := 54.
Definition optParamReq : Z := 55.
Definition optMessage : Z := 56.
Definition optRenewalTime : Z := 58.
Definition optRebindingTime : Z := 59.
Definition optClientID : Z := 61.

Record option := mkOption { code : Z; body : bytes }.

Definition lenValid (c l : Z) : bool :=
  if bool_decide (c ∈ [optSubnetMask; optReqIPAddr; optLeaseTime; optDHCPServer;
                       optRenewalTime; optRebindingTime]) then l =? 4
  else if c =? optDHCPMsgType then l =? 1
  else if bool_decide (c ∈ [optRouter; optDomainNameServer]) then l mod 4 =? 0
  else if bool_decide (c ∈ [optMessage; optDomainName; optClientID; optHostname]) then 1 <=? l
  else true.

(** [options.len]. *)
Definition options_len (opts : list option) : Z :=
  foldl (λ l opt, l + (1 + 1 + len (body opt))) 0 opts + 1.

Definition dhcpDISCOVER : Z := 1.
Definition dhcpOFFER : Z := 2.
Definition dhcpREQUEST : Z := 3.
Definition dhcpDECLINE : Z := 4.
Definition dhcpACK : Z := 5.
Definition dhcpNAK : Z := 6.
Definition dhcpRELEASE : Z := 7.

(** The message type: that of the first option of this kind, 0 if there is
    none. *)
Fixpoint dhcpMsgType (opts : list option) : res Z :=
  match opts with
  | [] => Ok 0
  | opt :: opts' =>
    if code opt =? optDHCPMsgType then
      match body opt with
      | [v] => if (b2z v <=? 0) || (8 <=? b2z v) then Err "DHCP bad length" else Ok (b2z v)
      | _ => Err "bad length"
      end
    else dhcpMsgType opts'
  end.

Fixpoint message (opts : list option) : bytes :=
  match opts with
  | [] => []
  | opt :: opts' => if code opt =? optMessage then body opt else message opts'
  end.

(** ** Configurations *)

Section Config.
Context `{T : Tcpip}.

Record Config := mkConfig {
  ServerAddress : Address;
  SubnetMask : AddressMask;
  Router : list Address;
  DNS : list Address;
  LeaseLength : Z;
  RenewTime : Z;
  RebindTime : Z;
}.

Definition zeroConfig : Config := mkConfig zeroAddress zeroMask [] [] 0 0 0.

(** Addresses and masks are made of 4 or 16 bytes.  A slice of another length
    panics, as a slice of less than four bytes does when it is read as a number
    of 32 bits. *)
Definition AddrFromSlice (b : bytes) : res Address :=
  if (len b =? 4) || (len b =? 16) then Ok (addr_of_bytes b) else Panic "invalid address length".
Definition MaskFromBytes (b : bytes) : res AddressMask :=
  if (len b =? 4) || (len b =? 16) then Ok (mask_of_bytes b) else Panic "invalid mask length".
Definition Uint32 (b : bytes) : res Z :=
  if len b <? 4 then Panic "index out of range" else Ok (be_decode (ztake 4 b)).

(** The loop that cuts a body into addresses of four bytes. *)
Fixpoint addresses (fuel : nat) (b : bytes) : res (list Address) :=
  if len b =? 0 then Ok []
  else match fuel with
  | O => NoFuel
  | S fuel' =>
    if len b <? 4 then Panic "slice bounds out of range"
    else
      a ← AddrFromSlice (ztake 4 b);
      rest ← addresses fuel' (zdrop 4 b); mret (a :: rest)
  end.

(** The effect of one option on the configuration. *)
Definition decode_option (cfg : Config) (opt : option) : res Config :=
  let b := body opt in
  if negb (lenValid (code opt) (len b)) then Err "bad length"
  else
    let '(mkConfig sa sm ro dn ll rt rb) := cfg in
    if code opt =? optLeaseTime then t ← Uint32 b; Ok (mkConfig sa sm ro dn t rt rb)
    else if code opt =? optRenewalTime then t ← Uint32 b; Ok (mkConfig sa sm ro dn ll t rb)
    else if code opt =? optRebindingTime then t ← Uint32 b; Ok (mkConfig sa sm ro dn ll rt t)
    else if code opt =? optSubnetMask then m ← MaskFromBytes b; Ok (mkConfig sa m ro dn ll rt rb)
    else if code opt =? optDHCPServer then a ← AddrFromSlice b; Ok (mkConfig a sm ro dn ll rt rb)
    else if code opt =? optRouter then
      as_ ← addresses (length b) b; Ok (mkConfig sa sm (ro ++ as_) dn ll rt rb)
    else if code opt =? optDomainNameServer then
      as_ ← addresses (length b) b; Ok (mkConfig sa sm ro (dn ++ as_) ll rt rb)
    else Ok cfg.

Fixpoint decode_loop (cfg : Config) (opts : list option) : res Config :=
  match opts with
  | [] => Ok cfg
  | opt :: opts' => cfg' ← decode_option cfg opt; decode_loop cfg' opts'
  end.

(** [Config.decode] starts from the zero configuration. *)
Definition decode (opts : list option) : res Config := decode_loop zeroConfig opts.

Definition serializeLeaseOption (s o : Z) : option := mkOption o (be_encode 4 s).

Definition encode (cfg : Config) : list option :=
  (if 0 <? AddrLen (ServerAddress cfg) then [mkOption optDHCPServer (AsSlice (ServerAddress cfg))] else [])
  ++ (if 0 <? MaskLen (SubnetMask cfg) then [mkOption optSubnetMask (MaskAsSlice (SubnetMask cfg))] else [])
  ++ (if 0 <? len (Router cfg) then [mkOption optRouter (concat (AsSlice <$> Router cfg))] else [])
  ++ (if 0 <? len (DNS cfg) then [mkOption optDomainNameServer (concat (AsSlice <$> DNS cfg))] else [])
  ++ (if negb (LeaseLength cfg =? 0) then [serializeLeaseOption (LeaseLength cfg) optLeaseTime] else [])
  ++ (if negb (RebindTime cfg =? 0) then [serializeLeaseOption (RebindTime cfg) optRebindingTime] else [])
  ++ (if negb (RenewTime cfg =? 0) then [serializeLeaseOption (RenewTime cfg) optRenewalTime] else []).
End Config.

(** ** Packets *)

Abbreviation hdr := bytes.

Definition headerBaseSize : Z := 240.
Definition dhcpMinimumSize : Z := 241.
Definition magicCookie : bytes := [x63; x82; x53; x63].
Definition opRequest : Z := 1.
Definition opReply : Z := 2.

(** [h[i]] and [h[i] = v]. *)
Definition get (h : hdr) (i : Z) : res byte :=
  match h !! Z.to_nat i with Some b => Ok b | None => Panic "index out of range" end.
Definition set (h : hdr) (i : Z) (v : byte) : res hdr :=
  if i <? len h then Ok (<[Z.to_nat i := v]> h) else Panic "index out of range".

(** [h[a:b]], for bounds that are given in the code. *)
Definition slice (h : hdr) (a b : Z) : res bytes :=
  if b <=? len h then Ok (ztake (b - a) (zdrop a h)) else Panic "slice bounds out of range".

(** [copy(h[a:b], src)]. *)
Definition copy_slice (h : hdr) (a b : Z) (src : bytes) : res hdr :=
  if b <=? len h then Ok (copy_at a h (ztake (b - a) src)) else Panic "slice bounds out of range".

Definition hdr_init (h : hdr) : res hdr :=
  h ← set h 1 x01; h ← set h 2 x06; h ← set h 3 x00; h ← set h 8 x00; h ← set h 9 x00;
  copy_slice h 236 240 magicCookie.

Definition hdr_op (h : hdr) : res Z := b ← get h 0; mret (b2z b).
Definition setOp (h : hdr) (o : Z) : res hdr := set h 0 (z2b o).
Definition xidbytes (h : hdr) : res bytes := slice h 4 8.
Definition xid (h : hdr) : res Z := b ← slice h 4 8; mret (be_decode b).
Definition setBroadcast (h : hdr) : res hdr :=
  b ← get h 10; set h 10 (z2b (Z.lor (b2z b) (Z.shiftl 1 7))).
(** [h[10]&1<<7 != 0]: the operators associate to the left, and the shift is
    that of a byte. *)
Definition broadcast (h : hdr) : res bool :=
  b ← get h 10; mret (negb (Z.shiftl (Z.land (b2z b) 1) 7 mod 256 =? 0)).
Definition ciaddr (h : hdr) : res bytes := slice h 12 16.
Definition yiaddr (h : hdr) : res bytes := slice h 16 20.
Definition siaddr (h : hdr) : res bytes := slice h 20 24.
Definition giaddr (h : hdr) : res bytes := slice h 24 28.
Definition chaddr (h : hdr) : res bytes := slice h 28 44.
Definition sname (h : hdr) : res bytes := slice h 44 108.
Definition file (h : hdr) : res bytes := slice h 108 236.

Definition isValid (h : hdr) : res bool :=
  if len h <? dhcpMinimumSize then Ok false
  else
    o ← hdr_op h;
    if negb (o =? opRequest) && negb (o =? opReply) then Ok false
    else
      ht ← slice h 1 3;
      if bool_decide (ht ≠ [x01; x06]) then Ok false
      else c ← slice h 236 240; mret (bool_decide (c = magicCookie)).

(** The parser of the options from index [i] on: pad bytes are skipped, an
    end byte stops it. *)
Fixpoint options_loop (fuel : nat) (h : hdr) (i : Z) : res (list option) :=
  if i <? len h then
    match fuel with
    | O => NoFuel
    | S fuel' =>
      c ← get h i;
      if b2z c =? 0 then options_loop fuel' h (i + 1)
      else if b2z c =? 255 then Ok []
      else if len h <? i + 1 + 1 then Err "option missing length"
      else
        l ← get h (i + 1);
        if len h <? i + 2 + b2z l then Err "option too long"
        else
          b ← slice h (i + 2) (i + 2 + b2z l);
          rest ← options_loop fuel' h (i + 2 + b2z l);
          mret (mkOption (b2z c) b :: rest)
    end
  else Ok [].

Definition options (h : hdr) : res (list option) := options_loop (length h) h headerBaseSize.

(** Writing the options from index [i] on; the index after them is returned. *)
Fixpoint setOptions_loop (opts : list option) (h : hdr) (i : Z) : res (hdr * Z) :=
  match opts with
  | [] => Ok (h, i)
  | opt :: opts' =>
    h ← set h i (z2b (code opt));
    h ← set h (i + 1) (z2b (len (body opt)));
    h ← copy_slice h (i + 2) (i + 2 + len (body opt)) (body opt);
    setOptions_loop opts' h (i + (2 + len (body opt)))
  end.

Definition setOptions (h : hdr) (opts : list option) : res hdr :=
  '(h, i) ← setOptions_loop opts h headerBaseSize;
  h ← set h i xff;
  mret (ztake (i + 1) h ++ replicate (Z.to_nat (len h - (i + 1))) x00).
End Dhcp.
