(* ===== verification/DhcpProps.v ===== *)
(** * Properties of DHCP messages

    The parser of options on arbitrary packets, the round trip of options
    through a packet and of configurations through options. *)

From S2P Require Import Prelude Dhcp.
Import Dhcp.

Module DhcpProps.

(** ** The parser on arbitrary bytes *)

(** An option as it can appear in a packet. *)
Definition wire_ok (o : option) : Prop := 1 ≤ code o ≤ 254 ∧ len (body o) ≤ 255.

(** The bytes of the options in a packet. *)
Definition wire (opts : list option) : bytes :=
  concat ((λ o, z2b (code o) :: z2b (len (body o)) :: body o) <$> opts).

Lemma get_in h i : 0 ≤ i < len h → ∃ b, get h i = Ok b ∧ h !! Z.to_nat i = Some b.
Proof.
  intros Hi. unfold get. destruct (lookup_lt_is_Some_2 h (Z.to_nat i)) as [b Hb];
    [unfold len in Hi; lia|]. exists b. by rewrite Hb.
Qed.

Lemma slice_in h a b : 0 ≤ a ≤ b → b ≤ len h →
  ∃ x, slice h a b = Ok x ∧ len x = b - a.
Proof.
  intros Ha Hb. unfold slice. rewrite (proj2 (Z.leb_le _ _)) by lia. eexists. split; [done|].
  rewrite len_take; [done|]. rewrite len_drop by lia. lia.
Qed.

Lemma len_wire_nil : len (wire []) = 0.
Proof. done. Qed.

Lemma options_loop_total fuel h i :
  0 ≤ i → len h - i ≤ Z.of_nat fuel →
  match options_loop fuel h i with
  | Ok opts => Forall wire_ok opts ∧ (i ≤ len h → len (wire opts) ≤ len h - i)
  | Err _ => True
  | _ => False
  end.
Proof.
  revert i. induction fuel as [|fuel IH]; intros i Hi Hf; cbn [options_loop].
  { case_test; [lia|]. split; [done|]. rewrite len_wire_nil. lia. }
  case_test; [|split; [done|rewrite len_wire_nil; lia]].
  destruct (get_in h i ltac:(lia)) as (c & -> & _). cbn [mbind res_bind].
  pose proof (b2z_range c). case_test.
  { specialize (IH (i + 1) ltac:(lia) ltac:(lia)). destruct (options_loop fuel h (i + 1)); [|done..].
    destruct IH as [? Hl]. split; [done|]. intros _. specialize (Hl ltac:(lia)). lia. }
  case_test; [split; [done|rewrite len_wire_nil; lia]|]. case_test; [done|].
  destruct (get_in h (i + 1) ltac:(lia)) as (l & -> & _). cbn [mbind res_bind].
  pose proof (b2z_range l). case_test; [done|].
  destruct (slice_in h (i + 2) (i + 2 + b2z l) ltac:(lia) ltac:(lia)) as (x & -> & Hx).
  cbn [mbind res_bind]. specialize (IH (i + 2 + b2z l) ltac:(lia) ltac:(lia)).
  destruct (options_loop fuel h (i + 2 + b2z l)) as [rest| | |]; [|done..].
  destruct IH as [Hok Hl]. cbn [mret res_ret]. split.
  - apply Forall_cons. split; [|done]. split; cbn; lia.
  - intros _. specialize (Hl ltac:(lia)).
    change (wire (mkOption (b2z c) x :: rest)) with (([z2b (b2z c); z2b (len x)] ++ x) ++ wire rest).
    rewrite !len_app. change (len [z2b (b2z c); z2b (len x)]) with 2. lia.
Qed.

(** The options of a packet are parsed without a panic, whatever the bytes
    received: the parser ends with an error or with options that lie within
    the packet and whose codes are neither the pad nor the end byte. *)
Theorem options_safe (h : hdr) :
  match options h with
  | Ok opts => Forall wire_ok opts ∧ (headerBaseSize ≤ len h → len (wire opts) ≤ len h - headerBaseSize)
  | Err _ => True
  | _ => False
  end.
Proof. apply options_loop_total; [done|]. unfold headerBaseSize, len. lia. Qed.

(** ** Writing options *)

Lemma set_app p x r v : set (p ++ x :: r) (len p) v = Ok (p ++ v :: r).
Proof.
  unfold set. rewrite (proj2 (Z.ltb_lt _ _)) by (rewrite len_app; unfold len; cbn [length]; lia).
  f_equal. unfold len. rewrite Nat2Z.id. rewrite insert_app_r_alt by lia. by rewrite Nat.sub_diag.
Qed.

Lemma copy_slice_app p x r src :
  length x = length src →
  copy_slice (p ++ x ++ r) (len p) (len p + len src) src = Ok (p ++ src ++ r).
Proof.
  intros Hx. unfold copy_slice, copy_at, ztake, len.
  rewrite (proj2 (Z.leb_le _ _)) by (rewrite !length_app; lia). f_equal.
  rewrite Nat2Z.id, take_app_length.
  replace (Z.to_nat (Z.of_nat (length p) + Z.of_nat (length src) - Z.of_nat (length p)))
    with (length src) by lia.
  rewrite (take_ge src (length src)) by lia.
  rewrite !length_app, take_ge by lia.
  rewrite drop_app_ge by lia. rewrite drop_app_eq by lia. done.
Qed.

(** Room for the options that follow. *)
Lemma setOptions_loop_spec opts p r :
  len (wire opts) ≤ len r →
  setOptions_loop opts (p ++ r) (len p) = Ok (p ++ wire opts ++ zdrop (len (wire opts)) r,
                                              len p + len (wire opts)).
Proof.
  revert p r. induction opts as [|o opts IH]; intros p r Hr.
  { cbn. by rewrite Z.add_0_r. }
  change (wire (o :: opts)) with ((z2b (code o) :: z2b (len (body o)) :: body o) ++ wire opts) in *.
  rewrite len_app in *. set (b := body o) in *. pose proof (len_nonneg (wire opts)).
  assert (len (z2b (code o) :: z2b (len b) :: b) = 2 + len b) as Hl by (unfold len; cbn [length]; lia).
  rewrite Hl in *. pose proof (len_nonneg b).
  destruct r as [|x [|y r]]; [unfold len in Hr; cbn [length] in Hr; lia..|].
  assert (len (x :: y :: r) = 2 + len r) as Hxy by (unfold len; cbn [length]; lia).
  assert (r = ztake (len b) r ++ zdrop (len b) r) as Hsplit by (by rewrite ztake_zdrop).
  cbn [setOptions_loop]. fold b. rewrite set_app. cbn [mbind res_bind].
  replace (len p + 1) with (len (p ++ [z2b (code o)])) by (rewrite len_app; unfold len; cbn [length]; lia).
  rewrite (app_assoc p [z2b (code o)] (y :: r) : p ++ z2b (code o) :: y :: r = _).
  rewrite set_app. cbn [mbind res_bind]. rewrite Hsplit at 1.
  rewrite (app_assoc (p ++ [z2b (code o)]) [z2b (len b)] _ :
    (p ++ [z2b (code o)]) ++ z2b (len b) :: _ = _).
  set (p2 := (p ++ [z2b (code o)]) ++ [z2b (len b)]).
  assert (len p + 2 = len p2) as -> by (unfold p2; rewrite !len_app; unfold len; cbn [length]; lia).
  rewrite copy_slice_app.
  2: { unfold ztake. rewrite length_take. unfold len in *. lia. }
  cbn [mbind res_bind]. rewrite (app_assoc p2 b (zdrop (len b) r)).
  assert (len p2 = len p + 2) as Hp2 by (unfold p2; rewrite !len_app; unfold len; cbn [length]; lia).
  replace (len p + (2 + len b)) with (len (p2 ++ b)) by (rewrite len_app; lia).
  rewrite IH by (rewrite len_drop; lia). rewrite len_app, Hp2. f_equal. f_equal; [|lia].
  unfold p2. rewrite <-!app_assoc. cbn [app]. do 3 f_equal. do 2 f_equal.
  unfold zdrop. rewrite drop_drop.
  replace (Z.to_nat (2 + len b + len (wire opts)))
    with (S (S (Z.to_nat (len b) + Z.to_nat (len (wire opts)))))%nat by lia. done.
Qed.

Lemma setOptions_spec opts p r :
  len p = headerBaseSize → len (wire opts) + 1 ≤ len r →
  setOptions (p ++ r) opts =
  Ok (p ++ wire opts ++ [xff] ++ replicate (Z.to_nat (len r - (len (wire opts) + 1))) x00).
Proof.
  intros Hp Hr. unfold setOptions. rewrite <-Hp, setOptions_loop_spec by lia.
  pose proof (len_nonneg (wire opts)). cbn [mbind res_bind].
  destruct (zdrop (len (wire opts)) r) as [|x r'] eqn:E.
  { apply (f_equal len) in E. rewrite len_drop in E by lia. change (len (@nil byte)) with 0 in E. lia. }
  apply (f_equal len) in E as El. rewrite len_drop in El by lia.
  rewrite app_assoc. replace (len p + len (wire opts)) with (len (p ++ wire opts)) by (by rewrite len_app).
  rewrite set_app. cbn [mbind res_bind mret res_ret].
  rewrite (app_assoc (p ++ wire opts) [xff] r' : (p ++ wire opts) ++ xff :: r' = _).
  f_equal. unfold ztake. rewrite take_app_eq.
  2: { unfold len. rewrite !length_app. cbn [length]. lia. }
  rewrite <-!app_assoc. do 4 f_equal. rewrite !len_app in *. unfold len in *. cbn [length] in *. lia.
Qed.

(** ** Reading them back *)

Lemma get_app p x r : get (p ++ x :: r) (len p) = Ok x.
Proof. unfold get, len. rewrite Nat2Z.id. by rewrite list_lookup_middle. Qed.

Lemma slice_app p x r : slice (p ++ x ++ r) (len p) (len p + len x) = Ok x.
Proof.
  unfold slice. rewrite (proj2 (Z.leb_le _ _)) by (rewrite !len_app; pose proof (len_nonneg r); lia).
  f_equal. unfold ztake, zdrop, len. rewrite Nat2Z.id, drop_app_length.
  apply take_app_eq. lia.
Qed.

Lemma options_loop_wire opts fuel p tl :
  Forall wire_ok opts → (length opts < fuel)%nat →
  options_loop fuel (p ++ wire opts ++ xff :: tl) (len p) = Ok opts.
Proof.
  intros Hok. revert fuel p. induction Hok as [|o opts [Hc Hb] Hok IH]; intros fuel p Hf;
    (destruct fuel as [|fuel]; [cbn in Hf; lia|]); cbn [options_loop].
  { change (wire [] ++ xff :: tl) with (xff :: tl).
    rewrite (proj2 (Z.ltb_lt _ _)) by (rewrite len_app; unfold len; cbn [length]; lia).
    by rewrite get_app. }
  change (wire (o :: opts)) with (z2b (code o) :: z2b (len (body o)) :: body o ++ wire opts).
  set (c := z2b (code o)). set (l := z2b (len (body o))). pose proof (len_nonneg (body o)).
  assert (b2z c = code o) as Ec by (unfold c; rewrite b2z_z2b; apply Z.mod_small; lia).
  assert (b2z l = len (body o)) as El by (unfold l; rewrite b2z_z2b; apply Z.mod_small; lia).
  cbn [app]. rewrite <-app_assoc.
  set (rest := wire opts ++ xff :: tl) in *.
  assert (len (p ++ c :: l :: body o ++ rest) = len p + 2 + len (body o) + len rest) as Hlen
    by (rewrite len_app; unfold len; cbn [length]; rewrite length_app; lia).
  pose proof (len_nonneg rest). rewrite Hlen, (proj2 (Z.ltb_lt _ _)) by lia. rewrite get_app.
  cbn [mbind res_bind]. rewrite Ec.
  rewrite (proj2 (Z.eqb_neq _ _)) by lia. rewrite (proj2 (Z.eqb_neq _ 255)) by lia.
  rewrite (proj2 (Z.ltb_ge _ _)) by lia.
  assert (p ++ c :: l :: body o ++ rest = (p ++ [c]) ++ l :: body o ++ rest) as -> by (by rewrite <-app_assoc).
  replace (len p + 1) with (len (p ++ [c])) by (rewrite len_app; unfold len; cbn [length]; lia).
  rewrite get_app. cbn [mbind res_bind]. rewrite El.
  rewrite (proj2 (Z.ltb_ge _ _)) by lia.
  assert ((p ++ [c]) ++ l :: body o ++ rest = (p ++ [c; l]) ++ body o ++ rest) as -> by (by rewrite <-!app_assoc).
  replace (len p + 2) with (len (p ++ [c; l])) by (rewrite len_app; unfold len; cbn [length]; lia).
  rewrite slice_app. cbn [mbind res_bind].
  rewrite (app_assoc (p ++ [c; l])). rewrite <-len_app. unfold rest. rewrite IH by (cbn in Hf; lia).
  cbn. by destruct o.
Qed.

Lemma length_opts_wire opts : (length opts ≤ length (wire opts))%nat.
Proof.
  induction opts as [|o opts IH]; [done|].
  change (wire (o :: opts)) with ((z2b (code o) :: z2b (len (body o)) :: body o) ++ wire opts).
  rewrite length_app. cbn [length]. lia.
Qed.

(** What [options_len] computes. *)
Lemma options_len_wire opts : options_len opts = len (wire opts) + 1.
Proof.
  unfold options_len. f_equal.
  assert (∀ a, foldl (λ l opt, l + (1 + 1 + len (body opt))) a opts = a + len (wire opts)) as H; [|by rewrite H].
  induction opts as [|o opts IH]; intros a; [rewrite len_wire_nil; cbn; lia|].
  cbn [foldl]. rewrite IH.
  change (wire (o :: opts)) with ((z2b (code o) :: z2b (len (body o)) :: body o) ++ wire opts).
  rewrite len_app. unfold len. cbn [length]. lia.
Qed.

(** Options survive the packet: written into a packet with room for them
    and the end byte, they are parsed back as they were, and the header in
    front of them is untouched. *)
Theorem options_roundtrip (h : hdr) (opts : list option) :
  Forall wire_ok opts → headerBaseSize + options_len opts ≤ len h →
  ∃ h', setOptions h opts = Ok h' ∧ options h' = Ok opts ∧ len h' = len h ∧
        ztake headerBaseSize h' = ztake headerBaseSize h.
Proof.
  intros Hok Hlen. rewrite options_len_wire in Hlen. pose proof (len_nonneg (wire opts)).
  assert (headerBaseSize = 240) as E240 by done.
  set (p := ztake headerBaseSize h). set (r := zdrop headerBaseSize h).
  assert (len p = headerBaseSize) as Hp by (unfold p; apply len_take; lia).
  assert (len r = len h - headerBaseSize) as Hr by (unfold r; rewrite len_drop; lia).
  pose proof (setOptions_spec opts p r Hp ltac:(lia)) as HS.
  assert (p ++ r = h) as Hpr by apply ztake_zdrop. rewrite Hpr in HS.
  eexists. split; [exact HS|]. cbn [app]. split_and!.
  - unfold options. rewrite <-Hp. apply options_loop_wire; [done|].
    rewrite !length_app. cbn [length]. pose proof (length_opts_wire opts). lia.
  - rewrite !len_app. unfold len in *. cbn [length]. rewrite length_replicate. lia.
  - unfold ztake. apply take_app_eq. unfold len in Hp. lia.
Qed.

(** ** Configurations *)

Section Config.
Context `{T : Tcpip} `{TS : !TcpipSpec}.

(** A configuration of IPv4 addresses and 32-bit times. *)
Record config_ok (c : Config) : Prop := {
  cfg_server : ServerAddress c = zeroAddress ∨ len (AsSlice (ServerAddress c)) = 4;
  cfg_mask : SubnetMask c = zeroMask ∨ len (MaskAsSlice (SubnetMask c)) = 4;
  cfg_router : Forall (λ a, len (AsSlice a) = 4) (Router c);
  cfg_dns : Forall (λ a, len (AsSlice a) = 4) (DNS c);
  cfg_lease : 0 ≤ LeaseLength c < 2 ^ 32;
  cfg_renew : 0 ≤ RenewTime c < 2 ^ 32;
  cfg_rebind : 0 ≤ RebindTime c < 2 ^ 32;
}.

Lemma len_concat_4 l :
  Forall (λ a, len (AsSlice a) = 4) l → len (concat (AsSlice <$> l)) = 4 * len l.
Proof.
  induction 1 as [|a l Ha _ IH]; [done|]. cbn [fmap list_fmap concat]. rewrite len_app, Ha.
  change (list_fmap _ _ AsSlice l) with (AsSlice <$> l). rewrite IH. unfold len. cbn [length]. lia.
Qed.

Lemma AddrFromSlice_4 b : len b = 4 → AddrFromSlice b = Ok (addr_of_bytes b).
Proof. intros Hb. unfold AddrFromSlice. by rewrite Hb. Qed.

Lemma MaskFromBytes_4 b : len b = 4 → MaskFromBytes b = Ok (mask_of_bytes b).
Proof. intros Hb. unfold MaskFromBytes. by rewrite Hb. Qed.

Lemma Uint32_4 b : len b = 4 → Uint32 b = Ok (be_decode b).
Proof.
  intros Hb. unfold Uint32. rewrite Hb. change (4 <? 4) with false. cbn iota.
  unfold ztake. rewrite take_ge; [done|]. unfold len in Hb. lia.
Qed.

Lemma addresses_concat fuel l :
  Forall (λ a, len (AsSlice a) = 4) l → (length l ≤ fuel)%nat →
  addresses fuel (concat (AsSlice <$> l)) = Ok l.
Proof.
  intros Hl. revert fuel. induction Hl as [|a l Ha Hl IH]; intros fuel Hf.
  { by destruct fuel. }
  destruct fuel as [|fuel]; [cbn in Hf; lia|]. cbn [fmap list_fmap concat].
  change (list_fmap _ _ AsSlice l) with (AsSlice <$> l). cbn [addresses].
  pose proof (len_nonneg (concat (AsSlice <$> l))). rewrite len_app, Ha.
  rewrite (proj2 (Z.eqb_neq _ _)) by lia. rewrite (proj2 (Z.ltb_ge _ _)) by lia.
  unfold zdrop, ztake. rewrite drop_app_eq, take_app_eq by (unfold len in Ha; lia).
  rewrite AddrFromSlice_4 by done. cbn [mbind res_bind].
  rewrite IH by (cbn in Hf; lia). cbn. by rewrite addr_of_bytes_as.
Qed.

Lemma be_decode_encode4 z : 0 ≤ z < 2 ^ 32 → be_decode (be_encode 4 z) = z.
Proof. intros Hz. rewrite be_decode_encode. apply Z.mod_small. cbn. lia. Qed.

(** The fields of a configuration are decoded one after the other. *)
Lemma decode_loop_app cfg a b :
  decode_loop cfg (a ++ b) = cfg' ← decode_loop cfg a; decode_loop cfg' b.
Proof.
  revert cfg. induction a as [|o a IH]; intros cfg; [done|]. cbn [app decode_loop].
  destruct (decode_option cfg o); cbn [mbind res_bind]; [apply IH|done..].
Qed.

Lemma decode_server cfg a :
  a = zeroAddress ∨ len (AsSlice a) = 4 → ServerAddress cfg = zeroAddress →
  decode_loop cfg (if 0 <? AddrLen a then [mkOption optDHCPServer (AsSlice a)] else []) =
  Ok (mkConfig a (SubnetMask cfg) (Router cfg) (DNS cfg) (LeaseLength cfg) (RenewTime cfg) (RebindTime cfg)).
Proof.
  rewrite AddrLen_spec. intros [->|Ha] Hz; destruct cfg; cbn in Hz.
  - rewrite AsSlice_zero. cbn. by subst.
  - rewrite Ha. change (0 <? 4) with true. cbn [decode_loop]. unfold decode_option. cbn [body code].
    rewrite Ha, AddrFromSlice_4 by done. cbn.
    by rewrite addr_of_bytes_as.
Qed.

Lemma decode_mask cfg a :
  a = zeroMask ∨ len (MaskAsSlice a) = 4 → SubnetMask cfg = zeroMask →
  decode_loop cfg (if 0 <? MaskLen a then [mkOption optSubnetMask (MaskAsSlice a)] else []) =
  Ok (mkConfig (ServerAddress cfg) a (Router cfg) (DNS cfg) (LeaseLength cfg) (RenewTime cfg) (RebindTime cfg)).
Proof.
  rewrite MaskLen_spec. intros [->|Ha] Hz; destruct cfg; cbn in Hz.
  - rewrite MaskAsSlice_zero. cbn. by subst.
  - rewrite Ha. change (0 <? 4) with true. cbn [decode_loop]. unfold decode_option. cbn [body code].
    rewrite Ha, MaskFromBytes_4 by done. cbn.
    by rewrite mask_of_bytes_as.
Qed.

(** The lists of routers and of name servers. *)
Lemma decode_list (rt : bool) cfg l :
  let o := if rt then optRouter else optDomainNameServer in
  Forall (λ a, len (AsSlice a) = 4) l →
  decode_loop cfg (if 0 <? len l then [mkOption o (concat (AsSlice <$> l))] else []) =
  Ok (mkConfig (ServerAddress cfg) (SubnetMask cfg)
        (if rt then Router cfg ++ l else Router cfg) (if rt then DNS cfg else DNS cfg ++ l)
        (LeaseLength cfg) (RenewTime cfg) (RebindTime cfg)).
Proof.
  intros o Hl. destruct cfg as [sa sm ro dn ll rn rb]. cbn [ServerAddress SubnetMask Router DNS LeaseLength RenewTime RebindTime].
  pose proof (len_concat_4 l Hl) as Hlen. case_test.
  - cbn [decode_loop]. unfold decode_option. cbn [body code]. rewrite Hlen.
    assert (negb (lenValid o (4 * len l)) = false) as ->.
    { transitivity (negb ((4 * len l) mod 4 =? 0)); [by destruct rt|].
      by rewrite Z.mul_comm, Z.mod_mul. }
    assert (addresses (length (concat (AsSlice <$> l))) (concat (AsSlice <$> l)) = Ok l) as Ha.
    { apply addresses_concat; [done|]. unfold len in *. lia. }
    unfold o. destruct rt; cbn; by rewrite Ha.
  - destruct l; [|unfold len in E; cbn [length] in E; lia]. cbn. destruct rt; by rewrite app_nil_r.
Qed.

(** The times, on 32 bits. *)
Lemma decode_time o cfg t :
  o ∈ [optLeaseTime; optRenewalTime; optRebindingTime] → 0 ≤ t < 2 ^ 32 →
  (t = 0 → (if o =? optLeaseTime then LeaseLength cfg
            else if o =? optRenewalTime then RenewTime cfg else RebindTime cfg) = 0) →
  decode_loop cfg (if negb (t =? 0) then [serializeLeaseOption t o] else []) =
  Ok (mkConfig (ServerAddress cfg) (SubnetMask cfg) (Router cfg) (DNS cfg)
        (if o =? optLeaseTime then t else LeaseLength cfg)
        (if o =? optRenewalTime then t else RenewTime cfg)
        (if o =? optRebindingTime then t else RebindTime cfg)).
Proof.
  intros Ho Ht Hz. destruct cfg as [sa sm ro dn ll rn rb].
  repeat setoid_rewrite elem_of_cons in Ho. rewrite elem_of_nil in Ho.
  destruct (t =? 0) eqn:E; bool_prop.
  - specialize (Hz E). subst t. destruct Ho as [->|[->|[->|[]]]]; cbn in *; by subst.
  - destruct Ho as [->|[->|[->|[]]]]; cbn [negb decode_loop]; unfold decode_option, serializeLeaseOption;
      cbn [body code]; rewrite Uint32_4 by done; rewrite (be_decode_encode4 t) by done; done.
Qed.

(** C37 Configurations survive the options: a configuration of IPv4 addresses
    and 32-bit times is decoded from its options as it was. *)
Theorem config_roundtrip (c : Config) : config_ok c → decode (encode c) = Ok c.
Proof.
  intros [Hs Hm Hr Hd Hl Hn Hb]. destruct c as [sa sm ro dn ll rn rb].
  cbn [ServerAddress SubnetMask Router DNS LeaseLength RenewTime RebindTime] in *.
  unfold decode, encode. cbn [ServerAddress SubnetMask Router DNS LeaseLength RenewTime RebindTime].
  rewrite decode_loop_app, (decode_server zeroConfig sa) by done. cbn [mbind res_bind].
  rewrite decode_loop_app, decode_mask by done. cbn [mbind res_bind].
  rewrite decode_loop_app, (decode_list true _ ro) by done. cbn [mbind res_bind].
  rewrite decode_loop_app, (decode_list false _ dn) by done. cbn [mbind res_bind].
  rewrite decode_loop_app, (decode_time optLeaseTime) by (done || by first [left | right; left | right; right; left]). cbn [mbind res_bind].
  rewrite decode_loop_app, (decode_time optRebindingTime) by (done || by first [left | right; left | right; right; left]). cbn [mbind res_bind].
  rewrite (decode_time optRenewalTime) by (done || by first [left | right; left | right; right; left]). reflexivity.
Qed.
End Config.
End DhcpProps.
