(* ===== verification/DhcpClient.v ===== *)
(** * The DHCP client (third_party/dhcp/client.go): [Run], lease times, backoff

    One turn of the loop of [Client.Run] is the function [iteration]; what the
    world answers in that turn (the outcome of the acquisition, the clock, the
    context) is the record [env].  Times are nanoseconds; the zero
    [time.Time] is 0 and lies before every reading of the clock. *)

From S2P Require Import Prelude Dhcp.
Import Dhcp.

Module DhcpClient.

Definition second : Z := 1000000000.

(** Arithmetic of [Seconds] (uint32) and of [time.Duration] (int64). *)
Definition u32 (z : Z) : Z := wrap 32 z.
Definition i64 (z : Z) : Z := let u := wrap 64 z in if u <? 2 ^ 63 then u else u - 2 ^ 64.

Definition Duration (s : Z) : Z := i64 (s * second).

Inductive dhcpClientState := initSelecting | bound | renewing | rebinding.

#[export] Instance dhcpClientState_eq : EqDecision dhcpClientState.
Proof. solve_decision. Defined.

(** The counters of [Stats]; a value stands for one increment. *)
Inductive stat :=
  | InitAcquire | RenewAcquire | RebindAcquire
  | SendDiscovers | RecvOffers | SendRequests | RecvAcks | RecvNaks
  | SendDiscoverErrors | SendRequestErrors
  | RecvOfferErrors | RecvOfferUnexpectedType | RecvOfferOptsDecodeErrors
  | RecvOfferTimeout | RecvOfferAcquisitionTimeout
  | RecvAckErrors | RecvNakErrors | RecvAckOptsDecodeErrors | RecvAckAddrErrors
  | RecvAckUnexpectedType | RecvAckTimeout | RecvAckAcquisitionTimeout.

#[export] Instance stat_eq : EqDecision stat.
Proof. solve_decision. Defined.

Section Client.
Context `{T : Tcpip}.

Record AddressWithPrefix := mkAwp { awp_addr : Address; awp_prefix : Z }.

#[export] Instance awp_eq : EqDecision AddressWithPrefix.
Proof. solve_decision. Defined.

Definition zeroAwp : AddressWithPrefix := mkAwp zeroAddress 0.

(** The fields of [Info] that change; the others ([NICID], [LinkAddr]) do not. *)
Record Info := mkInfo {
  Acquisition : Z;
  Backoff : Z;
  Retransmission : Z;
  Addr : AddressWithPrefix;
  Server : Address;
  State : dhcpClientState;
  OldAddr : AddressWithPrefix;
}.

(** The [Info] that [NewClient] stores. *)
Definition newInfo (acquisition backoff retransmission : Z) : Info :=
  mkInfo acquisition backoff retransmission zeroAwp zeroAddress initSelecting zeroAwp.

Definition set_State (i : Info) (s : dhcpClientState) : Info :=
  mkInfo (Acquisition i) (Backoff i) (Retransmission i) (Addr i) (Server i) s (OldAddr i).
Definition set_OldAddr (i : Info) (a : AddressWithPrefix) : Info :=
  mkInfo (Acquisition i) (Backoff i) (Retransmission i) (Addr i) (Server i) (State i) a.

(** ** Lease times *)

Definition defaultLeaseLength : Z := 12 * 3600.

(** The block of [Run] that fills in the times the server left out. *)
Definition normalize (cfg : Config) : Config :=
  let leaseLength := if LeaseLength cfg =? 0 then defaultLeaseLength else LeaseLength cfg in
  let renewTime :=
    if (negb (LeaseLength cfg =? 0) && (LeaseLength cfg <=? RenewTime cfg)) || (RenewTime cfg =? 0)
    then leaseLength / 2 else RenewTime cfg in
  let rebindTime :=
    if (negb (RenewTime cfg =? 0) && (RebindTime cfg <=? RenewTime cfg)) || (RebindTime cfg =? 0)
    then u32 (leaseLength * 875) / 1000 else RebindTime cfg in
  mkConfig (ServerAddress cfg) (SubnetMask cfg) (Router cfg) (DNS cfg) leaseLength renewTime rebindTime.

(** ** Backoff *)

Definition maxBackoff : Z := 64 * second.

(** [jitter] is the random number drawn, between -1s and +1s. *)
Definition exponentialBackoff (retransmission iteration jitter : Z) : res Z :=
  if retransmission =? 0 then Panic "integer divide by zero"
  else
    let backoff :=
      if negb (Z.shiftr (Z.quot maxBackoff retransmission) iteration =? 0)
      then i64 (retransmission * i64 (Z.shiftl 1 iteration)) else maxBackoff in
    let backoff := i64 (backoff + jitter) in
    Ok (if backoff <? 0 then 0 else backoff).

(** ** The loop of [Run] *)

(** A call of [acquiredFunc]. *)
Record call := mkCall { c_old : AddressWithPrefix; c_new : AddressWithPrefix; c_cfg : Config }.

(** The timer: not created, running until a time, or fired and received. *)
Inductive timer := TNil | TRunning (deadline : Z) | TFired.

Record rstate := mkR {
  r_info : Info;
  r_stored : Info;          (** [c.info], what [Client.Info] returns *)
  r_lease : Z;
  r_renew : Z;
  r_rebind : Z;
  r_timer : timer;
  r_calls : list call;
  r_resume : Z;             (** when the last turn ended: its wait is over by then *)
  r_stats : list stat;      (** the increments of [c.stats] by [Run] itself *)
}.

Record env := mkEnv {
  e_until : Z;              (** the clock at the start of the turn *)
  e_acquire : Z → Info → Info * res Config;  (** [acquire], given its timeout *)
  e_ctx_failed : bool;      (** [ctx.Err() != nil] after a failed acquisition *)
  e_now1 : Z;               (** [c.now()] after a successful one *)
  e_now2 : Z;               (** [c.now()] at the switch *)
  e_ctx_done : bool;        (** [ctx] is done at the wait *)
}.

Inductive outcome :=
  | Continue (s : rstate)
  | Return (s : rstate)
  | Blocked (s : rstate)    (** waits for a timer that will not fire, or in [acquire] *)
  | Paniced (msg : string).

(** [Client.cleanup]; [hasFunc] says whether [acquiredFunc] is set. *)
Definition cleanup (hasFunc : bool) (i : Info) (calls : list call) : Info * list call :=
  if bool_decide (OldAddr i = zeroAwp) then (i, calls)
  else (set_OldAddr i zeroAwp,
        if hasFunc then calls ++ [mkCall (OldAddr i) zeroAwp zeroConfig] else calls).

(** The deferred clean-up of [Run]. *)
Definition finish (hasFunc : bool) (s : rstate) : rstate :=
  let '(i, calls) := cleanup hasFunc (r_info s) (r_calls s) in
  mkR i i (r_lease s) (r_renew s) (r_rebind s) (r_timer s) calls (r_resume s) (r_stats s).

(** The timeout of the acquisition, by state. *)
Definition acquisition_timeout (e : env) (s : rstate) : res Z :=
  let t := Acquisition (r_info s) in
  match State (r_info s) with
  | initSelecting => Ok t
  | renewing => let til := r_rebind s - e_until e in Ok (if til <? t then til else t)
  | rebinding => let til := r_lease s - e_until e in Ok (if til <? t then til else t)
  | bound => Panic "unexpected state before acquire"
  end.

(** The counter of the attempt, by state. *)
Definition count_attempt (s : rstate) : rstate :=
  let st := match State (r_info s) with
            | initSelecting => [InitAcquire] | renewing => [RenewAcquire]
            | rebinding => [RebindAcquire] | bound => [] end in
  mkR (r_info s) (r_stored s) (r_lease s) (r_renew s) (r_rebind s) (r_timer s) (r_calls s) (r_resume s)
      (r_stats s ++ st).

(** The attempt to acquire a lease, and whether the loop goes on.  A panic of
    the acquisition is one of [Run]. *)
Definition attempt (hasFunc : bool) (e : env) (timeout : Z) (s : rstate) : rstate * res bool :=
  let '(i, r) := e_acquire e timeout (r_info s) in
  let s' := mkR i (r_stored s) (r_lease s) (r_renew s) (r_rebind s) (r_timer s) (r_calls s) (r_resume s) (r_stats s) in
  match r with
  | Ok cfg =>
    let cfg := normalize cfg in
    let calls := if hasFunc then r_calls s ++ [mkCall (OldAddr i) (Addr i) cfg] else r_calls s in
    (mkR (set_State (set_OldAddr i (Addr i)) bound) (r_stored s)
         (e_now1 e + Duration (LeaseLength cfg)) (e_now1 e + Duration (RenewTime cfg))
         (e_now1 e + Duration (RebindTime cfg)) (r_timer s) calls (r_resume s) (r_stats s), Ok true)
  | Err _ => (s', Ok (negb (e_ctx_failed e)))
  | Panic msg => (s', Panic msg)
  | NoFuel => (s', NoFuel)
  end.

(** The next state and how long to wait for it. *)
Definition next_state (now : Z) (s : rstate) : res (dhcpClientState * Z) :=
  if r_lease s <=? now then Ok (initSelecting, 0)
  else if r_rebind s <=? now then Ok (rebinding, 0)
  else if r_renew s <=? now then Ok (renewing, 0)
  else match State (r_info s) with
       | renewing | rebinding => Panic "invalid client state"
       | _ => Ok (renewing, r_renew s - now)
       end.

Definition set_timer (now w : Z) (t : timer) : timer :=
  match t with
  | TNil => TRunning (now + w)
  | _ => if w =? 0 then t else TRunning (now + w)
  end.

Definition iteration (hasFunc : bool) (e : env) (s : rstate) : outcome :=
  match acquisition_timeout e s with
  | Ok timeout =>
    match attempt hasFunc e timeout (count_attempt s) with
    | (s1, Ok false) => Return (finish hasFunc s1)
    | (s1, Ok true) =>
      let i := r_info s1 in
      let now := e_now2 e in
      match next_state now s1 with
      | Ok (next, w) =>
        let w := if bool_decide (State i = next) then Backoff i else w in
        let tm := set_timer now w (r_timer s1) in
        let s2 := mkR i i (r_lease s1) (r_renew s1) (r_rebind s1) tm (r_calls s1) now (r_stats s1) in
        let immediate := bool_decide (State i ≠ next) && bool_decide (next ≠ renewing) in
        if e_ctx_done e then Return (finish hasFunc s2)
        else
          match immediate, tm with
          | false, TFired => Blocked s2
          | _, _ =>
            let tm' := if immediate then tm else TFired in
            let '(i', calls) :=
              if bool_decide (State i ≠ initSelecting) && bool_decide (next = initSelecting)
              then cleanup hasFunc i (r_calls s2) else (i, r_calls s2) in
            let i'' := set_State i' next in
            let resume := match immediate, tm with false, TRunning dl => now `max` dl | _, _ => now end in
            Continue (mkR i'' i'' (r_lease s2) (r_renew s2) (r_rebind s2) tm' calls resume (r_stats s2))
          end
      | Panic msg => Paniced msg
      | _ => Paniced "unreachable"
      end
    | (s1, Panic msg) => Paniced msg
    | (s1, _) => Blocked s1
    end
  | Panic msg => Paniced msg
  | _ => Paniced "unreachable"
  end.

(** The state in which [Run] enters the loop. *)
Definition run_start (i : Info) : rstate := mkR (set_State i initSelecting) i 0 0 0 TNil [] 0 [].

(** The loop, over the answers of the world. *)
Fixpoint run (hasFunc : bool) (es : list env) (s : rstate) : outcome :=
  match es with
  | [] => Continue s
  | e :: es' =>
    match iteration hasFunc e s with
    | Continue s' => run hasFunc es' s'
    | o => o
    end
  end.
End Client.
End DhcpClient.
