(* ===== verification/DhcpClientProps.v ===== *)
(** * Properties of the DHCP client

    The lease times it uses, the bounds of its backoff, that its loop never
    reaches its own panics, and which addresses it reports. *)

From S2P Require Import Prelude Dhcp DhcpClient.
Import Dhcp DhcpClient.

Module DhcpClientProps.

Section Props.
Context `{T : Tcpip}.

(** ** Lease times *)

(** The times used for a lease: the renewal falls before the end of every
    lease whose length the server gave.  If the server gave no other time,
    and the length is at least 3 seconds and less than 4908535 (about 56
    days), renewal, rebinding and the end of the lease follow each other as
    RFC 2131 demands. *)
Theorem lease_times (cfg : Config) :
  0 < LeaseLength cfg < 2 ^ 32 →
  RenewTime (normalize cfg) < LeaseLength (normalize cfg) ∧
  LeaseLength (normalize cfg) = LeaseLength cfg ∧
  (RenewTime cfg = 0 → RebindTime cfg = 0 → 3 ≤ LeaseLength cfg < 4908535 →
   0 < RenewTime (normalize cfg) < RebindTime (normalize cfg) ∧
   RebindTime (normalize cfg) < LeaseLength (normalize cfg)).
Proof.
  intros Hl. unfold normalize. cbn [RenewTime LeaseLength RebindTime].
  rewrite (proj2 (Z.eqb_neq (LeaseLength cfg) 0)) by lia. cbn [negb andb].
  pose proof (Z.div_lt (LeaseLength cfg) 2 ltac:(lia) ltac:(lia)). split_and!; [|done|].
  - destruct (LeaseLength cfg <=? RenewTime cfg) eqn:E1; bool_prop; [done|].
    destruct (RenewTime cfg =? 0) eqn:E2; cbn; lia.
  - intros -> -> Hr. rewrite (proj2 (Z.leb_gt _ _)) by lia. cbn. unfold u32.
    rewrite wrap_small by lia.
    pose proof (Z.div_mod (LeaseLength cfg) 2 ltac:(lia)).
    pose proof (Z.mod_pos_bound (LeaseLength cfg) 2 ltac:(lia)).
    pose proof (Z.div_mod (LeaseLength cfg * 875) 1000 ltac:(lia)).
    pose proof (Z.mod_pos_bound (LeaseLength cfg * 875) 1000 ltac:(lia)). lia.
Qed.

(** ** Backoff *)

Lemma i64_small z : - 2 ^ 63 ≤ z < 2 ^ 63 → i64 z = z.
Proof.
  intros Hz. unfold i64, wrap. destruct (decide (0 ≤ z)).
  - rewrite Z.mod_small by lia. by rewrite (proj2 (Z.ltb_lt _ _)) by lia.
  - rewrite <-(Z_mod_plus_full z 1), Z.mod_small by lia.
    rewrite (proj2 (Z.ltb_ge _ _)) by lia. lia.
Qed.

(** The delay before a retransmission is never negative and at most 65
    seconds, for every iteration: the doubling stops at 64 seconds before the
    64-bit product can overflow.  While it doubles, the delay is the base
    delay times a power of two, up to the jitter. *)
Theorem backoff_bounds (retransmission iteration jitter : Z) :
  0 < retransmission < 2 ^ 63 → 0 ≤ iteration → - second ≤ jitter ≤ second →
  ∃ d, exponentialBackoff retransmission iteration jitter = Ok d ∧ 0 ≤ d ≤ maxBackoff + second ∧
    (retransmission * 2 ^ iteration ≤ maxBackoff →
     d = Z.max 0 (retransmission * 2 ^ iteration + jitter)).
Proof.
  intros Hr Hi Hj. assert (second = 1000000000) as Es by done. assert (maxBackoff = 64000000000) as Em by done.
  unfold exponentialBackoff. rewrite (proj2 (Z.eqb_neq _ _)) by lia.
  rewrite Z.quot_div_nonneg, Z.shiftr_div_pow2 by lia.
  assert (0 < 2 ^ iteration) as Hp by (apply Z.pow_pos_nonneg; lia).
  rewrite Z.div_div by lia.
  set (b := if negb _ then _ else _).
  assert (0 ≤ b ≤ maxBackoff ∧ (retransmission * 2 ^ iteration ≤ maxBackoff →
            b = retransmission * 2 ^ iteration)) as [Hb Heq].
  { unfold b. destruct (maxBackoff / (retransmission * 2 ^ iteration) =? 0) eqn:E; bool_prop; cbn [negb].
    - split; [lia|]. intros Hle. apply Z.div_small_iff in E; nia.
    - assert (retransmission * 2 ^ iteration ≤ maxBackoff).
      { destruct (decide (retransmission * 2 ^ iteration ≤ maxBackoff)) as [|Hn]; [done|].
        rewrite Z.div_small in E by lia. done. }
      rewrite Z.shiftl_1_l, (i64_small (2 ^ iteration)) by nia. rewrite i64_small by nia. nia. }
  rewrite i64_small by lia. eexists. split; [done|]. case_test; split; try lia; intros Hle; rewrite <-Heq by done; lia.
Qed.

(** ** The loop *)

(** A result that is returned: neither a panic nor a computation that is still
    waiting. *)
Definition settled {A} (r : res A) : Prop := match r with Ok _ | Err _ => True | _ => False end.

(** [acquire] returns, and changes only the address and the server of [info]. *)
Definition acquire_ok (e : env) : Prop :=
  ∀ t i, State i ≠ bound → Retransmission i ≠ 0 → let '(i', r) := e_acquire e t i in
    State i' = State i ∧ OldAddr i' = OldAddr i ∧ Backoff i' = Backoff i ∧
    Retransmission i' = Retransmission i ∧ settled r.

(** The clock does not run backwards, and a turn starts when the wait of the
    one before it is over. *)
Definition turn_ok (e : env) (s : rstate) : Prop :=
  acquire_ok e ∧ 0 < e_until e ∧ r_resume s ≤ e_until e ≤ e_now1 e ∧ e_now1 e ≤ e_now2 e.

Fixpoint timely (hasFunc : bool) (es : list env) (s : rstate) : Prop :=
  match es with
  | [] => True
  | e :: es' => turn_ok e s ∧
    match iteration hasFunc e s with Continue s' => timely hasFunc es' s' | _ => True end
  end.

(** The state at the start of a turn. *)
Record loop_ok (s : rstate) : Prop := {
  lo_bound : State (r_info s) ≠ bound;
  lo_renew : State (r_info s) = renewing → r_renew s ≤ r_resume s;
  lo_rebind : State (r_info s) = rebinding → r_rebind s ≤ r_resume s;
  lo_init : State (r_info s) = initSelecting → OldAddr (r_info s) = zeroAwp;
  lo_retr : Retransmission (r_info s) ≠ 0;
}.

(** The calls of [acquiredFunc] hand over the address: each one is told the
    address that the one before it was given. *)
Fixpoint handed_over (a : AddressWithPrefix) (calls : list call) (b : AddressWithPrefix) : Prop :=
  match calls with
  | [] => a = b
  | c :: calls' => c_old c = a ∧ handed_over (c_new c) calls' b
  end.

Lemma handed_over_app a calls b c :
  handed_over a calls b → c_old c = b → handed_over a (calls ++ [c]) (c_new c).
Proof.
  revert a. induction calls as [|c0 calls IH]; intros a; cbn; [by intros ->|].
  intros [? ?] ?. split; [done|]. by apply IH.
Qed.

Lemma cleanup_spec a i calls :
  handed_over a calls (OldAddr i) →
  let '(i', calls') := cleanup true i calls in
  OldAddr i' = zeroAwp ∧ Retransmission i' = Retransmission i ∧ handed_over a calls' zeroAwp.
Proof.
  intros Hc. unfold cleanup. case_bool_decide as E; [by rewrite E in Hc|].
  split_and!; [done|done|]. by apply (handed_over_app _ _ _ (mkCall (OldAddr i) zeroAwp zeroConfig) Hc).
Qed.

Lemma finish_spec a s :
  handed_over a (r_calls s) (OldAddr (r_info s)) →
  OldAddr (r_info (finish true s)) = zeroAwp ∧ handed_over a (r_calls (finish true s)) zeroAwp ∧
  r_stored (finish true s) = r_info (finish true s).
Proof.
  intros Hc. pose proof (cleanup_spec a _ _ Hc) as H. unfold finish.
  destruct (cleanup true (r_info s) (r_calls s)). by destruct H as (? & _ & ?).
Qed.

(** The acquisition, successful or not. *)
Lemma attempt_spec a e timeout s :
  acquire_ok e → State (r_info s) ≠ bound → Retransmission (r_info s) ≠ 0 → handed_over a (r_calls s) (OldAddr (r_info s)) →
  ∃ s1 go_on, attempt true e timeout s = (s1, Ok go_on) ∧
  handed_over a (r_calls s1) (OldAddr (r_info s1)) ∧ r_resume s1 = r_resume s ∧ r_timer s1 = r_timer s ∧
  Retransmission (r_info s1) ≠ 0 ∧
  (State (r_info s1) = bound ∨
   State (r_info s1) = State (r_info s) ∧ OldAddr (r_info s1) = OldAddr (r_info s) ∧
   r_renew s1 = r_renew s ∧ r_rebind s1 = r_rebind s).
Proof.
  intros Ha Hb Hn Hc. unfold attempt. specialize (Ha timeout (r_info s) Hb Hn).
  destruct (e_acquire e timeout (r_info s)) as [i r]. destruct Ha as (Hst & Hold & _ & Hret & Hr).
  assert (handed_over a (r_calls s) (OldAddr i)) as Hc' by (by rewrite Hold).
  destruct r as [cfg| | |]; [..|done|done]; eexists _, _; (split; [done|]); cbn; split_and!; try done; try (right; done); try (by rewrite Hret).
  - exact (handed_over_app _ _ _ (mkCall (OldAddr i) (Addr i) (normalize cfg)) Hc' eq_refl).
  - by left.
Qed.

(** What a turn, or the loop, must leave behind. *)
Definition outcome_ok (a : AddressWithPrefix) (o : outcome) : Prop :=
  match o with
  | Continue s' => loop_ok s' ∧ handed_over a (r_calls s') (OldAddr (r_info s'))
  | Return s' => OldAddr (r_info s') = zeroAwp ∧ handed_over a (r_calls s') zeroAwp
  | Blocked s' => handed_over a (r_calls s') (OldAddr (r_info s'))
  | Paniced _ => False
  end.

(** The next state, when the times that led to the present one have passed. *)
Lemma next_state_spec now s :
  (State (r_info s) = renewing → r_renew s ≤ now) → (State (r_info s) = rebinding → r_rebind s ≤ now) →
  ∃ n w, next_state now s = Ok (n, w) ∧ n ≠ bound ∧
    (n = renewing → r_renew s ≤ now ∨ (0 < w ∧ now + w = r_renew s ∧ State (r_info s) ≠ renewing)) ∧
    (n = rebinding → r_rebind s ≤ now).
Proof.
  intros Hrn Hrb. unfold next_state. case_test; [by eexists _, _|].
  case_test; [eexists _, _; split_and!; [done|done|done|by intros _]|].
  case_test; [eexists _, _; split_and!; [done|done|intros _; by left|done]|].
  destruct (State (r_info s)) eqn:Es;
    (eexists renewing, _; split_and!; [done|done|intros _; right; split_and!; [lia|lia|done]|done]) ||
    (exfalso; first [specialize (Hrn eq_refl)|specialize (Hrb eq_refl)]; lia).
Qed.

(** The end of a turn, when the wait is over. *)
Lemma turn_end a s n tm resume st :
  n ≠ bound → Retransmission (r_info s) ≠ 0 → (n = renewing → r_renew s ≤ resume) → (n = rebinding → r_rebind s ≤ resume) →
  (State (r_info s) = initSelecting → OldAddr (r_info s) = zeroAwp) →
  handed_over a (r_calls s) (OldAddr (r_info s)) →
  outcome_ok a (let '(i', calls) :=
           if bool_decide (State (r_info s) ≠ initSelecting) && bool_decide (n = initSelecting)
           then cleanup true (r_info s) (r_calls s) else (r_info s, r_calls s) in
         Continue (mkR (set_State i' n) (set_State i' n) (r_lease s) (r_renew s) (r_rebind s) tm calls resume st)).
Proof.
  intros Hnb Hret Hr1 Hr2 Hin Hc.
  destruct (bool_decide (State (r_info s) ≠ initSelecting) && bool_decide (n = initSelecting)) eqn:Ecl.
  - pose proof (cleanup_spec a _ _ Hc) as Hcl. destruct (cleanup true (r_info s) (r_calls s)) as [i' calls].
    destruct Hcl as (Hz & Ht & Hcl). split; [|cbn; by rewrite Hz]. split; cbn; [done..|by rewrite Ht].
  - split; [|done]. split; cbn; [done|done|done| |done].
    intros ->. rewrite andb_false_iff, !bool_decide_eq_false in Ecl.
    destruct Ecl as [Ecl|Ecl]; [|done]. apply dec_stable in Ecl. auto.
Qed.

Lemma iteration_ok a e s :
  loop_ok s → turn_ok e s → handed_over a (r_calls s) (OldAddr (r_info s)) → outcome_ok a (iteration true e s).
Proof.
  intros [Hb Hrn Hrb Hin Hret] (Ha & Hpos & Hu & Hn) Hc. unfold iteration.
  assert (∃ t, acquisition_timeout e s = Ok t) as [t ->].
  { unfold acquisition_timeout. destruct (State (r_info s)); by eauto. }
  destruct (attempt_spec a e t (count_attempt s) Ha Hb Hret Hc) as (s1 & go_on & -> & Hc1 & Hres & Htm & Hret1 & Hst).
  cbn [count_attempt r_info r_resume r_timer r_renew r_rebind] in Hres, Htm, Hst.
  destruct go_on.
  2: { destruct (finish_spec a s1 Hc1) as (? & ? & _). done. }
  destruct (next_state_spec (e_now2 e) s1) as (n & w & -> & Hnb & Hren & Hreb).
  1, 2: destruct Hst as [->|(-> & _ & E1 & E2)]; [done|]; intros E; specialize (Hrn E) || specialize (Hrb E); lia.
  set (i := r_info s1) in *. set (w' := if bool_decide (State i = n) then Backoff i else w).
  set (tm := set_timer (e_now2 e) w' (r_timer s1)).
  set (s2 := mkR i i _ _ _ tm _ _ _). set (imm := bool_decide _ && bool_decide _).
  destruct (e_ctx_done e).
  { destruct (finish_spec a s2 Hc1) as (? & ? & _). done. }
  assert (State i = initSelecting → OldAddr i = zeroAwp) as Hin1.
  { intros E. destruct Hst as [Hst|(Hs & Ho & _)]; [by rewrite Hst in E|]. rewrite Ho. apply Hin. by rewrite <-Hs. }
  assert (n = renewing → r_renew s1 ≤ e_now2 e ∨ tm = TRunning (r_renew s1)) as Htimer.
  { intros Hn1. destruct (Hren Hn1) as [?|(Hw & Hr & Hs)]; [by left|right].
    assert (w' = w) as Ew by (unfold w'; rewrite bool_decide_false; [done|by rewrite Hn1]).
    unfold tm, set_timer. rewrite Ew, (proj2 (Z.eqb_neq _ _)), Hr by lia. by destruct (r_timer s1). }
  destruct imm eqn:Eimm.
  { apply (turn_end a s2); [done|done| |done|done|done]. intros ->. unfold imm in Eimm. by rewrite andb_false_r in Eimm. }
  destruct tm as [|dl|] eqn:Etm.
  - exfalso. unfold tm, set_timer in Etm. destruct (r_timer s1); [done|..]; by destruct (w' =? 0).
  - apply (turn_end a s2); [done|done| | |done|done].
    + intros Hn1. destruct (Htimer Hn1) as [?|[= ->]]; cbn; lia.
    + intros Hn1. specialize (Hreb Hn1). cbn. lia.
  - exact Hc1.
Qed.

Lemma run_ok a es s :
  loop_ok s → timely true es s → handed_over a (r_calls s) (OldAddr (r_info s)) → outcome_ok a (run true es s).
Proof.
  revert s. induction es as [|e es IH]; intros s Hs Ht Hc; [done|]. destruct Ht as [Hturn Ht].
  cbn [run]. pose proof (iteration_ok a e s Hs Hturn Hc) as Hi.
  destruct (iteration true e s) as [s'| | |]; [|done..].
  destruct Hi. by apply IH.
Qed.

(** The loop of [Run] never reaches its panics, whatever leases or errors
    the acquisitions return, as long as the clock does not run backwards and timers do not
    fire early.  The calls of [acquiredFunc] hand the address over: each is
    told the address given to the call before it, starting from none, and
    when [Run] returns the last address has been taken back.  No address is
    held when a new one is searched for after the lease has expired. *)
Theorem run_safe (i : Info) (es : list env) :
  OldAddr i = zeroAwp → Retransmission i ≠ 0 → timely true es (run_start i) →
  match run true es (run_start i) with
  | Continue s => handed_over zeroAwp (r_calls s) (OldAddr (r_info s)) ∧
      (State (r_info s) = initSelecting → OldAddr (r_info s) = zeroAwp)
  | Return s => OldAddr (r_info s) = zeroAwp ∧ handed_over zeroAwp (r_calls s) zeroAwp
  | Blocked s => handed_over zeroAwp (r_calls s) (OldAddr (r_info s))
  | Paniced _ => False
  end.
Proof.
  intros Hi Hret Ht. pose proof (run_ok zeroAwp es (run_start i)) as Hr.
  assert (loop_ok (run_start i)) as Hs by (by split).
  specialize (Hr Hs Ht). cbn [r_calls r_info run_start handed_over] in Hr.
  assert (zeroAwp = OldAddr (set_State i initSelecting)) as Hz by (symmetry; exact Hi).
  specialize (Hr Hz).
  destruct (run true es (run_start i)) as [s| | |]; try done. destruct Hr as [[_ _ _ ? _] ?]. done.
Qed.
End Props.
End DhcpClientProps.
