(* ===== verification/DhcpAcquire.v ===== *)
(** * One DHCP transaction (third_party/dhcp/client.go: [acquire], [send], [recv])

    The network is a value [net]: what the endpoint delivers, in order
    (packets, the retransmission timeout, the end of the context, read
    errors), whether each write succeeds (a UDP write that would block, on
    which the code panics, is not among the answers), and what the transaction has done so
    far: the packets it sent, the counters it incremented, the timers it
    started, and its calls of the network stack on addresses, endpoints and
    the waiter queue.  What the
    stack answers to these calls is the record [answers].  A transaction that
    runs out of deliveries is still waiting, which is [NoFuel]. *)

From S2P Require Import Prelude Entry Dhcp DhcpClient.
Import Dhcp DhcpClient.

Module DhcpAcquire.

(** [net.IPMask.Size]: the number of leading ones of a mask, 0 if other ones
    follow. *)
Definition bits_of (b : byte) : list bool :=
  (λ i, Z.testbit (b2z b) (7 - Z.of_nat i)) <$> seq 0 8.

Fixpoint leading_ones (l : list bool) : Z :=
  match l with true :: l' => 1 + leading_ones l' | _ => 0 end.

Definition mask_size (m : bytes) : Z :=
  let bits := concat (bits_of <$> m) in
  let n := leading_ones bits in
  if existsb (λ b, b) (zdrop n bits) then 0 else n.

Section Acquire.
Context `{T : Tcpip}.
(** [AddressWithPrefix.Subnet().Mask()] of the network stack. *)
Context (subnet_mask : AddressWithPrefix → AddressMask).
(** [header.IPv4Broadcast] of the network stack. *)
Context (IPv4Broadcast : Address).
(** [header.IPv4Any] of the network stack. *)
Context (IPv4Any : Address).

Inductive delivery :=
  | Packet (from : Address) (data : bytes)
  | Timeout
  | CtxDone
  | ReadError.

(** The endpoint for writes before there is an address, and the one on which
    the answers arrive. *)
Inductive endpoint := SendEP | RecvEP.

#[export] Instance endpoint_eq : EqDecision endpoint.
Proof. solve_decision. Defined.

(** The calls of the network stack. *)
Inductive sockop :=
  | AddAny                                  (** [AddProtocolAddress] of 0.0.0.0 *)
  | RemoveAny
  | NewEndpoint (e : endpoint)
  | BindToDevice (e : endpoint)
  | SetBroadcast (e : endpoint)
  | Bind (e : endpoint) (a : Address)
  | EventRegister
  | EventUnregister
  | Write (e : endpoint)
  | Close (e : endpoint).

#[export] Instance sockop_eq : EqDecision sockop.
Proof. solve_decision. Defined.

Record net := mkNet {
  n_in : list delivery;
  n_writes : list bool;
  n_sent : list (Address * bytes);   (** destination and payload *)
  n_stats : list stat;
  n_ops : list sockop;
  n_delays : list Z;                 (** the retransmission timers started *)
}.

Definition add_stat (n : net) (s : stat) : net :=
  mkNet (n_in n) (n_writes n) (n_sent n) (n_stats n ++ [s]) (n_ops n) (n_delays n).
Definition add_op (n : net) (o : sockop) : net :=
  mkNet (n_in n) (n_writes n) (n_sent n) (n_stats n) (n_ops n ++ [o]) (n_delays n).

(** [c.stats.X.Increment()] and a call of the stack. *)
Definition count (s : stat) : M (Info * net) unit := λ '(i, n), (i, add_stat n s, Ok ()).
Definition sock (o : sockop) : M (Info * net) unit := λ '(i, n), (i, add_op n o, Ok ()).

(** The client's constant parameters. *)
Record client := mkClient {
  clientID : bytes;
  hostname : bytes;
  linkAddr : bytes;
  xid_bytes : bytes;       (** the four random bytes of the transaction *)
  jitter : bool → Z → Z;   (** the random part of the delays, by loop and turn *)
}.

(** ** [send] *)

(** The packet that [send] builds. *)
Definition build (c : client) (i : Info) (opts : list option) (broadcast ciaddr : bool) : res hdr :=
  let h := replicate (Z.to_nat (headerBaseSize + options_len opts + 1)) x00 in
  h ← hdr_init h;
  h ← setOp h opRequest;
  h ← copy_slice h 4 8 (xid_bytes c);
  h ← (if broadcast then setBroadcast h else Ok h);
  h ← (if ciaddr then copy_slice h 12 16 (AsSlice (awp_addr (Addr i))) else Ok h);
  h ← copy_slice h 28 44 (linkAddr c);
  setOptions h opts.

Definition send (c : client) (ep : endpoint) (to : Address) (opts : list option) (broadcast ciaddr : bool)
    : M (Info * net) unit := λ '(i, n),
  match build c i opts broadcast ciaddr with
  | Ok h =>
    match dhcpMsgType opts with
    | Ok _ =>
      let n' := mkNet (n_in n) (tail (n_writes n)) (n_sent n ++ [(to, h)]) (n_stats n)
                      (n_ops n ++ [Write ep]) (n_delays n) in
      (i, n', match n_writes n with false :: _ => Err "client write" | _ => Ok () end)
    | Err e => (i, n, Panic e)
    | Panic e => (i, n, Panic e)
    | NoFuel => (i, n, NoFuel)
    end
  | Err e => (i, n, Err e)
  | Panic e => (i, n, Panic e)
  | NoFuel => (i, n, NoFuel)
  end.

(** ** [recv] *)

(** What [recv] returns: a message; [timedOut] without an error; or an error,
    with [timedOut] if the context is done. *)
Inductive received :=
  | Message (from addr : Address) (opts : list option) (typ : Z)
  | TimedOut
  | Failed (timedOut : bool).

(** The handling of one packet: [None] if it is for another client. *)
Definition accept (c : client) (from : Address) (h : hdr) : res (Datatypes.option received) :=
  valid ← isValid h;
  if negb valid then Err "invalid hdr"
  else
    o ← hdr_op h;
    if negb (o =? opReply) then Err "op-code"
    else
      x ← xidbytes h;
      if bool_decide (x ≠ xid_bytes c) then Ok None
      else
        opts ← match options h with Err _ => Err "invalid options" | r => r end;
        typ ← match dhcpMsgType opts with Err _ => Err "invalid type" | r => r end;
        y ← yiaddr h;
        a ← AddrFromSlice y;
        mret (Some (Message from a opts typ)).

Fixpoint recv_from (c : client) (ds : list delivery) : list delivery * res received :=
  match ds with
  | [] => ([], NoFuel)
  | Timeout :: ds' => (ds', Ok TimedOut)
  | CtxDone :: ds' => (ds', Ok (Failed true))
  | ReadError :: ds' => (ds', Ok (Failed false))
  | Packet from h :: ds' =>
    match accept c from h with
    | Ok None => recv_from c ds'
    | Ok (Some r) => (ds', Ok r)
    | Err _ => (ds', Ok (Failed false))
    | Panic e => (ds', Panic e)
    | NoFuel => (ds', NoFuel)
    end
  end.

Definition recv (c : client) : M (Info * net) received := λ '(i, n),
  let '(ds, r) := recv_from c (n_in n) in
  (i, mkNet ds (n_writes n) (n_sent n) (n_stats n) (n_ops n) (n_delays n), r).

(** ** [acquire] *)

Definition commonOpts (c : client) : list option :=
  [mkOption optParamReq [x01; x03; x0f; x06]]
  ++ (if len (clientID c) =? 0 then [] else [mkOption optClientID (clientID c)])
  ++ (if len (hostname c) =? 0 then [] else [mkOption optHostname (hostname c)]).

Definition discOpts (c : client) (requested : AddressWithPrefix) : list option :=
  [mkOption optDHCPMsgType [z2b dhcpDISCOVER]] ++ commonOpts c
  ++ (if AddrLen (awp_addr requested) =? 0 then []
      else [mkOption optReqIPAddr (AsSlice (awp_addr requested))]).

Definition reqOpts (c : client) (i : Info) (requested : AddressWithPrefix) : list option :=
  [mkOption optDHCPMsgType [z2b dhcpREQUEST]] ++ commonOpts c
  ++ (if bool_decide (State i = initSelecting)
      then [mkOption optDHCPServer (AsSlice (Server i));
            mkOption optReqIPAddr (AsSlice (awp_addr requested))] else []).

Definition get_info : M (Info * net) Info := λ '(i, n), (i, n, Ok i).
Definition set_Server (a : Address) : M (Info * net) unit := λ '(i, n),
  (mkInfo (Acquisition i) (Backoff i) (Retransmission i) (Addr i) a (State i) (OldAddr i), n, Ok ()).
Definition set_Addr (a : AddressWithPrefix) : M (Info * net) unit := λ '(i, n),
  (mkInfo (Acquisition i) (Backoff i) (Retransmission i) a (Server i) (State i) (OldAddr i), n, Ok ()).

(** A send with its counters. *)
Definition counted (ok failed : stat) (msg : error) (m : M (Info * net) unit) : M (Info * net) unit := λ st,
  match m st with
  | (st', Ok _) => count ok st'
  | (st', Err _) => (_ ← count failed; lift (Err msg)) st'
  | (st', Panic e) => (st', Panic e)
  | (st', NoFuel) => (st', NoFuel)
  end.

(** An error with its counter. *)
Definition fails {A} (s : stat) (msg : error) : M (Info * net) A := _ ← count s; lift (Err msg).

(** [c.retransTimeout(c.exponentialBackoff(k))]: the timer of turn [k].  The
    retransmission time of [c.Info()] is that of [info]: nothing changes it. *)
Definition arm_timer (c : client) (loop : bool) (k : Z) : M (Info * net) unit := λ '(i, n),
  match exponentialBackoff (Retransmission i) k (jitter c loop k) with
  | Ok d => (i, mkNet (n_in n) (n_writes n) (n_sent n) (n_stats n) (n_ops n) (n_delays n ++ [d]), Ok ())
  | Err e => (i, n, Err e)
  | Panic e => (i, n, Panic e)
  | NoFuel => (i, n, NoFuel)
  end.

(** The labelled loops: [k] is the turn of the outer loop, and [resend] is true
    when that turn starts.  Every turn consumes a delivery. *)
Fixpoint discover (fuel : nat) (c : client) (ep : endpoint) (to : Address) (opts : list option) (k : Z)
    (resend : bool) : M (Info * net) AddressWithPrefix :=
  match fuel with
  | O => lift NoFuel
  | S fuel' =>
    _ ← (if resend then
           _ ← counted SendDiscovers SendDiscoverErrors "DISCOVER" (send c ep to opts true false); arm_timer c false k
         else mret ());
    r ← recv c;
    match r with
    | Failed timedOut =>
      fails (if (timedOut : bool) then RecvOfferAcquisitionTimeout else RecvOfferErrors) "recv OFFER"
    | TimedOut => _ ← count RecvOfferTimeout; discover fuel' c ep to opts (k + 1) true
    | Message from addr ropts typ =>
      if negb (typ =? dhcpOFFER) then _ ← count RecvOfferUnexpectedType; discover fuel' c ep to opts k false
      else
        _ ← count RecvOffers;
        match decode ropts with
        | Ok cfg =>
          _ ← set_Server (ServerAddress cfg);
          i ← get_info;
          let mask := if MaskLen (SubnetMask cfg) =? 0 then subnet_mask (Addr i) else SubnetMask cfg in
          mret (mkAwp addr (mask_size (MaskAsSlice mask)))
        | Err _ => fails RecvOfferOptsDecodeErrors "OFFER decode"
        | Panic e => lift (Panic e)
        | NoFuel => lift NoFuel
        end
    end
  end.

Fixpoint request (fuel : nat) (c : client) (ep : endpoint) (to : Address) (opts : list option)
    (requested : AddressWithPrefix) (init : bool) (k : Z) (resend : bool) : M (Info * net) Config :=
  match fuel with
  | O => lift NoFuel
  | S fuel' =>
    _ ← (if resend then
           _ ← counted SendRequests SendRequestErrors "REQUEST" (send c ep to opts init (negb init)); arm_timer c true k
         else mret ());
    r ← recv c;
    match r with
    | Failed timedOut =>
      fails (if (timedOut : bool) then RecvAckAcquisitionTimeout else RecvAckErrors) "recv ACK"
    | TimedOut => _ ← count RecvAckTimeout; request fuel' c ep to opts requested init (k + 1) true
    | Message from addr ropts typ =>
      if typ =? dhcpACK then
        match decode ropts with
        | Ok cfg =>
          if bool_decide (mkAwp addr (mask_size (MaskAsSlice (SubnetMask cfg))) ≠ requested)
          then fails RecvAckAddrErrors "ACK with unexpected address"
          else _ ← count RecvAcks; _ ← set_Addr requested; mret cfg
        | Err _ => fails RecvAckOptsDecodeErrors "ACK decode"
        | Panic e => lift (Panic e)
        | NoFuel => lift NoFuel
        end
      else if typ =? dhcpNAK then
        if negb (len (message ropts) =? 0) then fails RecvNakErrors "NAK with message"
        else fails RecvNaks "empty NAK"
      else _ ← count RecvAckUnexpectedType; request fuel' c ep to opts requested init k false
    end
  end.

(** The destination of the transaction's packets: renewals go to the server,
    everything else is broadcast. *)
Definition write_to (i : Info) : Address :=
  match State i with renewing => Server i | _ => IPv4Broadcast end.

(** The exchange of messages, once the endpoints are set up. *)
Definition transact (c : client) (ep : endpoint) : M (Info * net) Config := λ '(i, n),
  let fuel := S (length (n_in n)) in
  let init := bool_decide (State i = initSelecting) in
  (requested ← (if init then discover fuel c ep (write_to i) (discOpts c (Addr i)) 0 true else mret (Addr i));
   i' ← get_info;
   request fuel c ep (write_to i) (reqOpts c i' requested) requested init 0 true) (i, n).

(** ** The endpoints *)

(** What the stack and the random generator answer: an error or none. *)
Record answers := mkAnswers {
  a_add : Datatypes.option error;
  a_remove : Datatypes.option error;
  a_new : endpoint → Datatypes.option error;
  a_bind : endpoint → Datatypes.option error;
  a_rand : Datatypes.option error;
}.

(** A deferred call: it runs when the function returns or panics, and may
    panic itself; a function that waits has not run it. *)
Definition defer {S A} (d : M S unit) (m : M S A) : M S A := λ s,
  match m s with
  | (s', NoFuel) => (s', NoFuel)
  | (s', r) =>
    match d s' with
    | (s'', Ok _) => (s'', r)
    | (s'', Err e) | (s'', Panic e) => (s'', Panic e)
    | (s'', NoFuel) => (s'', NoFuel)
    end
  end.

(** A call of the stack that does nothing if it fails. *)
Definition try_sock (a : Datatypes.option error) (o : sockop) (msg : error) : M (Info * net) unit :=
  match a with None => sock o | Some _ => lift (Err msg) end.

(** The endpoint for answers, bound to [addr]; [ep] is the one for writes. *)
Definition with_recv (a : answers) (c : client) (ep : endpoint) (addr : Address) : M (Info * net) Config :=
  _ ← try_sock (a_new a RecvEP) (NewEndpoint RecvEP) "stack.NewEndpoint()";
  defer (sock (Close RecvEP)) (
    i ← get_info;
    _ ← sock (BindToDevice ep);
    _ ← (if bool_decide (write_to i = IPv4Broadcast) then sock (SetBroadcast ep) else mret ());
    _ ← try_sock (a_bind a RecvEP) (Bind RecvEP addr) "Bind";
    _ ← sock EventRegister;
    defer (sock EventUnregister) (
      _ ← lift (match a_rand a with None => Ok () | Some _ => Err "c.rand.Read()" end);
      transact c ep)).

(** [acquire].  Failures to add or to remove the unspecified address panic. *)
Definition acquire (a : answers) (c : client) : M (Info * net) Config :=
  i ← get_info;
  match State i with
  | initSelecting =>
    _ ← (match a_add a with None => sock AddAny | Some _ => lift (Panic "AddProtocolAddress") end);
    defer (match a_remove a with None => sock RemoveAny | Some _ => lift (Panic "RemoveAddress") end) (
      _ ← try_sock (a_new a SendEP) (NewEndpoint SendEP) "stack.NewEndpoint";
      defer (sock (Close SendEP)) (
        _ ← sock (BindToDevice SendEP);
        _ ← try_sock (a_bind a SendEP) (Bind SendEP IPv4Any) "send ep Bind";
        with_recv a c SendEP IPv4Broadcast))
  | renewing | rebinding => with_recv a c RecvEP (awp_addr (Addr i))
  | bound => lift (Panic "unknown client state")
  end.
End Acquire.
End DhcpAcquire.
