(* ===== verification/DhcpAcquireProps.v ===== *)
(** * Properties of a DHCP transaction

    The packets the client sends are valid and carry its options; an address
    is taken only on the word of an ACK for it. *)

From S2P Require Import Prelude Entry Dhcp DhcpProps DhcpClient DhcpClientProps DhcpAcquire.
Import Dhcp DhcpProps DhcpClient DhcpClientProps DhcpAcquire.

Module DhcpAcquireProps.

Create HintDb dhcp.

(** ** Building a packet *)

Lemma set_lookup h i v :
  0 ≤ i < len h → ∃ h', set h i v = Ok h' ∧ len h' = len h ∧
    ∀ j, h' !! j = if decide (j = Z.to_nat i) then Some v else h !! j.
Proof.
  intros Hi. unfold set. rewrite (proj2 (Z.ltb_lt _ _)) by lia. eexists. split; [done|].
  split; [unfold len; by rewrite length_insert|]. intros j. case_decide as E.
  - subst. apply list_lookup_insert_eq. unfold len in Hi. lia.
  - by apply list_lookup_insert_ne.
Qed.

Lemma copy_slice_lookup h a b src :
  0 ≤ a ≤ b → b ≤ len h → ∃ h', copy_slice h a b src = Ok h' ∧ len h' = len h ∧
    ∀ j, h' !! j = if decide (a ≤ Z.of_nat j < a + (len src `min` (b - a)))
                   then src !! (j - Z.to_nat a)%nat else h !! j.
Proof.
  intros Ha Hb. unfold copy_slice. rewrite (proj2 (Z.leb_le _ _)) by lia. eexists. split; [done|].
  split; [unfold len; by rewrite length_copy_at|]. intros j. unfold copy_at, ztake, len in *.
  set (x := take _ src). set (o := Z.to_nat a).
  assert (length x = Z.to_nat (Z.of_nat (length src) `min` (b - a))) as Hx by (unfold x; rewrite length_take; lia).
  rewrite (take_ge x) by lia.
  replace (length x `min` (length h - o))%nat with (length x) by lia.
  destruct (decide (j < o)%nat).
  { rewrite decide_False by lia. rewrite lookup_app_l by (rewrite length_take; lia). by rewrite lookup_take_lt by lia. }
  rewrite lookup_app_r by (rewrite length_take; lia). rewrite length_take.
  replace (o `min` length h)%nat with o by lia.
  destruct (decide (j - o < length x)%nat).
  - rewrite decide_True by lia. rewrite lookup_app_l by lia. unfold x. apply lookup_take_lt. lia.
  - rewrite decide_False by lia. rewrite lookup_app_r by lia. rewrite lookup_drop. f_equal. lia.
Qed.

(** A slice whose bytes are known. *)
Lemma slice_lookup h a x :
  0 ≤ a → a + len x ≤ len h → (∀ j, (j < length x)%nat → h !! (Z.to_nat a + j)%nat = x !! j) →
  slice h a (a + len x) = Ok x.
Proof.
  intros Ha Hl Hx. unfold slice. rewrite (proj2 (Z.leb_le _ _)) by lia. f_equal.
  apply list_eq. intros j. unfold ztake, zdrop, len in *.
  rewrite lookup_take, lookup_drop. case_decide; [apply Hx; lia|].
  symmetry. apply lookup_ge_None. lia.
Qed.

Section Build.
Context `{T : Tcpip}.

(** The fixed bytes of a request. *)
Record request_header (h : hdr) (xid : bytes) : Prop := {
  rh_op : h !! 0%nat = Some x01;
  rh_htype : h !! 1%nat = Some x01;
  rh_hlen : h !! 2%nat = Some x06;
  rh_xid j : (j < 4)%nat → h !! (4 + j)%nat = xid !! j;
  rh_cookie j : (j < 4)%nat → h !! (236 + j)%nat = magicCookie !! j;
}.

Lemma request_header_valid h x :
  241 ≤ len h → length x = 4%nat → request_header h x →
  isValid h = Ok true ∧ hdr_op h = Ok opRequest ∧ xidbytes h = Ok x.
Proof.
  intros Hl Hx [Hop Hht Hhl Hxid Hck].
  assert (hdr_op h = Ok opRequest) as Ho by (unfold hdr_op, get; change (Z.to_nat 0) with 0%nat; by rewrite Hop).
  split_and!; [|done|].
  - unfold isValid, dhcpMinimumSize. rewrite (proj2 (Z.ltb_ge _ _)) by lia. rewrite Ho.
    cbn [mbind res_bind]. change (negb (opRequest =? opRequest) && negb (opRequest =? opReply)) with false. cbn iota.
    pose proof (slice_lookup h 1 [x01; x06]) as S1. change (1 + len [x01; x06]) with 3 in S1.
    pose proof (slice_lookup h 236 magicCookie) as S2. change (236 + len magicCookie) with 240 in S2.
    rewrite S1; [|lia|lia|intros [|[|j]] ?; cbn in *; [done|done|lia]].
    cbn [mbind res_bind]. rewrite bool_decide_false by (by intros []).
    by rewrite S2 by (lia || (intros j Hj; by apply Hck)).
  - unfold xidbytes. replace 8 with (4 + len x) by (unfold len; lia). apply slice_lookup; [lia|unfold len in *; lia|].
    intros j Hj. apply Hxid. lia.
Qed.

(** It is kept by writes elsewhere. *)
Lemma request_header_keep h h' x :
  (∀ j, (j < 8 ∨ 236 ≤ j < 240)%nat → h' !! j = h !! j) → request_header h x → request_header h' x.
Proof.
  intros Hk [? ? ? Hx Hc]. split; [rewrite Hk by lia; done..| |].
  - intros j Hj. rewrite Hk by lia. by apply Hx.
  - intros j Hj. rewrite Hk by lia. by apply Hc.
Qed.

Lemma setBroadcast_ok h x :
  11 ≤ len h → request_header h x →
  ∃ h', setBroadcast h = Ok h' ∧ len h' = len h ∧ request_header h' x.
Proof.
  intros Hl Hr. unfold setBroadcast. destruct (get_in h 10 ltac:(lia)) as (b & -> & _). cbn [mbind res_bind].
  destruct (set_lookup h 10 (z2b (Z.lor (b2z b) (Z.shiftl 1 7)))) as (h' & -> & Hl' & K); [lia|].
  exists h'. split_and!; [done|done|]. eapply request_header_keep; [|done].
  intros j Hj. rewrite K, decide_False; [done|]. lia.
Qed.

Lemma copy_slice_ok h x a b src :
  8 ≤ a ≤ b → b ≤ 236 → 236 ≤ len h → request_header h x →
  ∃ h', copy_slice h a b src = Ok h' ∧ len h' = len h ∧ request_header h' x.
Proof.
  intros Ha Hb Hl Hr. destruct (copy_slice_lookup h a b src) as (h' & -> & Hl' & K); [lia|lia|].
  exists h'. split_and!; [done|done|]. eapply request_header_keep; [|done].
  intros j Hj. rewrite K, decide_False; [done|]. lia.
Qed.

Lemma hdr_init_ok h :
  241 ≤ len h → ∃ h', hdr_init h = Ok h' ∧ len h' = len h ∧ h' !! 1%nat = Some x01 ∧ h' !! 2%nat = Some x06 ∧
    ∀ j, (j < 4)%nat → h' !! (236 + j)%nat = magicCookie !! j.
Proof.
  intros Hl0. unfold hdr_init.
  destruct (set_lookup h 1 x01) as (h1 & -> & L1 & K1); [lia|]. cbn [mbind res_bind].
  destruct (set_lookup h1 2 x06) as (h2 & -> & L2 & K2); [lia|]. cbn [mbind res_bind].
  destruct (set_lookup h2 3 x00) as (h3 & -> & L3 & K3); [lia|]. cbn [mbind res_bind].
  destruct (set_lookup h3 8 x00) as (h4 & -> & L4 & K4); [lia|]. cbn [mbind res_bind].
  destruct (set_lookup h4 9 x00) as (h5 & -> & L5 & K5); [lia|]. cbn [mbind res_bind].
  destruct (copy_slice_lookup h5 236 240 magicCookie) as (h6 & -> & L6 & K6); [lia|lia|].
  change (len magicCookie) with 4 in K6. exists h6. split_and!; [done|lia| | |].
  - by rewrite K6, K5, K4, K3, K2, K1.
  - by rewrite K6, K5, K4, K3, K2.
  - intros j Hj. rewrite K6, decide_True by lia. f_equal. lia.
Qed.

(** The operation and the identifier complete the fixed bytes. *)
Lemma request_header_ok h h7 h8 x :
  length x = 4%nat → 241 ≤ len h → h !! 1%nat = Some x01 → h !! 2%nat = Some x06 →
  (∀ j, (j < 4)%nat → h !! (236 + j)%nat = magicCookie !! j) →
  setOp h opRequest = Ok h7 → copy_slice h7 4 8 x = Ok h8 → len h8 = len h ∧ request_header h8 x.
Proof.
  intros Hx Hl H1 H2 Hc. unfold setOp. change (z2b opRequest) with x01.
  destruct (set_lookup h 0 x01) as (h7' & -> & L7 & K7); [lia|]. intros [= <-].
  destruct (copy_slice_lookup h7' 4 8 x) as (h8' & -> & L8 & K8); [lia|lia|]. intros [= <-].
  split; [lia|]. unfold len in K8. rewrite Hx in K8. split.
  - by rewrite K8, K7.
  - by rewrite K8, K7.
  - by rewrite K8, K7.
  - intros j Hj. rewrite K8, decide_True by lia. f_equal. lia.
  - intros j Hj. rewrite K8, K7, decide_False, decide_False by lia. by apply Hc.
Qed.

(** C35 Every packet the client builds is a valid DHCP request with the
    transaction's identifier, of four bytes, and its options, of codes from 1
    to 254 and bodies of at most 255 bytes, are parsed back as they were given:
    the buffer that [send] allocates is large enough for all of them. *)
Theorem sent_packet_valid (c : client) (i : Info) (opts : list option) (bc ci : bool) :
  Forall wire_ok opts → length (xid_bytes c) = 4%nat →
  ∃ h, build c i opts bc ci = Ok h ∧ isValid h = Ok true ∧ hdr_op h = Ok opRequest ∧
       xidbytes h = Ok (xid_bytes c) ∧ options h = Ok opts.
Proof.
  intros Hok Hx. pose proof (len_nonneg (wire opts)). pose proof (options_len_wire opts) as Hol.
  assert (headerBaseSize = 240) as E240 by done.
  unfold build. set (h0 := replicate _ x00).
  assert (len h0 = 240 + options_len opts + 1) as Hl0
    by (unfold h0, len; rewrite length_replicate, Z2Nat.id by lia; lia).
  destruct (hdr_init_ok h0) as (h6 & -> & L6 & K1 & K2 & Kc); [lia|]. cbn [mbind res_bind].
  destruct (set_lookup h6 0 (z2b opRequest)) as (h7 & E7 & L7 & _); [lia|].
  destruct (copy_slice_lookup h7 4 8 (xid_bytes c)) as (h8 & E8 & L8 & _); [lia|lia|].
  destruct (request_header_ok h6 h7 h8 (xid_bytes c) Hx ltac:(lia) K1 K2 Kc E7 E8) as [_ R8].
  unfold setOp. rewrite E7. cbn [mbind res_bind]. rewrite E8. cbn [mbind res_bind].
  assert (∃ h9, (if bc then setBroadcast h8 else Ok h8) = Ok h9 ∧ len h9 = len h8 ∧
            request_header h9 (xid_bytes c)) as (h9 & -> & L9 & R9)
    by (destruct bc; [apply setBroadcast_ok; [lia|done]|by exists h8]).
  cbn [mbind res_bind].
  assert (∃ h10, (if ci then copy_slice h9 12 16 (AsSlice (awp_addr (Addr i))) else Ok h9) = Ok h10 ∧
            len h10 = len h9 ∧ request_header h10 (xid_bytes c)) as (h10 & -> & L10 & R10)
    by (destruct ci; [apply copy_slice_ok; [lia|lia|lia|done]|by exists h9]).
  cbn [mbind res_bind].
  destruct (copy_slice_ok h10 (xid_bytes c) 28 44 (linkAddr c)) as (h11 & -> & L11 & R11); [lia|lia|lia|done|].
  cbn [mbind res_bind].
  destruct (options_roundtrip h11 opts Hok) as (h12 & -> & Hopts & L12 & Htake); [lia|].
  exists h12. split; [done|].
  destruct (request_header_valid h12 (xid_bytes c)) as (? & ? & ?); [lia|done| |done].
  eapply request_header_keep; [|exact R11]. intros j Hj.
  unfold ztake in Htake. rewrite E240 in Htake. change (Z.to_nat 240) with 240%nat in Htake.
  rewrite <-(lookup_take_lt h12 240), <-(lookup_take_lt h11 240) by lia. by rewrite Htake.
Qed.
End Build.

(** ** What a transaction does to the client *)

Section Acquire.
Context `{T : Tcpip} (subnet_mask : AddressWithPrefix → AddressMask) (IPv4Broadcast IPv4Any : Address).

(** The fields a transaction leaves alone. *)
Record same_client (i i' : Info) : Prop := {
  sc_state : State i' = State i;
  sc_old : OldAddr i' = OldAddr i;
  sc_backoff : Backoff i' = Backoff i;
  sc_acq : Acquisition i' = Acquisition i;
  sc_retr : Retransmission i' = Retransmission i;
}.

Lemma same_client_refl i : same_client i i.
Proof. done. Qed.

(** ** What a transaction leaves in the network *)

(** The counters of packets handed to an endpoint, and of leases. *)
Definition is_send (s : stat) : bool :=
  match s with SendDiscovers | SendDiscoverErrors | SendRequests | SendRequestErrors => true | _ => false end.
Definition sends_counted (l : list stat) : nat := length (filter (λ s, is_send s = true) l).
Definition acks_counted (l : list stat) : nat := length (filter (λ s, s = RecvAcks) l).

Lemma sends_counted_app l s : sends_counted (l ++ [s]) = (sends_counted l + if is_send s then 1 else 0)%nat.
Proof. unfold sends_counted. rewrite filter_app, length_app. f_equal. by destruct s. Qed.

Lemma acks_counted_app l s : acks_counted (l ++ [s]) = (acks_counted l + if decide (s = RecvAcks) then 1 else 0)%nat.
Proof. unfold acks_counted. rewrite filter_app, length_app. f_equal. by destruct s. Qed.

(** Packets are sent to [to] through [ep], and counted; [acks] leases are. *)
Record sends (ep : endpoint) (to : Address) (acks : nat) (n n' : net) (l : list (Address * bytes)) : Prop := {
  se_sent : n_sent n' = n_sent n ++ l;
  se_to : Forall (λ p, p.1 = to) l;
  se_ops : n_ops n' = n_ops n ++ replicate (length l) (Write ep);
  se_stats : sends_counted (n_stats n') = (sends_counted (n_stats n) + length l)%nat;
  se_acks : acks_counted (n_stats n') = (acks_counted (n_stats n) + acks)%nat;
}.

Lemma sends_same ep to n n' :
  n_sent n' = n_sent n → n_ops n' = n_ops n → n_stats n' = n_stats n → sends ep to 0 n n' [].
Proof.
  intros E1 E2 E3. cbn. split; rewrite ?E1, ?E2, ?E3; change (length []) with 0%nat; cbn [replicate];
    by rewrite ?app_nil_r, ?Nat.add_0_r.
Qed.

(** An increment of another counter. *)
Lemma sends_stat ep to n s :
  is_send s = false → sends ep to (if decide (s = RecvAcks) then 1 else 0) n (add_stat n s) [].
Proof.
  intros Hs. split; cbn [add_stat n_sent n_ops n_stats length replicate];
    by rewrite ?app_nil_r, ?sends_counted_app, ?acks_counted_app, ?Hs.
Qed.

Lemma sends_trans ep to a b n n1 n' l l' :
  sends ep to a n n1 l → sends ep to b n1 n' l' → sends ep to (a + b) n n' (l ++ l').
Proof.
  intros [E1 T1 O1 S1 A1] [E2 T2 O2 S2 A2]. split.
  - by rewrite E2, E1, assoc by apply _.
  - by apply Forall_app.
  - by rewrite O2, O1, length_app, replicate_add, assoc by apply _.
  - rewrite S2, S1, length_app. lia.
  - rewrite A2, A1. lia.
Qed.

(** Building a packet does not fail in any way but a panic. *)
Lemma no_err_bind {A B} (m : res A) (f : A → res B) :
  (∀ e, m ≠ Err e) → (∀ a e, f a ≠ Err e) → ∀ e, (m ≫= f) ≠ Err e.
Proof. intros Hm Hf e. destruct m; cbn; [apply Hf|by intros [= ->]; apply (Hm e)|done|done]. Qed.

Lemma set_no_err h i v e : set h i v ≠ Err e.
Proof. unfold set. by case_match. Qed.
Lemma copy_slice_no_err h a b x e : copy_slice h a b x ≠ Err e.
Proof. unfold copy_slice. by case_match. Qed.
Lemma get_no_err h i e : get h i ≠ Err e.
Proof. unfold get. by case_match. Qed.

Lemma build_no_err c i opts b1 b2 e : build c i opts b1 b2 ≠ Err e.
Proof.
  assert (∀ opts h i e, setOptions_loop opts h i ≠ Err e) as Hloop.
  { clear. intros opts. induction opts as [|o opts IH]; intros h i e; [done|]. cbn [setOptions_loop].
    repeat (apply no_err_bind; [intros; first [apply set_no_err|apply copy_slice_no_err]|intros ?]; clear e; intros e).
    apply IH. }
  revert e. unfold build, hdr_init, setOp, setBroadcast, setOptions.
  repeat first [apply no_err_bind; [|intros ?] | progress intros | destruct b1 | destruct b2
    | apply set_no_err | apply copy_slice_no_err | apply get_no_err | apply Hloop | done | case_match].
Qed.

(** A send with its counters. *)
Lemma send_counted c ep to opts b1 b2 ok failed msg i n i' n' r :
  is_send ok = true → is_send failed = true →
  counted ok failed msg (send c ep to opts b1 b2) (i, n) = (i', n', r) →
  i' = i ∧ n_in n' = n_in n ∧ ∃ l, sends ep to 0 n n' l.
Proof.
  intros Hok Hfl. unfold counted, send. pose proof (build_no_err c i opts b1 b2) as Hb.
  destruct (build c i opts b1 b2) as [h|e|e|]; [|by destruct (Hb e)|intros [= <- <- <-]; by eauto using sends_same..].
  destruct (dhcpMsgType opts) as [t| | |]; [|intros [= <- <- <-]; by eauto using sends_same..].
  assert (∀ s, is_send s = true →
    sends ep to 0 n (add_stat (mkNet (n_in n) (tail (n_writes n)) (n_sent n ++ [(to, h)]) (n_stats n)
      (n_ops n ++ [Write ep]) (n_delays n)) s) [(to, h)]) as Hs.
  { intros s Hs. split; cbn [add_stat n_sent n_ops n_stats length replicate];
      rewrite ?sends_counted_app, ?acks_counted_app, ?Hs; [done|by constructor|done|done|].
    rewrite decide_False; [done|]. by intros ->. }
  destruct (n_writes n) as [|[] ws]; cbn; intros [= <- <- <-]; by eauto.
Qed.

Lemma recv_from_spec c ds ds' r :
  recv_from c ds = (ds', r) →
  (∃ pre, ds = pre ++ ds') ∧
  match r with
  | Ok (Message from addr opts typ) =>
      ∃ h, Packet from h ∈ ds ∧ accept c from h = Ok (Some (Message from addr opts typ))
  | _ => True
  end.
Proof.
  revert ds'. induction ds as [|d ds IH]; intros ds'; cbn [recv_from].
  { intros [= <- <-]. split; [by exists []|done]. }
  destruct d as [from h| | |]; try (intros [= <- <-]; split; [by eexists [_]|done]).
  destruct (accept c from h) as [[m|]|e|e|] eqn:Ea; try (intros [= <- <-]; split; [by eexists [_]|]; try done).
  - destruct m as [f a o t| |]; [|done..]. exists h.
    assert (f = from) as -> by (unfold accept in Ea; repeat (case_match; simplify_eq/=; try done);
      unfold mbind, res_bind, mret, res_ret in Ea; repeat (case_match; simplify_eq/=; try done)).
    split; [by left|done].
  - intros Hr. destruct (IH _ Hr) as [[pre ->] Hm]. split; [by exists (Packet from h :: pre)|].
    destruct r as [[f a o t| |]| | |]; try done. destruct Hm as (h' & ? & ?). exists h'. split; [by right|done].
Qed.

(** The message a packet carries for this client. *)
Definition carried (c : client) (n : net) (m : received) : Prop :=
  match m with
  | Message from addr opts typ =>
      ∃ h, Packet from h ∈ n_in n ∧ accept c from h = Ok (Some (Message from addr opts typ))
  | _ => True
  end.

(** A send that starts a turn of a loop, with its timer. *)
Lemma turn_spec c ep to opts b1 b2 (resend : bool) ok failed msg loop k i n i' n' r :
  is_send ok = true → is_send failed = true →
  (if resend then _ ← counted ok failed msg (send c ep to opts b1 b2); arm_timer c loop k else mret ()) (i, n) = (i', n', r) →
  i' = i ∧ n_in n' = n_in n ∧ ∃ l, sends ep to 0 n n' l.
Proof.
  intros Hok Hfl. destruct resend; [|intros [= <- <- <-]; by eauto using sends_same].
  unfold mbind, M_bind. destruct (counted ok failed msg (send c ep to opts b1 b2) (i, n)) as [[i0 n0] r0] eqn:Es.
  apply send_counted in Es as (-> & Hn & l & Hl); [|done|done].
  destruct r0 as [u|e|e|]; [|by intros [= <- <- <-]; eauto..]. unfold arm_timer.
  destruct (exponentialBackoff _ _ _); intros [= <- <- <-]; [|by eauto..]. split_and!; [done|done|].
  exists (l ++ []). apply (sends_trans ep to 0 0 n n0); [done|by apply sends_same].
Qed.

(** One turn of a loop: perhaps send, then receive, then go on. *)
Lemma exchange {A} c ep to opts b1 b2 (resend : bool) ok failed msg loop k (f : received → M (Info * net) A) i n i' n' r :
  is_send ok = true → is_send failed = true →
  (_ ← (if resend then _ ← counted ok failed msg (send c ep to opts b1 b2); arm_timer c loop k else mret ());
   m ← recv c; f m) (i, n) = (i', n', r) →
  (i' = i ∧ (∃ l, sends ep to 0 n n' l) ∧ ∀ a, r ≠ Ok a) ∨
  ∃ n1 m, f m (i, n1) = (i', n', r) ∧ (∃ l, sends ep to 0 n n1 l) ∧
    (∀ d, d ∈ n_in n1 → d ∈ n_in n) ∧ carried c n m.
Proof.
  intros Hok Hfl. set (t := if resend then _ else _). unfold mbind, M_bind.
  destruct (t (i, n)) as [[i0 n0] r0] eqn:Et.
  apply turn_spec in Et as (-> & Hn0 & l & Hs0); [|done|done].
  destruct r0 as [u|e|e|]; [|by intros [= <- <- <-]; left; eauto..].
  unfold recv. destruct (recv_from c (n_in n0)) as [ds m] eqn:Er.
  destruct (recv_from_spec _ _ _ _ Er) as [[pre Hpre] Hm].
  set (n1 := mkNet ds (n_writes n0) (n_sent n0) (n_stats n0) (n_ops n0) (n_delays n0)).
  assert (sends ep to 0 n n1 (l ++ [])) as Hs1 by (by apply (sends_trans ep to 0 0 n n0); [|apply sends_same]).
  destruct m as [m|e|e|]; [|by intros [= <- <- <-]; left; eauto..].
  intros Hk. right. exists n1, m. split_and!; [done|by eauto| |].
  - cbn. intros d Hd. rewrite <-Hn0, Hpre. apply elem_of_app. by right.
  - destruct m; [|done..]. unfold carried. rewrite <-Hn0. exact Hm.
Qed.

(** ... and counts a step, after which the transaction ends or goes on. *)
Lemma sends_counting ep to n n1 s :
  (∃ l, sends ep to 0 n n1 l) → is_send s = false →
  ∃ l, sends ep to (if decide (s = RecvAcks) then 1 else 0) n (add_stat n1 s) l.
Proof. intros [l Hl] Hs. eexists. apply (sends_trans ep to 0 _ n n1); [exact Hl|by apply sends_stat]. Qed.

Lemma sends_then ep to a n n1 n' :
  (∃ l, sends ep to 0 n n1 l) → (∃ l, sends ep to a n1 n' l) → ∃ l, sends ep to a n n' l.
Proof. intros [l Hl] [l' Hl']. eexists. by apply (sends_trans ep to 0 a n n1). Qed.

Lemma discover_spec fuel c ep to opts k resend i n i' n' r :
  discover subnet_mask fuel c ep to opts k resend (i, n) = (i', n', r) →
  same_client i i' ∧ Addr i' = Addr i ∧ (∃ l, sends ep to 0 n n' l) ∧
  (∀ a, r = Ok a → ∀ d, d ∈ n_in n' → d ∈ n_in n).
Proof.
  revert k resend i n i' n' r. induction fuel as [|fuel IH]; intros k resend i n i' n' r; cbn [discover].
  { intros [= <- <- <-]. split_and!; [done|done|by eauto using sends_same|]. by intros. }
  intros [(-> & Hs & Hr)|(n1 & m & Hk & Hs & Hn1 & _)]%exchange; [|..|done|done].
  { split_and!; [done|done|done|]. intros a ->. by destruct (Hr a). }
  pose proof (λ s, sends_counting ep to n n1 s Hs) as Hc.
  assert (∀ s k' rs, is_send s = false → s ≠ RecvAcks →
    discover subnet_mask fuel c ep to opts k' rs (i, add_stat n1 s) = (i', n', r) →
    same_client i i' ∧ Addr i' = Addr i ∧ (∃ l, sends ep to 0 n n' l) ∧
    (∀ a, r = Ok a → ∀ d, d ∈ n_in n' → d ∈ n_in n)) as Hagain.
  { intros s k' rs H1 H2 Hk'. destruct (IH _ _ _ _ _ _ _ Hk') as (? & ? & ? & Hd). specialize (Hc s H1).
    rewrite decide_False in Hc by done. split_and!; [done|done|by eapply sends_then|by eauto]. }
  destruct m as [from addr ropts typ| |t]; [|by apply (Hagain RecvOfferTimeout _ true Logic.eq_refl ltac:(done) Hk)|].
  2: { cbn in Hk. injection Hk as <- <- <-. split_and!; [done|done| |done].
       destruct t; [exact (Hc RecvOfferAcquisitionTimeout eq_refl)|exact (Hc RecvOfferErrors eq_refl)]. }
  destruct (negb (typ =? dhcpOFFER)); [by apply (Hagain RecvOfferUnexpectedType _ false Logic.eq_refl ltac:(done) Hk)|].
  unfold mbind, M_bind in Hk. cbn [count] in Hk. specialize (Hc RecvOffers eq_refl). cbn in Hc.
  destruct (decode ropts) as [cfg| | |]; cbn in Hk; injection Hk as <- <- <-; (split_and!; [done|done| |done]); try done.
  exact (sends_counting ep to n (add_stat n1 RecvOffers) RecvOfferOptsDecodeErrors Hc eq_refl).
Qed.

(** What a request that returned [r] says of the packets delivered. *)
Definition acked (c : client) (n : net) (requested : AddressWithPrefix) (i i' : Info) (r : res Config) : Prop :=
  match r with
  | Ok cfg => Addr i' = requested ∧ ∃ from h addr ropts,
      Packet from h ∈ n_in n ∧ accept c from h = Ok (Some (Message from addr ropts dhcpACK)) ∧
      decode ropts = Ok cfg ∧ requested = mkAwp addr (mask_size (MaskAsSlice (SubnetMask cfg)))
  | _ => Addr i' = Addr i
  end.

Lemma acked_mono c n n1 q i i' r :
  (∀ d, d ∈ n_in n1 → d ∈ n_in n) → acked c n1 q i i' r → acked c n q i i' r.
Proof.
  intros Hn. destruct r as [cfg| | |]; try done. intros (? & from & h & addr & ropts & ? & ?).
  split; [done|]. exists from, h, addr, ropts. auto.
Qed.

(** A lease is counted when one is returned. *)
Definition acks_of (r : res Config) : nat := if is_ok r then 1%nat else 0%nat.

Lemma request_spec fuel c ep to opts requested init k resend i n i' n' r :
  request fuel c ep to opts requested init k resend (i, n) = (i', n', r) →
  same_client i i' ∧ Server i' = Server i ∧ (∃ l, sends ep to (acks_of r) n n' l) ∧
  acked c n requested i i' r.
Proof.
  revert k resend i n i' n' r. induction fuel as [|fuel IH]; intros k resend i n i' n' r; cbn [request].
  { intros [= <- <- <-]. split_and!; [done|done|by eauto using sends_same|done]. }
  intros [(-> & Hs & Hr)|(n1 & m & Hk & Hs & Hn1 & Hm)]%exchange; [|..|done|done].
  { split_and!; [done|done| |]; destruct r as [a| | |]; try done; by destruct (Hr a). }
  pose proof (λ s, sends_counting ep to n n1 s Hs) as Hc.
  assert (∀ s k' rs, is_send s = false → s ≠ RecvAcks →
    request fuel c ep to opts requested init k' rs (i, add_stat n1 s) = (i', n', r) →
    same_client i i' ∧ Server i' = Server i ∧ (∃ l, sends ep to (acks_of r) n n' l) ∧
    acked c n requested i i' r) as Hagain.
  { intros s k' rs H1 H2 Hk'. destruct (IH _ _ _ _ _ _ _ Hk') as (? & ? & ? & ?). specialize (Hc s H1).
    rewrite decide_False in Hc by done. split_and!; [done|done|by eapply sends_then|by eapply acked_mono]. }
  assert (∀ s msg, is_send s = false → s ≠ RecvAcks → fails s msg (i, n1) = (i', n', r) →
    same_client i i' ∧ Server i' = Server i ∧ (∃ l, sends ep to (acks_of r) n n' l) ∧
    acked c n requested i i' r) as Hfail.
  { intros s msg H1 H2 [= <- <- <-]. specialize (Hc s H1). rewrite decide_False in Hc by done. done. }
  destruct m as [from addr ropts typ| |t]; [|by apply (Hagain RecvAckTimeout _ true Logic.eq_refl ltac:(done) Hk)|].
  2: { destruct t; [by apply (Hfail RecvAckAcquisitionTimeout _ Logic.eq_refl ltac:(done) Hk)|by apply (Hfail RecvAckErrors _ Logic.eq_refl ltac:(done) Hk)]. }
  destruct (typ =? dhcpACK) eqn:Eack; bool_prop.
  - destruct (decode ropts) as [cfg| | |] eqn:Ed; [|by apply (Hfail RecvAckOptsDecodeErrors _ Logic.eq_refl ltac:(done) Hk)|by injection Hk as <- <- <-..].
    case_bool_decide as Eaddr; [by apply (Hfail RecvAckAddrErrors _ Logic.eq_refl ltac:(done) Hk)|].
    specialize (Hc RecvAcks eq_refl). cbn in Hk. injection Hk as <- <- <-.
    do 2 (split; [done|]). split; [exact Hc|]. split; [done|]. destruct Hm as (h & Hin & Hacc).
    exists from, h, addr, ropts. split_and!; [done|by subst|done|done].
  - destruct (typ =? dhcpNAK); [|by apply (Hagain RecvAckUnexpectedType _ false Logic.eq_refl ltac:(done) Hk)].
    destruct (negb (len (message ropts) =? 0)); [by apply (Hfail RecvNakErrors _ Logic.eq_refl ltac:(done) Hk)|by apply (Hfail RecvNaks _ Logic.eq_refl ltac:(done) Hk)].
Qed.

(** The exchange of messages.  In the states other than [initSelecting] there
    is only the request. *)
Lemma transact_spec c ep i n i' n' r :
  transact subnet_mask IPv4Broadcast c ep (i, n) = (i', n', r) →
  same_client i i' ∧ (∃ l, sends ep (write_to IPv4Broadcast i) (acks_of r) n n' l) ∧
  (State i ≠ initSelecting → Server i' = Server i ∧ (Addr i' = Addr i)) ∧
  ∃ q, acked c n q i i' r.
Proof.
  unfold transact. case_bool_decide as Es.
  - unfold mbind, M_bind.
    destruct (discover _ _ c _ _ _ 0 true (i, n)) as [[i1 n1] d] eqn:Ed.
    destruct (discover_spec _ _ _ _ _ _ _ _ _ _ _ _ Ed) as (Hi1 & Ha & Hs & Hn).
    destruct d as [q| | |]; [|intros [= <- <- <-]; (split_and!; [done|done|by intros []|by exists (Addr i)])..].
    cbn [get_info]. intros Hr. destruct (request_spec _ _ _ _ _ _ _ _ _ _ _ _ _ _ Hr) as (Hi' & _ & Hs' & Hq).
    split_and!; [destruct Hi1, Hi'; split; congruence|by eapply sends_then|by intros []|].
    exists q. apply (acked_mono c n n1); [by eauto|]. destruct r; [exact Hq|cbn in *; congruence..].
  - unfold mbind, M_bind. cbn [mret M_ret get_info].
    intros Hr. destruct (request_spec _ _ _ _ _ _ _ _ _ _ _ _ _ _ Hr) as (? & ? & ? & Hq).
    split_and!; [done|done| |by eexists]. intros _. split; [done|]. by destruct r; [apply Hq|..].
Qed.

(** ** The exchange within [acquire] *)

(** A step that neither sends, receives nor counts, and leaves the client as
    it is: what [acquire] does around the exchange. *)
Record quiet (n n' : net) : Prop := {
  q_in : n_in n' = n_in n;
  q_sent : n_sent n' = n_sent n;
  q_stats : n_stats n' = n_stats n;
}.

#[local] Instance quiet_preorder : PreOrder quiet.
Proof. split; [done|]. intros ? ? ? [] []. split; congruence. Qed.

Definition silent {A} (m : M (Info * net) A) : Prop :=
  ∀ i n i' n' r, m (i, n) = (i', n', r) → i' = i ∧ quiet n n'.

Lemma silent_sock o : silent (sock o).
Proof. by intros ? ? ? ? ? [= <- <- <-]. Qed.
Lemma silent_lift {A} (r : res A) : silent (lift r).
Proof. by intros ? ? ? ? ? [= <- <- <-]. Qed.
Lemma silent_get_info : silent get_info.
Proof. by intros ? ? ? ? ? [= <- <- <-]. Qed.
Lemma silent_try a o msg : silent (try_sock a o msg).
Proof. destruct a; [apply silent_lift|apply silent_sock]. Qed.

(** Either the exchange did not take place, or it gave the result, unless the
    deferred removal of the unspecified address failed. *)
Definition exchanges (a : answers) (c : client) (m : M (Info * net) Config) : Prop :=
  ∀ i n i' n' r, m (i, n) = (i', n', r) →
  (i' = i ∧ quiet n n' ∧ is_ok r = false) ∨
  ∃ ep n1 n2 r2, transact subnet_mask IPv4Broadcast c ep (i, n1) = (i', n2, r2) ∧
    quiet n n1 ∧ quiet n2 n' ∧ (r = r2 ∨ (a_remove a ≠ None ∧ r = Panic "RemoveAddress")).

Lemma exchanges_bind {A} a c (m : M (Info * net) A) f :
  silent m → (∀ x, exchanges a c (f x)) → exchanges a c (m ≫= f).
Proof.
  intros Hm Hf i n i' n' r. unfold mbind, M_bind. destruct (m (i, n)) as [[i1 n1] x] eqn:E.
  destruct (Hm _ _ _ _ _ E) as [-> Hq]. destruct x as [x|e|e|]; [|by intros [= <- <- <-]; left..].
  intros [(-> & ? & ?)|(ep & n2 & n3 & r2 & ? & ? & ? & ?)]%Hf.
  - left. split_and!; [done|by etrans|done].
  - right. exists ep, n2, n3, r2. split_and!; [done|by etrans|done|done].
Qed.

Lemma exchanges_fail a c (r : res Config) : is_ok r = false → exchanges a c (lift r).
Proof. intros Hr ? ? ? ? ? [= <- <- <-]. by left. Qed.

Lemma exchanges_defer a c (d : M (Info * net) unit) m :
  silent d → (∀ s s' x, d s = (s', x) → x = Ok () ∨ (a_remove a ≠ None ∧ x = Panic "RemoveAddress")) →
  exchanges a c m → exchanges a c (defer d m).
Proof.
  intros Hd Hx Hm i n i' n' r. unfold defer. destruct (m (i, n)) as [[i1 n1] r1] eqn:E.
  destruct (d (i1, n1)) as [[i2 n2] x] eqn:Ed. destruct (Hd _ _ _ _ _ Ed) as [-> Hq].
  assert (∀ n0 r0, quiet n1 n0 → (r0 = r1 ∨ a_remove a ≠ None ∧ r0 = Panic "RemoveAddress") →
    (i1, n0, r0) = (i', n', r) →
    (i' = i ∧ quiet n n' ∧ is_ok r = false) ∨
    ∃ ep n1 n2 r2, transact subnet_mask IPv4Broadcast c ep (i, n1) = (i', n2, r2) ∧
      quiet n n1 ∧ quiet n2 n' ∧ (r = r2 ∨ (a_remove a ≠ None ∧ r = Panic "RemoveAddress"))) as Hend.
  { intros n0 r0 Hq0 Hr0 [= <- <- <-].
    destruct (Hm _ _ _ _ _ E) as [(-> & ? & ?)|(ep & m1 & m2 & r2 & ? & ? & ? & Hr)].
    - left. split_and!; [done|by etrans|]. by destruct Hr0 as [->|[_ ->]].
    - right. exists ep, m1, m2, r2. split_and!; [done|done|by etrans|].
      destruct Hr0 as [->|?]; [done|by right]. }
  destruct r1; [..|by apply Hend; auto];
    (destruct (Hx _ _ _ Ed) as [->|[? ->]]; apply Hend; by auto).
Qed.

Lemma exchanges_transact a c ep : exchanges a c (transact subnet_mask IPv4Broadcast c ep).
Proof. intros i n i' n' r E. right. exists ep, n, n', r. split_and!; [done..|by left]. Qed.

#[local] Hint Resolve silent_sock silent_lift silent_get_info silent_try : dhcp.

Lemma exchanges_with_recv a c ep addr : exchanges a c (with_recv subnet_mask IPv4Broadcast a c ep addr).
Proof.
  assert (∀ o s s' x, sock o s = (s', x) → x = Ok () ∨ a_remove a ≠ None ∧ x = Panic "RemoveAddress") as Hs
    by (intros o [i n] s' x [= <- <-]; by left).
  unfold with_recv. apply exchanges_bind; [auto with dhcp|intros _].
  apply exchanges_defer; [auto with dhcp|apply Hs|].
  apply exchanges_bind; [auto with dhcp|intros i]. apply exchanges_bind; [auto with dhcp|intros _].
  apply exchanges_bind; [case_match; [apply silent_sock|apply (silent_lift (Ok ()))]|intros _].
  do 2 (apply exchanges_bind; [auto with dhcp|intros _]).
  apply exchanges_defer; [auto with dhcp|apply Hs|].
  apply exchanges_bind; [auto with dhcp|intros _]. apply exchanges_transact.
Qed.

Lemma acquire_exchanges a c : exchanges a c (acquire subnet_mask IPv4Broadcast IPv4Any a c).
Proof.
  unfold acquire. apply exchanges_bind; [auto with dhcp|intros i].
  destruct (State i); [|by apply exchanges_fail|apply exchanges_with_recv..].
  apply exchanges_bind; [destruct (a_add a); auto with dhcp|intros _].
  apply exchanges_defer; [destruct (a_remove a); auto with dhcp| |].
  { intros [j n] s' x. destruct (a_remove a); intros [= <- <-]; [by right|by left]. }
  apply exchanges_bind; [auto with dhcp|intros _].
  apply exchanges_defer; [auto with dhcp|intros [j n] s' x [= <- <-]; by left|].
  do 2 (apply exchanges_bind; [auto with dhcp|intros _]). apply exchanges_with_recv.
Qed.

(** The effect of a step on the packets and the counters. *)
Definition sends_to (to : Address) (acks : nat) (n n' : net) : Prop :=
  ∃ l, n_sent n' = n_sent n ++ l ∧ Forall (λ p, p.1 = to) l ∧
    sends_counted (n_stats n') = (sends_counted (n_stats n) + length l)%nat ∧
    acks_counted (n_stats n') = (acks_counted (n_stats n) + acks)%nat.

Lemma sends_to_quiet to n n' : quiet n n' → sends_to to 0 n n'.
Proof. intros [_ E1 E2]. exists []. rewrite app_nil_r, E1, E2, !Nat.add_0_r. by split_and!. Qed.

Lemma sends_to_exchange ep to acks n n1 n2 n' :
  quiet n n1 → (∃ l, sends ep to acks n1 n2 l) → quiet n2 n' → sends_to to acks n n'.
Proof.
  intros [_ E1 E2] [l [? ? _ ? ?]] [_ E3 E4]. exists l. rewrite <-E1, <-E2, E3, E4. by split_and!.
Qed.

Lemma acquire_frame a c i n i' n' r :
  acquire subnet_mask IPv4Broadcast IPv4Any a c (i, n) = (i', n', r) →
  same_client i i' ∧ (State i ≠ initSelecting → Server i' = Server i ∧ Addr i' = Addr i) ∧
  ∃ r2 q, sends_to (write_to IPv4Broadcast i) (acks_of r2) n n' ∧ acked c n q i i' r2 ∧
    (r = r2 ∨ (a_remove a ≠ None ∧ r = Panic "RemoveAddress")).
Proof.
  intros [(-> & Hq & Hr)|(ep & n1 & n2 & r2 & E & Hq & Hq' & Hr)]%acquire_exchanges.
  - split_and!; [done|done|]. exists r, (Addr i).
    split_and!; [by destruct r; [|apply sends_to_quiet..]|by destruct r|by left].
  - destruct (transact_spec _ _ _ _ _ _ _ E) as (? & Hs & Hk & q & Ha). split_and!; [done|done|].
    exists r2, q. split_and!; [by eapply sends_to_exchange| |done].
    apply (acked_mono c n n1); [|done]. by rewrite (q_in _ _ Hq).
Qed.


(** The statistics account for the transaction: on every path each packet
    handed to an endpoint is counted exactly once, as sent or as failed, and
    [RecvAcks] is incremented exactly once if a lease is returned and not at
    all if none is. *)
Theorem acquire_counts (a : answers) (c : client) (i i' : Info) (n n' : net) (r : res Config) :
  a_remove a = None →
  acquire subnet_mask IPv4Broadcast IPv4Any a c (i, n) = (i', n', r) →
  (length (n_sent n') + sends_counted (n_stats n) = length (n_sent n) + sends_counted (n_stats n'))%nat ∧
  acks_counted (n_stats n') = (acks_counted (n_stats n) + if is_ok r then 1 else 0)%nat.
Proof.
  intros Hrm (_ & _ & r2 & q & (l & -> & _ & -> & ->) & _ & Hr)%acquire_frame.
  destruct Hr as [->|[? _]]; [|done]. rewrite length_app. split; [lia|done].
Qed.

End Acquire.
End DhcpAcquireProps.
