(* ===== verification/DhcpSocket.v ===== *)
(** * The sockets of a DHCP transaction

    The protocol of the network stack for addresses, endpoints and the waiter
    queue as an automaton, a small program logic for what a piece of the
    client does to it, and that [acquire] follows it on every path and
    releases all that it took. *)

From S2P Require Import Prelude Entry Dhcp DhcpProps DhcpClient DhcpClientProps DhcpAcquire DhcpAcquireProps.
Import Dhcp DhcpProps DhcpClient DhcpClientProps DhcpAcquire DhcpAcquireProps.

Module DhcpSocket.

Section Socket.
Context `{T : Tcpip} (subnet_mask : AddressWithPrefix → AddressMask) (IPv4Broadcast IPv4Any : Address).

(** ** The protocol *)

(** An endpoint is closed, open, or bound to an address. *)
Inductive epstate := Closed | Opened | BoundTo (a : Address).

Record stack := mkStack {
  st_any : bool;               (** the NIC has the address 0.0.0.0 *)
  st_send : epstate;
  st_recv : epstate;
  st_registered : bool;
}.

(** Nothing is held. *)
Definition idle : stack := mkStack false Closed Closed false.

Definition st_ep (s : stack) (e : endpoint) : epstate :=
  match e with SendEP => st_send s | RecvEP => st_recv s end.
Definition set_ep (s : stack) (e : endpoint) (x : epstate) : stack :=
  match e with
  | SendEP => mkStack (st_any s) x (st_recv s) (st_registered s)
  | RecvEP => mkStack (st_any s) (st_send s) x (st_registered s)
  end.

(** A call out of turn has no next state.  The endpoint for writes is bound to
    0.0.0.0 only while the NIC has that address; the receiving endpoint may be
    bound to any address. *)
Definition stack_step (o : sockop) (s : stack) : Datatypes.option stack :=
  match o with
  | AddAny => if st_any s then None else Some (mkStack true (st_send s) (st_recv s) (st_registered s))
  | RemoveAny =>
    match st_any s, st_ep s SendEP with
    | true, Closed => Some (mkStack false (st_send s) (st_recv s) (st_registered s))
    | _, _ => None
    end
  | NewEndpoint e => match st_ep s e with Closed => Some (set_ep s e Opened) | _ => None end
  | BindToDevice e | SetBroadcast e => match st_ep s e with Closed => None | _ => Some s end
  | Bind e a =>
    match st_ep s e with
    | Opened => if bool_decide (e = SendEP) && bool_decide (a = IPv4Any) && negb (st_any s) then None else Some (set_ep s e (BoundTo a))
    | _ => None
    end
  | EventRegister => if st_registered s then None else Some (mkStack (st_any s) (st_send s) (st_recv s) true)
  | EventUnregister => if st_registered s then Some (mkStack (st_any s) (st_send s) (st_recv s) false) else None
  | Write e => match st_ep s e with BoundTo _ => Some s | _ => None end
  | Close e =>
    match st_ep s e with
    | Closed => None
    | _ => if bool_decide (e = RecvEP) && st_registered s then None else Some (set_ep s e Closed)
    end
  end.

Fixpoint stack_run (os : list sockop) (s : stack) : Datatypes.option stack :=
  match os with
  | [] => Some s
  | o :: os' => match stack_step o s with Some s' => stack_run os' s' | None => None end
  end.

Lemma stack_run_app os os' s :
  stack_run (os ++ os') s = match stack_run os s with Some s' => stack_run os' s' | None => None end.
Proof. revert s. induction os as [|o os IH]; intros s; cbn; [done|]. by destruct (stack_step o s). Qed.

(** ** A logic for it *)

(** From the stack [s], [m] makes calls in turn and ends in a stack and with a
    result of which [Q] holds. *)
Definition follows {A} (s : stack) (m : M (Info * net) A) (Q : res A → stack → Prop) : Prop :=
  ∀ i n i' n' r, m (i, n) = (i', n', r) →
  ∃ os s', n_ops n' = n_ops n ++ os ∧ stack_run os s = Some s' ∧ Q r s'.

Lemma follows_quiet {A} s (m : M (Info * net) A) Q :
  (∀ i n, n_ops (m (i, n)).1.2 = n_ops n) → (∀ r, Q r s) → follows s m Q.
Proof.
  intros Hm HQ i n i' n' r E. specialize (Hm i n). rewrite E in Hm. exists [], s.
  rewrite app_nil_r. by split_and!.
Qed.

Lemma follows_lift {A} s (r : res A) (Q : res A → stack → Prop) : Q r s → follows s (lift r) Q.
Proof. intros HQ i n i' n' r' [= <- <- <-]. exists [], s. rewrite app_nil_r. by split_and!. Qed.

Lemma follows_quiet_ok {A} s (m : M (Info * net) A) :
  (∀ i n, ∃ a, m (i, n) = (i, n, Ok a)) → follows s m (λ r s', is_ok r = true ∧ s' = s).
Proof.
  intros Hm i n i' n' r E. destruct (Hm i n) as [a Ha]. rewrite E in Ha. injection Ha as -> -> ->.
  exists [], s. rewrite app_nil_r. by split_and!.
Qed.

Lemma follows_sock s o s' (Q : res unit → stack → Prop) :
  stack_step o s = Some s' → Q (Ok ()) s' → follows s (sock o) Q.
Proof. intros Ho HQ i n i' n' r [= <- <- <-]. exists [o], s'. cbn. rewrite Ho. by split_and!. Qed.

Lemma follows_bind {A B} s (m : M (Info * net) A) (f : A → M (Info * net) B) (R : res A → stack → Prop) Q :
  follows s m R →
  (∀ a s', R (Ok a) s' → follows s' (f a) Q) →
  (∀ r s', R r s' → match r with Ok _ => True | Err e => Q (Err e) s' | Panic e => Q (Panic e) s' | NoFuel => Q NoFuel s' end) →
  follows s (m ≫= f) Q.
Proof.
  intros Hm Hf Hr i n i' n' r. unfold mbind, M_bind. destruct (m (i, n)) as [[i1 n1] r1] eqn:E1.
  destruct (Hm _ _ _ _ _ E1) as (os & s1 & Hn & Hos & HR). pose proof (Hr _ _ HR) as Hr1.
  destruct r1 as [a|e|e|]; [|intros [= <- <- <-]; exists os, s1; by split_and!..].
  intros E2. destruct (Hf _ _ HR _ _ _ _ _ E2) as (os' & s2 & Hn2 & Hos' & HQ).
  exists (os ++ os'), s2. rewrite stack_run_app, Hos, Hn2, Hn, (assoc_L (++)). done.
Qed.

(** A step that always succeeds. *)
Lemma follows_seq {A B} s s1 (m : M (Info * net) A) (f : A → M (Info * net) B) Q :
  follows s m (λ r s', is_ok r = true ∧ s' = s1) → (∀ a, follows s1 (f a) Q) → follows s (m ≫= f) Q.
Proof.
  intros Hm Hf. eapply follows_bind; [done|by intros a s' [_ ->]|by intros [] s' []].
Qed.

(** A deferred call [d] of the stack. *)
Lemma follows_defer {A} s (d : M (Info * net) unit) (m : M (Info * net) A) (R Q : res A → stack → Prop) :
  follows s m R →
  (∀ r s', R r s' → r ≠ NoFuel → follows s' d (λ rd s2,
     match rd with Ok _ => Q r s2 | Err e | Panic e => Q (Panic e) s2 | NoFuel => Q NoFuel s2 end)) →
  (∀ s', R NoFuel s' → Q NoFuel s') → follows s (defer d m) Q.
Proof.
  intros Hm Hd HN i n i' n' r. unfold defer. destruct (m (i, n)) as [[i1 n1] r1] eqn:E1.
  destruct (Hm _ _ _ _ _ E1) as (os & s1 & Hn & Hos & HR).
  assert (r1 = NoFuel ∨ r1 ≠ NoFuel) as [->|Hne] by (destruct r1; by (left + right)).
  { intros [= <- <- <-]. exists os, s1. by auto. }
  destruct (d (i1, n1)) as [[i2 n2] rd] eqn:E2.
  destruct (Hd _ _ HR Hne _ _ _ _ _ E2) as (os' & s2 & Hn2 & Hos' & HQ).
  assert (n_ops n2 = n_ops n ++ (os ++ os')) as Hops by (by rewrite Hn2, Hn, (assoc_L (++))).
  assert (stack_run (os ++ os') s = Some s2) as Hrun by (by rewrite stack_run_app, Hos).
  destruct r1; try done; destruct rd; intros [= <- <- <-]; by exists (os ++ os'), s2.
Qed.

(** ** The parts of [acquire] *)

Lemma follows_try s a o msg s' :
  stack_step o s = Some s' →
  follows s (try_sock a o msg) (λ r s1, match r with Ok _ => s1 = s' | Err _ => s1 = s | _ => False end).
Proof. intros Ho. destruct a; [by apply follows_lift|by eapply follows_sock]. Qed.

Lemma stack_run_writes k ep a s : st_ep s ep = BoundTo a → stack_run (replicate k (Write ep)) s = Some s.
Proof. intros He. induction k as [|k IH]; [done|]. cbn. by rewrite He. Qed.

(** The exchange of messages only writes. *)
Lemma follows_transact s c ep a (Q : res Config → stack → Prop) :
  st_ep s ep = BoundTo a → (∀ r, Q r s) → follows s (transact subnet_mask IPv4Broadcast c ep) Q.
Proof.
  intros He HQ i n i' n' r E. destruct (transact_spec _ _ _ _ _ _ _ _ _ E) as (_ & [l Hl] & _).
  exists (replicate (length l) (Write ep)), s. split_and!; [apply Hl|by eapply stack_run_writes|done].
Qed.

(** All but what was held before has been released, unless the transaction is
    still waiting. *)
Definition restores (s : stack) (r : res Config) (s' : stack) : Prop := r = NoFuel ∨ s' = s.

(** The endpoint for writes is one that the transaction may use. *)
Definition writable (s : stack) (ep : endpoint) : Prop :=
  match ep with SendEP => ∃ a, st_send s = BoundTo a | RecvEP => True end.

Lemma follows_with_recv any snd a c ep addr :
  let s := mkStack any snd Closed false in
  writable s ep →
  follows s (with_recv subnet_mask IPv4Broadcast a c ep addr) (restores s).
Proof.
  intros s Hw. unfold with_recv.
  eapply follows_bind; [by apply follows_try|..|intros [] s'; try done; intros ->; by right].
  intros [] s' ->. cbn [set_ep st_any st_send st_registered s].
  (* The receiving endpoint is open, and perhaps bound. *)
  set (Q (r : res Config) s' := r = NoFuel ∨ ∃ x, x ≠ Closed ∧ s' = mkStack any snd x false).
  eapply (follows_defer _ _ _ Q); [| |by left].
  2: { intros r s' [->|(x & Hx & ->)] Hr; [done|]. apply (follows_sock _ _ s); [by destruct x|by right]. }
  assert (∀ o, o = BindToDevice ep ∨ o = SetBroadcast ep →
    stack_step o (mkStack any snd Opened false) = Some (mkStack any snd Opened false)) as Hopt.
  { intros o Ho. destruct ep; [destruct Hw as [x Hx]; cbn in Hx; subst snd|]; by destruct Ho as [->| ->]. }
  eapply follows_seq; [apply follows_quiet_ok; intros; by eexists|intros i].
  eapply follows_seq; [eapply follows_sock; [by apply Hopt; left|done]|intros ?].
  eapply follows_seq; [|intros ?].
  { case_bool_decide; [eapply follows_sock; [by apply Hopt; right|done]|apply follows_quiet_ok; intros; by eexists]. }
  eapply follows_bind; [by apply follows_try| |].
  2: { intros [] s'; try done. intros ->. right. by exists Opened. }
  intros [] s' ->. cbn [set_ep st_any st_send st_registered].
  eapply follows_seq; [by eapply follows_sock|intros ?]. cbn [st_any st_send st_recv].
  eapply (follows_defer _ _ _ (λ r s', s' = mkStack any snd (BoundTo addr) true)); [| |by left].
  2: { intros r s' -> Hr. eapply follows_sock; [done|]. right. by exists (BoundTo addr). }
  eapply (follows_bind _ _ _ (λ r s', s' = mkStack any snd (BoundTo addr) true));
    [by apply follows_lift|intros ? s' ->|by intros [] s' ->].
  destruct ep; [destruct Hw as [x Hx]|]; by eapply follows_transact.
Qed.

(** What [acquire] holds at the end: nothing, or the unspecified address if
    its removal failed. *)
Definition released (a : answers) (i : Info) (r : res Config) (s : stack) : Prop :=
  r = NoFuel ∨ s = idle ∨
  (State i = initSelecting ∧ a_remove a ≠ None ∧ r = Panic "RemoveAddress" ∧ s = mkStack true Closed Closed false).

(** The endpoint for writes around the rest. *)
Lemma follows_with_send a c :
  let s := mkStack true Closed Closed false in
  follows s
    (_ ← try_sock (a_new a SendEP) (NewEndpoint SendEP) "stack.NewEndpoint";
     defer (sock (Close SendEP)) (
       _ ← sock (BindToDevice SendEP);
       _ ← try_sock (a_bind a SendEP) (Bind SendEP IPv4Any) "send ep Bind";
       with_recv subnet_mask IPv4Broadcast a c SendEP IPv4Broadcast)) (restores s).
Proof.
  intros s. eapply follows_bind; [by apply follows_try|..|intros [] s'; try done; intros ->; by right].
  intros [] s' ->. cbn [set_ep st_any st_recv st_registered s].
  set (Q (r : res Config) s' := r = NoFuel ∨ ∃ x, x ≠ Closed ∧ s' = mkStack true x Closed false).
  eapply (follows_defer _ _ _ Q); [| |by left].
  2: { intros r s' [->|(x & Hx & ->)] Hr; [done|]. apply (follows_sock _ _ s); [by destruct x|by right]. }
  eapply follows_seq; [by eapply follows_sock|intros ?]. cbn.
  eapply follows_bind; [apply follows_try; cbn; by rewrite andb_false_r| |].
  2: { intros [] s'; try done. intros ->. right. by exists Opened. }
  intros [] s' ->. cbn [set_ep st_any st_recv st_registered].
  intros i n i' n' r E. destruct (follows_with_recv true (BoundTo IPv4Any) a c SendEP IPv4Broadcast
    ltac:(by eexists) _ _ _ _ _ E) as (os & s' & ? & ? & Hs').
  exists os, s'. split_and!; [done|done|]. destruct Hs' as [->| ->]; [by left|right; by exists (BoundTo IPv4Any)].
Qed.

Lemma acquire_follows a c i n i' n' r :
  acquire subnet_mask IPv4Broadcast IPv4Any a c (i, n) = (i', n', r) →
  ∃ os s', n_ops n' = n_ops n ++ os ∧ stack_run os idle = Some s' ∧ released a i r s'.
Proof.
  unfold acquire. rewrite (bind_Ok get_info _ (i, n) (i, n) i) by done.
  assert (with_recv subnet_mask IPv4Broadcast a c RecvEP (awp_addr (Addr i)) (i, n) = (i', n', r) →
    ∃ os s', n_ops n' = n_ops n ++ os ∧ stack_run os idle = Some s' ∧ released a i r s') as Hrecv.
  { intros E. destruct (follows_with_recv false Closed a c RecvEP (awp_addr (Addr i)) ltac:(done)
      _ _ _ _ _ E) as (os & s' & ? & ? & Hs').
    exists os, s'. split_and!; [done|done|]. destruct Hs' as [->| ->]; [by left|right; by left]. }
  destruct (State i) eqn:Es; [|intros [= <- <- <-]; exists [], idle; rewrite app_nil_r; by split_and!; [..|right; left]|by apply Hrecv..].
  assert (follows idle
    (_ ← (match a_add a with None => sock AddAny | Some _ => lift (Panic "AddProtocolAddress") end);
     defer (match a_remove a with None => sock RemoveAny | Some _ => lift (Panic "RemoveAddress") end) (
       _ ← try_sock (a_new a SendEP) (NewEndpoint SendEP) "stack.NewEndpoint";
       defer (sock (Close SendEP)) (
         _ ← sock (BindToDevice SendEP);
         _ ← try_sock (a_bind a SendEP) (Bind SendEP IPv4Any) "send ep Bind";
         with_recv subnet_mask IPv4Broadcast a c SendEP IPv4Broadcast))) (released a i)) as Hf.
  { destruct (a_add a) as [e|].
    { intros i0 n0 i1 n1 r1 [= <- <- <-]. exists [], idle. rewrite app_nil_r. split_and!; [done|done|]. right; by left. }
    eapply follows_seq; [by eapply follows_sock|intros ?]. cbn.
    eapply follows_defer; [apply follows_with_send| |by left].
    intros r' s' [->| ->] Hr; [done|]. destruct (a_remove a) as [e|] eqn:Er.
    - apply follows_lift. right; right. by rewrite Er.
    - eapply follows_sock; [done|]. right. by left. }
  apply Hf.
Qed.

End Socket.
End DhcpSocket.
