(* ===== verification/DhcpReturns.v ===== *)
(** * A DHCP transaction always comes back

    Whatever bytes arrive, the handling of a packet neither panics nor loops;
    a transaction whose context ends therefore returns a lease or an error,
    and the loop of [Run] is driven by such transactions. *)

From S2P Require Import Prelude Entry Dhcp DhcpProps DhcpClient DhcpClientProps DhcpAcquire DhcpAcquireProps.
Import Dhcp DhcpProps DhcpClient DhcpClientProps DhcpAcquire DhcpAcquireProps.

Module DhcpReturns.

Section Returns.
Context `{T : Tcpip} (subnet_mask : AddressWithPrefix → AddressMask) (IPv4Broadcast IPv4Any : Address).

(** ** What arrives *)

Lemma settled_bind {A B} (m : res A) (f : A → res B) :
  settled m → (∀ a, m = Ok a → settled (f a)) → settled (m ≫= f).
Proof. intros Hm Hf. destruct m; [by apply Hf|done..]. Qed.

Lemma slice_settled h a b : 0 ≤ a ≤ b → b ≤ len h → settled (slice h a b).
Proof. intros Ha Hb. by destruct (slice_in h a b Ha Hb) as (x & -> & _). Qed.

Lemma hdr_op_settled h : 0 < len h → settled (hdr_op h).
Proof. intros Hl. unfold hdr_op. by destruct (get_in h 0) as (b & -> & _); [lia|]. Qed.

Lemma isValid_settled h : settled (isValid h) ∧ (isValid h = Ok true → 241 ≤ len h).
Proof.
  unfold isValid, dhcpMinimumSize. case_test; [by split|]. split; [|lia].
  apply settled_bind; [apply hdr_op_settled; lia|intros o _]. case_match; [done|].
  apply settled_bind; [apply slice_settled; lia|intros x _]. case_match; [done|].
  apply settled_bind; [apply slice_settled; lia|done].
Qed.

Lemma dhcpMsgType_settled opts : settled (dhcpMsgType opts).
Proof. induction opts as [|o opts IH]; cbn; [done|]. repeat case_match; done. Qed.

(** The errors of the parser are those of [recv]. *)
Lemma settled_err {A} (r : res A) e : settled r → 
  settled (match r with Ok a => Ok a | Err _ => Err e | Panic m => Panic m | NoFuel => NoFuel end).
Proof. by destruct r. Qed.

(** A packet is refused, is for another client, or carries a message. *)
Lemma accept_settled c from h : settled (accept c from h).
Proof.
  unfold accept. destruct (isValid_settled h) as [Hv Hl]. destruct (isValid h) as [[]| | |]; [|done..].
  specialize (Hl eq_refl). cbn [mbind res_bind negb].
  apply settled_bind; [apply hdr_op_settled; lia|intros o _]. case_match; [done|].
  apply settled_bind; [apply slice_settled; lia|intros x _]. case_match; [done|].
  apply settled_bind.
  { apply settled_err. pose proof (options_loop_total (length h) h headerBaseSize) as Ht.
    unfold options. destruct (options_loop _ _ _); [done|done|..]; apply Ht; by (unfold headerBaseSize, len; lia). }
  intros opts _. apply settled_bind; [apply settled_err, dhcpMsgType_settled|intros typ _].
  apply settled_bind; [apply slice_settled; lia|intros y Hy]. unfold yiaddr in Hy.
  destruct (slice_in h 16 20) as (y' & Hy' & Hl4); [lia|lia|]. rewrite Hy' in Hy. injection Hy as ->.
  by rewrite AddrFromSlice_4 by lia.
Qed.

(** Lists of addresses are cut into fours. *)
Lemma addresses_settled fuel b : len b mod 4 = 0 → (length b ≤ fuel)%nat → settled (addresses fuel b).
Proof.
  revert b. induction fuel as [|fuel IH]; intros b Hm Hf; cbn [addresses]; (case_test; [done|]).
  { unfold len in *. lia. }
  pose proof (len_nonneg b). case_test.
  { rewrite Z.mod_small in Hm by lia. lia. }
  rewrite AddrFromSlice_4 by (rewrite len_take; lia). cbn [mbind res_bind].
  apply settled_bind; [|done]. apply IH.
  - rewrite len_drop, Z.max_r by lia. apply Z.mod_divide in Hm as [q ->]; [|done].
    replace (q * 4 - 4) with ((q - 1) * 4) by lia. by apply Z.mod_mul.
  - unfold zdrop. rewrite length_drop. lia.
Qed.

Lemma lenValid_addresses c b :
  lenValid c (len b) = true → c = optRouter ∨ c = optDomainNameServer → settled (addresses (length b) b).
Proof. intros Hv Hc. apply addresses_settled; [|done]. destruct Hc as [-> | ->]; cbv in Hv; by apply Z.eqb_eq. Qed.

(** The other options that are decoded have four bytes. *)
Lemma lenValid_4 c (b : bytes) :
  lenValid c (len b) = true →
  c ∈ [optLeaseTime; optRenewalTime; optRebindingTime; optSubnetMask; optDHCPServer] → len b = 4.
Proof.
  intros Hv Hc. repeat setoid_rewrite elem_of_cons in Hc. rewrite elem_of_nil in Hc.
  destruct Hc as [->|[->|[->|[->|[->|[]]]]]]; cbv in Hv; by apply Z.eqb_eq.
Qed.

Lemma decode_settled opts : settled (decode opts).
Proof.
  unfold decode. generalize zeroConfig. induction opts as [|o opts IH]; intros cfg; [done|].
  cbn [decode_loop]. apply settled_bind; [|intros; apply IH].
  unfold decode_option. destruct (lenValid (code o) (len (body o))) eqn:Ev; [|done]. cbn [negb].
  pose proof (lenValid_4 (code o) (body o) Ev) as H4. destruct cfg.
  do 3 (case_test; [rewrite Uint32_4 by (apply H4; set_solver); done|]).
  case_test; [rewrite MaskFromBytes_4 by (apply H4; set_solver); done|].
  case_test; [rewrite AddrFromSlice_4 by (apply H4; set_solver); done|].
  case_test; [apply settled_bind; [|done]; eapply lenValid_addresses; [done|by left]|].
  case_test; [apply settled_bind; [|done]; eapply lenValid_addresses; [done|by right]|done].
Qed.

(** ** What is sent *)

(** A packet can always be built: its buffer has room for all options. *)
Lemma build_returns c i opts b1 b2 : ∃ h, build c i opts b1 b2 = Ok h.
Proof.
  unfold build. set (h0 := replicate _ x00). pose proof (options_len_wire opts) as Hol.
  pose proof (len_nonneg (wire opts)). assert (headerBaseSize = 240) as E240 by done.
  assert (len h0 = 240 + options_len opts + 1) as Hl0
    by (unfold h0, len; rewrite length_replicate, Z2Nat.id by lia; lia).
  destruct (hdr_init_ok h0) as (h1 & -> & L1 & _); [lia|]. cbn [mbind res_bind]. unfold setOp.
  destruct (set_lookup h1 0 (z2b opRequest)) as (h2 & -> & L2 & _); [lia|]. cbn [mbind res_bind].
  destruct (copy_slice_lookup h2 4 8 (xid_bytes c)) as (h3 & -> & L3 & _); [lia|lia|]. cbn [mbind res_bind].
  assert (∃ h4, (if b1 then setBroadcast h3 else Ok h3) = Ok h4 ∧ len h4 = len h3) as (h4 & -> & L4).
  { destruct b1; [|by exists h3]. unfold setBroadcast. destruct (get_in h3 10) as (b & -> & _); [lia|].
    cbn [mbind res_bind]. destruct (set_lookup h3 10 (z2b (Z.lor (b2z b) (Z.shiftl 1 7)))) as (h4 & -> & ? & _); [lia|].
    by exists h4. }
  cbn [mbind res_bind].
  assert (∃ h5, (if b2 then copy_slice h4 12 16 (AsSlice (awp_addr (Addr i))) else Ok h4) = Ok h5 ∧ len h5 = len h4)
    as (h5 & -> & L5).
  { destruct b2; [|by exists h4]. edestruct copy_slice_lookup as (h5 & -> & ? & _); [..|by exists h5]; lia. }
  cbn [mbind res_bind].
  destruct (copy_slice_lookup h5 28 44 (linkAddr c)) as (h6 & -> & L6 & _); [lia|lia|]. cbn [mbind res_bind].
  rewrite <-(ztake_zdrop h6 headerBaseSize), setOptions_spec; [by eexists| |].
  - rewrite len_take; lia.
  - rewrite len_drop by lia. lia.
Qed.

(** A turn of a loop sends and starts its timer. *)
Lemma turn_settled c ep to opts b1 b2 (resend : bool) ok failed msg loop k i n :
  is_ok (dhcpMsgType opts) = true → Retransmission i ≠ 0 →
  settled ((if resend then _ ← counted ok failed msg (send c ep to opts b1 b2); arm_timer c loop k else mret ())
    (i, n)).2.
Proof.
  intros Ht Hr. destruct resend; [|done]. unfold mbind, M_bind, counted, send.
  destruct (build_returns c i opts b1 b2) as [h ->]. destruct (dhcpMsgType opts); try done.
  assert (∀ n', settled (arm_timer c loop k (i, n')).2) as Ha.
  { intros n'. unfold arm_timer, exponentialBackoff. by rewrite (proj2 (Z.eqb_neq _ _) Hr). }
  destruct (n_writes n) as [|[] ws]; [apply Ha|apply Ha|done].
Qed.

(** ** The loops *)

Lemma recv_returns c ds :
  CtxDone ∈ ds →
  let '(ds', r) := recv_from c ds in
  (length ds' < length ds)%nat ∧ ∃ m, r = Ok m ∧ ((∃ t, m = Failed t) ∨ CtxDone ∈ ds').
Proof.
  induction ds as [|d ds IH]; [by intros ?%elem_of_nil|]. cbn [recv_from length].
  intros [<-|Hd]%elem_of_cons; [by split; [lia|eauto]|].
  destruct d as [from h| | |]; [|by (split; [lia|eauto])..].
  pose proof (accept_settled c from h) as Ha. destruct (accept c from h) as [[m|]| | |]; [by (split; [lia|eauto])| |by (split; [lia|eauto])|done..].
  specialize (IH Hd). destruct (recv_from c ds) as [ds' r]. destruct IH. split; [lia|done].
Qed.

(** A computation comes back; if it succeeds, the end of the context is still
    ahead. *)
Definition comes_back {A} (n : net) (o : Info * net * res A) : Prop :=
  settled o.2 ∧
  (is_ok o.2 = true → CtxDone ∈ n_in o.1.2 ∧ (length (n_in o.1.2) < length (n_in n))%nat).

(** One turn of a loop. *)
Lemma turn_comes_back {A} c ep to opts b1 b2 (resend : bool) ok failed msg loop k (f : received → M (Info * net) A) i n :
  is_send ok = true → is_send failed = true → is_ok (dhcpMsgType opts) = true → Retransmission i ≠ 0 →
  CtxDone ∈ n_in n →
  (∀ t n1, comes_back n (f (Failed t) (i, n1))) →
  (∀ m n1, CtxDone ∈ n_in n1 → (length (n_in n1) < length (n_in n))%nat → comes_back n (f m (i, n1))) →
  comes_back n ((_ ← (if resend then _ ← counted ok failed msg (send c ep to opts b1 b2); arm_timer c loop k else mret ());
                 m ← recv c; f m) (i, n)).
Proof.
  intros Hok Hfl Ht Hr Hd Hf Hm.
  pose proof (turn_settled c ep to opts b1 b2 resend ok failed msg loop k i n Ht Hr) as Hs. revert Hs.
  set (t := if resend then _ else _). unfold mbind, M_bind. destruct (t (i, n)) as [[i0 n0] r0] eqn:Et.
  apply turn_spec in Et as (-> & Hn0 & _); [|done|done].
  destruct r0 as [u|e|e|]; cbn [snd]; intros Hs; [|by split|done..].
  unfold recv. rewrite Hn0. pose proof (recv_returns c (n_in n) Hd) as Hrv.
  destruct (recv_from c (n_in n)) as [ds r]. destruct Hrv as (Hl & m & -> & [[tt ->]|Hds]); [apply Hf|by apply Hm].
Qed.

(** What a failed receive and other ends leave. *)
Lemma comes_back_fails {A} n s msg i n1 : comes_back n ((fails s msg : M (Info * net) A) (i, n1)).
Proof. by split. Qed.

Lemma discover_comes_back fuel c ep to opts k resend i n :
  is_ok (dhcpMsgType opts) = true → Retransmission i ≠ 0 → CtxDone ∈ n_in n → (length (n_in n) < fuel)%nat →
  comes_back n (discover subnet_mask fuel c ep to opts k resend (i, n)).
Proof.
  intros Ht Hr. revert k resend n. induction fuel as [|fuel IH]; intros k resend n Hd Hf; [lia|].
  cbn [discover]. apply turn_comes_back; try done.
  intros m n1 Hd1 Hl1.
  assert (∀ s k' rs, comes_back n (discover subnet_mask fuel c ep to opts k' rs (i, add_stat n1 s))) as Hagain.
  { intros s k' rs. destruct (IH k' rs (add_stat n1 s) Hd1) as [H1 H2]; [cbn; lia|].
    split; [done|]. intros E. destruct (H2 E) as [? Hlt]. split; [done|]. cbn in Hlt. lia. }
  destruct m as [from addr ropts typ| |t]; [|apply (Hagain RecvOfferTimeout (k + 1) true)|apply comes_back_fails].
  case_match; [apply (Hagain RecvOfferUnexpectedType k false)|].
  pose proof (decode_settled ropts). destruct (decode ropts); [by split|by split|done..].
Qed.

Lemma request_comes_back fuel c ep to opts requested init k resend i n :
  is_ok (dhcpMsgType opts) = true → Retransmission i ≠ 0 → CtxDone ∈ n_in n → (length (n_in n) < fuel)%nat →
  comes_back n (request fuel c ep to opts requested init k resend (i, n)).
Proof.
  intros Ht Hr. revert k resend n. induction fuel as [|fuel IH]; intros k resend n Hd Hf; [lia|].
  cbn [request]. apply turn_comes_back; try done.
  intros m n1 Hd1 Hl1.
  assert (∀ s k' rs, comes_back n (request fuel c ep to opts requested init k' rs (i, add_stat n1 s))) as Hagain.
  { intros s k' rs. destruct (IH k' rs (add_stat n1 s) Hd1) as [H1 H2]; [cbn; lia|].
    split; [done|]. intros E. destruct (H2 E) as [? Hlt]. split; [done|]. cbn in Hlt. lia. }
  destruct m as [from addr ropts typ| |t]; [|apply (Hagain RecvAckTimeout (k + 1) true)|apply comes_back_fails].
  destruct (typ =? dhcpACK).
  { pose proof (decode_settled ropts). destruct (decode ropts); [|by split|done..]. case_match; by split. }
  destruct (typ =? dhcpNAK); [case_match; apply comes_back_fails|]. apply (Hagain RecvAckUnexpectedType k false).
Qed.

Lemma transact_settled c ep i n :
  Retransmission i ≠ 0 → CtxDone ∈ n_in n → settled (transact subnet_mask IPv4Broadcast c ep (i, n)).2.
Proof.
  intros Hr Hd. unfold transact. case_bool_decide as Es.
  - unfold mbind, M_bind.
    pose proof (discover_comes_back (S (length (n_in n))) c ep (write_to IPv4Broadcast i) (discOpts c (Addr i)) 0 true
      i n eq_refl Hr Hd ltac:(lia)) as [Hs Hc].
    destruct (discover _ _ c _ _ _ 0 true (i, n)) as [[i1 n1] d] eqn:Ed.
    destruct (discover_spec _ _ _ _ _ _ _ _ _ _ _ _ _ Ed) as ([] & _).
    destruct d as [q| | |]; [|done..]. destruct (Hc eq_refl) as [Hd1 Hl]. cbn [get_info fst snd] in *.
    apply request_comes_back; [done|congruence|done|lia].
  - unfold mbind, M_bind. cbn [mret M_ret get_info]. apply request_comes_back; [done|done|done|lia].
Qed.

(** ** [acquire] *)

(** A step around the exchange comes back, and the exchange in it does. *)
Definition returns (m : M (Info * net) Config) : Prop :=
  ∀ i n, Retransmission i ≠ 0 → CtxDone ∈ n_in n → settled (m (i, n)).2.

Lemma returns_bind {A} (m : M (Info * net) A) f :
  silent m → (∀ i n, settled (m (i, n)).2) → (∀ x, returns (f x)) → returns (m ≫= f).
Proof.
  intros Hm Hs Hf i n Hr Hd. specialize (Hs i n). unfold mbind, M_bind.
  destruct (m (i, n)) as [[i1 n1] x] eqn:E. destruct (Hm _ _ _ _ _ E) as [-> [Hn _ _]].
  destruct x as [x| | |]; [|done..]. apply Hf; [done|]. by rewrite Hn.
Qed.

Lemma returns_defer o m : returns m → returns (defer (sock o) m).
Proof.
  intros Hm i n Hr Hd. specialize (Hm i n Hr Hd). unfold defer.
  by destruct (m (i, n)) as [[i1 n1] [| | |]].
Qed.

Lemma try_settled a o msg i n : settled (try_sock a o msg (i, n)).2.
Proof. by destruct a. Qed.

#[local] Hint Resolve silent_sock silent_lift silent_get_info silent_try try_settled : dhcp.

Lemma returns_with_recv a c ep addr : returns (with_recv subnet_mask IPv4Broadcast a c ep addr).
Proof.
  unfold with_recv. apply returns_bind; [auto with dhcp..|intros _]. apply returns_defer.
  apply returns_bind; [auto with dhcp|done|intros i]. apply returns_bind; [auto with dhcp|done|intros _].
  apply returns_bind; [case_match; [apply silent_sock|apply (silent_lift (Ok ()))]|by case_match|intros _].
  apply returns_bind; [auto with dhcp..|intros _]. apply returns_bind; [auto with dhcp|done|intros _].
  apply returns_defer. apply returns_bind; [auto with dhcp|by destruct (a_rand a)|intros _].
  intros i1 n1. apply transact_settled.
Qed.

Lemma acquire_settled a c i n :
  State i ≠ bound → Retransmission i ≠ 0 → a_add a = None → a_remove a = None → CtxDone ∈ n_in n →
  settled (acquire subnet_mask IPv4Broadcast IPv4Any a c (i, n)).2.
Proof.
  intros Hb Hr Ha Hm Hd. unfold acquire. rewrite (bind_Ok get_info _ (i, n) (i, n) i) by done.
  destruct (State i); [|done|by apply returns_with_recv..]. rewrite Ha, Hm.
  refine ((_ : returns _) i n Hr Hd). apply returns_bind; [auto with dhcp|done|intros _]. apply returns_defer.
  apply returns_bind; [auto with dhcp..|intros _]. apply returns_defer.
  apply returns_bind; [auto with dhcp|done|intros _]. apply returns_bind; [auto with dhcp..|intros _].
  apply returns_with_recv.
Qed.

(** C32 A DHCP transaction comes back: if its context ends, [acquire] returns a
    lease or an error, whatever packets arrive before that, whatever the
    options in them, and whichever calls of the network stack fail, other than
    the addition and the removal of 0.0.0.0, on whose failure the code panics
    on purpose.  The client is not in the state bound, in which [Run] does not
    call [acquire], and its retransmission interval is not zero.  No byte
    string received from the network makes [acquire] panic or loop: indices
    and slices of the packet, and the options read as numbers, addresses and
    masks, panic in the model when they have the wrong length. *)
Theorem acquire_returns (a : answers) (c : client) (i : Info) (n : net) :
  State i ≠ bound → Retransmission i ≠ 0 → a_add a = None → a_remove a = None → CtxDone ∈ n_in n →
  match (acquire subnet_mask IPv4Broadcast IPv4Any a c (i, n)).2 with Ok _ | Err _ => True | _ => False end.
Proof. apply acquire_settled. Qed.

(** ** The loop of [Run] over real transactions *)

(** What the world does in one turn of [Run]. *)
Record weather := mkWeather {
  w_until : Z; w_now1 : Z; w_now2 : Z; w_ctx_failed : bool; w_ctx_done : bool;
  w_answers : answers; w_client : client; w_net : net;
}.

Definition turn_of (w : weather) : env :=
  mkEnv (w_until w)
    (λ _ i, let '(i', _, r) := acquire subnet_mask IPv4Broadcast IPv4Any (w_answers w) (w_client w) (i, w_net w) in (i', r))
    (w_ctx_failed w) (w_now1 w) (w_now2 w) (w_ctx_done w).

(** The stack adds and removes 0.0.0.0, and the context of the acquisition,
    which has a timeout, ends. *)
Definition fair (w : weather) : Prop :=
  a_add (w_answers w) = None ∧ a_remove (w_answers w) = None ∧ CtxDone ∈ n_in (w_net w).

(** The hypothesis of the theorem on the loop of [Run] holds of [acquire]. *)
Lemma turn_of_ok w : fair w → acquire_ok (turn_of w).
Proof.
  intros (Ha & Hm & Hd) t i Hb Hr. cbn [turn_of e_acquire].
  pose proof (acquire_settled (w_answers w) (w_client w) i (w_net w) Hb Hr Ha Hm Hd) as Hs.
  destruct (acquire _ _ _ _ _ _) as [[i' n'] r] eqn:Ea.
  by destruct (acquire_frame _ _ _ _ _ _ _ _ _ _ Ea) as ([] & _).
Qed.

(** The clock does not run backwards, and timers do not fire early. *)
Definition on_time (e : env) (s : rstate) : Prop :=
  0 < e_until e ∧ r_resume s ≤ e_until e ≤ e_now1 e ∧ e_now1 e ≤ e_now2 e.

Fixpoint clocked (es : list env) (s : rstate) : Prop :=
  match es with
  | [] => True
  | e :: es' => on_time e s ∧ match iteration true e s with Continue s' => clocked es' s' | _ => True end
  end.

Lemma clocked_timely es s : Forall acquire_ok es → clocked es s → timely true es s.
Proof.
  intros Hes. revert s. induction Hes as [|e es He _ IH]; intros s; [done|]. cbn [clocked timely].
  intros [Ht Hc]. split; [by split|]. destruct (iteration true e s); auto.
Qed.

Definition calls_of (o : outcome) : list call :=
  match o with Continue s | Return s | Blocked s => r_calls s | Paniced _ => [] end.

(** A call that takes the address back, or that gives the one acquired. *)
Definition given (e : env) (c : call) : Prop :=
  c_new c = zeroAwp ∨
  ∃ t i i' cfg, e_acquire e t i = (i', Ok cfg) ∧ c_new c = Addr i' ∧ c_cfg c = normalize cfg.

Lemma cleanup_calls i calls c : c ∈ (cleanup true i calls).2 → c ∈ calls ∨ c_new c = zeroAwp.
Proof.
  unfold cleanup. case_bool_decide; cbn [snd]; [by left|].
  intros [?|Hx%list_elem_of_singleton]%elem_of_app; [by left|right; by rewrite Hx].
Qed.

Lemma finish_calls s c : c ∈ r_calls (finish true s) → c ∈ r_calls s ∨ c_new c = zeroAwp.
Proof.
  intros Hc. apply (cleanup_calls (r_info s)). unfold finish in Hc. by destruct (cleanup true (r_info s) (r_calls s)).
Qed.

Lemma attempt_calls e t s c : c ∈ r_calls (attempt true e t s).1 → c ∈ r_calls s ∨ given e c.
Proof.
  unfold attempt. destruct (e_acquire e t (r_info s)) as [i [cfg| | |]] eqn:E; cbn [fst r_calls]; [|by left..].
  intros [?|Hx%list_elem_of_singleton]%elem_of_app; [by left|right; right]. subst c. by exists t, (r_info s), i, cfg.
Qed.

Lemma iteration_calls e s c : c ∈ calls_of (iteration true e s) → c ∈ r_calls s ∨ given e c.
Proof.
  unfold iteration. destruct (acquisition_timeout e s) as [t| | |]; [|by intros ?%elem_of_nil..].
  pose proof (attempt_calls e t (count_attempt s) c) as Ha. cbn [count_attempt r_calls] in Ha.
  destruct (attempt true e t (count_attempt s)) as [s1 go_on]. cbn [fst] in Ha.
  assert (c ∈ r_calls s1 ∨ c_new c = zeroAwp → c ∈ r_calls s ∨ given e c) as Ha'
    by (intros [?|?]; [by apply Ha|by right; left]).
  destruct go_on as [[]| | |]; [|by intros ?%finish_calls%Ha'|by apply Ha|by intros ?%elem_of_nil|by apply Ha].
  destruct (next_state _ _) as [[n w]| | |]; [|by intros ?%elem_of_nil..].
  destruct (e_ctx_done e); [intros Hc; apply Ha'; by apply finish_calls in Hc|].
  set (cl := if bool_decide _ && bool_decide _ then cleanup _ _ _ else _).
  assert (c ∈ cl.2 → c ∈ r_calls s1 ∨ c_new c = zeroAwp) as Hcl
    by (unfold cl; case_match; [apply cleanup_calls|by left]).
  destruct cl as [i' calls]. intros Hc. apply Ha'. repeat case_match; (by left) || (by apply Hcl).
Qed.

Lemma run_calls es s c : c ∈ calls_of (run true es s) → c ∈ r_calls s ∨ ∃ e, e ∈ es ∧ given e c.
Proof.
  revert s. induction es as [|e es IH]; intros s; cbn [run]; [by left|].
  pose proof (iteration_calls e s c) as Hi.
  assert (c ∈ calls_of (iteration true e s) → c ∈ r_calls s ∨ ∃ e0, e0 ∈ e :: es ∧ given e0 c) as Hend
    by (intros [?|?]%Hi; [by left|right; exists e; split; [by left|done]]).
  destruct (iteration true e s) as [s'|s'|s'|m] eqn:E; try exact Hend.
  intros [Hc|(e0 & ? & ?)]%IH; [exact (Hend Hc)|right; exists e0; split; [by right|done]].
Qed.

(** An ACK in what arrived in a turn: a valid reply to the transaction, for the
    address and with the configuration. *)
Definition acknowledged (w : weather) (a : AddressWithPrefix) (cfg : Config) : Prop :=
  ∃ from h addr ropts, Packet from h ∈ n_in (w_net w) ∧
    accept (w_client w) from h = Ok (Some (Message from addr ropts dhcpACK)) ∧
    decode ropts = Ok cfg ∧ a = mkAwp addr (mask_size (MaskAsSlice (SubnetMask cfg))).

Lemma given_acknowledged w c :
  given (turn_of w) c → c_new c = zeroAwp ∨ ∃ cfg, c_cfg c = normalize cfg ∧ acknowledged w (c_new c) cfg.
Proof.
  intros [?|(t & i & i' & cfg & E & -> & ->)]; [by left|right]. exists cfg. split; [done|]. cbn in E.
  destruct (acquire _ _ _ _ _ _) as [[i1 n'] r] eqn:Ea. injection E as -> ->.
  apply acquire_frame in Ea as (_ & _ & r2 & q & _ & Hq & [<-|[_ ?]]); [|done].
  destruct Hq as (-> & from & h & addr & ropts & ?). by exists from, h, addr, ropts.
Qed.

(** C31 The client that [NewClient] makes, with a retransmission interval that
    is not zero, run over a sequence of transactions, under two conditions on
    what surrounds it.  The clock does not run backwards from one reading to
    the next and timers do not fire early ([clocked]; when the clock is set
    back during a renewal [Run] panics, [clock_set_back_panics]).  The stack
    adds and removes 0.0.0.0 without an error, on which the code panics on
    purpose, and the context of each acquisition ends ([fair]).  Then the loop
    of [Run] never reaches a panic, whatever bytes arrive from the network; the calls of [acquiredFunc] hand the address over, each
    told the address given to the call before it, starting from none; when
    [Run] returns, the address has been taken back; and every address given
    to the network stack was confirmed by an ACK received in that run, for
    that address, with the configuration passed on. *)
Theorem client_safe (acquisition backoff retransmission : Z) (ws : list weather) :
  let s := run_start (newInfo acquisition backoff retransmission) in
  let o := run true (turn_of <$> ws) s in
  retransmission ≠ 0 → Forall fair ws → clocked (turn_of <$> ws) s →
  match o with
  | Continue s' | Blocked s' => handed_over zeroAwp (r_calls s') (OldAddr (r_info s'))
  | Return s' => handed_over zeroAwp (r_calls s') zeroAwp
  | Paniced _ => False
  end ∧
  ∀ c, c ∈ calls_of o →
    c_new c = zeroAwp ∨
    ∃ w cfg, w ∈ ws ∧ c_cfg c = normalize cfg ∧ acknowledged w (c_new c) cfg.
Proof.
  intros s o Hret Hf Hc. split.
  - assert (timely true (turn_of <$> ws) s) as Ht.
    { apply clocked_timely; [|done]. apply Forall_fmap. eapply Forall_impl; [done|]. apply turn_of_ok. }
    pose proof (run_ok zeroAwp (turn_of <$> ws) s ltac:(by split) Ht eq_refl) as Ho. fold o in Ho.
    destruct o; [by destruct Ho|by destruct Ho|done..].
  - intros c Hin. apply run_calls in Hin as [?%elem_of_nil|(e & (w & -> & Hw)%list_elem_of_fmap & Hg)]; [done|].
    apply given_acknowledged in Hg as [?|(cfg & ? & ?)]; [by left|right]. by exists w, cfg.
Qed.
End Returns.
End DhcpReturns.
