(* ===== verification/DhcpNames.v ===== *)
(** * Names of constants and packets in messages (third_party/dhcp/dhcp_string.go, dhcp.go: [String])

    The tables that stringer generates, with the indexing and slicing of the
    code, and how a packet is printed.  Packets from the network reach these
    functions: [recv] puts a packet that it refuses into its error. *)

From S2P Require Import Prelude Text Dhcp DhcpProps DhcpClient DhcpClientProps DhcpAcquire DhcpReturns.
Import Text Dhcp DhcpProps DhcpClient DhcpClientProps DhcpReturns.

Module DhcpNames.

(** ** The generated code *)

(** [name[index[i]:index[i+1]]]. *)
Definition name_at (name : bytes) (index : list Z) (i : Z) : res bytes :=
  match index !! Z.to_nat i, index !! Z.to_nat (i + 1) with
  | Some a, Some b =>
    if (a <=? b) && (b <=? len name) then Ok (ztake (b - a) (zdrop a name))
    else Panic "slice bounds out of range"
  | _, _ => Panic "index out of range"
  end.

(** ["T(" + strconv.FormatInt(int64(i), 10) + ")"]. *)
Definition unnamed (type : string) (i : Z) : bytes := str type ++ str "(" ++ dec i ++ str ")".

Definition u8 (z : Z) : Z := wrap 8 z.

Definition dhcpClientState_String (i : Z) : res bytes :=
  let index := [0; 13; 18; 26; 35] in
  if u8 (len index - 1) <=? i then Ok (unnamed "dhcpClientState" i)
  else name_at (str "initSelectingboundrenewingrebinding") index i.

Definition dhcpMsgType_String (i : Z) : res bytes :=
  let index := [0; 12; 21; 32; 43; 50; 57; 68] in
  let i := u8 (i - 1) in
  if u8 (len index - 1) <=? i then Ok (unnamed "dhcpMsgType" (u8 (i + 1)))
  else name_at (str "dhcpDISCOVERdhcpOFFERdhcpREQUESTdhcpDECLINEdhcpACKdhcpNAKdhcpRELEASE") index i.

Definition op_String (i : Z) : res bytes :=
  let index := [0; 9; 16] in
  let i := u8 (i - 1) in
  if u8 (len index - 1) <=? i then Ok (unnamed "op" (u8 (i + 1)))
  else name_at (str "opRequestopReply") index i.

Definition optionCode_String (i : Z) : res bytes :=
  if i =? 1 then Ok (str "optSubnetMask")
  else if i =? 3 then Ok (str "optRouter")
  else if i =? 6 then Ok (str "optDomainNameServer")
  else if i =? 15 then Ok (str "optDomainName")
  else if (50 <=? i) && (i <=? 51) then
    name_at (str "optReqIPAddroptLeaseTime") [0; 12; 24] (u8 (i - 50))
  else if (53 <=? i) && (i <=? 56) then
    name_at (str "optDHCPMsgTypeoptDHCPServeroptParamReqoptMessage") [0; 14; 27; 38; 48] (u8 (i - 53))
  else if (58 <=? i) && (i <=? 59) then
    name_at (str "optRenewalTimeoptRebindingTime") [0; 14; 30] (u8 (i - 58))
  else if i =? 61 then Ok (str "optClientID")
  else if i =? 12 then Ok (str "optHostname")
  else Ok (unnamed "optionCode" i).

(** ** Packets *)

Section Packets.
Context `{T : Tcpip} (addr_String : Address → bytes).

Definition option_String (opt : option) : res bytes :=
  n ← optionCode_String (code opt); mret (n ++ str ": " ++ hex (body opt)).

(** The options, separated by commas. *)
Fixpoint options_String (first : bool) (opts : list option) : res bytes :=
  match opts with
  | [] => Ok []
  | opt :: opts' =>
    o ← option_String opt;
    rest ← options_String false opts';
    mret ((if first then [] else str ",") ++ o ++ rest)
  end.

Definition hdr_String (h : hdr) : res bytes :=
  let buf := str "len=" ++ dec (len h) in
  valid ← isValid h;
  if negb valid then Ok (str "DHCP invalid; " ++ buf ++ str "; " ++ hex h)
  else
    match options h with
    | Ok opts =>
      os ← options_String true opts;
      let buf := buf ++ str ";options=" ++ os in
      match dhcpMsgType opts with
      | Ok msgType =>
        t ← dhcpMsgType_String msgType;
        ci ← ciaddr h; ci ← AddrFromSlice ci; yi ← yiaddr h; yi ← AddrFromSlice yi;
        si ← siaddr h; si ← AddrFromSlice si; gi ← giaddr h; gi ← AddrFromSlice gi; ch ← chaddr h;
        mret (buf ++ str "type=" ++ t ++ str ";ciaddr=" ++ addr_String ci
              ++ str ";yiaddr=" ++ addr_String yi ++ str ";siaddr=" ++ addr_String si
              ++ str ";giaddr=" ++ addr_String gi ++ str ";chaddr=" ++ hex ch)
      | Err e => Ok (str "DHCP type=" ++ str e ++ str "; " ++ buf ++ str "; " ++ hex h)
      | Panic e => Panic e
      | NoFuel => NoFuel
      end
    | Err e => Ok (str "DHCP options=" ++ str e ++ str "; " ++ buf ++ str "; " ++ hex h)
    | Panic e => Panic e
    | NoFuel => NoFuel
    end.
End Packets.

(** ** The tables are right *)

(** All values of a byte. *)
Definition all_bytes : list Z := Z.of_nat <$> seq 0 256.

Lemma all_bytes_lookup z : 0 ≤ z < 256 → all_bytes !! Z.to_nat z = Some z.
Proof. intros Hz. unfold all_bytes. rewrite list_lookup_fmap, lookup_seq_lt by lia. cbn. f_equal. lia. Qed.

(** A function that names every byte, and no two of them alike. *)
Definition names_bytes (f : Z → res bytes) : bool :=
  forallb (λ z, is_ok (f z)) all_bytes &&
  bool_decide (NoDup ((λ z, match f z with Ok n => n | _ => [] end) <$> all_bytes)).

Lemma names_bytes_spec f :
  names_bytes f = true →
  (∀ z, 0 ≤ z < 256 → ∃ n, f z = Ok n) ∧
  (∀ z z', 0 ≤ z < 256 → 0 ≤ z' < 256 → f z = f z' → z = z').
Proof.
  unfold names_bytes. rewrite andb_true_iff, forallb_forall, bool_decide_eq_true. intros [Hok Hnd]. split.
  - intros z Hz%all_bytes_lookup. specialize (Hok z ltac:(by eapply list_elem_of_In, list_elem_of_lookup_2)).
    destruct (f z); [by eexists|done..].
  - intros z z' Hz Hz' E. apply Z2Nat.inj; [lia|lia|].
    eapply NoDup_lookup; [exact Hnd|..]; rewrite list_lookup_fmap, all_bytes_lookup by done; cbn; [done|]. by rewrite E.
Qed.

Definition constants : list (Z * string) :=
  [(optSubnetMask, "optSubnetMask"); (optRouter, "optRouter"); (optDomainNameServer, "optDomainNameServer");
   (optHostname, "optHostname"); (optDomainName, "optDomainName"); (optReqIPAddr, "optReqIPAddr");
   (optLeaseTime, "optLeaseTime"); (optDHCPMsgType, "optDHCPMsgType"); (optDHCPServer, "optDHCPServer");
   (optParamReq, "optParamReq"); (optMessage, "optMessage"); (optRenewalTime, "optRenewalTime");
   (optRebindingTime, "optRebindingTime"); (optClientID, "optClientID")].

(** The generated tables agree with the constants: every option code has its
    own name, and of the four types no two values are printed alike, named or
    not; no value indexes a table out of range. *)
Theorem names_distinct :
  Forall (λ '(c, n), optionCode_String c = Ok (str n)) constants ∧
  ∀ f, f ∈ [dhcpClientState_String; dhcpMsgType_String; op_String; optionCode_String] →
    (∀ z, 0 ≤ z < 256 → ∃ n, f z = Ok n) ∧
    (∀ z z', 0 ≤ z < 256 → 0 ≤ z' < 256 → f z = f z' → z = z').
Proof.
  split; [by repeat constructor|]. intros f Hf. apply names_bytes_spec.
  rewrite !elem_of_cons, elem_of_nil in Hf. destruct Hf as [->|[->|[->|[->|[]]]]]; vm_compute; reflexivity.
Qed.

(** ** Every packet can be printed *)

Section Print.
Context `{T : Tcpip} (addr_String : Address → bytes).

Lemma isValid_ok h : ∃ b, isValid h = Ok b ∧ (b = true → 241 ≤ len h).
Proof.
  unfold isValid, dhcpMinimumSize, hdr_op. case_test; [by exists false|].
  destruct (get_in h 0) as (o & -> & _); [lia|]. cbn [mbind res_bind mret res_ret].
  case_match; [by exists false|]. destruct (slice_in h 1 3) as (x & -> & _); [lia|lia|]. cbn [mbind res_bind].
  case_match; [by exists false|]. destruct (slice_in h 236 240) as (y & -> & _); [lia|lia|].
  eexists. split; [done|]. intros _. lia.
Qed.

Lemma options_String_ok b opts : Forall wire_ok opts → ∃ s, options_String b opts = Ok s.
Proof.
  intros Hok. revert b. induction Hok as [|o opts [Hc _] _ IH]; intros b; [by eexists|]. cbn [options_String].
  assert (∃ n, optionCode_String (code o) = Ok n) as [n Hn].
  { apply (names_bytes_spec optionCode_String); [vm_compute; reflexivity|lia]. }
  unfold option_String. rewrite Hn. cbn [mbind res_bind mret res_ret]. destruct (IH false) as [s ->]. by eexists.
Qed.

Lemma dhcpMsgType_range opts t : dhcpMsgType opts = Ok t → 0 ≤ t < 256.
Proof.
  induction opts as [|o opts IH]; cbn; [intros [= <-]; lia|]. case_test; [|done].
  destruct (body o) as [|v [|]]; try done. case_match; [done|]. intros [= <-]. apply b2z_range.
Qed.

(** C36 Every packet can be printed: whatever bytes arrive, [hdr.String], with
    which the client reports the packets it refuses, ends with a text.  It
    indexes no packet and no table of names out of range. *)
Theorem packet_prints (h : hdr) : ∃ s, hdr_String addr_String h = Ok s.
Proof.
  unfold hdr_String. destruct (isValid_ok h) as (b & -> & Hl). cbn [mbind res_bind].
  destruct b; [|by eexists]. specialize (Hl eq_refl). cbn [negb].
  pose proof (options_loop_total (length h) h headerBaseSize) as Ht. unfold options.
  destruct (options_loop _ _ _) as [opts|e|e|];
    [|by eexists|exfalso; apply Ht; by (unfold headerBaseSize, len; lia)..].
  destruct Ht as [Hok _]; [done|unfold headerBaseSize, len; lia|].
  destruct (options_String_ok true opts Hok) as [os ->]. cbn [mbind res_bind].
  pose proof (dhcpMsgType_settled opts) as Hs. destruct (dhcpMsgType opts) as [t|e|e|] eqn:Et; [|by eexists|done..].
  destruct (proj1 (names_bytes_spec dhcpMsgType_String ltac:(vm_compute; reflexivity)) t) as [n ->];
    [by eapply dhcpMsgType_range|]. cbn [mbind res_bind]. unfold ciaddr, yiaddr, siaddr, giaddr, chaddr.
  destruct (slice_in h 12 16) as (a1 & -> & ?); [lia|lia|]. destruct (slice_in h 16 20) as (a2 & -> & ?); [lia|lia|].
  destruct (slice_in h 20 24) as (a3 & -> & ?); [lia|lia|]. destruct (slice_in h 24 28) as (a4 & -> & ?); [lia|lia|].
  destruct (slice_in h 28 44) as (a5 & -> & ?); [lia|lia|]. cbn [mbind res_bind].
  rewrite !AddrFromSlice_4 by lia. by eexists.
Qed.
End Print.
End DhcpNames.
