(* ===== verification/DhcpDemo.v ===== *)
(** * The DHCP client on concrete inputs

    A network stack whose addresses are lists of bytes, on which the theorems
    on the DHCP client are evaluated, and the inputs on which the code does
    not do what it means to. *)

From S2P Require Import Prelude Entry Dhcp DhcpProps DhcpClient DhcpClientProps DhcpAcquire DhcpAcquireProps.
From S2P Require Import DhcpSocket DhcpReturns.
Import Dhcp DhcpProps DhcpClient DhcpClientProps DhcpAcquire DhcpAcquireProps DhcpSocket DhcpReturns.

Module DhcpDemo.

#[export] Instance byte_stack : Tcpip := {|
  Address := bytes; Address_eq := _; zeroAddress := []; addr_of_bytes := id; AsSlice := id; AddrLen := len;
  AddressMask := bytes; AddressMask_eq := _; zeroMask := []; mask_of_bytes := id; MaskAsSlice := id;
  MaskLen := len |}.

Lemma len_0_nil (b : bytes) : len b = 0 → b = [].
Proof. destruct b; [done|]. unfold len. cbn [length]. lia. Qed.

#[export] Instance byte_stack_spec : TcpipSpec.
Proof. split; try done; apply len_0_nil. Qed.

Definition router : bytes := [xc0; xa8; x01; x01].
Definition own_address : bytes := [xc0; xa8; x01; x37].
Definition mask24 : bytes := [xff; xff; xff; x00].

Definition home (lease renew rebind : Z) : Config :=
  mkConfig router mask24 [router] [router; [x08; x08; x08; x08]] lease renew rebind.

(** ** Options and configurations *)

Lemma config_roundtrip_witness : decode (encode (home 3600 1800 3150)) = Ok (home 3600 1800 3150).
Proof. 
  apply config_roundtrip. split.
  1,2: by right.
  1,2: repeat constructor; done.
  all: cbn; lia.
Defined.

Lemma options_roundtrip_witness :
  ∃ h', setOptions (replicate 300 x00) (encode (home 3600 0 0)) = Ok h' ∧
        options h' = Ok (encode (home 3600 0 0)) ∧ len h' = 300 ∧
        ztake headerBaseSize h' = ztake headerBaseSize (replicate 300 x00).
Proof. apply (options_roundtrip (replicate 300 x00)); [vm_compute; repeat constructor; discriminate|by vm_compute]. Defined.

(** ** Lease times and delays *)

Lemma lease_times_witness :
  0 < RenewTime (normalize (home 3600 0 0)) < RebindTime (normalize (home 3600 0 0)) ∧
  RebindTime (normalize (home 3600 0 0)) < 3600.
Proof. apply (lease_times (home 3600 0 0)); cbn; lia. Defined.

Lemma backoff_bounds_witness :
  ∃ d, exponentialBackoff (4 * second) 3 (-500000000) = Ok d ∧ 0 ≤ d ≤ maxBackoff + second ∧
       (4 * second * 2 ^ 3 ≤ maxBackoff → d = Z.max 0 (4 * second * 2 ^ 3 + -500000000)).
Proof. apply backoff_bounds; unfold second; lia. Defined.

(** ** The loop *)

Definition start : Info := newInfo (60 * second) second (4 * second).

(** An acquisition that always gets the address, with the times [cfg]. *)
Definition acquires (cfg : Config) (t : Z) (i : Info) : Info * res Config :=
  (mkInfo (Acquisition i) (Backoff i) (Retransmission i) (mkAwp own_address 24) router (State i) (OldAddr i), Ok cfg).

Definition fails (t : Z) (i : Info) : Info * res Config := (i, Err "timeout").

(** A turn that starts at [t] and takes no time. *)
Definition turn (t : Z) (acq : Z → Info → Info * res Config) (done : bool) : env := mkEnv t acq false t t done.

(** The turns follow each other in time: the test of [timely] that can be
    evaluated. *)
Fixpoint in_time (es : list env) (s : rstate) : bool :=
  match es with
  | [] => true
  | e :: es' => (0 <? e_until e) && (r_resume s <=? e_until e) && (e_until e <=? e_now1 e)
      && (e_now1 e <=? e_now2 e)
      && match iteration true e s with Continue s' => in_time es' s' | _ => true end
  end.

Lemma in_time_clocked es s : in_time es s = true → clocked es s.
Proof.
  revert s. induction es as [|e es IH]; intros s Hs; [done|]. cbn [in_time clocked] in *.
  rewrite !andb_true_iff in Hs. destruct Hs as ((((? & ?) & ?) & ?) & Hi). bool_prop.
  split; [by split_and!|]. destruct (iteration true e s); auto.
Qed.

Lemma in_time_timely es s : Forall acquire_ok es → in_time es s = true → timely true es s.
Proof. intros Hes Hs. by apply clocked_timely, in_time_clocked. Qed.

(** A lease of ten minutes, renewed after five minutes; the renewal after
    that fails, the rebinding too, and the address is given back. *)
Definition a_life : list env :=
  [turn second (acquires (home 600 0 0)) false; turn (301 * second) (acquires (home 600 0 0)) false;
   turn (601 * second) fails false; turn (826 * second) fails false;
   turn (901 * second) fails false; turn (902 * second) fails true].

Lemma run_safe_witness :
  ∃ s, run true a_life (run_start start) = Return s ∧
    OldAddr (r_info s) = zeroAwp ∧ handed_over zeroAwp (r_calls s) zeroAwp ∧ length (r_calls s) = 3%nat.
Proof.
  pose proof (run_safe start a_life eq_refl ltac:(done)) as H.
  assert (timely true a_life (run_start start)) as Ht
    by (apply in_time_timely; [by repeat constructor|by vm_compute]).
  specialize (H Ht). clear Ht.
  assert (match run true a_life (run_start start) with
          | Return s => bool_decide (length (r_calls s) = 3%nat) | _ => false end = true) as Hc by (by vm_compute).
  destruct (run true a_life (run_start start)) as [s|s|s|m]; [done| |done..].
  exists s. destruct H. bool_prop. by split_and!.
Defined.

(** ** A transaction *)

Definition cl : client :=
  mkClient [x01; x02] [x77] [x02; x00; x00; x00; x00; x01] [x0a; x0b; x0c; x0d] (λ _ k, k * 1000).

(** A server's reply to transaction [cl]. *)
Definition reply (typ : Z) (ip : bytes) (cfg : Config) : bytes :=
  match
    (h ← hdr_init (replicate 300 x00);
     h ← setOp h opReply;
     h ← copy_slice h 4 8 (xid_bytes cl);
     h ← copy_slice h 16 20 ip;
     setOptions h (mkOption optDHCPMsgType [z2b typ] :: encode cfg))
  with Ok h => h | _ => [] end.

(** The first offer is lost; a packet for another client arrives. *)
Definition deliveries : list delivery :=
  [Timeout; Packet router (reply dhcpOFFER own_address (home 3600 0 0));
   Packet router (reply dhcpACK own_address (home 3600 0 0)); CtxDone].

Definition sent_opts : list option := discOpts cl zeroAwp.

Lemma sent_packet_valid_witness :
  ∃ h, build cl start sent_opts true false = Ok h ∧ isValid h = Ok true ∧ hdr_op h = Ok opRequest ∧
       xidbytes h = Ok (xid_bytes cl) ∧ options h = Ok sent_opts.
Proof. apply sent_packet_valid; [vm_compute; repeat constructor; discriminate|done]. Defined.

(** The stack answers nothing but success. *)
Definition willing : answers := mkAnswers None None (λ _, None) (λ _, None) None.

Definition any : Address := replicate 4 x00.
Definition bcast : Address := replicate 4 xff.
Definition mask_of (a : AddressWithPrefix) : AddressMask := mask24.

Definition demo_net : net := mkNet deliveries [] [] [] [] [].

Abbreviation demo_acquire a := (acquire mask_of bcast any a cl (start, demo_net)).

(** The evaluation of the transaction: its result, the address taken, and the
    numbers of packets sent, of counters incremented and of timers started. *)
Lemma demo_acquire_ok :
  match demo_acquire willing with
  | (i', n', Ok cfg) =>
      (LeaseLength cfg =? 3600) && bool_decide (Addr i' = mkAwp own_address 24)
      && bool_decide (length (n_sent n') = 3%nat)
      && bool_decide (n_stats n' = [SendDiscovers; RecvOfferTimeout; SendDiscovers; RecvOffers; SendRequests; RecvAcks])
      && bool_decide (n_delays n' = [4000000000; 8000001000; 4000000000])
  | _ => false
  end = true.
Proof. by vm_compute. Qed.


Lemma acquire_counts_witness :
  match demo_acquire willing with
  | (i', n', r) => is_ok r = true ∧ length (n_sent n') = sends_counted (n_stats n') ∧
      acks_counted (n_stats n') = 1%nat
  end.
Proof.
  pose proof demo_acquire_ok as Hd. destruct (demo_acquire willing) as [[i' n'] r] eqn:E.
  pose proof (acquire_counts mask_of bcast any willing cl start i' demo_net n' r eq_refl E) as [Hs Ha].
  destruct r as [cfg| | |]; [|done..]. cbn [is_ok] in Ha.
  change (sends_counted (n_stats demo_net)) with 0%nat in Hs. change (length (n_sent demo_net)) with 0%nat in Hs.
  change (acks_counted (n_stats demo_net)) with 0%nat in Ha. split_and!; [done|lia|lia].
Defined.

(** The receiving endpoint cannot be bound. *)
Definition unwilling : answers :=
  mkAnswers None None (λ _, None) (λ e, if bool_decide (e = RecvEP) then Some "port in use" else None) None.

Lemma demo_unwilling :
  match demo_acquire unwilling with
  | (_, n', Err _) => bool_decide (n_ops n' = 
      [AddAny; NewEndpoint SendEP; BindToDevice SendEP; Bind SendEP any; NewEndpoint RecvEP;
       BindToDevice SendEP; SetBroadcast SendEP; Close RecvEP; Close SendEP; RemoveAny])
  | _ => false
  end = true.
Proof. by vm_compute. Qed.


Lemma acquire_returns_witness :
  match (demo_acquire unwilling).2 with Ok _ | Err _ => True | _ => False end.
Proof. apply acquire_returns; try done. do 3 right. by left. Defined.

(** ** The client over transactions *)

(** A transaction that succeeds, one in which nothing arrives, after which the
    client is stopped. *)
Definition fine_day : weather := mkWeather second second second false false willing cl demo_net.
Definition last_day : weather :=
  mkWeather (1801 * second) (1801 * second) (1801 * second) true true willing cl (mkNet [CtxDone] [] [] [] [] []).

Definition days : list weather := [fine_day; last_day].

Lemma days_fair : Forall fair days.
Proof. repeat constructor; done || (cbn; set_solver). Qed.

Abbreviation demo_run :=
  (run true (turn_of mask_of bcast any <$> days) (run_start (newInfo (60 * second) second (4 * second)))).

Lemma demo_run_ok :
  match demo_run with
  | Return s => bool_decide ((λ c, (c_old c, c_new c)) <$> r_calls s =
      [(zeroAwp, mkAwp own_address 24); (mkAwp own_address 24, zeroAwp)])
  | _ => false
  end = true.
Proof. by vm_compute. Qed.

Lemma client_safe_witness :
  ∃ w cfg c, w ∈ days ∧ c ∈ calls_of demo_run ∧ c_new c = mkAwp own_address 24 ∧
    acknowledged w (mkAwp own_address 24) cfg.
Proof.
  pose proof demo_run_ok as Hok. 
  destruct (client_safe mask_of bcast any (60 * second) second (4 * second) days)
    as [_ Hack].
  - done.
  - exact days_fair.
  - apply in_time_clocked. by vm_compute.
  - destruct demo_run as [|s| |]; [done| |done..]. bool_prop.
    destruct (r_calls s) as [|c [|c' [|]]] eqn:Ec; try done. injection Hok as _ Hn _ _.
    destruct (Hack c) as [Hz|(w & cfg & Hw & _ & Ha)]; [cbn; rewrite Ec; by left|by rewrite Hn in Hz|].
    exists w, cfg, c. rewrite <-Hn. split_and!; [done|cbn; rewrite Ec; by left|done|done].
Defined.

(** ** Where the code does something else *)

(** The test for the broadcast flag looks at the wrong bit: after
    [setBroadcast] it says that the flag is not set. *)
Theorem broadcast_reads_wrong_bit :
  (h ← setBroadcast (replicate 241 x00); broadcast h) = Ok false.
Proof. by vm_compute. Qed.

(** In a new acquisition the option that lets several clients share the port,
    one per device, is set twice on the endpoint for writes and never on the
    one that listens. *)
Theorem listener_not_bound_to_device :
  match demo_acquire willing with
  | (_, n', Ok _) =>
      bool_decide (filter (λ o, o = BindToDevice SendEP ∨ o = BindToDevice RecvEP) (n_ops n') =
                   [BindToDevice SendEP; BindToDevice SendEP])
  | _ => false
  end = true.
Proof. by vm_compute. Qed.

(** The times used for a lease can be out of order.  A lease of sixty
    days without other times is renewed after the time for rebinding, since
    the product by 875 overflows; so is one for which only a short rebinding
    time is given; and a renewal time longer than the default lease is used
    when no length is given. *)
Theorem lease_times_out_of_order :
  (let c := normalize (home 5184000 0 0) in RebindTime c = 241032 ∧ RenewTime c = 2592000) ∧
  (let c := normalize (home 100 0 40) in RebindTime c = 40 ∧ RenewTime c = 50) ∧
  (let c := normalize (home 0 50000 0) in LeaseLength c = 43200 ∧ RenewTime c = 50000).
Proof. repeat split; vm_compute; reflexivity. Qed.

(** When the clock is set back during a renewal, as the answer of a time
    server may do, the client panics: it is renewing, and the time for the
    renewal has not come. *)
Theorem clock_set_back_panics :
  run true [turn second (acquires (home 600 0 0)) false;
            mkEnv (301 * second) fails false (301 * second) (100 * second) false] (run_start start)
  = Paniced "invalid client state".
Proof. by vm_compute. Qed.

(** The loop can wait for ever: with a lease of one second, the second
    acquisition finds the renewal already due, does not restart the timer,
    which has fired, and waits for it. *)
Theorem run_blocks :
  let es := [turn second (acquires (home 1 0 5)) false; turn (second + 100000000) (acquires (home 1 0 5)) false] in
  timely true es (run_start start) ∧
  match run true es (run_start start) with Blocked s => r_timer s = TFired | _ => False end.
Proof.
  split; [|by vm_compute]. apply in_time_timely; [by repeat constructor|by vm_compute].
Qed.
End DhcpDemo.
