(* ===== verification/UpdateClient.v ===== *)
(** * The RPC update client (internal/update/rpc/update_client.go)

    New firmware is handed to the OS in chunks of 1 MiB, the last of which
    carries the proofs.  The OS is a state [OS] and a function [call]; a call
    that installs firmware does not return, since the device restarts.  Also
    the two other calls of the client, for the versions and for a restart. *)

From S2P Require Import Prelude.

Module UpdateClient.

Definition fwUpdateChunkSize : Z := Z.shiftl 1 20.

(** [firmware.Bundle]. *)
Record Bundle := mkBundle {
  Checkpoint : bytes;
  Index : Z;
  InclusionProof : list bytes;
  Manifest : bytes;
  Firmware : bytes;
}.

(** The messages of the RPC interface. *)
Record ProofBundle := mkProof {
  p_Checkpoint : bytes;
  p_LogIndex : Z;
  p_InclusionProof : list bytes;
  p_Manifest : bytes;
}.

Definition zeroProof : ProofBundle := mkProof [] 0 [] [].

Record FirmwareUpdate := mkUpdate {
  Sequence : Z;
  Image : bytes;
  fu_Proof : ProofBundle;
}.

Definition zeroUpdate : FirmwareUpdate := mkUpdate 0 [] zeroProof.

Definition bundle_proof (fb : Bundle) : ProofBundle :=
  mkProof (Checkpoint fb) (Index fb) (InclusionProof fb) (Manifest fb).

Definition set_Firmware (fb : Bundle) (fw : bytes) : Bundle :=
  mkBundle (Checkpoint fb) (Index fb) (InclusionProof fb) (Manifest fb) fw.

(** What a call of the OS does: it returns nil or an error, or not at all. *)
Inductive reply := Nil | Failed (e : error) | NoReturn.

(** How the client ends: with an error, or with the device restarted while it
    waits.  [Sending]: it has not ended yet. *)
Inductive outcome := Errored (e : error) | Restarted | Sending.

Section Client.
Context `{P : Platform} {OS : Type}.
Context (call : string → FirmwareUpdate → OS → OS * reply).

(** One turn of the loop: the request that is sent, and the rest of the
    bundle.  The request is one variable, whose proof stays set. *)
Definition next_request (i : Z) (fu : FirmwareUpdate) (fb : Bundle) : FirmwareUpdate * Bundle :=
  let rem := len (Firmware fb) in
  let last := rem <=? fwUpdateChunkSize in
  let proof := if last then bundle_proof fb else fu_Proof fu in
  let size := if last then rem else fwUpdateChunkSize in
  (mkUpdate i (ztake size (Firmware fb)) proof, set_Firmware fb (zdrop size (Firmware fb))).

(** The loop of [sendChunkedUpdate]; the requests sent are collected. *)
Fixpoint send_loop (fuel : nat) (rpcName : string) (i : Z) (fu : FirmwareUpdate) (fb : Bundle) (os : OS)
    : OS * list FirmwareUpdate * outcome :=
  match fuel with
  | O => (os, [], Sending)
  | S fuel' =>
    let '(fu', fb') := next_request i fu fb in
    let '(os', r) := call rpcName fu' os in
    match r with
    | Nil =>
      let '(os'', sent, o) := send_loop fuel' rpcName (i +ᵤ 1) fu' fb' os' in (os'', fu' :: sent, o)
    | Failed e => (os', [fu'], Errored e)
    | NoReturn => (os', [fu'], Restarted)
    end
  end.

Definition sendChunkedUpdate (fuel : nat) (rpcName : string) (fb : Bundle) (os : OS) :=
  send_loop fuel rpcName 0 zeroUpdate fb os.

Definition InstallOS (fuel : nat) (fb : Bundle) (os : OS) := sendChunkedUpdate fuel "RPC.InstallOS" fb os.
Definition InstallApplet (fuel : nat) (fb : Bundle) (os : OS) := sendChunkedUpdate fuel "RPC.InstallApplet" fb os.

(** ** Versions and restarts *)

(** [semver.Version]. *)
Record Version := mkVersion { Major : Z; Minor : Z; Patch : Z; PreRelease : string; Metadata : string }.

Record InstalledVersions := mkVersions { iv_OS : Version; iv_Applet : Version }.

Definition zeroVersion : Version := mkVersion 0 0 0 "" "".

(** The calls without a firmware image: one fills in the versions, the other
    restarts the device. *)
Context (call_versions : OS → InstalledVersions → OS * InstalledVersions * option error).
Context (call_reboot : OS → OS * reply).

Definition GetInstalledVersions (os : OS) : OS * (Version * Version * option error) :=
  let '(os', iv, err) := call_versions os (mkVersions zeroVersion zeroVersion) in
  (os', (iv_OS iv, iv_Applet iv, err)).

(** Whether [Reboot] returns to its caller: the error of the call is dropped. *)
Definition Reboot (os : OS) : OS * bool :=
  let '(os', r) := call_reboot os in
  (os', match r with NoReturn => false | Nil | Failed _ => true end).

(** [Reboot] returns exactly when the call of the OS does, and the caller is
    not told why. *)
Theorem reboot_returns_on_error (os os' : OS) (e : error) :
  call_reboot os = (os', Failed e) → Reboot os = (os', true).
Proof. intros H. unfold Reboot. by rewrite H. Qed.
End Client.

(** ** The stream of requests *)

(** The number of the request that carries the proofs. *)
Definition last_request (fb : Bundle) : nat := Z.to_nat ((len (Firmware fb) - 1) / fwUpdateChunkSize).

(** Request [k]: chunk [k] of the firmware, with the proofs from the last
    chunk on. *)
Definition request_at `{Platform} (fb : Bundle) (k : nat) : FirmwareUpdate :=
  mkUpdate (to_uint (Z.of_nat k))
    (ztake fwUpdateChunkSize (zdrop (Z.of_nat k * fwUpdateChunkSize) (Firmware fb)))
    (if bool_decide (last_request fb ≤ k)%nat then bundle_proof fb else zeroProof).

Section Stream.
Context `{P : Platform} {OS : Type}.
Context (call : string → FirmwareUpdate → OS → OS * reply).

(** The bundle when [k] requests have been sent. *)
Definition rest_at (fb : Bundle) (k : nat) : Bundle :=
  set_Firmware fb (zdrop (Z.of_nat k * fwUpdateChunkSize) (Firmware fb)).

Lemma chunk_size : fwUpdateChunkSize = 1048576.
Proof. done. Qed.

Lemma last_request_spec fb k :
  (last_request fb ≤ k)%nat ↔ len (Firmware fb) - Z.of_nat k * fwUpdateChunkSize ≤ fwUpdateChunkSize.
Proof.
  unfold last_request. rewrite chunk_size. pose proof (len_nonneg (Firmware fb)).
  pose proof (Z.div_mod (len (Firmware fb) - 1) 1048576 ltac:(lia)).
  pose proof (Z.mod_pos_bound (len (Firmware fb) - 1) 1048576 ltac:(lia)). lia.
Qed.

Lemma next_request_at fb k fu :
  fu_Proof fu = (if bool_decide (last_request fb < k)%nat then bundle_proof fb else zeroProof) →
  next_request (to_uint (Z.of_nat k)) fu (rest_at fb k) = (request_at fb k, rest_at fb (S k)).
Proof.
  intros Hp. unfold next_request, request_at, rest_at. cbn [Firmware set_Firmware].
  pose proof (len_nonneg (Firmware fb)). pose proof (last_request_spec fb k) as Hl.
  rewrite chunk_size in *. rewrite len_drop by lia.
  destruct (_ <=? _) eqn:E; bool_prop.
  - rewrite bool_decide_true by lia. f_equal; [f_equal|].
    + unfold ztake. rewrite !take_ge; [done|..]; unfold zdrop, len in *; rewrite length_drop; lia.
    + unfold set_Firmware; cbn. f_equal. rewrite zdrop_zdrop by lia.
      unfold zdrop. rewrite !drop_ge; [done|..]; unfold len in *; lia.
  - rewrite (bool_decide_false (last_request fb ≤ k)%nat) by lia.
    rewrite bool_decide_false in Hp by lia. rewrite Hp. f_equal.
    unfold set_Firmware; cbn. f_equal. rewrite zdrop_zdrop by lia. f_equal. lia.
Qed.

Lemma sequence_succ k : to_uint (Z.of_nat k) +ᵤ 1 = to_uint (Z.of_nat (S k)).
Proof.
  unfold to_uint, uadd, wrap. pose proof uint_max_pos. rewrite Zplus_mod_idemp_l. f_equal. lia.
Qed.

(** The first requests to be refused, or not to return, ends the loop. *)
Fixpoint feed (fuel : nat) (rpcName : string) (fb : Bundle) (k : nat) (os : OS)
    : OS * nat * outcome :=
  match fuel with
  | O => (os, O, Sending)
  | S fuel' =>
    match call rpcName (request_at fb k) os with
    | (os', Nil) => let '(os'', n, o) := feed fuel' rpcName fb (S k) os' in (os'', S n, o)
    | (os', Failed e) => (os', 1%nat, Errored e)
    | (os', NoReturn) => (os', 1%nat, Restarted)
    end
  end.

Lemma send_loop_feed fuel rpcName fb k fu os :
  fu_Proof fu = (if bool_decide (last_request fb < k)%nat then bundle_proof fb else zeroProof) →
  send_loop call fuel rpcName (to_uint (Z.of_nat k)) fu (rest_at fb k) os =
  let '(os', n, o) := feed fuel rpcName fb k os in (os', request_at fb <$> seq k n, o).
Proof.
  revert k fu os. induction fuel as [|fuel IH]; intros k fu os Hp; [done|].
  cbn [send_loop feed]. rewrite next_request_at by done.
  destruct (call rpcName (request_at fb k) os) as [os' []]; [|done..].
  rewrite sequence_succ, IH.
  - by destruct (feed fuel rpcName fb (S k) os') as [[? n] ?].
  - unfold request_at; cbn. by rewrite (bool_decide_ext (last_request fb ≤ k)%nat (last_request fb < S k)%nat) by lia.
Qed.

Lemma send_feed fuel rpcName fb os :
  sendChunkedUpdate call fuel rpcName fb os =
  let '(os', n, o) := feed fuel rpcName fb 0 os in (os', request_at fb <$> seq 0 n, o).
Proof.
  unfold sendChunkedUpdate. rewrite <-(send_loop_feed fuel rpcName fb 0 zeroUpdate os).
  - f_equal. by destruct fb.
  - by rewrite bool_decide_false by lia.
Qed.

(** ** What the requests hold *)

Lemma images_upto fb k :
  concat (Image <$> (request_at fb <$> seq 0 k)) = ztake (Z.of_nat k * fwUpdateChunkSize) (Firmware fb).
Proof.
  rewrite <-list_fmap_compose. induction k as [|k IH]; [done|].
  rewrite seq_S, fmap_app, concat_app, IH. cbn. rewrite app_nil_r. rewrite chunk_size.
  unfold ztake, zdrop. rewrite take_take_drop. f_equal. lia.
Qed.

Lemma images_all fb : concat (Image <$> (request_at fb <$> seq 0 (S (last_request fb)))) = Firmware fb.
Proof.
  rewrite images_upto. pose proof (proj1 (last_request_spec fb (last_request fb)) ltac:(lia)).
  rewrite chunk_size in *. unfold ztake. apply take_ge. unfold len in *. lia.
Qed.

Lemma feed_prefix fuel rpcName fb k os os' n o :
  feed fuel rpcName fb k os = (os', n, o) → (n ≤ fuel)%nat ∧ (o = Sending → n = fuel).
Proof.
  revert k os os' n o. induction fuel as [|fuel IH]; intros k os os' n o; cbn [feed].
  { intros [= <- <- <-]. done. }
  destruct (call rpcName (request_at fb k) os) as [os1 []].
  - destruct (feed fuel rpcName fb (S k) os1) as [[os2 n2] o2] eqn:E. intros [= <- <- <-].
    destruct (IH _ _ _ _ _ E). split; [lia|]. intros ->. f_equal. auto.
  - intros [= <- <- <-]. split; [lia|done].
  - intros [= <- <- <-]. split; [lia|done].
Qed.

(** C28 The requests sent are a prefix of one stream that depends only on the
    bundle: chunk [k] of the firmware under the sequence number [k], at most
    1 MiB long, without proofs before the last chunk and with those of the
    bundle from it on.  The chunks up to the last make up the firmware. *)
Theorem chunked_update_stream (fuel : nat) (rpcName : string) (fb : Bundle) (os : OS) :
  let '(os', sent, o) := sendChunkedUpdate call fuel rpcName fb os in
  (∃ n, (n ≤ fuel)%nat ∧ sent = request_at fb <$> seq 0 n) ∧
  (∀ k r, sent !! k = Some r →
     Sequence r = to_uint (Z.of_nat k) ∧ len (Image r) ≤ fwUpdateChunkSize ∧
     fu_Proof r = if bool_decide (k < last_request fb)%nat then zeroProof else bundle_proof fb) ∧
  ((last_request fb < length sent)%nat →
     concat (Image <$> take (S (last_request fb)) sent) = Firmware fb).
Proof.
  rewrite send_feed. destruct (feed fuel rpcName fb 0 os) as [[os' n] o] eqn:E.
  destruct (feed_prefix _ _ _ _ _ _ _ _ E) as [Hn _]. split_and!.
  - by exists n.
  - intros k r. rewrite list_lookup_fmap, fmap_Some. intros (k' & Hk & ->).
    apply lookup_seq in Hk as [-> _]. cbn [Nat.add Sequence Image fu_Proof request_at]. split_and!; [done| |].
    + unfold ztake, len. rewrite length_take, chunk_size. lia.
    + by repeat case_bool_decide; try lia.
  - rewrite length_fmap, length_seq. intros Hl. rewrite <-fmap_take, take_seq.
    rewrite Nat.min_l by lia. apply images_all.
Qed.

(** C17 An update is delivered: if the OS takes every chunk before the last
    and restarts on the last, the client ends there, after as many calls as
    there are chunks, and has sent the whole firmware and its proofs. *)
Theorem chunked_update_delivers (rpcName : string) (fb : Bundle) (os : OS) (extra : nat) :
  (∀ k os, (k < last_request fb)%nat → (call rpcName (request_at fb k) os).2 = Nil) →
  (∀ os, (call rpcName (request_at fb (last_request fb)) os).2 = NoReturn) →
  ∃ os' sent, sendChunkedUpdate call (S (last_request fb) + extra) rpcName fb os = (os', sent, Restarted) ∧
    length sent = S (last_request fb) ∧ concat (Image <$> sent) = Firmware fb ∧
    (fu_Proof <$> last sent) = Some (bundle_proof fb).
Proof.
  intros Hnil Hlast. rewrite send_feed.
  assert (∀ j k os, (j + k = last_request fb)%nat →
    ∃ os', feed (S j + extra) rpcName fb k os = (os', S j, Restarted)) as H.
  { induction j as [|j IH]; intros k os0 Hk.
    - cbn. specialize (Hlast os0). replace (last_request fb) with k in Hlast by lia.
      destruct (call rpcName (request_at fb k) os0) as [? []]; try done. by eexists.
    - specialize (Hnil k os0 ltac:(lia)). change (S (S j) + extra)%nat with (S (S j + extra)). cbn [feed].
      destruct (call rpcName (request_at fb k) os0) as [os1 []]; try done.
      destruct (IH (S k) os1 ltac:(lia)) as [os' ->]. by eexists. }
  destruct (H (last_request fb) 0%nat os ltac:(lia)) as [os' ->]. eexists _, _. split; [done|].
  rewrite length_fmap, length_seq, images_all. split_and!; [done|done|].
  rewrite seq_S, fmap_app. cbn [fmap list_fmap]. rewrite last_snoc. cbn. by rewrite bool_decide_true by lia.
Qed.

(** An OS that reports success for every request is sent requests for ever. *)
Lemma chunked_update_spins fuel rpcName fb os :
  (∀ r os, (call rpcName r os).2 = Nil) →
  (sendChunkedUpdate call fuel rpcName fb os).2 = Sending.
Proof.
  intros Hnil. rewrite send_feed. generalize 0%nat at 1. generalize 0%nat. revert os.
  induction fuel as [|fuel IH]; intros os a k; [done|]. cbn [feed].
  specialize (Hnil (request_at fb k) os) as Hk.
  destruct (call rpcName (request_at fb k) os) as [os1 []]; try done. cbn in Hk.
  specialize (IH os1 a (S k)). by destruct (feed fuel rpcName fb (S k) os1) as [[? ?] ?].
Qed.
End Stream.

(** ** An update of three chunks *)

Definition demo_bundle : Bundle := mkBundle [x01] 7 [[x02]] [x03] (replicate (Z.to_nat 3000000) x7f).

(** An OS that restarts when it gets a proof. *)
Definition demo_os (rpcName : string) (r : FirmwareUpdate) (n : nat) : nat * reply :=
  (S n, match p_Checkpoint (fu_Proof r) with [] => Nil | _ => NoReturn end).

Lemma chunked_update_delivers_witness :
  last_request demo_bundle = 2%nat ∧
  ∃ os' sent, sendChunkedUpdate (P := arm) demo_os 10 "RPC.InstallOS" demo_bundle 0%nat = (os', sent, Restarted) ∧
    length sent = 3%nat ∧ concat (Image <$> sent) = Firmware demo_bundle ∧
    (fu_Proof <$> last sent) = Some (bundle_proof demo_bundle).
Proof.
  assert (last_request demo_bundle = 2%nat) as E.
  { unfold last_request, demo_bundle, len. cbn [Firmware]. by rewrite length_replicate, Z2Nat.id by lia. }
  split; [done|].
  pose proof (chunked_update_delivers (P := arm) demo_os "RPC.InstallOS" demo_bundle 0%nat 7) as H.
  rewrite E in H. apply H; clear H.
  - intros k os Hk. unfold demo_os, request_at. cbn [fu_Proof snd]. by rewrite bool_decide_false by (rewrite E; lia).
  - intros os. unfold demo_os, request_at. cbn [fu_Proof snd]. by rewrite bool_decide_true by (rewrite E; lia).
Defined.
End UpdateClient.
