(* ===== verification/FwUpdate.v ===== *)
(** * Firmware updates (trusted_applet/update.go)

    The construction of the updater from the compiled-in settings, the
    verifier of firmware bundles, and the fetcher.  The packages [note],
    [json], [url], [net/http], and the update library are parameters. *)

From Stdlib Require Import Ascii.
From S2P Require Import Prelude UpdateClient.
Import UpdateClient.

Module FwUpdate.

Definition second : Z := 1000000000.

(** ** Fetching over HTTP *)

(** A response: its status, the bytes of the body that arrive, and whether
    reading the body ends in an error. *)
Record response := mkResponse {
  StatusCode : Z;
  Body : bytes;
  body_err : option error;
}.

Definition StatusOK : Z := 200.
Definition StatusNotFound : Z := 404.
Definition ErrNotExist : error := "file does not exist".

(** [io.ReadAll]: the bytes read and the error. *)
Definition ReadAll (r : response) : bytes * option error := (Body r, body_err r).

(** [readHTTP], given the outcomes of [http.NewRequest] and [hc.Do]; the
    boolean says whether the body of the response has been closed. *)
Definition readHTTP (newRequest : option error) (do : res response) : res bytes * bool :=
  match newRequest with
  | Some e => (Err e, false)
  | None =>
    match do with
    | Ok resp =>
      if StatusCode resp =? StatusNotFound then (Err ErrNotExist, false)
      else if StatusCode resp =? StatusOK then
        let '(b, err) := ReadAll resp in (Ok b, true)
      else (Err "unexpected http status", false)
    | Err e => (Err "http.Client.Do()", false)
    | Panic e => (Panic e, false)
    | NoFuel => (NoFuel, false)
    end
  end.

Section Update.
Context {URL Verifier FirmwareRelease Fetcher Updater : Type}.
(** [url.Parse], [URL.Parse], [http.NewRequest] and [http.Client.Do]. *)
Context (url_Parse : string → res URL) (URL_Parse : URL → string → res URL).
Context (NewRequest : URL → option error) (Do : URL → Z → res response).
(** [note.NewVerifier] and [note.Open]: the text of the note, when one of the
    verifiers accepts a signature. *)
Context (NewVerifier : string → res Verifier) (note_Open : bytes → list Verifier → res string).
(** [json.Unmarshal] of a release, its component, and [update.BinaryPath]. *)
Context (Unmarshal : string → res FirmwareRelease) (Component : FirmwareRelease → string)
  (BinaryPath : FirmwareRelease → res string).
Context (ComponentApplet ComponentOS : string).

Definition newFetcher (root : URL) (httpTimeout : Z) (p : string) : res bytes :=
  u ← URL_Parse root p;
  (readHTTP (NewRequest u) (Do u httpTimeout)).1.

(** ** The verifier of bundles *)

Record BundleVerifier := mkBV {
  LogOrigin : string;
  LogVerifer : Verifier;
  ManifestVerifiers : list Verifier;
}.

(** [BundleVerifier.Verify]. *)
Context (bv_Verify : BundleVerifier → Bundle → res unit).

Record fwVerifier := mkFW {
  logOrigin : string;
  logVerifier : Verifier;
  appletBundleVerifier : BundleVerifier;
  osBundleVerifier : BundleVerifier;
}.

Definition newFWVerifier (origin : string) (log applet : Verifier) (os : list Verifier) : fwVerifier :=
  mkFW origin log (mkBV origin log [applet]) (mkBV origin log os).

Definition Verify (fw : fwVerifier) (b : Bundle) : res unit :=
  let allVerifiers :=
    ManifestVerifiers (appletBundleVerifier fw) ++ ManifestVerifiers (osBundleVerifier fw) in
  text ← match note_Open (Manifest b) allVerifiers with Err _ => Err "failed to open manifest" | r => r end;
  r ← match Unmarshal text with Err _ => Err "failed to unmarshal manifest" | r => r end;
  if bool_decide (Component r = ComponentApplet) then bv_Verify (appletBundleVerifier fw) b
  else if bool_decide (Component r = ComponentOS) then bv_Verify (osBundleVerifier fw) b
  else Err "non updatable component".

(** ** The updater *)

(** The settings: the two URLs are variables that [updater] completes, the
    others are constant. *)
Record settings := mkSettings {
  updateLogOrigin : string;
  updateLogVerifier : string;
  updateAppletVerifier : string;
  updateOSVerifier1 : string;
  updateOSVerifier2 : string;
}.

Record urls := mkUrls { updateLogURL : string; updateBinariesURL : string }.

Record FetcherOpts := mkOpts {
  LogFetcher : string → res bytes;
  fo_LogOrigin : string;
  LogVerifier : Verifier;
  BinaryFetcher : FirmwareRelease → res bytes;
  AppletVerifier : Verifier;
  OSVerifiers : Verifier * Verifier;
}.

(** [update.NewFetcher] and [update.NewUpdater] with the RPC client. *)
Context (NewFetcher : FetcherOpts → res Fetcher) (NewUpdater : Fetcher → fwVerifier → res Updater).

(** [if s[len(s)-1] != '/' { s += "/" }]. *)
Definition with_slash (s : string) : res string :=
  match String.get (String.length s - 1) s with
  | None => Panic "index out of range"
  | Some c => Ok (if bool_decide (c = "/"%char) then s else s +:+ "/")
  end.

Definition fail {A} (msg : error) (r : res A) : res A :=
  match r with Err _ => Err msg | _ => r end.

Definition complete_log_url : M urls string := λ v,
  match with_slash (updateLogURL v) with
  | Ok s => (mkUrls s (updateBinariesURL v), Ok s)
  | Err e => (v, Err e) | Panic e => (v, Panic e) | NoFuel => (v, NoFuel)
  end.

Definition complete_binaries_url : M urls string := λ v,
  match with_slash (updateBinariesURL v) with
  | Ok s => (mkUrls (updateLogURL v) s, Ok s)
  | Err e => (v, Err e) | Panic e => (v, Panic e) | NoFuel => (v, NoFuel)
  end.

Definition binFetcher (bf : string → res bytes) (r : FirmwareRelease) : res bytes :=
  p ← fail "BinaryPath" (BinaryPath r); bf p.

Definition updater (st : settings) : M urls (Fetcher * Updater) :=
  logURL ← complete_log_url;
  logBaseURL ← lift (fail "firmware log URL invalid" (url_Parse logURL));
  logV ← lift (fail "invalid firmware log verifier" (NewVerifier (updateLogVerifier st)));
  appletV ← lift (fail "invalid applet verifier" (NewVerifier (updateAppletVerifier st)));
  os1 ← lift (fail "invalid OS verifier 1" (NewVerifier (updateOSVerifier1 st)));
  os2 ← lift (fail "invalid OS verifier 2" (NewVerifier (updateOSVerifier2 st)));
  binURL ← complete_binaries_url;
  binBaseURL ← lift (fail "binaries URL invalid" (url_Parse binURL));
  let bf := newFetcher binBaseURL (5 * 60 * second) in
  f ← lift (fail "NewFetcher" (NewFetcher (mkOpts (newFetcher logBaseURL (30 * second)) (updateLogOrigin st)
         logV (binFetcher bf) appletV (os1, os2))));
  let fw := newFWVerifier (updateLogOrigin st) logV appletV [os1; os2] in
  u ← lift (fail "NewUdater" (NewUpdater f fw));
  mret (f, u).
End Update.

Arguments fwVerifier : clear implicits.
Arguments BundleVerifier : clear implicits.
End FwUpdate.
