(* ===== verification/FwUpdateProps.v ===== *)
(** * Properties of firmware updates

    Which bundles are accepted, that building the updater can be retried, and
    what the fetcher does with incomplete downloads. *)

From Stdlib Require Import Ascii.
From S2P Require Import Prelude UpdateClient FwUpdate.
Import UpdateClient FwUpdate.

Module FwUpdateProps.

(** ** Downloads *)

(** The fetcher never reports an error of the download: what has arrived when
    the connection breaks is returned as the whole file.  A response other
    than 200 is not closed. *)
Theorem readHTTP_hides_truncation (b : bytes) (e : error) :
  readHTTP None (Ok (mkResponse 200 b (Some e))) = (Ok b, true) ∧
  readHTTP None (Ok (mkResponse 404 b None)) = (Err ErrNotExist, false) ∧
  readHTTP None (Ok (mkResponse 500 b None)) = (Err "unexpected http status", false).
Proof. done. Qed.

(** ** The verifier *)

Section Verifier.
Context {Verifier FirmwareRelease : Type}.
Context (note_Open : bytes → list Verifier → res string).
Context (Unmarshal : string → res FirmwareRelease) (Component : FirmwareRelease → string).
Context (ComponentApplet ComponentOS : string).
Context (bv_Verify : BundleVerifier Verifier → Bundle → res unit).

(** What the verifier of the firmware library promises: every one of its keys
    has signed the manifest, and the log has committed to the bundle. *)
Context (signed : Verifier → bytes → Prop) (logged : string → Verifier → Bundle → Prop).
Context (bv_checks : ∀ bv b, bv_Verify bv b = Ok () →
  Forall (λ v, signed v (Manifest b)) (ManifestVerifiers bv) ∧ logged (LogOrigin bv) (LogVerifer bv) b).

(** C16 A bundle that is accepted is in the log, and its manifest is that of an
    applet signed with the applet key, or that of an OS signed with both OS
    keys.  In particular no key of one component can sign for the other, and
    no other component can be updated. *)
Theorem accepted_bundle (origin : string) (log applet os1 os2 : Verifier) (b : Bundle) :
  Verify note_Open Unmarshal Component ComponentApplet ComponentOS bv_Verify
    (newFWVerifier origin log applet [os1; os2]) b = Ok () →
  logged origin log b ∧
  ∃ text r, note_Open (Manifest b) [applet; os1; os2] = Ok text ∧ Unmarshal text = Ok r ∧
    (Component r = ComponentApplet ∧ signed applet (Manifest b) ∨
     Component r = ComponentOS ∧ signed os1 (Manifest b) ∧ signed os2 (Manifest b)).
Proof.
  unfold Verify. cbn [newFWVerifier appletBundleVerifier osBundleVerifier ManifestVerifiers app].
  destruct (note_Open (Manifest b) [applet; os1; os2]) as [text| | |]; [|done..]. cbn [mbind res_bind].
  destruct (Unmarshal text) as [r| | |] eqn:Eu; [|done..]. cbn [mbind res_bind].
  case_bool_decide; [|case_bool_decide; [|done]]; intros Hv;
    destruct (bv_checks _ _ Hv) as [Hs Hl]; cbn in Hs, Hl; rewrite ?Forall_cons in Hs;
    (split; [done|]); exists text, r; (do 2 (split; [done|])); [left|right]; tauto.
Qed.
End Verifier.

(** Keys are bytes, and a manifest is signed by the keys that it contains; the
    rest of the manifest is read as an OS release. *)
Definition demo_bv (bv : BundleVerifier byte) (b : Bundle) : res unit :=
  if bool_decide (Forall (λ v, v ∈ Manifest b) (ManifestVerifiers bv)) && (Index b =? 7)
  then Ok () else Err "invalid bundle".

Definition demo_bundle (keys : bytes) : Bundle := mkBundle [] 7 [] keys [].

Lemma accepted_bundle_witness :
  x02 ∈ Manifest (demo_bundle [x02; x03]) ∧ x03 ∈ Manifest (demo_bundle [x02; x03]).
Proof.
  destruct (accepted_bundle (λ _ _, Ok "OS"%string) Ok id "APPLET" "OS" demo_bv
    (λ v m, v ∈ m) (λ _ _ b, Index b = 7)) with "origin"%string x00 x01 x02 x03 (demo_bundle [x02; x03])
    as (_ & text & r & [= <-] & [= <-] & [[? _]|[_ H]]).
  - intros bv b. unfold demo_bv. destruct (_ && _) eqn:E; [|done]. apply andb_true_iff in E as [? ?].
    bool_prop. done.
  - by vm_compute.
  - done.
  - exact H.
Defined.

(** ** The updater *)

Lemma get_last_app s c : String.get (String.length (s +:+ String c "") - 1) (s +:+ String c "") = Some c.
Proof.
  assert (String.length (s +:+ String c "") = S (String.length s)) as ->.
  { induction s as [|a s IH]; [done|]. exact (f_equal S IH). }
  cbn. rewrite Nat.sub_0_r.
  induction s as [|a s IH]; [done|]. exact IH.
Qed.

(** Completing a URL twice is completing it once. *)
Lemma with_slash_ok s s' : with_slash s = Ok s' → (s' = s ∨ s' = s +:+ "/") ∧ with_slash s' = Ok s'.
Proof.
  unfold with_slash. destruct (String.get _ s) as [c|] eqn:E; [|done]. intros [= <-].
  case_bool_decide as Ec.
  - split; [by left|]. rewrite E. by rewrite bool_decide_true.
  - split; [by right|]. by rewrite get_last_app, bool_decide_true.
Qed.

Lemma with_slash_result s : (∃ s', with_slash s = Ok s') ∨ s = "" ∧ with_slash s = Panic "index out of range".
Proof.
  unfold with_slash. destruct (String.get _ s) as [c|] eqn:E; [by eauto|]. right.
  split; [|done]. destruct s as [|a s]; [done|]. exfalso. cbn in E. rewrite Nat.sub_0_r in E.
  revert a E. induction s as [|a' s IH]; intros a E; [done|]. cbn in E. by apply (IH a').
Qed.

Section Updater.
Context {URL Verifier FirmwareRelease Fetcher Updater : Type}.
Context (url_Parse : string → res URL) (URL_Parse : URL → string → res URL).
Context (NewRequest : URL → option error) (Do : URL → Z → res response).
Context (NewVerifier : string → res Verifier) (BinaryPath : FirmwareRelease → res string).
Context (NewFetcher : FetcherOpts (Verifier := Verifier) (FirmwareRelease := FirmwareRelease) → res Fetcher)
  (NewUpdater : Fetcher → fwVerifier Verifier → res Updater).

Abbreviation upd := (updater url_Parse URL_Parse NewRequest Do NewVerifier BinaryPath NewFetcher NewUpdater).

(** The ways out with an error. *)
Ltac early_exit := split_and!; [done|by auto|by auto|by intros].

(** The updater can be built again at any time, as the update loop does
    after a failure: a second attempt leaves the URLs as the first has
    completed them, and has the same result.  A URL only ever gets a final
    slash.  If the updater is built, its verifier holds the compiled-in keys,
    two of them for the OS. *)
Theorem updater_retry (st : settings) (v : urls) :
  let '(v', r) := upd st v in
  upd st v' = (v', r) ∧
  (updateLogURL v' = updateLogURL v ∨ updateLogURL v' = updateLogURL v +:+ "/") ∧
  (updateBinariesURL v' = updateBinariesURL v ∨ updateBinariesURL v' = updateBinariesURL v +:+ "/") ∧
  ∀ f u, r = Ok (f, u) → ∃ logV appletV os1 os2,
    NewVerifier (updateLogVerifier st) = Ok logV ∧ NewVerifier (updateAppletVerifier st) = Ok appletV ∧
    NewVerifier (updateOSVerifier1 st) = Ok os1 ∧ NewVerifier (updateOSVerifier2 st) = Ok os2 ∧
    NewUpdater f (newFWVerifier (updateLogOrigin st) logV appletV [os1; os2]) = Ok u.
Proof.
  destruct v as [lu bu]. unfold updater, complete_log_url, complete_binaries_url, lift, fail, mbind, M_bind.
  cbn [updateLogURL updateBinariesURL].
  destruct (with_slash_result lu) as [[lu' El]|[-> El]]; rewrite El; cbn [updateLogURL updateBinariesURL];
    [|rewrite El; early_exit].
  destruct (with_slash_ok _ _ El) as [Hl Hl'].
  destruct (url_Parse lu') as [lb| | |] eqn:E1; [|cbn [updateLogURL updateBinariesURL]; rewrite Hl', E1; early_exit..].
  destruct (NewVerifier (updateLogVerifier st)) as [logV| | |] eqn:E2; [|cbn [updateLogURL updateBinariesURL]; rewrite Hl', E1; early_exit..].
  destruct (NewVerifier (updateAppletVerifier st)) as [appV| | |] eqn:E3; [|cbn [updateLogURL updateBinariesURL]; rewrite Hl', E1; early_exit..].
  destruct (NewVerifier (updateOSVerifier1 st)) as [os1| | |] eqn:E4; [|cbn [updateLogURL updateBinariesURL]; rewrite Hl', E1; early_exit..].
  destruct (NewVerifier (updateOSVerifier2 st)) as [os2| | |] eqn:E5; [|cbn [updateLogURL updateBinariesURL]; rewrite Hl', E1; early_exit..].
  destruct (with_slash_result bu) as [[bu' Eb]|[-> Eb]]; rewrite Eb; cbn [updateLogURL updateBinariesURL];
    [|cbn [updateLogURL updateBinariesURL]; rewrite Hl', E1; cbn [updateLogURL updateBinariesURL]; rewrite Eb; early_exit].
  destruct (with_slash_ok _ _ Eb) as [Hb Hb'].
  destruct (url_Parse bu') as [bb| | |] eqn:E6;
    [|cbn [updateLogURL updateBinariesURL]; rewrite Hl', E1; cbn [updateLogURL updateBinariesURL]; rewrite Hb', E6; early_exit..].
  set (opts := mkOpts _ _ _ _ _ _). destruct (NewFetcher opts) as [f| | |] eqn:E7;
    [destruct (NewUpdater f _) as [u| | |] eqn:E8|..];
    cbn [mret M_ret updateLogURL updateBinariesURL]; rewrite Hl', E1; cbn [updateLogURL updateBinariesURL]; rewrite Hb', E6; fold opts; rewrite E7, ?E8;
    (split_and!; [done|done|done|]); intros f' u'; [|done..].
  intros [= <- <-]. by exists logV, appV, os1, os2.
Qed.
End Updater.
End FwUpdateProps.
