(* ===== verification/NetLink.v ===== *)
(** * The link layer (trusted_applet/net.go, trusted_applet/handler.go)

    The MAC address, the frames exchanged with the OS, the loop of the event
    handler, and the start of the network stack. *)

From S2P Require Import Prelude Sha256 Text.
Import Text.

Module NetLink.

(** ** The MAC address *)

Definition colon : byte := x3a.

Fixpoint join (sep : byte) (l : list bytes) : bytes :=
  match l with
  | [] => []
  | [x] => x
  | x :: l' => x ++ sep :: join sep l'
  end.

(** The first six bytes of the hash, with the flags of the first byte set. *)
Definition mac_bytes (serial : bytes) : bytes :=
  match Sha256.Sum256 (str "MAC:" ++ serial) with
  | m0 :: m =>
    let m0 := z2b (Z.land (b2z m0) 254) in
    let m0 := z2b (Z.lor (b2z m0) 2) in
    take 6 (m0 :: m)
  | [] => []
  end.

Definition mac (serial : bytes) : bytes := join colon (hex2 <$> mac_bytes serial).

(** [net.ParseMAC] of the standard library, for addresses written in pairs of
    digits. *)
Fixpoint mac_pairs (n : nat) (sep : byte) (s : bytes) : option bytes :=
  match n, s with
  | O, _ => Some []
  | S n', a :: b :: r =>
    if match r with c :: _ => bool_decide (c ≠ sep) | [] => false end then None
    else z ← unhex2 a b; rest ← mac_pairs n' sep (drop 1 r); Some (z :: rest)
  | _, _ => None
  end.

Definition ParseMAC (s : bytes) : option bytes :=
  if len s <? 14 then None
  else match s !! 2%nat with
  | Some c =>
    if bool_decide (c = colon) || bool_decide (c = x2d) then
      if negb ((len s + 1) mod 3 =? 0) then None
      else
        let n := (len s + 1) / 3 in
        if bool_decide (n ∈ [6; 8; 20]) then mac_pairs (Z.to_nat n) c s else None
    else None
  | None => None
  end.

(** ** Frames *)

(** What is handed to the stack: protocol, link header, payload. *)
Record inbound := mkInbound { in_proto : Z; in_header : bytes; in_payload : bytes }.

(** [buf[a:b]] and [buf[a:]].  The first panics beyond the capacity of the
    slice; it is taken here to panic beyond the length, since [rx] also takes
    [buf[14:]], which does. *)
Definition slice (buf : bytes) (a b : Z) : res bytes :=
  if (a <=? b) && (b <=? len buf) then Ok (ztake (b - a) (zdrop a buf)) else Panic "slice bounds out of range".
Definition slice_from (buf : bytes) (a : Z) : res bytes :=
  if a <=? len buf then Ok (zdrop a buf) else Panic "slice bounds out of range".

(** Nothing is handed over of a buffer without a whole header. *)
Definition rx (buf : bytes) : res (option inbound) :=
  if len buf <? 14 then Ok None
  else
    hdr ← slice buf 0 14;
    proto ← slice buf 12 14;
    payload ← slice_from buf 14;
    mret (Some (mkInbound (be_decode proto) hdr payload)).

(** A packet that the stack sends, and the frame made of it; without a packet
    the frame is empty. *)
Record packet := mkPacket {
  NetworkProtocolNumber : Z;
  RemoteLinkAddress : bytes;
  AsSlices : list bytes;
}.

Definition tx (MAC : bytes) (pkt : option packet) : bytes :=
  match pkt with
  | None => []
  | Some pkt =>
    let proto := be_encode 2 (NetworkProtocolNumber pkt) in
    RemoteLinkAddress pkt ++ MAC ++ proto ++ concat (AsSlices pkt)
  end.

(** [WriteNotify] writes the frame to the OS. *)
Definition WriteNotify (MAC : bytes) (pkt : option packet) (written : list bytes) : list bytes :=
  written ++ [tx MAC pkt].

(** ** The event handler *)

Section Handler.
Context (MTU : Z).

(** An answer of the OS to a read of a frame: the length it returns and the
    bytes it has put into the buffer.  No answer left: no frame, length 0. *)
Record answer := mkAnswer { a_n : Z; a_data : bytes }.

Definition rxFromEth (buf : bytes) (q : list answer) : bytes * list answer * Z :=
  match q with
  | [] => (buf, [], 0)
  | a :: q' =>
    (copy_at 0 buf (a_data a), q', if (a_n a =? 0) || (MTU <? a_n a) then 0 else a_n a)
  end.

(** One wake-up: frames are read into the one buffer until there is none. *)
Fixpoint drain (fuel : nat) (out : bytes) (q : list answer) : res (bytes * list answer * list inbound) :=
  match fuel with
  | O => NoFuel
  | S fuel' =>
    let '(out', q', n) := rxFromEth out q in
    if n <=? 0 then Ok (out', q', [])
    else if len out' <? n then Panic "slice bounds out of range"
    else
      i ← rx (ztake n out');
      '(out'', q'', ins) ← drain fuel' out' q';
      mret (out'', q'', option_list i ++ ins)
  end.

Definition handle_event (out : bytes) (q : list answer) := drain (S (length q)) out q.

(** The loop of the handler over its wake-ups: at each of them the answers
    [new] have joined those [q] that were waiting. *)
Fixpoint event_loop (out : bytes) (q : list answer) (wakes : list (list answer))
    : res (list inbound * list answer) :=
  match wakes with
  | [] => Ok ([], q)
  | new :: wakes' =>
    '(out', q', ins) ← handle_event out (q ++ new);
    '(ins', q'') ← event_loop out' q' wakes';
    mret (ins ++ ins', q'')
  end.

(** [eventHandler]: the process ends if the handler cannot be registered. *)
Definition eventHandler (register : res unit) (wakes : list (list answer)) : res (list inbound * list answer) :=
  match register with
  | Ok _ => event_loop (replicate (Z.to_nat MTU) x00) [] wakes
  | Err _ => Err "TA event handler registration error"
  | Panic e => Panic e
  | NoFuel => NoFuel
  end.
End Handler.

(** ** Starting the network *)

(** The settings that are used here. *)
Record net_config := mkNetConfig { cfg_DHCP : bool; cfg_Resolver : bytes }.

(** The interface. *)
Record iface := mkIface {
  default_ns : list bytes;
  nic_mac : option bytes;
  link_mac : option bytes;
  icmp : bool;
  notified : bool;
  hooked : bool;               (** sockets and the HTTP client use the stack *)
}.

Definition no_iface : iface := mkIface [] None None false false false.

(** The outcomes of the calls of the OS and the libraries. *)
Record net_env := mkNetEnv {
  Status_Serial : res bytes;                  (** [RPC.Status] *)
  ParseMACAddress : bytes → res bytes;        (** of the network stack *)
  CreateNIC : res unit;
  NIC_Init : res unit;
  iface_Init : bytes → M iface unit;          (** with a static address, given the MAC *)
  dnscache_New : res unit;
}.

Definition unwrap_mac (o : option bytes) : res bytes :=
  match o with Some m => Ok m | None => Err "invalid MAC" end.

(** The branch for DHCP.  The error of [NIC.Init] is assigned to a variable
    of the inner scope. *)
Definition start_dhcp (e : net_env) (serial : bytes) : M iface unit := λ s,
  match
    (linkAddress ← unwrap_mac (ParseMAC (mac serial));
     gv ← match ParseMACAddress e (mac serial) with Err _ => Err "invalid MAC" | r => r end;
     _ ← CreateNIC e; mret (linkAddress, gv))
  with
  | Ok (l, gv) =>
    let s' := mkIface (default_ns s) (Some l) (Some gv) (icmp s) (notified s) (hooked s) in
    (s', match NIC_Init e with Ok _ | Err _ => Ok () | Panic m => Panic m | NoFuel => NoFuel end)
  | Err m => (s, Err m) | Panic m => (s, Panic m) | NoFuel => (s, NoFuel)
  end.

Definition modify {S} (f : S → S) : M S unit := λ s, (f s, Ok ()).

Definition set_default_ns (ns : list bytes) (s : iface) : iface :=
  mkIface ns (nic_mac s) (link_mac s) (icmp s) (notified s) (hooked s).

Definition startNetworking (c : net_config) (e : net_env) : M iface unit :=
  _ ← modify (set_default_ns [cfg_Resolver c]);
  serial ← lift (match Status_Serial e with Err _ => Err "failed to fetch Status" | r => r end);
  _ ← modify (λ s, mkIface (default_ns s) None None false false (hooked s));
  _ ← (if cfg_DHCP c then start_dhcp e serial else iface_Init e (mac serial));
  _ ← modify (λ s, mkIface (default_ns s) (nic_mac s) (link_mac s) true true (hooked s));
  _ ← lift (match dnscache_New e with Err _ => Err "failed to create DNS cache" | r => r end);
  modify (λ s, mkIface (default_ns s) (nic_mac s) (link_mac s) (icmp s) (notified s) true).
End NetLink.
