(* ===== verification/NetLinkProps.v ===== *)
(** * Properties of the link layer *)

From S2P Require Import Prelude Sha256 Text NetLink.
Import Text NetLink.

Module NetLinkProps.

(** ** The MAC address *)

Lemma mac_pairs_join l :
  (0 < length l)%nat → mac_pairs (length l) colon (join colon (hex2 <$> l)) = Some l.
Proof.
  induction l as [|x l IH]; [cbn; lia|]. intros _. destruct l as [|y l].
  - unfold hex2. cbn -[unhex2]. by rewrite unhex2_hex2.
  - change (join colon (hex2 <$> x :: y :: l)) with (hex2 x ++ colon :: join colon (hex2 <$> y :: l)).
    change (length (x :: y :: l)) with (S (length (y :: l))).
    specialize (IH ltac:(cbn; lia)). revert IH. generalize (join colon (hex2 <$> y :: l)) (length (y :: l)).
    intros t n IH. unfold hex2. cbn [app mac_pairs drop].
    rewrite bool_decide_false by (by intros []). rewrite unhex2_hex2. cbn [mbind option_bind].
    by rewrite drop_0, IH.
Qed.

Lemma length_mac_bytes serial : length (mac_bytes serial) = 6%nat.
Proof.
  unfold mac_bytes. pose proof (Sha256.length_Sum256 (str "MAC:" ++ serial)) as Hl.
  destruct (Sha256.Sum256 _) as [|m0 m]; [done|]. rewrite length_take. cbn [length] in *. lia.
Qed.

Lemma parse_mac serial : ParseMAC (mac serial) = Some (mac_bytes serial) ∧ len (mac serial) = 17.
Proof.
  unfold mac. pose proof (length_mac_bytes serial) as Hlen.
  destruct (mac_bytes serial) as [|a [|b [|c [|d [|e [|f [|]]]]]]]; try done. split; [|done].
  unfold ParseMAC. change (len (join colon (hex2 <$> [a; b; c; d; e; f]))) with 17.
  exact (mac_pairs_join [a; b; c; d; e; f] ltac:(cbn; lia)).
Qed.

(** The flags of the first byte. *)
Lemma flags_spec b :
  let m0 := b2z (z2b (Z.lor (b2z (z2b (Z.land (b2z b) 254))) 2)) in
  Z.testbit m0 0 = false ∧ Z.testbit m0 1 = true ∧ ∀ i, 2 ≤ i → Z.testbit m0 i = Z.testbit (b2z b) i.
Proof.
  assert (∀ z, Z.testbit (z mod 256) 0 = Z.testbit z 0 ∧ Z.testbit (z mod 256) 1 = Z.testbit z 1) as Hlow
    by (intros z; by rewrite !(Z.mod_pow2_bits_low z 8) by lia).
  assert (∀ z i, 0 ≤ z < 256 → 8 ≤ i → Z.testbit z i = false) as Hhigh.
  { intros z i Hz Hi. rewrite <-(Z.mod_small z (2 ^ 8)) by lia. by rewrite Z.mod_pow2_bits_high by lia. }
  cbn zeta. rewrite !b2z_z2b. split_and!.
  - rewrite (proj1 (Hlow _)), Z.lor_spec, (proj1 (Hlow _)), Z.land_spec. by rewrite andb_false_r.
  - rewrite (proj2 (Hlow _)), Z.lor_spec. by rewrite orb_true_r.
  - intros i Hi. destruct (decide (i < 8)).
    + change 256 with (2 ^ 8). rewrite Z.mod_pow2_bits_low, Z.lor_spec, Z.mod_pow2_bits_low, Z.land_spec by lia.
      assert (i ∈ [2; 3; 4; 5; 6; 7]) as Hin by (rewrite !elem_of_cons; lia).
      rewrite !elem_of_cons, elem_of_nil in Hin.
      destruct Hin as [->|[->|[->|[->|[->|[->|[]]]]]]]; cbn -[Z.testbit b2z]; by rewrite andb_true_r, orb_false_r.
    + change 256 with (2 ^ 8). rewrite Z.mod_pow2_bits_high by lia. symmetry. apply Hhigh; [apply b2z_range|lia].
Qed.

(** The MAC address of a unit is well formed: the standard parser reads six
    bytes from it, those of the hash of the serial number except that the
    address is marked as unicast and as locally administered. *)
Theorem mac_address (serial : bytes) :
  ∃ m0 m, Sha256.Sum256 (str "MAC:" ++ serial) = m0 :: m ∧
  ∃ b0, ParseMAC (mac serial) = Some (b0 :: take 5 m) ∧ len (mac serial) = 17 ∧
    Z.testbit (b2z b0) 0 = false ∧ Z.testbit (b2z b0) 1 = true ∧
    ∀ i, 2 ≤ i → Z.testbit (b2z b0) i = Z.testbit (b2z m0) i.
Proof.
  pose proof (length_mac_bytes serial) as Hlen. destruct (parse_mac serial) as [-> ->].
  unfold mac_bytes in *. destruct (Sha256.Sum256 _) as [|m0 m]; [done|].
  exists m0, m. split; [done|]. eexists. split; [done|]. split; [done|apply flags_spec].
Qed.

(** ** Frames *)

(** What is handed to the stack of a sequence of frames: of each frame with a
    whole header, once and in order, the protocol, the header and the payload;
    of the shorter ones nothing. *)
Inductive delivery : list bytes → list inbound → Prop :=
  | dl_nil : delivery [] []
  | dl_short f fs ins : len f < 14 → delivery fs ins → delivery (f :: fs) ins
  | dl_frame addrs p1 p0 payload fs ins :
      len addrs = 12 → delivery fs ins →
      delivery ((addrs ++ [p1; p0] ++ payload) :: fs)
               (mkInbound (256 * b2z p1 + b2z p0) (addrs ++ [p1; p0]) payload :: ins).

Lemma delivery_app fs ins fs' ins' :
  delivery fs ins → delivery fs' ins' → delivery (fs ++ fs') (ins ++ ins').
Proof. intros H H'. induction H; cbn [app]; [done|by apply dl_short|by apply dl_frame]. Qed.

(** A frame that has a whole header, in its parts. *)
Lemma rx_frame addrs pr payload :
  len addrs = 12 → len pr = 2 →
  rx (addrs ++ pr ++ payload) = Ok (Some (mkInbound (be_decode pr) (addrs ++ pr) payload)).
Proof.
  intros Ha Hp. unfold rx, slice, slice_from. pose proof (len_nonneg payload). rewrite !len_app, Ha, Hp.
  rewrite (proj2 (Z.ltb_ge _ _)) by lia. rewrite !(proj2 (Z.leb_le _ _)) by lia.
  cbn [andb mbind res_bind mret res_ret]. unfold ztake, zdrop, len in *.
  change (Z.to_nat (14 - 0)) with 14%nat. change (Z.to_nat (14 - 12)) with 2%nat.
  change (Z.to_nat 0) with 0%nat. change (Z.to_nat 12) with 12%nat. change (Z.to_nat 14) with 14%nat.
  rewrite drop_0, (drop_app_eq addrs) by lia. rewrite (take_app_eq pr) by lia.
  rewrite (app_assoc addrs), take_app_eq, drop_app_eq by (rewrite length_app; lia). done.
Qed.

(** What [rx] makes of one frame. *)
Lemma rx_delivery f fs ins :
  delivery fs ins → ∃ i, rx f = Ok i ∧ delivery (f :: fs) (option_list i ++ ins).
Proof.
  intros Hd. destruct (decide (len f < 14)) as [Hs|Hl].
  { exists None. unfold rx. rewrite (proj2 (Z.ltb_lt _ _)) by done. split; [done|by apply dl_short]. }
  rewrite <-(ztake_zdrop f 12). set (addrs := ztake 12 f). set (r := zdrop 12 f).
  assert (len addrs = 12) as Ha by (apply len_take; lia).
  assert (2 ≤ len r) as Hr by (unfold r; rewrite len_drop; lia).
  destruct r as [|p1 [|p0 payload]]; [unfold len in Hr; cbn in Hr; lia..|].
  exists (Some (mkInbound (256 * b2z p1 + b2z p0) (addrs ++ [p1; p0]) payload)).
  split; [|by apply (dl_frame addrs p1 p0 payload)].
  pose proof (rx_frame addrs [p1; p0] payload Ha eq_refl) as E. cbn [app] in E. rewrite E.
  replace (be_decode [p1; p0]) with (256 * b2z p1 + b2z p0); [done|].
  unfold be_decode. cbn [foldl]. rewrite !shiftl_lor_add by apply b2z_range. lia.
Qed.

(** C39 Frames survive the link: a packet that is sent and received at the
    other end is handed to the stack there with its protocol, its bytes, and
    the link header with both addresses. *)
Theorem frame_roundtrip (MAC : bytes) (p : packet) :
  len MAC = 6 → len (RemoteLinkAddress p) = 6 → 0 ≤ NetworkProtocolNumber p < 2 ^ 16 →
  rx (tx MAC (Some p)) = Ok (Some (mkInbound (NetworkProtocolNumber p)
    (RemoteLinkAddress p ++ MAC ++ be_encode 2 (NetworkProtocolNumber p)) (concat (AsSlices p)))).
Proof.
  intros Hm Hr Hp. unfold tx. rewrite (app_assoc _ MAC), rx_frame.
  - rewrite be_decode_encode, <-app_assoc, Z.mod_small by done. done.
  - rewrite len_app. lia.
  - unfold len. by rewrite length_be_encode.
Qed.

(** ** The event handler *)

Section Handler.
Context (MTU : Z).

(** The answer to a frame that fits. *)
Definition frame (f : bytes) : answer := mkAnswer (len f) f.
Definition fits (f : bytes) : Prop := 0 < len f ≤ MTU.

(** The answers that end a wake-up. *)
Definition ends (a : answer) : Prop := a_n a ≤ 0 ∨ MTU < a_n a.

Lemma drain_frames fs out rest fuel :
  len out = MTU → Forall fits fs → (length fs < fuel)%nat →
  match rest with [] => True | a :: _ => ends a end →
  ∃ out' ins, drain MTU fuel out ((frame <$> fs) ++ rest) = Ok (out', tail rest, ins) ∧
    delivery fs ins ∧ len out' = MTU.
Proof.
  intros Hout Hfs. revert out fuel Hout. induction Hfs as [|f fs Hf _ IH]; intros out [|fuel] Hout Hfuel Hrest;
    [lia| |cbn in Hfuel; lia|].
  - cbn [fmap list_fmap app drain]. assert (∀ b : bytes, len (copy_at 0 out b) = MTU) as Hc
      by (intros b; unfold len; by rewrite length_copy_at).
    destruct rest as [|a rest]; cbn [rxFromEth].
    + rewrite (proj2 (Z.leb_le 0 0)) by lia. by exists out, []; split_and!; [|constructor|].
    + destruct ((a_n a =? 0) || (MTU <? a_n a)) eqn:E.
      * rewrite (proj2 (Z.leb_le 0 0)) by lia. eexists _, []. by split_and!; [|constructor|].
      * apply orb_false_iff in E as [? ?]. bool_prop. destruct Hrest as [?|?]; [|lia].
        rewrite (proj2 (Z.leb_le _ _)) by lia. eexists _, []. by split_and!; [|constructor|].
  - destruct Hf as [Hpos Hfit]. cbn [fmap list_fmap app drain rxFromEth frame a_n a_data].
    rewrite (proj2 (Z.eqb_neq _ _)), (proj2 (Z.ltb_ge _ _)) by lia. cbn [orb].
    rewrite (proj2 (Z.leb_gt _ _)) by lia.
    assert (len (copy_at 0 out f) = MTU) as Hl by (unfold len; by rewrite length_copy_at).
    rewrite Hl, (proj2 (Z.ltb_ge _ _)) by lia. rewrite copy_front by lia.
    destruct (IH (copy_at 0 out f) fuel Hl ltac:(cbn in Hfuel; lia) Hrest) as (out' & ins & Hd & Hin & ?).
    destruct (rx_delivery f fs ins Hin) as (i & -> & Hdel). cbn [mbind res_bind].
    change (list_fmap _ _ frame fs) with (frame <$> fs). rewrite Hd. by eexists out', _.
Qed.

(** The frames of a wake-up. *)
Definition frames (fs : list bytes) : list answer := frame <$> fs.

Lemma event_loop_frames out fss :
  len out = MTU → Forall (Forall fits) fss →
  ∃ ins, event_loop MTU out [] (frames <$> fss) = Ok (ins, []) ∧ delivery (concat fss) ins.
Proof.
  intros Ho Hf. revert out Ho. induction Hf as [|fs fss Hfs _ IH]; intros out Ho.
  { exists []. by split; [|constructor]. }
  rewrite fmap_cons. cbn [event_loop concat app]. unfold handle_event.
  destruct (drain_frames fs out [] (S (length (frames fs))) Ho Hfs) as (out' & ins & Hd & Hin & Ho'); [..|done|].
  { unfold frames. rewrite length_fmap. lia. }
  rewrite app_nil_r in Hd. fold (frames fs) in Hd. rewrite Hd. cbn [mbind res_bind tail].
  destruct (IH out' Ho') as (ins' & -> & ?). exists (ins ++ ins'). split; [done|by apply delivery_app].
Qed.

(** C38 A wake-up of the event handler hands over the frames that are waiting,
    once and in order, although all are read into one buffer: of each frame
    of at least 14 bytes the protocol of its bytes 12 and 13, its 14 bytes of
    header and the payload after them, with no bytes of earlier frames; of a
    shorter frame nothing.  It stops at the first answer that is no frame or
    is longer than the MTU; an answer behind that one waits for the next
    wake-up.  It never indexes or slices out of range.  The frames are those
    for which the OS answers their length, between 1 and the MTU. *)
Theorem event_delivers (out : bytes) (fs : list bytes) (rest : list answer) :
  len out = MTU → Forall fits fs → match rest with [] => True | a :: _ => ends a end →
  ∃ out' ins, handle_event MTU out ((frame <$> fs) ++ rest) = Ok (out', tail rest, ins) ∧
    delivery fs ins ∧ len out' = MTU.
Proof. intros. apply drain_frames; [done|done| |done]. rewrite length_app, length_fmap. lia. Qed.

(** The event handler hands over the frames of all wake-ups, once and in
    order, whatever the lengths of the frames before, although all of them are
    read into the one buffer it allocates; it hands over none if it cannot be
    registered with the OS, in which case the process ends. *)
Theorem handler_delivers (register : res unit) (fss : list (list bytes)) :
  0 ≤ MTU → Forall (Forall fits) fss →
  match register with
  | Ok _ => ∃ ins, eventHandler MTU register (frames <$> fss) = Ok (ins, []) ∧ delivery (concat fss) ins
  | _ => is_ok (eventHandler MTU register (frames <$> fss)) = false
  end.
Proof.
  intros Hm Hf. destruct register; [|done..]. apply event_loop_frames; [|done].
  unfold len. rewrite length_replicate. lia.
Qed.
End Handler.

(** Two frames, one without a whole header between them, and two answers that
    are none. *)
Lemma event_delivers_witness :
  let fs := [replicate 16 x01; replicate 3 x03; replicate 14 x02] in
  ∃ out' ins, handle_event 20 (replicate 20 x00) ((frame <$> fs) ++ [mkAnswer 21 []; mkAnswer 1 [x00]])
    = Ok (out', [mkAnswer 1 [x00]], ins) ∧ delivery fs ins ∧ len out' = 20 ∧
    ins = [mkInbound 257 (replicate 14 x01) [x01; x01]; mkInbound 514 (replicate 14 x02) []].
Proof.
  intros fs. destruct (event_delivers 20 (replicate 20 x00) fs [mkAnswer 21 []; mkAnswer 1 [x00]])
    as (out' & ins & E & Hd & Hl).
  - done.
  - repeat (apply Forall_cons; split; [unfold fits, len; rewrite length_replicate; lia|]). done.
  - right. cbn. lia.
  - exists out', ins. split_and!; [done|done|done|]. vm_compute in E. by injection E as _ <-.
Defined.

Lemma frame_roundtrip_witness :
  rx (tx (replicate 6 x02) (Some (mkPacket 2048 (replicate 6 xff) [[x45]; [x00; x01]])))
  = Ok (Some (mkInbound 2048 (replicate 6 xff ++ replicate 6 x02 ++ [x08; x00]) [x45; x00; x01])).
Proof. apply (frame_roundtrip (replicate 6 x02)); cbn; [done|done|lia]. Defined.

(** ** Starting the network *)

(** An error of [NIC.Init] is lost when DHCP is used, and not otherwise. *)
Theorem nic_init_error_lost (serial gv resolver : bytes) (s : iface) :
  let e init := mkNetEnv (Ok serial) (λ _, Ok gv) (Ok ()) init (λ _, lift init) (Ok ()) in
  (startNetworking (mkNetConfig true resolver) (e (Err "NIC")) s).2 = Ok () ∧
  (startNetworking (mkNetConfig false resolver) (e (Err "NIC")) s).2 = Err "NIC".
Proof.
  cbn zeta. split; [|done]. unfold startNetworking, start_dhcp, mbind, M_bind, lift. cbn -[ParseMAC mac].
  by rewrite (proj1 (parse_mac serial)).
Qed.
End NetLinkProps.
