(* ===== verification/NetDhcp.v ===== *)
(** * Leases and the network stack (trusted_applet/net.go: [runDHCP])

    The callback that the DHCP client calls when a lease changes, and the
    goroutines that run the witness while an address is held.  The callback
    waits for such a goroutine on the channel [fDone], so the component is a
    step relation: the client's goroutine goes through the calls, and the
    others end and signal that they have. *)

From S2P Require Import Prelude Text Dhcp DhcpClient.
Import Text Dhcp DhcpClient.

Module NetDhcp.

Section NetDhcp.
Context `{T : Tcpip} {Subnet : Type}.
(** Of the network stack: the subnet of an address, the empty subnet, whether
    an address is unspecified, how it is printed, and whether an address can
    be added to those the interface has. *)
Context (subnet : AddressWithPrefix → Subnet) (IPv4EmptySubnet : Subnet).
Context (Unspecified : Address → bool) (addr_String : Address → bytes).
Context (add_ok : list Address → Address → bool).

Record Route := mkRoute { Destination : Subnet; Gateway : Address }.

(** The goroutine that runs [f] until its context is cancelled: it runs, it
    wants to send on [fDone], or it is over. *)
Inductive child_state := Running | Signalling | Ended.
Record child := mkChild {
  ch_cancelled : bool;
  ch_state : child_state;
  ch_addr : AddressWithPrefix;      (** the address it was started for *)
}.

(** Where the client's goroutine is: between two calls, in a call that waits
    for [fDone], or in a panic. *)
Inductive position := Idle | Waiting (c : call) | Panicked.

Record nstate := mkN {
  pending : list call;
  pos : position;
  addrs : list Address;
  resolvers : list bytes;
  table : list Route;
  children : list child;
  cancelChild : Datatypes.option nat;      (** the context it cancels *)
  fDone : nat;                             (** values in the channel, of capacity 1 *)
  ctx_done : bool;                         (** the context of [runDHCP] is done *)
}.

Definition configureNetFromDHCP (newAddr : AddressWithPrefix) (cfg : Config) (s : nstate) : nstate :=
  let rs := if 0 <? len (DNS cfg) then (λ r, addr_String r ++ str ":53") <$> DNS cfg else resolvers s in
  let tb := mkRoute (subnet newAddr) zeroAddress
            :: ((λ gw, mkRoute IPv4EmptySubnet gw) <$> Router cfg) in
  mkN (pending s) (pos s) (addrs s) rs tb (children s) (cancelChild s) (fDone s) (ctx_done s).

(** The cancellation of a context. *)
Definition cancel (k : nat) (s : nstate) : nstate :=
  mkN (pending s) (pos s) (addrs s) (resolvers s) (table s)
    (alter (λ ch, mkChild true (ch_state ch) (ch_addr ch)) k (children s)) (cancelChild s) (fDone s) (ctx_done s).

(** The end of [acquired]: a new address is configured, and a goroutine
    started for it. *)
Definition acquired_new (c : call) (s : nstate) : nstate :=
  let newAddr := c_new c in
  if negb (Unspecified (awp_addr newAddr)) then
    if add_ok (addrs s) (awp_addr newAddr) then
      let s := mkN (pending s) Idle (addrs s ++ [awp_addr newAddr]) (resolvers s) (table s)
                 (children s) (cancelChild s) (fDone s) (ctx_done s) in
      let s := configureNetFromDHCP newAddr (c_cfg c) s in
      mkN (pending s) Idle (addrs s) (resolvers s) (table s)
        (children s ++ [mkChild false Running newAddr]) (Some (length (children s))) (fDone s) (ctx_done s)
    else mkN (pending s) Idle (addrs s) (resolvers s) (table s) (children s) (cancelChild s) (fDone s) (ctx_done s)
  else mkN (pending s) Idle (addrs s) (resolvers s) (table s) (children s) (cancelChild s) (fDone s) (ctx_done s).

(** [RemoveAddress]; it only reports an error if there is no such address. *)
Definition remove_address (a : Address) (s : nstate) : nstate :=
  mkN (pending s) (pos s) (filter (λ b, b ≠ a) (addrs s)) (resolvers s) (table s)
    (children s) (cancelChild s) (fDone s) (ctx_done s).

(** The call of [acquired], up to the point where it waits. *)
Definition acquired (c : call) (s : nstate) : nstate :=
  let oldAddr := c_old c in
  let newAddr := c_new c in
  if bool_decide (awp_addr oldAddr = awp_addr newAddr) && (awp_prefix oldAddr =? awp_prefix newAddr)
  then configureNetFromDHCP newAddr (c_cfg c) s
  else if negb (Unspecified (awp_addr oldAddr)) then
    match cancelChild s with
    | None => mkN (pending s) Panicked (addrs s) (resolvers s) (table s) (children s) None (fDone s) (ctx_done s)
    | Some k =>
      let s := cancel k s in
      mkN (pending s) (Waiting c) (addrs s) (resolvers s) (table s) (children s) (cancelChild s) (fDone s) (ctx_done s)
    end
  else acquired_new c s.

(** The rest of the call once [fDone] has been received. *)
Definition acquired_resume (c : call) (s : nstate) : nstate :=
  acquired_new c (remove_address (awp_addr (c_old c)) s).

Definition set_child (k : nat) (ch : child) (done : nat) (s : nstate) : nstate :=
  mkN (pending s) (pos s) (addrs s) (resolvers s) (table s) (<[k := ch]> (children s)) (cancelChild s) done (ctx_done s).

(** The goroutine's loop ends: [f] has returned [context.Canceled]. *)
Definition child_returns (k : nat) (ch : child) (s : nstate) : nstate :=
  set_child k (mkChild (ch_cancelled ch) Signalling (ch_addr ch)) (fDone s) s.

(** The steps that take place without help from outside: the client calls
    [acquired]; the call goes on when there is a value in [fDone]; [f] returns
    [context.Canceled] when its context is done, since it has been cancelled
    or its parent is done; the deferred send takes place when there is room. *)
Inductive step : nstate → nstate → Prop :=
  | step_call s c cs :
      pos s = Idle → pending s = c :: cs →
      step s (acquired c (mkN cs Idle (addrs s) (resolvers s) (table s) (children s) (cancelChild s)
                            (fDone s) (ctx_done s)))
  | step_receive s c n :
      pos s = Waiting c → fDone s = S n →
      step s (acquired_resume c (mkN (pending s) (Waiting c) (addrs s) (resolvers s) (table s)
                                   (children s) (cancelChild s) n (ctx_done s)))
  | step_return s k ch :
      children s !! k = Some ch → ch_state ch = Running → ch_cancelled ch || ctx_done s = true →
      step s (child_returns k ch s)
  | step_send s k ch :
      children s !! k = Some ch → ch_state ch = Signalling → fDone s = O →
      step s (set_child k (mkChild (ch_cancelled ch) Ended (ch_addr ch)) 1 s).

(** The steps that may take place at any time: the context of [runDHCP] ends,
    and [f] returns an error that is [context.Canceled] for another reason. *)
Inductive outside : nstate → nstate → Prop :=
  | outside_ctx s :
      ctx_done s = false →
      outside s (mkN (pending s) (pos s) (addrs s) (resolvers s) (table s) (children s) (cancelChild s)
                   (fDone s) true)
  | outside_return s k ch :
      children s !! k = Some ch → ch_state ch = Running →
      outside s (child_returns k ch s).

Definition any_step (s s' : nstate) : Prop := step s s' ∨ outside s s'.

(** The client that [runDHCP] makes: 30 seconds for an acquisition, one second
    between attempts and before the first retransmission. *)
Definition dhcp_info : Info := newInfo (30 * second) second second.

(** [runDHCP] with the calls that the client makes. *)
Definition dhcp_start (calls : list call) (rs : list bytes) (tb : list Route) : nstate :=
  mkN calls Idle [] rs tb [] None 0 false.
End NetDhcp.
End NetDhcp.
