(* ===== verification/NetDhcpProps.v ===== *)
(** * Properties of leases and the network stack

    For the calls that the DHCP client makes, the callback neither panics nor
    waits for ever, and the witness runs only while its address is there. *)

From stdpp Require Import relations.
From S2P Require Import Prelude Dhcp DhcpClient DhcpClientProps DhcpAcquire DhcpAcquireProps DhcpReturns NetDhcp.
Import Dhcp DhcpClient DhcpClientProps DhcpAcquire DhcpAcquireProps DhcpReturns NetDhcp.

Module NetDhcpProps.

Lemma sum_list_insert {A} (f : A → nat) (l : list A) k x y :
  l !! k = Some x → (sum_list (f <$> <[k := y]> l) + f x = sum_list (f <$> l) + f y)%nat.
Proof.
  revert k. induction l as [|a l IH]; intros [|k] Hk; try done.
  - cbn in *. simplify_eq. lia.
  - specialize (IH k Hk). change (<[S k:=y]> (a :: l)) with (a :: <[k:=y]> l).
    rewrite !fmap_cons. change (sum_list (?x :: ?t)) with (x + sum_list t)%nat. lia.
Qed.

Section Props.
Context `{T : Tcpip} {Subnet : Type}.
Context (subnet : AddressWithPrefix → Subnet) (IPv4EmptySubnet : Subnet).
Context (Unspecified : Address → bool) (addr_String : Address → bytes).
Context (add_ok : list Address → Address → bool).

Abbreviation nstep := (step subnet IPv4EmptySubnet Unspecified addr_String add_ok).
Abbreviation nany := (any_step subnet IPv4EmptySubnet Unspecified addr_String add_ok).
Abbreviation nstate := (nstate (Subnet := Subnet)).

(** ** Every execution ends *)

(** What is left to do: a call may start a goroutine, which returns and sends,
    and the context may end once. *)
Definition child_work (ch : child) : nat :=
  match ch_state ch with Running => 2 | Signalling => 1 | Ended => 0 end.

Definition work (s : nstate) : nat :=
  4 * length (pending s) + match pos s with Waiting _ => 3 | _ => 0 end + sum_list (child_work <$> children s) +
  if ctx_done s then 0 else 1.

Lemma cancel_work k (l : list child) :
  child_work <$> alter (λ ch, mkChild true (ch_state ch) (ch_addr ch)) k l = child_work <$> l.
Proof. revert k. induction l as [|ch l IH]; intros [|k]; [done..|]. cbn. by rewrite IH. Qed.

Lemma acquired_new_work c s :
  (work (acquired_new subnet IPv4EmptySubnet Unspecified addr_String add_ok c s) ≤
   4 * length (pending s) + sum_list (child_work <$> children s) + 2 + if ctx_done s then 0 else 1)%nat.
Proof.
  unfold acquired_new. repeat case_match; unfold work; cbn; try (rewrite fmap_app, sum_list_with_app; cbn);
    repeat case_match; try done; lia.
Qed.

(** Return and send leave a goroutine with less to do. *)
Lemma set_child_work k ch ch' d s :
  children s !! k = Some ch → (child_work ch' < child_work ch)%nat → (work (set_child k ch' d s) < work s)%nat.
Proof.
  intros Hk Hlt. unfold work, set_child; cbn.
  pose proof (sum_list_insert child_work (children s) k ch ch' Hk). lia.
Qed.

Lemma child_returns_work k ch s :
  children s !! k = Some ch → ch_state ch = Running → (work (child_returns k ch s) < work s)%nat.
Proof.
  intros Hk Hst. eapply set_child_work; [done|]. unfold child_work at 2. rewrite Hst. cbn. lia.
Qed.

Lemma step_work s s' : nany s s' → (work s' < work s)%nat.
Proof.
  intros [[s0 c cs Hp Hc|s0 c n Hp Hf|s0 k ch Hk Hst _|s0 k ch Hk Hst Hf]|[s0 Hd|s0 k ch Hk Hst]].
  - unfold acquired. case_match; [|case_match; [case_match|]].
    + unfold work; cbn. rewrite Hp, Hc. cbn. lia.
    + unfold work; cbn. rewrite cancel_work, Hp, Hc. cbn. lia.
    + unfold work; cbn. rewrite Hp, Hc. cbn. lia.
    + eapply Nat.le_lt_trans; [apply acquired_new_work|]. unfold work. rewrite Hp, Hc. cbn. lia.
  - unfold acquired_resume. eapply Nat.le_lt_trans; [apply acquired_new_work|].
    unfold work. rewrite Hp. cbn. lia.
  - by apply child_returns_work.
  - eapply set_child_work; [done|]. unfold child_work at 2. rewrite Hst. cbn. lia.
  - unfold work; cbn. rewrite Hd. lia.
  - by apply child_returns_work.
Qed.

Lemma step_terminates s : sn nany s.
Proof.
  remember (work s) as n eqn:Hn. revert s Hn. induction n as [n IH] using lt_wf_ind. intros s ->.
  constructor. intros s' Hs. apply (IH (work s')); [by apply step_work|done].
Qed.

(** ** The invariant *)

(** What the code relies on: an address that the interface does not have can
    be added, and the zero address is unspecified. *)
Context (add_fresh : ∀ l a, a ∉ l → add_ok l a = true).
Context (unspecified_zero : Unspecified zeroAddress = true).

(** All goroutines but number [k] are over. *)
Definition others_ended (k : nat) (l : list child) : Prop :=
  ∀ j ch, l !! j = Some ch → j ≠ k → ch_state ch = Ended.

(** The interface has the address [a] alone and goroutine [k] was started for
    it; it is the only one that is not over, or it has signalled that it is. *)
Record held (a : AddressWithPrefix) (k : nat) (ch : child) (s : nstate) : Prop := {
  hd_addrs : addrs s = [awp_addr a];
  hd_others : others_ended k (children s);
  hd_child : children s !! k = Some ch;
  hd_addr : ch_addr ch = a;
  hd_done : ch_state ch = Ended ∧ fDone s = 1%nat ∨ ch_state ch ≠ Ended ∧ fDone s = O;
}.

(** Between calls, [cur] is the address handed over last.  If it is specified,
    it is the interface's only address and one goroutine was started for it;
    otherwise there is none.  A call waits for the goroutine of the address it
    takes back, which it has cancelled.  The last call hands over [final]. *)
Inductive inv (final : AddressWithPrefix) (s : nstate) : Prop :=
  | inv_none cur :
      pos s = Idle → handed_over cur (pending s) final → Unspecified (awp_addr cur) = true →
      addrs s = [] → Forall (λ ch, ch_state ch = Ended) (children s) → fDone s = O → inv final s
  | inv_held cur k ch :
      pos s = Idle → handed_over cur (pending s) final → Unspecified (awp_addr cur) = false →
      held cur k ch s → cancelChild s = Some k → inv final s
  | inv_waiting c k ch :
      pos s = Waiting c → handed_over (c_new c) (pending s) final →
      held (c_old c) k ch s → ch_cancelled ch = true → inv final s.

(** The end of a call: all goroutines are over and no address is left. *)
Lemma acquired_new_inv c b s :
  handed_over (c_new c) (pending s) b → addrs s = [] → Forall (λ ch, ch_state ch = Ended) (children s) →
  fDone s = O → inv b (acquired_new subnet IPv4EmptySubnet Unspecified addr_String add_ok c s).
Proof.
  intros Hc Ha He Hf. unfold acquired_new. rewrite Ha.
  destruct (Unspecified (awp_addr (c_new c))) eqn:Eu; cbn [negb].
  { by eapply inv_none. }
  rewrite add_fresh by (by apply not_elem_of_nil).
  eapply (inv_held _ _ (c_new c) (length (children s)) (mkChild false Running (c_new c))); cbn; try done.
  split; cbn; [done| |by rewrite lookup_app_r, Nat.sub_diag by lia|done|by right].
  intros j ch Hj Hne. cbn in Hj. apply lookup_app_Some in Hj as [Hj|[Hl Hj]].
  - by eapply (Forall_lookup_1 _ _ _ _ He).
  - apply list_lookup_singleton_Some in Hj as [? <-]. lia.
Qed.

Lemma same_awp (a b : AddressWithPrefix) :
  bool_decide (awp_addr a = awp_addr b) && (awp_prefix a =? awp_prefix b) = true → a = b.
Proof. rewrite andb_true_iff. intros [? ?]. bool_prop. destruct a, b; cbn in *; by subst. Qed.

Lemma step_call_inv final s c cs :
  inv final s → pos s = Idle → pending s = c :: cs →
  inv final (acquired subnet IPv4EmptySubnet Unspecified addr_String add_ok c
         (mkN cs Idle (addrs s) (resolvers s) (table s) (children s) (cancelChild s) (fDone s) (ctx_done s))).
Proof.
  intros Hinv Hp Hc. unfold acquired. destruct Hinv as
    [cur _ Hho Hu Ha He Hf|cur k ch _ Hho Hu [Ha Ho Hk Had Hd] Hcc|c' k ch Hp' _ _ _]; [| |congruence];
    rewrite Hc in Hho; destruct Hho as [Hold Hho].
  - destruct (_ && _) eqn:Es.
    + apply same_awp in Es. eapply inv_none; cbn; try done. by rewrite <-Es, Hold.
    + rewrite Hold, Hu. cbn [negb]. by eapply acquired_new_inv.
  - destruct (_ && _) eqn:Es.
    + apply same_awp in Es. rewrite <-Es, Hold in *. by eapply inv_held.
    + rewrite Hold, Hu. cbn [negb cancelChild]. rewrite Hcc.
      apply (inv_waiting _ _ c k (mkChild true (ch_state ch) (ch_addr ch))); cbn; [done|done| |done].
      split; cbn; [by rewrite Hold| |by rewrite list_lookup_alter_eq, Hk|by rewrite Hold|done].
      intros j chj Hj Hne. rewrite list_lookup_alter_ne in Hj by done. eauto.
Qed.

Lemma step_receive_inv final s c n :
  inv final s → pos s = Waiting c → fDone s = S n →
  inv final (acquired_resume subnet IPv4EmptySubnet Unspecified addr_String add_ok c
         (mkN (pending s) (Waiting c) (addrs s) (resolvers s) (table s) (children s) (cancelChild s) n (ctx_done s))).
Proof.
  intros Hinv Hp Hf. destruct Hinv as [? ?|? ? ? ?|c' k ch Hp' Hho [Ha Ho Hk _ Hst] _]; [congruence..|].
  assert (c' = c) as -> by congruence. destruct Hst as [[He Hd]|[_ Hd]]; [|congruence].
  unfold acquired_resume. eapply acquired_new_inv; cbn; [done| | |congruence].
  - rewrite Ha, filter_cons_False by (intros Hn; by apply Hn). done.
  - apply Forall_lookup_2. intros j chj Hj. destruct (decide (j = k)) as [->|]; [by simplify_eq|by eapply Ho].
Qed.

(** What a move of a goroutine keeps. *)
Lemma move_held a k k' ch ch' st d s :
  held a k ch s → children s !! k' = Some ch' → ch_state ch' ≠ Ended →
  (st = Ended ∧ d = 1%nat ∨ st ≠ Ended ∧ d = O) →
  k' = k ∧ ch' = ch ∧ held a k (mkChild (ch_cancelled ch) st (ch_addr ch)) (set_child k' (mkChild (ch_cancelled ch') st (ch_addr ch')) d s).
Proof.
  intros [Ha Ho Hk Had Hd] Hk' Hne Hst. destruct (decide (k' = k)) as [->|]; [|by destruct Hne; eapply Ho].
  assert (ch' = ch) as -> by congruence. split_and!; [done|done|]. split; cbn; [done| | |done|done].
  - intros j chj Hj Hn. rewrite list_lookup_insert_ne in Hj by done. eauto.
  - apply list_lookup_insert_eq. by eapply lookup_lt_Some.
Qed.

Lemma move_inv final s k ch st d :
  inv final s → children s !! k = Some ch → ch_state ch ≠ Ended →
  (st = Ended ∧ d = 1%nat ∨ st ≠ Ended ∧ d = O) →
  inv final (set_child k (mkChild (ch_cancelled ch) st (ch_addr ch)) d s).
Proof.
  intros Hinv Hk Hne Hst.
  destruct Hinv as [cur _ _ _ _ He _|cur k' ch' Hp Hho Hu Hh Hcc|c k' ch' Hp Hho Hh Hc].
  - by apply (Forall_lookup_1 _ _ _ _ He) in Hk.
  - destruct (move_held _ _ _ _ _ st d _ Hh Hk Hne Hst) as (-> & -> & Hh'). by eapply inv_held.
  - destruct (move_held _ _ _ _ _ st d _ Hh Hk Hne Hst) as (-> & -> & Hh'). by eapply inv_waiting.
Qed.

(** No value is in the channel while the goroutine runs. *)
Lemma return_inv final s k ch :
  inv final s → children s !! k = Some ch → ch_state ch = Running → inv final (child_returns k ch s).
Proof.
  intros Hinv Hk Hst. assert (ch_state ch ≠ Ended) as Hne by (by rewrite Hst).
  apply move_inv; [done|done|done|]. right. split; [done|].
  assert (∀ a k' ch', held a k' ch' s → fDone s = O) as Hd.
  { intros a k' ch' [_ Ho Hk' _ Hd]. destruct (decide (k = k')) as [->|]; [|by destruct Hne; eapply Ho].
    assert (ch' = ch) as -> by congruence. destruct Hd as [[? _]|[_ ?]]; [by destruct Hne|done]. }
  destruct Hinv; [done|by eapply Hd..].
Qed.

Lemma lease_step_inv final s s' : inv final s → nany s s' → inv final s'.
Proof.
  intros Hinv [Hs|Hs];
    [destruct Hs as [s0 c cs Hp Hc|s0 c n Hp Hf|s0 k ch Hk Hst _|s0 k ch Hk Hst Hf]|destruct Hs as [s0 _|s0 k ch Hk Hst]].
  - by apply step_call_inv.
  - by eapply step_receive_inv.
  - by apply return_inv.
  - apply move_inv; [done|done|by rewrite Hst|by left].
  - destruct Hinv as [| ? ? ? ? ? ? []|? ? ? ? ? []]; [by eapply inv_none|by eapply inv_held|by eapply inv_waiting].
  - by apply return_inv.
Qed.

Lemma lease_reachable_inv calls final rs tb s :
  handed_over zeroAwp calls final → rtc nany (dhcp_start calls rs tb) s → inv final s.
Proof.
  intros Hc. apply (rtc_ind_r (inv final)); [by apply (inv_none _ _ zeroAwp)|]. eauto using lease_step_inv.
Qed.

(** ** What the invariant gives *)

(** The promises of [runDHCP] in a state: nothing has panicked; a goroutine
    that is not over has its address on the interface, which has no other, and
    there is at most one; every continuation ends; when nothing can happen
    without help from outside, all calls are done. *)
Record leases_ok (s : nstate) : Prop := {
  lk_safe : pos s ≠ Panicked;
  lk_addr k ch : children s !! k = Some ch → ch_state ch ≠ Ended → addrs s = [awp_addr (ch_addr ch)];
  lk_one k j ch ch' : children s !! k = Some ch → children s !! j = Some ch' →
    ch_state ch ≠ Ended → ch_state ch' ≠ Ended → k = j;
  lk_ends : sn nany s;
  lk_live : nf nstep s → pending s = [] ∧ pos s = Idle;
}.

Lemma inv_leases_ok final s : inv final s → leases_ok s.
Proof.
  intros Hinv. split; [by destruct Hinv as [? Hp|? ? ? Hp|? ? ? Hp]; rewrite Hp| | |by apply step_terminates|].
  - intros k ch Hk Hne.
    assert (∀ a k' ch', held a k' ch' s → addrs s = [awp_addr (ch_addr ch)]) as Hh.
    { intros a k' ch' [Ha Ho Hk' Had _]. destruct (decide (k = k')) as [->|]; [|by destruct Hne; eapply Ho].
      simplify_eq. by rewrite Ha. }
    destruct Hinv as [cur _ _ _ _ He _| |]; [|by eapply Hh..]. by apply (Forall_lookup_1 _ _ _ _ He) in Hk.
  - intros k j ch ch' Hk Hj Hne Hne'.
    assert (∃ m, others_ended m (children s)) as [m Ho].
    { destruct Hinv as [cur _ _ _ _ He _|? m ? _ _ _ [_ Ho] _|? m ? _ _ [_ Ho] _]; [|by eauto..].
      exists O. intros i chi Hi _. by apply (Forall_lookup_1 _ _ _ _ He) in Hi. }
    destruct (decide (k = m)) as [->|]; [|by destruct Hne; eapply Ho].
    destruct (decide (j = m)) as [->|]; [done|by destruct Hne'; eapply Ho].
  - intros Hnf.
    destruct Hinv as [cur Hp _ _ _ _ _|cur k ch Hp _ _ _ _|c k ch Hp _ [_ _ Hk _ Hd] Hcc].
    1,2: destruct (pending s) as [|c cs] eqn:Hc; [done|]; destruct Hnf; eexists; by eapply step_call.
    exfalso. apply Hnf. destruct Hd as [[_ Hd]|[Hne Hd]]; [eexists; by eapply step_receive|].
    destruct (ch_state ch) eqn:Est; [| |done]; eexists;
      [eapply step_return; [done|done|by rewrite Hcc]|by eapply step_send].
Qed.

(** Nothing is left of the leases: closing [fDone] cannot make a goroutine
    send on a closed channel. *)
Definition all_over (s : nstate) : Prop :=
  addrs s = [] ∧ Forall (λ ch, ch_state ch = Ended) (children s).

Lemma inv_all_over s : inv zeroAwp s → pending s = [] → pos s = Idle → all_over s.
Proof.
  intros Hinv Hc Hp. destruct Hinv as [? _ _ _ Ha He _|cur k ch _ Hho Hu _ _|? ? ? Hw _ _ _]; [by split| |congruence].
  rewrite Hc in Hho. cbn in Hho. subst cur. cbn in Hu. by rewrite unspecified_zero in Hu.
Qed.

(** ** Where the addresses come from *)

(** Every goroutine was started by one of the calls, for its new address. *)
Record started_by (calls : list call) (s : nstate) : Prop := {
  sb_pending c : c ∈ pending s → c ∈ calls;
  sb_waiting c : pos s = Waiting c → c ∈ calls;
  sb_children ch : ch ∈ children s →
    Unspecified (awp_addr (ch_addr ch)) = false ∧ ∃ c, c ∈ calls ∧ c_new c = ch_addr ch;
}.

Lemma acquired_new_started calls c s :
  started_by calls s → c ∈ calls →
  started_by calls (acquired_new subnet IPv4EmptySubnet Unspecified addr_String add_ok c s).
Proof.
  intros [Hp _ Hc] Hin. unfold acquired_new. destruct (Unspecified (awp_addr (c_new c))) eqn:Eu; [by split|].
  cbn [negb]. case_match; [|by split]. split; cbn; [done|done|].
  intros ch [?|Hx%list_elem_of_singleton]%elem_of_app; [by apply Hc|]. subst ch. split; [done|by exists c].
Qed.

Lemma insert_started calls s k ch ch' d :
  started_by calls s → children s !! k = Some ch → ch_addr ch' = ch_addr ch → started_by calls (set_child k ch' d s).
Proof.
  intros [Hp Hw Hc] Hk Ha. split; cbn; [done|done|]. intros x [i Hi]%list_elem_of_lookup_1.
  destruct (decide (i = k)) as [->|]; [|rewrite list_lookup_insert_ne in Hi by done; by eapply Hc, list_elem_of_lookup_2].
  rewrite list_lookup_insert_eq in Hi by (by eapply lookup_lt_Some). injection Hi as <-. rewrite Ha.
  by eapply Hc, list_elem_of_lookup_2.
Qed.

Lemma step_started calls s s' : nany s s' → started_by calls s → started_by calls s'.
Proof.
  intros [[s0 c cs Hp Hc|s0 c n Hp Hf|s0 k ch Hk _ _|s0 k ch Hk _ _]|[s0 _|s0 k ch Hk _]] Hs;
    [| |by eapply insert_started..|by destruct Hs|by eapply insert_started].
  - destruct Hs as [Hpe Hw Hch]. assert (c ∈ calls) as Hin by (apply Hpe; rewrite Hc; by left).
    assert (∀ x, x ∈ cs → x ∈ calls) as Hcs by (intros x Hx; apply Hpe; rewrite Hc; by right).
    unfold acquired. case_match; [by split|]. case_match; [case_match|].
    + split; cbn; [done|by intros ? [= <-]|]. intros ch [i Hi]%list_elem_of_lookup_1.
      rewrite list_lookup_alter in Hi. case_decide; [|by eapply Hch, list_elem_of_lookup_2].
      apply fmap_Some in Hi as (x & Hx & ->). by eapply (Hch x), list_elem_of_lookup_2.
    + by split.
    + by apply acquired_new_started.
  - destruct Hs as [Hpe Hw Hch]. apply acquired_new_started; [|by apply Hw].
    split; cbn; [done|intros ? [= <-]; by apply Hw|done].
Qed.

Lemma started_reachable calls rs tb s : rtc nany (dhcp_start calls rs tb) s → started_by calls s.
Proof.
  apply (rtc_ind_r (started_by calls)).
  - split; cbn; [done|done|by intros ? ?%elem_of_nil].
  - intros x y _ Hs Hx. by eapply step_started.
Qed.

(** ** The client and the callback *)

Context (subnet_mask : AddressWithPrefix → AddressMask) (IPv4Broadcast IPv4Any : Address).

(** C15 The DHCP client and the lease callback fit together.  Consider a run
    of the client of [runDHCP] over any transactions, in which the clock does
    not run backwards and timers do not fire early, the stack adds and removes
    0.0.0.0 when [acquire] asks for it, and the context of each acquisition,
    which has a timeout, ends ([fair]).  Suppose that the stack can add an address that the interface does not have (what happens
    when it cannot is in [failed_add_panics] and [failed_add_blocks]), that the
    zero address is unspecified, and that [f] returns [context.Canceled] once
    its context is done.  [f] may also return it earlier, and the context of
    [runDHCP] may end at any time.  Then for every interleaving of the client's
    calls with the goroutines started for its leases: neither client nor
    callback panics; at most one goroutine is not over, and until it is the
    interface has exactly the address that goroutine was started for, which a
    server has confirmed with an ACK in that run; every execution ends, and it
    only stops when all calls have been handled, so no call waits for ever; and
    when the client has returned and its calls are handled, no address and no
    goroutine is left, so that closing [fDone] is safe. *)
Theorem leases_drive_stack (ws : list weather) (rs : list bytes) (tb : list Route) (s : nstate) :
  let es := turn_of subnet_mask IPv4Broadcast IPv4Any <$> ws in
  let o := run true es (DhcpClient.run_start dhcp_info) in
  Forall fair ws → clocked es (DhcpClient.run_start dhcp_info) →
  match o with
  | Continue r | Return r | Blocked r =>
      rtc nany (dhcp_start (r_calls r) rs tb) s →
      leases_ok s ∧ (∀ ch, ch ∈ children s → ∃ w cfg, w ∈ ws ∧ acknowledged w (ch_addr ch) cfg) ∧
      (o = Return r → pending s = [] → pos s = Idle → all_over s)
  | Paniced _ => False
  end.
Proof.
  intros es o Hf Hc.
  assert (timely true es (DhcpClient.run_start dhcp_info)) as Ht.
  { apply clocked_timely; [|done]. apply Forall_fmap. eapply Forall_impl; [done|]. apply turn_of_ok. }
  pose proof (run_ok zeroAwp es (DhcpClient.run_start dhcp_info) ltac:(by split) Ht eq_refl) as Hr.
  pose proof (run_calls es (DhcpClient.run_start dhcp_info)) as Hcalls. fold o in Hr, Hcalls.
  assert (∀ calls b, handed_over zeroAwp calls b →
    (∀ c, c ∈ calls → c ∈ [] ∨ ∃ e, e ∈ es ∧ given e c) → rtc nany (dhcp_start calls rs tb) s →
    leases_ok s ∧ (∀ ch, ch ∈ children s → ∃ w cfg, w ∈ ws ∧ acknowledged w (ch_addr ch) cfg) ∧
    (b = zeroAwp → pending s = [] → pos s = Idle → all_over s)) as Hend.
  { intros calls b Hh Hg Hs. pose proof (lease_reachable_inv _ _ _ _ _ Hh Hs) as Hinv.
    split_and!; [by eapply inv_leases_ok| |by intros ->; apply inv_all_over].
    intros ch Hch. destruct (sb_children _ _ (started_reachable _ _ _ _ Hs) ch Hch) as [Hu (c & Hin & Hca)].
    rewrite <-Hca in Hu |- *.
    destruct (Hg c Hin) as [?%elem_of_nil|(e & (w & -> & Hw)%list_elem_of_fmap & Hgc)]; [done|].
    apply given_acknowledged in Hgc as [Hz|(cfg & _ & Ha)]; [|by exists w, cfg].
    rewrite Hz in Hu. cbn in Hu. by rewrite unspecified_zero in Hu. }
  destruct o as [r|r|r|]; [| | |exact Hr]; intros Hs.
  - destruct (Hend _ _ (proj2 Hr) Hcalls Hs) as (? & ? & _). by split_and!.
  - destruct (Hend _ _ (proj2 Hr) Hcalls Hs) as (? & ? & He). split_and!; [done|done|]. intros _. by apply He.
  - destruct (Hend _ _ Hr Hcalls Hs) as (? & ? & _). by split_and!.
Qed.
End Props.
End NetDhcpProps.
