(* ===== verification/NetDhcpDemo.v ===== *)
(** * Leases on concrete inputs

    A run of the client with its leases, and what happens when an address
    cannot be added to the interface. *)

From stdpp Require Import relations.
From S2P Require Import Prelude Dhcp DhcpClient DhcpClientProps DhcpReturns DhcpDemo NetDhcp NetDhcpProps.
Import Dhcp DhcpClient DhcpClientProps DhcpReturns DhcpDemo NetDhcp NetDhcpProps.

Module NetDhcpDemo.

Definition unspecified (a : bytes) : bool := forallb (λ b, b2z b =? 0) a.
Definition add_fresh (l : list bytes) (a : bytes) : bool := bool_decide (a ∉ l).

(** A lease, an hour long, and the end of the client. *)
Abbreviation lease_run :=
  (run true (turn_of mask_of bcast any <$> days) (DhcpClient.run_start dhcp_info)).

Definition leased : AddressWithPrefix := mkAwp own_address 24.

Abbreviation lease_step := (any_step (Subnet := AddressWithPrefix) id zeroAwp unspecified id add_fresh).

(** The calls that the client makes: one for the lease, one that takes it
    back. *)
Definition lease_calls : list call :=
  match lease_run with Return r => r_calls r | _ => [] end.

Lemma lease_run_calls :
  match lease_run with
  | Return r => bool_decide ((λ c, (c_old c, c_new c)) <$> r_calls r = [(zeroAwp, leased); (leased, zeroAwp)])
  | _ => false
  end = true.
Proof. by vm_compute. Qed.

(** The goroutine of the lease runs; the context ends, the goroutine returns
    by itself, and the lease is taken back. *)
Lemma lease_steps c1 c2 :
  ∃ s1 s2 : nstate, rtc lease_step (dhcp_start [mkCall zeroAwp leased c1; mkCall leased zeroAwp c2] [] []) s1 ∧
    rtc lease_step s1 s2 ∧
    children s1 = [mkChild false Running leased] ∧ addrs s1 = [own_address] ∧
    children s2 = [mkChild true Ended leased] ∧ pending s2 = [] ∧ pos s2 = Idle.
Proof.
  eexists _, _. split_and!.
  - eapply rtc_l; [left; by eapply step_call|]. apply rtc_refl.
  - eapply rtc_l; [right; by eapply outside_ctx|].
    eapply rtc_l; [left; by eapply (step_return _ _ _ _ _ _ O)|].
    eapply rtc_l; [left; by eapply (step_send _ _ _ _ _ _ O)|].
    eapply rtc_l; [left; by eapply step_call|].
    eapply rtc_l; [left; by eapply step_receive|]. apply rtc_refl.
  - reflexivity.
  - reflexivity.
  - reflexivity.
  - reflexivity.
  - reflexivity.
Qed.

Lemma leases_drive_stack_witness :
  ∃ s1 s2, rtc lease_step (dhcp_start lease_calls [] []) s1 ∧ rtc lease_step s1 s2 ∧
    children s1 = [mkChild false Running leased] ∧ addrs s1 = [own_address] ∧
    leases_ok id zeroAwp unspecified id add_fresh s1 ∧
    (∃ w cfg, w ∈ days ∧ acknowledged w leased cfg) ∧
    children s2 = [mkChild true Ended leased] ∧ all_over s2.
Proof.
  pose proof (λ s, leases_drive_stack id zeroAwp unspecified id add_fresh
    (λ l a Ha, bool_decide_eq_true_2 _ Ha) eq_refl mask_of bcast any days [] [] s) as H. cbv zeta in H.
  assert (clocked (turn_of mask_of bcast any <$> days) (DhcpClient.run_start dhcp_info)) as Ht
    by (apply in_time_clocked; by vm_compute).
  specialize (λ s, H s days_fair Ht).
  pose proof lease_run_calls as Hc. unfold lease_calls.
  destruct lease_run as [|r| |]; [done| |done..]. bool_prop.
  destruct (r_calls r) as [|[? ? c1] [|[? ? c2] [|]]]; try done. injection Hc as -> -> -> ->.
  destruct (lease_steps c1 c2) as (s1 & s2 & H1 & H2 & Hs1 & Ha & Hs2 & Hp & Hi).
  destruct (H s1 H1) as (Hok & Hack & _). destruct (H s2 ltac:(by etrans)) as (_ & _ & Hover).
  exists s1, s2. split_and!; try done; [|by apply Hover].
  apply (Hack (mkChild false Running leased)). rewrite Hs1. by left.
Defined.

(** ** An address that cannot be added *)

Definition addr_a : AddressWithPrefix := mkAwp [x0a; x00; x00; x01] 24.
Definition addr_b : AddressWithPrefix := mkAwp [x0a; x00; x00; x02] 24.

(** An interface that never takes address [b]. *)
Definition not_b (l : list bytes) (a : bytes) : bool := bool_decide (a ≠ awp_addr addr_b).

Abbreviation demo_step := (step (Subnet := AddressWithPrefix) id zeroAwp unspecified id not_b).

Definition hand (a b : AddressWithPrefix) : call := mkCall a b zeroConfig.

(** If the first address cannot be added, the callback that takes it back
    calls a nil function. *)
Theorem failed_add_panics :
  let calls := [hand zeroAwp addr_b; hand addr_b zeroAwp] in
  handed_over zeroAwp calls zeroAwp ∧
  ∃ s, rtc demo_step (dhcp_start calls [] []) s ∧ pos s = Panicked.
Proof.
  cbn zeta. split; [done|]. eexists. split; [|].
  - eapply rtc_l; [by eapply step_call|]. eapply rtc_l; [by eapply step_call|]. apply rtc_refl.
  - reflexivity.
Qed.

(** If a later one cannot be added, the callback that takes it back waits for
    a goroutine that has not been started: it cancels the context of the one
    before, which is over. *)
Theorem failed_add_blocks :
  let calls := [hand zeroAwp addr_a; hand addr_a addr_b; hand addr_b zeroAwp] in
  handed_over zeroAwp calls zeroAwp ∧
  ∃ s, rtc demo_step (dhcp_start calls [] []) s ∧ nf demo_step s ∧ pos s = Waiting (hand addr_b zeroAwp).
Proof.
  cbn zeta. split; [done|].
  exists (mkN [] (Waiting (hand addr_b zeroAwp)) [] [] [mkRoute addr_a zeroAddress] [mkChild true Ended addr_a] (Some O) O false).
  split_and!; [| |done].
  - eapply rtc_l; [by eapply step_call|]. eapply rtc_l; [by eapply step_call|].
    eapply rtc_l; [by eapply (step_return _ _ _ _ _ _ O)|]. eapply rtc_l; [by eapply (step_send _ _ _ _ _ _ O)|].
    eapply rtc_l; [by eapply step_receive|]. eapply rtc_l; [by eapply step_call|]. apply rtc_refl.
  - intros [s' Hs]. inversion Hs as [? ? ? Hp|? ? ? ? Hf|? [|k] ? Hk Hst|? [|k] ? Hk Hst]; subst;
      cbn in *; by simplify_eq.
Qed.
End NetDhcpDemo.
