(* ===== verification/Key.v ===== *)
(** * Identity keys (trusted_applet/key.go)

    The derivation of the witness, attestation and bastion keys from the
    hardware secret, and the attestations of the identities.  The hardware,
    HKDF, the key generators and the note signer are parameters.  Code that
    ends in [log.Fatalf] has the result [Err]. *)

From S2P Require Import Prelude Sha256 Text.
Import Text.

Module Key.

(** [api.Status]: the fields used. *)
Record Status := mkStatus { HAB : bool; IdentityCounter : Z; Serial : bytes }.

(** The package's variables. *)
Record keys := mkKeys {
  attestSigningKey : bytes;
  attestPublicKey : bytes;
  witnessPublicKey : bytes;
  witnessSigningKey : bytes;
  witnessPublicKeyAttestation : bytes;
  bastionSigningKey : bytes;
  bastionIDAttestation : bytes;
}.

(** The texts that tell keys apart. *)
Definition key_prefix (st : Status) : bytes := if negb (HAB st) then str "DEV:" else [].

Definition witness_diversifier (st : Status) : bytes :=
  key_prefix st ++ str "WitnessKey-id:" ++ dec (IdentityCounter st).
Definition attest_diversifier (st : Status) : bytes := key_prefix st ++ str "ID-Attestation".
Definition bastion_diversifier (st : Status) : bytes := key_prefix st ++ str "BastionKey-id:0".

(** The notes that are signed. *)
Definition id_text (st : Status) (pubkey : bytes) : bytes :=
  str "ArmoredWitness ID attestation v1" ++ [newline] ++ Serial st ++ [newline]
  ++ dec (IdentityCounter st) ++ [newline] ++ pubkey ++ [newline].
Definition bastion_text (st : Status) (bastionID : bytes) : bytes :=
  str "ArmoredWitness BastionID attestation v1" ++ [newline] ++ Serial st ++ [newline]
  ++ dec 0 ++ [newline] ++ bastionID ++ [newline].

Section Key.
(** [RPC.DeriveKey], and the bytes that an HKDF reader gives out in order. *)
Context (DeriveKey : bytes → res bytes) (hkdf_output : bytes → bytes → bytes).
(** [note.GenerateKey] and [ed25519.GenerateKey] on a reader, and the
    name generator. *)
Context (note_GenerateKey : bytes → bytes → res (bytes * bytes)).
Context (ed25519_GenerateKey : bytes → res (bytes * bytes)).
Context (Generate : Z → bytes).
(** [note.NewSigner] and [note.Sign]. *)
Context {Signer : Type} (NewSigner : bytes → res Signer) (Sign : bytes → Signer → res bytes).

(** A reader is what it has left to give out. *)
Definition read (n : nat) (r : bytes) : res (bytes * bytes) :=
  if (length r <? n)%nat then Err "entropy limit reached" else Ok (take n r, drop n r).

Definition deriveHKDF (diversifier uniqueID : bytes) : res bytes :=
  let diversifierHash := Sha256.Sum256 diversifier in
  aesKey ← DeriveKey (take 16 diversifierHash);
  mret (hkdf_output aesKey uniqueID).

(** [int64] of eight bytes in little-endian order. *)
Definition le_int64 (b : bytes) : Z :=
  let u := be_decode (reverse b) in if u <? 2 ^ 63 then u else u - 2 ^ 64.

(** The name and what is left of the reader. *)
Definition randomName (rnd : bytes) : res (bytes * bytes) :=
  '(nSeed, rnd) ← read 8 rnd; mret (Generate (le_int64 nSeed), rnd).

(** The name is made first, from the reader that the key is then made from. *)
Definition deriveNoteSigner (diversifier uniqueID : bytes) (keyName : bytes → res (bytes * bytes))
    : res (bytes * bytes) :=
  r ← deriveHKDF diversifier uniqueID;
  '(name, r) ← keyName r;
  note_GenerateKey r name.

(** The private and the public key. *)
Definition deriveEd25519 (diversifier uniqueID : bytes) : res (bytes * bytes) :=
  r ← deriveHKDF diversifier uniqueID;
  '(pub, priv) ← ed25519_GenerateKey r;
  mret (priv, pub).

Definition panics {A} (r : res A) : res A := match r with Err e => Panic e | _ => r end.

Definition attestNote (text : bytes) : M keys bytes := λ s,
  (aSigner ← lift (panics (NewSigner (attestSigningKey s)));
   lift (panics (Sign text aSigner))) s.

Definition attestID (st : Status) (pubkey : bytes) : M keys bytes := λ s,
  attestNote (id_text st (witnessPublicKey s)) s.

Definition attestBastion (st : Status) (bastionID : bytes) : M keys bytes :=
  attestNote (bastion_text st bastionID).

Definition set_witness (sec pub : bytes) (s : keys) : keys :=
  mkKeys (attestSigningKey s) (attestPublicKey s) pub sec (witnessPublicKeyAttestation s)
    (bastionSigningKey s) (bastionIDAttestation s).
Definition set_attest (sec pub : bytes) (s : keys) : keys :=
  mkKeys sec pub (witnessPublicKey s) (witnessSigningKey s) (witnessPublicKeyAttestation s)
    (bastionSigningKey s) (bastionIDAttestation s).
Definition set_attestation (a : bytes) (s : keys) : keys :=
  mkKeys (attestSigningKey s) (attestPublicKey s) (witnessPublicKey s) (witnessSigningKey s) a
    (bastionSigningKey s) (bastionIDAttestation s).
Definition set_bastion (sec : bytes) (s : keys) : keys :=
  mkKeys (attestSigningKey s) (attestPublicKey s) (witnessPublicKey s) (witnessSigningKey s)
    (witnessPublicKeyAttestation s) sec (bastionIDAttestation s).
Definition set_bastion_attestation (a : bytes) (s : keys) : keys :=
  mkKeys (attestSigningKey s) (attestPublicKey s) (witnessPublicKey s) (witnessSigningKey s)
    (witnessPublicKeyAttestation s) (bastionSigningKey s) a.

Definition modify (f : keys → keys) : M keys unit := λ s, (f s, Ok ()).
Definition get : M keys keys := λ s, (s, Ok s).

(** The functions that name the keys. *)
Definition witnessName (st : Status) (rnd : bytes) : res (bytes * bytes) :=
  '(n, rnd) ← randomName rnd; mret (key_prefix st ++ str "ArmoredWitness-" ++ n, rnd).
Definition attestName (st : Status) (rnd : bytes) : res (bytes * bytes) :=
  mret (key_prefix st ++ str "AW-ID-Attestation-" ++ Serial st, rnd).

(** [deriveIdentityKeys], given the outcome of [RPC.Status]. *)
Definition deriveIdentityKeys (status : res Status) : M keys unit :=
  st ← lift status;
  '(sec, pub) ← lift (deriveNoteSigner (witness_diversifier st) (Serial st) (witnessName st));
  _ ← modify (set_witness sec pub);
  '(sec, pub) ← lift (deriveNoteSigner (attest_diversifier st) (Serial st) (attestName st));
  _ ← modify (set_attest sec pub);
  s ← get;
  a ← attestID st (witnessPublicKey s);
  _ ← modify (set_attestation a);
  '(bastionSec, bastionPub) ← lift (deriveEd25519 (bastion_diversifier st) (Serial st));
  _ ← modify (set_bastion bastionSec);
  let bastionID := hex (Sha256.Sum256 bastionPub) in
  ba ← attestBastion st bastionID;
  modify (set_bastion_attestation ba).
End Key.
End Key.
