(* ===== verification/KeyProps.v ===== *)
(** * Properties of the identity keys *)

From S2P Require Import Prelude Sha256 Text Key.
Import Text Key.

Module KeyProps.

(** ** The notes *)

Lemma id_text_lines st pub : id_text st pub =
  unlines [str "ArmoredWitness ID attestation v1"; Serial st; dec (IdentityCounter st); pub].
Proof. unfold id_text, unlines. cbn [fmap list_fmap concat]. by rewrite <-!app_assoc, app_nil_r. Qed.

Lemma bastion_text_lines st id : bastion_text st id =
  unlines [str "ArmoredWitness BastionID attestation v1"; Serial st; dec 0; id].
Proof. unfold bastion_text, unlines. cbn [fmap list_fmap concat]. by rewrite <-!app_assoc, app_nil_r. Qed.

Lemma one_line_literal b : forallb (λ c, negb (bool_decide (c = newline))) b = true → one_line b.
Proof.
  intros Hb Hin. rewrite forallb_forall in Hb. apply list_elem_of_In in Hin. specialize (Hb _ Hin).
  by rewrite bool_decide_true in Hb.
Qed.

(** ** Diversifiers *)

(** C27 Keys for different purposes are derived from different texts, and so
    are witness keys of different identity counters, and keys of units with
    and without secure boot. *)
Theorem diversifiers_separate (st st' : Status) :
  0 ≤ IdentityCounter st → 0 ≤ IdentityCounter st' →
  (witness_diversifier st = witness_diversifier st' → HAB st = HAB st' ∧ IdentityCounter st = IdentityCounter st') ∧
  (attest_diversifier st = attest_diversifier st' → HAB st = HAB st') ∧
  (bastion_diversifier st = bastion_diversifier st' → HAB st = HAB st') ∧
  witness_diversifier st ≠ attest_diversifier st' ∧ witness_diversifier st ≠ bastion_diversifier st' ∧
  attest_diversifier st ≠ bastion_diversifier st'.
Proof.
  intros Hc Hc'. unfold witness_diversifier, attest_diversifier, bastion_diversifier, key_prefix.
  destruct (HAB st), (HAB st'); cbn [negb]; split_and!; intros E; try done; try (by injection E).
  - split; [done|]. apply (app_inv_head (str "WitnessKey-id:")) in E. by apply dec_inj.
  - split; [done|]. apply (app_inv_head (str "DEV:")), (app_inv_head (str "WitnessKey-id:")) in E.
    by apply dec_inj.
Qed.

Section Derive.
Context (DeriveKey : bytes → res bytes) (hkdf_output : bytes → bytes → bytes).
Context (note_GenerateKey : bytes → bytes → res (bytes * bytes)).
Context (ed25519_GenerateKey : bytes → res (bytes * bytes)) (Generate : Z → bytes).
Context {Signer : Type} (NewSigner : bytes → res Signer) (Sign : bytes → Signer → res bytes).

Abbreviation derive :=
  (deriveIdentityKeys DeriveKey hkdf_output note_GenerateKey ed25519_GenerateKey Generate NewSigner Sign).
Abbreviation derive_note := (deriveNoteSigner DeriveKey hkdf_output note_GenerateKey).

(** The keys, as functions of the status alone. *)
Definition witness_keys (st : Status) : res (bytes * bytes) :=
  derive_note (witness_diversifier st) (Serial st) (witnessName Generate st).
Definition attest_keys (st : Status) : res (bytes * bytes) :=
  derive_note (attest_diversifier st) (Serial st) (attestName st).
Definition bastion_keys (st : Status) : res (bytes * bytes) :=
  deriveEd25519 DeriveKey hkdf_output ed25519_GenerateKey (bastion_diversifier st) (Serial st).
Definition sign_with (sec text : bytes) : res bytes :=
  panics (NewSigner sec) ≫= λ s, panics (Sign text s).


(** The identity of a unit: a function of its status and the hardware. *)
Definition identity (st : Status) : res keys :=
  '(wsec, wpub) ← witness_keys st;
  '(asec, apub) ← attest_keys st;
  a ← sign_with asec (id_text st wpub);
  '(bsec, bpub) ← bastion_keys st;
  ba ← sign_with asec (bastion_text st (hex (Sha256.Sum256 bpub)));
  mret (mkKeys asec apub wpub wsec a bsec ba).

Lemma identity_ok st k :
  identity st = Ok k →
  ∃ wsec wpub asec apub bsec bpub a ba,
    witness_keys st = Ok (wsec, wpub) ∧ attest_keys st = Ok (asec, apub) ∧ bastion_keys st = Ok (bsec, bpub) ∧
    sign_with asec (id_text st wpub) = Ok a ∧
    sign_with asec (bastion_text st (hex (Sha256.Sum256 bpub))) = Ok ba ∧
    k = mkKeys asec apub wpub wsec a bsec ba.
Proof.
  unfold identity, mbind, res_bind. destruct (witness_keys st) as [[wsec wpub]| | |]; [|done..].
  destruct (attest_keys st) as [[asec apub]| | |]; [|done..].
  destruct (sign_with asec (id_text st wpub)) as [a| | |] eqn:E1; [|done..].
  destruct (bastion_keys st) as [[bsec bpub]| | |]; [|done..].
  destruct (sign_with asec (bastion_text st _)) as [ba| | |] eqn:E2; [|done..].
  intros [= <-]. by exists wsec, wpub, asec, apub, bsec, bpub, a, ba.
Qed.

Lemma sign_with_ok sec text a : sign_with sec text = Ok a → ∃ sg, NewSigner sec = Ok sg ∧ Sign text sg = Ok a.
Proof.
  unfold sign_with, panics, mbind, res_bind. destruct (NewSigner sec) as [sg| | |]; try done.
  destruct (Sign text sg) eqn:E; try done. intros [= <-]. eauto.
Qed.

Lemma derive_identity st s :
  match identity st with
  | Ok k => derive (Ok st) s = (k, Ok ())
  | Err e => (derive (Ok st) s).2 = Err e
  | Panic e => (derive (Ok st) s).2 = Panic e
  | NoFuel => (derive (Ok st) s).2 = NoFuel
  end.
Proof.
  unfold identity, deriveIdentityKeys, attestID, attestBastion, attestNote, sign_with, lift, mbind, M_bind, res_bind.
  cbn [get modify]. unfold witness_keys, attest_keys, bastion_keys.
  destruct (derive_note (witness_diversifier st) _ _) as [[wsec wpub]| | |]; [|done..].
  destruct (derive_note (attest_diversifier st) _ _) as [[asec apub]| | |]; [|done..].
  cbn [attestSigningKey witnessPublicKey set_witness set_attest].
  destruct (panics (NewSigner asec)) as [sg| | |] eqn:Es; [|done..].
  destruct (panics (Sign (id_text st wpub) sg)) as [a| | |]; [|done..].
  destruct (deriveEd25519 _ _ _ _ _) as [[bsec bpub]| | |]; [|done..].
  cbn [attestSigningKey set_witness set_attest set_attestation set_bastion]. rewrite Es.
  by destruct (panics (Sign (bastion_text st (hex (Sha256.Sum256 bpub))) sg)).
Qed.

Lemma derive_ok st s k : derive (Ok st) s = (k, Ok ()) ↔ identity st = Ok k.
Proof.
  pose proof (derive_identity st s) as Hd. split.
  - intros E. rewrite E in Hd. destruct (identity st); cbn in Hd; by simplify_eq.
  - intros E. by rewrite E in Hd.
Qed.

(** C25 The keys are a function of the status and the hardware: they do not
    depend on what the variables held before, so that every boot of a unit
    derives the same identity.  The attestation key and the bastion key, and
    its attestation, do not depend on the identity counter.  For the
    attestation of the bastion this is what the code does, which signs a
    counter of 0; the comment on [attestBastion] speaks of the current
    identity counter. *)
Theorem keys_reproducible (st : Status) (s s1 : keys) (counter : Z) :
  derive (Ok st) s = (s1, Ok ()) →
  (∀ s', derive (Ok st) s' = (s1, Ok ())) ∧
  (∀ s' s2, derive (Ok (mkStatus (HAB st) counter (Serial st))) s' = (s2, Ok ()) →
     attestSigningKey s2 = attestSigningKey s1 ∧ attestPublicKey s2 = attestPublicKey s1 ∧
     bastionSigningKey s2 = bastionSigningKey s1 ∧ bastionIDAttestation s2 = bastionIDAttestation s1).
Proof.
  intros H. apply derive_ok in H. split; [intros s'; by apply derive_ok|]. intros s' s2 H2%derive_ok.
  destruct (identity_ok _ _ H) as (wsec & wpub & asec & apub & bsec & bpub & a & ba & _ & Ha & Hb & _ & Hba & ->).
  destruct (identity_ok _ _ H2) as (wsec' & wpub' & asec' & apub' & bsec' & bpub' & a' & ba' & _ & Ha' & Hb' & _ & Hba' & ->).
  change (attest_keys (mkStatus (HAB st) counter (Serial st))) with (attest_keys st) in Ha'.
  change (bastion_keys (mkStatus (HAB st) counter (Serial st))) with (bastion_keys st) in Hb'.
  rewrite Ha in Ha'. rewrite Hb in Hb'. simplify_eq.
  change (bastion_text (mkStatus (HAB st) counter (Serial st))) with (bastion_text st) in Hba'.
  rewrite Hba in Hba'. by simplify_eq.
Qed.

(** C26 The attestations bind what they should: the signed text of the first
    is read back as its title, the serial number, the identity counter and
    the witness key derived; that of the second ends in the hash of the
    bastion key, in 64 hexadecimal digits.  Both are signed with the derived
    attestation key. *)
Theorem attestations_bind (st : Status) (s s1 : keys) :
  0 ≤ IdentityCounter st → one_line (Serial st) → derive (Ok st) s = (s1, Ok ()) →
  one_line (witnessPublicKey s1) →
  ∃ sg text1 text2 cnt id bpub,
    NewSigner (attestSigningKey s1) = Ok sg ∧
    Sign text1 sg = Ok (witnessPublicKeyAttestation s1) ∧ Sign text2 sg = Ok (bastionIDAttestation s1) ∧
    lines text1 = [str "ArmoredWitness ID attestation v1"; Serial st; cnt; witnessPublicKey s1] ∧
    undec cnt = IdentityCounter st ∧
    lines text2 = [str "ArmoredWitness BastionID attestation v1"; Serial st; str "0"; id] ∧
    bastion_keys st = Ok (bastionSigningKey s1, bpub) ∧
    unhex id = Some (Sha256.Sum256 bpub) ∧ length id = 64%nat.
Proof.
  intros Hc Hs H Hw. apply derive_ok in H.
  destruct (identity_ok _ _ H) as (wsec & wpub & asec & apub & bsec & bpub & a & ba & _ & Ha & Hb & Hsa & Hsb & ->).
  cbn [attestSigningKey witnessPublicKey witnessPublicKeyAttestation bastionSigningKey bastionIDAttestation] in *.
  destruct (sign_with_ok _ _ _ Hsa) as (sg & Hsg & Hs1). destruct (sign_with_ok _ _ _ Hsb) as (sg' & Hsg' & Hs2).
  rewrite Hsg in Hsg'. injection Hsg' as <-. destruct (dec_spec _ Hc) as (Hu & Hd & _).
  exists sg, (id_text st wpub), (bastion_text st (hex (Sha256.Sum256 bpub))), (dec (IdentityCounter st)),
    (hex (Sha256.Sum256 bpub)), bpub.
  split_and!; [done..| |done| |done|apply unhex_hex|by rewrite length_hex, Sha256.length_Sum256].
  1: rewrite id_text_lines, lines_unlines; [done|].
  2: rewrite bastion_text_lines, lines_unlines; [done|].
  all: repeat (apply Forall_cons; split); [apply one_line_literal; by vm_compute|done| | |done];
    solve [by apply digits_one_line | by apply digits_one_line, dec_spec | apply hex_one_line, hex_is_hex | done].
Qed.

(** The key that is attested is the package's variable, whatever key is passed
    in. *)
Lemma attestID_ignores_argument st pub pub' s : attestID NewSigner Sign st pub s = attestID NewSigner Sign st pub' s.
Proof. done. Qed.
End Derive.

(** ** A unit *)

Definition demo_status : Status := mkStatus false 12 (str "ABC123").
Definition no_keys : keys := mkKeys [] [] [] [] [] [] [].

Definition demo_hkdf (k salt : bytes) : bytes := k ++ salt ++ replicate 64 x07.
Definition demo_note (r name : bytes) : res (bytes * bytes) :=
  Ok (str "PRIVATE+KEY+" ++ name ++ hex (take 32 r), name ++ str "+" ++ hex (take 4 r)).
Definition demo_ed25519 (r : bytes) : res (bytes * bytes) := Ok (take 32 r, r).
Definition demo_name (z : Z) : bytes := str "name-" ++ dec (Z.abs z).
Definition demo_sign (text k : bytes) : res bytes := Ok (text ++ k).

Definition demo_derive : res Status → M keys unit :=
  deriveIdentityKeys Ok demo_hkdf demo_note demo_ed25519 demo_name Ok demo_sign.

Definition demo_keys : keys := (demo_derive (Ok demo_status) no_keys).1.

Lemma demo_derives : demo_derive (Ok demo_status) no_keys = (demo_keys, Ok ()).
Proof.
  unfold demo_keys. rewrite (surjective_pairing (demo_derive (Ok demo_status) no_keys)) at 1. f_equal.
Qed.

Lemma keys_reproducible_witness : demo_derive (Ok demo_status) demo_keys = (demo_keys, Ok ()).
Proof.
  exact (proj1 (keys_reproducible Ok demo_hkdf demo_note demo_ed25519 demo_name Ok demo_sign
    demo_status no_keys demo_keys 0 demo_derives) demo_keys).
Defined.

Lemma attestations_bind_witness :
  ∃ text2 id, text2 ++ attestSigningKey demo_keys = bastionIDAttestation demo_keys ∧
    lines text2 = [str "ArmoredWitness BastionID attestation v1"; str "ABC123"; str "0"; id] ∧ length id = 64%nat.
Proof.
  destruct (attestations_bind Ok demo_hkdf demo_note demo_ed25519 demo_name Ok demo_sign demo_status no_keys demo_keys) as
    (sg & t1 & t2 & cnt & id & bpub & Hsg & _ & Hs & _ & _ & Hl & _ & _ & Hid).
  - cbn. lia.
  - apply one_line_literal. by vm_compute.
  - exact demo_derives.
  - apply one_line_literal. by vm_compute.
  - injection Hsg as <-. injection Hs as Hs. by exists t2, id.
Defined.

Lemma diversifiers_separate_witness :
  witness_diversifier demo_status ≠ bastion_diversifier demo_status.
Proof. apply (diversifiers_separate demo_status demo_status); cbn; lia. Defined.
End KeyProps.
