(* ===== verification/Hostname.v ===== *)
(** * The host name (trusted_applet/main.go: [cleanForDNS])

    [strings.Map] goes over the runes of a string, so the model decodes UTF-8
    as the standard library does: a byte that does not start a well-formed
    sequence is a rune of its own. *)

From S2P Require Import Prelude Text.
Import Text.

Module Hostname.

Definition RuneError : Z := 65533.

Definition in_range (b : option byte) (lo hi : Z) : bool :=
  match b with Some b => (lo <=? b2z b) && (b2z b <=? hi) | None => false end.

Definition low6 (b : option byte) : Z := match b with Some b => Z.land (b2z b) 63 | None => 0 end.

(** [utf8.DecodeRuneInString]: the rune and its width. *)
Definition decode_rune (s : bytes) : Z * nat :=
  match s with
  | [] => (RuneError, O)
  | b0 :: _ =>
    let x := b2z b0 in
    let b1 := s !! 1%nat in let b2 := s !! 2%nat in let b3 := s !! 3%nat in
    if x <? 128 then (x, 1%nat)
    else if (x <? 194) || (244 <? x) then (RuneError, 1%nat)
    else if x <? 224 then
      if in_range b1 128 191 then (Z.lor (Z.shiftl (Z.land x 31) 6) (low6 b1), 2%nat) else (RuneError, 1%nat)
    else if x <? 240 then
      if in_range b1 (if x =? 224 then 160 else 128) (if x =? 237 then 159 else 191) && in_range b2 128 191
      then (Z.lor (Z.shiftl (Z.land x 15) 12) (Z.lor (Z.shiftl (low6 b1) 6) (low6 b2)), 3%nat)
      else (RuneError, 1%nat)
    else
      if in_range b1 (if x =? 240 then 144 else 128) (if x =? 244 then 143 else 191)
         && in_range b2 128 191 && in_range b3 128 191
      then (Z.lor (Z.shiftl (Z.land x 7) 18)
              (Z.lor (Z.shiftl (low6 b1) 12) (Z.lor (Z.shiftl (low6 b2) 6) (low6 b3))), 4%nat)
      else (RuneError, 1%nat)
  end.

(** [strings.Map] with a function to ASCII characters. *)
Fixpoint map_runes (fuel : nat) (f : Z → byte) (s : bytes) : bytes :=
  match fuel, s with
  | S fuel', _ :: _ => let '(r, w) := decode_rune s in f r :: map_runes fuel' f (drop w s)
  | _, _ => []
  end.

(** The characters that are kept. *)
Definition dns_rune (r : Z) : bool :=
  ((97 <=? r) && (r <=? 122)) || ((65 <=? r) && (r <=? 90)) || ((48 <=? r) && (r <=? 57)) || (r =? 45).

Definition clean_rune (r : Z) : byte := if dns_rune r then z2b r else x2d.

Definition cleanForDNS (s : bytes) : bytes := map_runes (length s) clean_rune s.

(** ** Properties *)

Definition dns_byte (c : byte) : Prop := dns_rune (b2z c) = true.

Lemma dns_rune_ascii r : dns_rune r = true → 45 ≤ r ≤ 122.
Proof. unfold dns_rune. rewrite !orb_true_iff, !andb_true_iff, !Z.leb_le, Z.eqb_eq. lia. Qed.

Lemma clean_rune_dns r : dns_byte (clean_rune r).
Proof.
  unfold clean_rune, dns_byte. destruct (dns_rune r) eqn:E; [|done].
  rewrite b2z_z2b, Z.mod_small; [done|]. apply dns_rune_ascii in E. lia.
Qed.

Lemma decode_rune_width c s : (1 ≤ (decode_rune (c :: s)).2)%nat.
Proof. unfold decode_rune. repeat case_match; cbn; lia. Qed.

(** An ASCII character is a rune of its own. *)
Lemma decode_rune_ascii c s : b2z c < 128 → decode_rune (c :: s) = (b2z c, 1%nat).
Proof. intros Hc. unfold decode_rune. by rewrite (proj2 (Z.ltb_lt _ _)). Qed.

Lemma map_runes_dns fuel s : Forall dns_byte (map_runes fuel clean_rune s).
Proof.
  revert s. induction fuel as [|fuel IH]; intros [|c s]; cbn [map_runes]; [done..|].
  destruct (decode_rune (c :: s)) as [r w]. constructor; [apply clean_rune_dns|apply IH].
Qed.

Lemma map_runes_length fuel f s : (length (map_runes fuel f s) ≤ length s)%nat.
Proof.
  revert s. induction fuel as [|fuel IH]; intros [|c s]; cbn [map_runes]; [cbn; lia..|].
  pose proof (decode_rune_width c s). destruct (decode_rune (c :: s)) as [r w]. cbn [length snd] in *.
  specialize (IH (drop w (c :: s))). rewrite length_drop in IH. cbn [length] in IH. lia.
Qed.

Lemma map_runes_id fuel s : (length s ≤ fuel)%nat → Forall dns_byte s → map_runes fuel clean_rune s = s.
Proof.
  intros Hf Hs. revert fuel Hf. induction Hs as [|c s Hc _ IH]; intros [|fuel] Hf; cbn in Hf; [done|done|lia|].
  cbn [map_runes]. pose proof (dns_rune_ascii _ Hc). rewrite decode_rune_ascii by lia.
  change (drop 1 (c :: s)) with s. rewrite IH by lia. f_equal.
  unfold clean_rune. by rewrite Hc, z2b_b2z.
Qed.

(** The fuel is enough: no rune is left. *)
Lemma map_runes_fuel fuel f s : (length s ≤ fuel)%nat → map_runes fuel f s = map_runes (length s) f s.
Proof.
  remember (length s) as n eqn:Hn. revert fuel s Hn.
  induction n as [n IH] using lt_wf_ind. intros [|fuel] [|c s] -> Hf; cbn [length] in *; [done|lia|done|].
  cbn [map_runes]. pose proof (decode_rune_width c s). destruct (decode_rune (c :: s)) as [r w]. cbn [snd] in *.
  assert (length (drop w (c :: s)) ≤ length s)%nat as Hl by (rewrite length_drop; cbn [length]; lia).
  f_equal. rewrite (IH (length (drop w (c :: s))) ltac:(lia) fuel) by (done || lia).
  by rewrite (IH (length (drop w (c :: s))) ltac:(lia) (length s)) by (done || lia).
Qed.

(** The host name is made of letters, digits and hyphens only, whatever the
    bytes of the key name.  A name of such characters is kept, so cleaning
    twice is cleaning once; a name never gets longer, and one that is not
    empty does not become empty.  All runes are mapped: more fuel does not
    change the result. *)
Theorem clean_for_dns (s : bytes) :
  Forall dns_byte (cleanForDNS s) ∧ cleanForDNS (cleanForDNS s) = cleanForDNS s ∧
  (Forall dns_byte s → cleanForDNS s = s) ∧ (length (cleanForDNS s) ≤ length s)%nat ∧
  (s ≠ [] → cleanForDNS s ≠ []) ∧
  (∀ fuel, (length s ≤ fuel)%nat → map_runes fuel clean_rune s = cleanForDNS s).
Proof.
  unfold cleanForDNS. split_and!.
  - apply map_runes_dns.
  - apply map_runes_id; [done|apply map_runes_dns].
  - by apply map_runes_id.
  - apply map_runes_length.
  - destruct s as [|c s]; [done|]. intros _. cbn [length map_runes]. by destruct (decode_rune (c :: s)).
  - intros fuel. apply map_runes_fuel.
Qed.

(** A name with a letter outside ASCII, of two bytes, and one that is not
    well-formed UTF-8. *)
Example clean_examples :
  cleanForDNS (str "DEV:ArmoredWitness-caf" ++ [xc3; xa9]) = str "DEV-ArmoredWitness-caf-" ∧
  cleanForDNS [xc3; x28; xff] = [x2d; x2d; x2d].
Proof. by vm_compute. Qed.
End Hostname.
