(* ===== verification/UpdateChecker.v ===== *)
(** * The update loop (trusted_applet/main.go: [updateChecker])

    Two goroutines and the HTTP handler [/updatecheck] share the channel
    [trigger], of capacity one.  The ticker sends on it and closes it when the
    context is done; the handler sends on it; the updater receives from it.
    The component is a step relation on their joint state. *)

From stdpp Require Import relations.
From S2P Require Import Prelude.

Module UpdateChecker.

(** What building the updater, scanning the log and updating return in the
    handling of one trigger. *)
Record answers := mkAnswers { a_updater : res unit; a_scan : res unit; a_update : res unit }.

(** The state of the updating goroutine. *)
Record updates := mkUpdates {
  built : bool;           (** [updateFetcher] and [updateClient] are set *)
  attempts : nat;         (** [counterFirmwareUpdateAttempt] *)
  successes : nat;        (** [counterFirmwareUpdateSuccess] *)
  installs : nat;         (** calls of [Update] that returned nil *)
}.

(** The handling of a trigger: errors are logged, a panic is not caught. *)
Definition handle_trigger (a : answers) (u : updates) : res updates :=
  match (if built u then Ok () else a_updater a) with
  | Err _ => Ok u
  | Panic e => Panic e
  | NoFuel => NoFuel
  | Ok _ =>
    let u := mkUpdates true (S (attempts u)) (successes u) (installs u) in
    match a_scan a with
    | Err _ => Ok u
    | Panic e => Panic e
    | NoFuel => NoFuel
    | Ok _ =>
      u ← match a_update a with
          | Ok _ => Ok (mkUpdates (built u) (attempts u) (successes u) (S (installs u)))
          | Err _ => Ok u
          | Panic e => Panic e
          | NoFuel => NoFuel
          end;
      mret (mkUpdates (built u) (attempts u) (S (successes u)) (installs u))
    end
  end.

(** Where the goroutines are. *)
Inductive ticker := Ticking | TickSending | TickerDone.
Inductive receiver := Receiving | ReceiverDone | ReceiverPanicked.
Inductive handler := HandlerSending | HandlerOk | HandlerPanicked.

Record state := mkState {
  buffered : nat;            (** values in [trigger] *)
  closed : bool;
  ctx_done : bool;
  tick : ticker;
  recv : receiver;
  handlers : list handler;
  ups : updates;
  received : nat;            (** triggers received so far *)
}.

Definition capacity : nat := 1.

(** What a goroutine or the world does next. *)
Inductive act : state → state → Prop :=
  (** The context is cancelled. *)
  | step_cancel s :
      ctx_done s = false →
      act s (mkState (buffered s) (closed s) true (tick s) (recv s) (handlers s) (ups s) (received s))
  (** A request for [/updatecheck] arrives. *)
  | step_request s :
      act s (mkState (buffered s) (closed s) (ctx_done s) (tick s) (recv s)
                (handlers s ++ [HandlerSending]) (ups s) (received s))
  (** The ticker: a tick, the send, the end. *)
  | step_tick s :
      tick s = Ticking →
      act s (mkState (buffered s) (closed s) (ctx_done s) TickSending (recv s) (handlers s) (ups s) (received s))
  | step_tick_send s :
      tick s = TickSending → closed s = false → (buffered s < capacity)%nat →
      act s (mkState (S (buffered s)) (closed s) (ctx_done s) Ticking (recv s) (handlers s) (ups s) (received s))
  | step_tick_done s :
      tick s = Ticking → ctx_done s = true →
      act s (mkState (buffered s) true (ctx_done s) TickerDone (recv s) (handlers s) (ups s) (received s))
  (** The handler: the send; on a closed channel it panics. *)
  | step_handler_send s k :
      handlers s !! k = Some HandlerSending → closed s = false → (buffered s < capacity)%nat →
      act s (mkState (S (buffered s)) (closed s) (ctx_done s) (tick s) (recv s)
                (<[k := HandlerOk]> (handlers s)) (ups s) (received s))
  | step_handler_panic s k :
      handlers s !! k = Some HandlerSending → closed s = true →
      act s (mkState (buffered s) (closed s) (ctx_done s) (tick s) (recv s)
                (<[k := HandlerPanicked]> (handlers s)) (ups s) (received s))
  (** The updater: a trigger, the closed channel, the context. *)
  | step_receive s n a u :
      recv s = Receiving → buffered s = S n → handle_trigger a (ups s) = Ok u →
      act s (mkState n (closed s) (ctx_done s) (tick s) (recv s) (handlers s) u (S (received s)))
  | step_receive_panic s n a e :
      recv s = Receiving → buffered s = S n → handle_trigger a (ups s) = Panic e →
      act s (mkState n (closed s) (ctx_done s) (tick s) ReceiverPanicked (handlers s) (ups s) (S (received s)))
  | step_receive_closed s :
      recv s = Receiving → buffered s = O → closed s = true →
      act s (mkState (buffered s) (closed s) (ctx_done s) (tick s) ReceiverDone (handlers s) (ups s) (received s))
  | step_receive_done s :
      recv s = Receiving → ctx_done s = true →
      act s (mkState (buffered s) (closed s) (ctx_done s) (tick s) ReceiverDone (handlers s) (ups s) (received s)).

(** A panic of the updater ends the process; one of a handler is caught by the
    HTTP server. *)
Inductive step (s s' : state) : Prop :=
  | step_act : recv s ≠ ReceiverPanicked → act s s' → step s s'.

Definition start : state := mkState 0 false false Ticking Receiving [] (mkUpdates false 0 0 0) 0.

#[export] Instance handler_eq : EqDecision handler.
Proof. solve_decision. Defined.

(** ** The invariant *)

Record inv (s : state) : Prop := {
  inv_capacity : (buffered s ≤ capacity)%nat;
  inv_closed : closed s = true ↔ tick s = TickerDone;
  inv_ctx : tick s = TickerDone → ctx_done s = true;
  inv_recv : recv s = ReceiverDone → ctx_done s = true;
  inv_panic : HandlerPanicked ∈ handlers s → closed s = true;
  inv_counts : (installs (ups s) ≤ successes (ups s) ≤ attempts (ups s) ∧ attempts (ups s) ≤ received s)%nat;
  inv_built : attempts (ups s) ≠ O → built (ups s) = true;
  (** every value sent is in the channel, or has been received *)
  inv_sent : (length (filter (λ h, h = HandlerOk) (handlers s)) ≤ buffered s + received s)%nat;
}.

Lemma accepted_insert (l : list handler) (k : nat) :
  l !! k = Some HandlerSending →
  length (filter (λ h, h = HandlerOk) (<[k := HandlerOk]> l)) = S (length (filter (λ h, h = HandlerOk) l)).
Proof.
  revert k. induction l as [|h l IH]; intros [|k] Hk; [done..|cbn in Hk; simplify_eq|].
  - change (<[0%nat := HandlerOk]> (HandlerSending :: l)) with (HandlerOk :: l).
    by rewrite filter_cons_True, filter_cons_False by done.
  - change (<[S k := HandlerOk]> (h :: l)) with (h :: <[k := HandlerOk]> l). specialize (IH k Hk).
    rewrite !filter_cons. case_decide; cbn [length]; lia.
Qed.

Lemma panicked_insert (l : list handler) (k : nat) :
  l !! k = Some HandlerSending →
  filter (λ h, h = HandlerOk) (<[k := HandlerPanicked]> l) = filter (λ h, h = HandlerOk) l.
Proof.
  revert k. induction l as [|h l IH]; intros [|k] Hk; [done..|cbn in Hk; simplify_eq|].
  - change (<[0%nat := HandlerPanicked]> (HandlerSending :: l)) with (HandlerPanicked :: l).
    by rewrite !filter_cons_False by done.
  - change (<[S k := HandlerPanicked]> (h :: l)) with (h :: <[k := HandlerPanicked]> l).
    rewrite !filter_cons. by rewrite (IH k Hk).
Qed.

Lemma handle_trigger_counts a u u' :
  (installs u ≤ successes u ≤ attempts u)%nat → (attempts u ≠ O → built u = true) →
  handle_trigger a u = Ok u' →
  (installs u' ≤ successes u' ≤ attempts u' ∧ attempts u ≤ attempts u' ≤ S (attempts u))%nat ∧
  (attempts u' ≠ O → built u' = true).
Proof.
  intros Hc Hb. unfold handle_trigger. destruct (if built u then _ else _); [|by intros [= <-]; split; [lia|]|done..].
  destruct (a_scan a); [|intros [= <-]; cbn; split; [lia|done]|done..].
  destruct (a_update a); cbn; try done; intros [= <-]; cbn; (split; [lia|done]).
Qed.

Lemma checker_step_inv s s' : step s s' → inv s → inv s'.
Proof.
  intros [_ Hs] [Hcap Hcl Hctx Hrecv Hpan Hcnt Hbu Hsent].
  destruct Hs as [s Hd|s|s Ht|s Ht Hc Hb|s Ht Hd|s k Hk Hc Hb|s k Hk Hc|s n a u Hr Hb Hu|s n a e Hr Hb Hu|s Hr Hb Hc|s Hr Hd];
    split; cbn in *; try done; try lia; try tauto.
  - intros [Hin|Hin%list_elem_of_singleton]%elem_of_app; [auto|done].
  - by rewrite filter_app, filter_cons_False, filter_nil, app_nil_r by done.
  - rewrite Hcl, Ht. split; discriminate.
  - rewrite Hcl, Ht. split; discriminate.
  - intros [j [(_ & ? & _)|[_ Hj]]%list_lookup_insert_Some]%list_elem_of_lookup_1; [done|].
    apply Hpan. by eapply list_elem_of_lookup_2.
  - rewrite accepted_insert by done. lia.
  - by rewrite panicked_insert by done.
  - destruct (handle_trigger_counts a (ups s) u) as [? _]; [lia|done|done|lia].
  - by destruct (handle_trigger_counts a (ups s) u) as [_ ?]; [lia|done|done|].
Qed.

Lemma checker_reachable_inv s : rtc step start s → inv s.
Proof.
  apply (rtc_ind_r inv); [|eauto using checker_step_inv].
  split; cbn; try done; try lia. by intros Hin%elem_of_nil.
Qed.


(** Takes a step whose conditions are evaluated. *)
Tactic Notation "take_step" uconstr(t) :=
  eapply rtc_l; [apply step_act; [done|]; apply t; first [done | unfold capacity; cbn; lia]|].

Definition all_ok : answers := mkAnswers (Ok ()) (Ok ()) (Ok ()).


(** ** Where the code does something else *)

(** An update that fails is counted as a success. *)
Theorem failed_update_counts (u : updates) (e : error) :
  ∃ u', handle_trigger (mkAnswers (Ok ()) (Ok ()) (Err e)) u = Ok u' ∧
    successes u' = S (successes u) ∧ installs u' = installs u.
Proof. unfold handle_trigger. cbn. by destruct (built u); eexists. Qed.

(** When building the updater panics, as it does without a URL for the
    binaries, the process ends with the first trigger. *)
Theorem updater_panic_ends_process (e : error) :
  ∃ s, rtc step start s ∧ recv s = ReceiverPanicked ∧ ctx_done s = false ∧ ∀ s', ¬ step s s'.
Proof.
  eexists. split; [|split_and!].
  - take_step step_tick. take_step step_tick_send.
    take_step (step_receive_panic _ O (mkAnswers (Panic e) (Ok ()) (Ok ())) e). apply rtc_refl.
  - done.
  - done.
  - by intros s' [Hn _].
Qed.

(** A request that arrives when the channel has been closed panics. *)
Theorem late_request_panics :
  ∃ s, rtc step start s ∧ HandlerPanicked ∈ handlers s.
Proof.
  eexists. split.
  - take_step step_cancel. take_step step_tick_done.
    take_step step_request. take_step (step_handler_panic _ O). apply rtc_refl.
  - cbn. by left.
Qed.

(** The ticker can be left behind: once the updater is gone and the channel is
    full, it waits to send for ever and does not see that the context is
    done. *)
Definition left_behind (s : state) : Prop :=
  tick s = TickSending ∧ recv s = ReceiverDone ∧ buffered s = 1%nat.

Lemma left_behind_step s s' : left_behind s → step s s' → left_behind s'.
Proof. intros (Ht & Hr & Hb) [_ Hs]. destruct Hs; unfold left_behind, capacity in *; cbn; first [done|congruence|lia]. Qed.

Theorem ticker_leaks :
  ∃ s, rtc step start s ∧ ctx_done s = true ∧ ∀ s', rtc step s s' → tick s' = TickSending.
Proof.
  exists (mkState 1 false true TickSending ReceiverDone [] (mkUpdates false 0 0 0) 0). split_and!; [|done|].
  - take_step step_tick. take_step step_tick_send.
    take_step step_tick. take_step step_cancel.
    take_step step_receive_done. apply rtc_refl.
  - intros s' Hs. assert (left_behind s') as [Ht _]; [|done].
    revert s' Hs. apply rtc_ind_r; [done|]. eauto using left_behind_step.
Qed.
End UpdateChecker.
