(* ===== verification/Admin.v ===== *)
(** * The admin interface (trusted_applet/main.go: the server on port 8081)

    The mux that [runWithNetworking] sets up and its handlers.  A handler
    writes to a [ResponseWriter] of net/http, whose rules for status and
    headers are modelled: the first write sends the headers, with status 200
    if none was given, and headers set after that are not sent.  So are those
    of [http.ServeMux]: a path that is not clean is redirected to the clean one.
    What the OS answers to a call, and what [promhttp] writes, are parameters.
    The paths of requests are taken to be of bytes that are escaped neither in
    a URL nor in HTML, without a query. *)

From S2P Require Import Prelude Text.
Import Text.

Module Admin.

Abbreviation header := (string * string)%type.

Definition StatusOK : Z := 200.
Definition StatusMovedPermanently : Z := 301.
Definition StatusBadRequest : Z := 400.
Definition StatusNotFound : Z := 404.
Definition StatusInternalServerError : Z := 500.

(** ** Writing a response *)

Record writer := mkWriter {
  w_header : list header;                     (** [w.Header()] *)
  w_sent : option (Z * list header);          (** the status and headers sent *)
  w_body : bytes;
}.

Definition fresh_writer : writer := mkWriter [] None [].

(** What a handler does besides: calls of the OS and triggers of the update
    loop. *)
Inductive effect := Rpc (name : string) | TriggerUpdate.

Record hstate := mkH { h_w : writer; h_effects : list effect }.

Definition AddHeader (k v : string) : M hstate unit := λ s,
  (mkH (mkWriter (w_header (h_w s) ++ [(k, v)]) (w_sent (h_w s)) (w_body (h_w s))) (h_effects s), Ok ()).

Definition send_headers (status : Z) (w : writer) : writer :=
  match w_sent w with
  | Some _ => w
  | None => mkWriter (w_header w) (Some (status, w_header w)) (w_body w)
  end.

Definition WriteHeader (status : Z) : M hstate unit := λ s,
  (mkH (send_headers status (h_w s)) (h_effects s), Ok ()).

Definition Write (b : bytes) : M hstate unit := λ s,
  let w := send_headers StatusOK (h_w s) in
  (mkH (mkWriter (w_header w) (w_sent w) (w_body w ++ b)) (h_effects s), Ok ()).

(** ** Clean paths *)

Definition slash : byte := x2f.
Definition dot : bytes := [x2e].
Definition dotdot : bytes := [x2e; x2e].

(** The elements of a path between its slashes. *)
Fixpoint elements (p : bytes) : list bytes :=
  match p with
  | [] => [[]]
  | c :: p' =>
    if bool_decide (c = slash) then [] :: elements p'
    else match elements p' with e :: es => (c :: e) :: es | [] => [[c]] end
  end.

(** [path.Clean] of a path that begins with a slash: empty elements and dots
    are dropped, and two dots take the element before them away. *)
Definition clean_step (out : list bytes) (e : bytes) : list bytes :=
  if bool_decide (e = [] ∨ e = dot) then out
  else if bool_decide (e = dotdot) then removelast out
  else out ++ [e].

Definition clean_elements (es : list bytes) : list bytes := foldl clean_step [] es.

(** The elements, each after a slash. *)
Definition rooted (es : list bytes) : bytes := concat ((λ e, slash :: e) <$> es).

Definition path_Clean (p : bytes) : bytes :=
  match clean_elements (elements p) with [] => [slash] | es => rooted es end.

(** [cleanPath] of net/http: the slash at the end is kept. *)
Definition cleanPath (p : bytes) : bytes :=
  match p with
  | [] => [slash]
  | c :: _ =>
    let p := if bool_decide (c = slash) then p else slash :: p in
    let np := path_Clean p in
    if bool_decide (last p = Some slash) && negb (bool_decide (np = [slash])) then np ++ [slash] else np
  end.

Section Admin.
(** [syscall.Call] with a name, an error or what it returns; what [promhttp]
    writes; and how the status is printed. *)
Context (call : string → error + bytes) (promhttp : writer → writer) (Status_Print : bytes → bytes).

Definition Call (name : string) : M hstate (error + bytes) := λ s,
  (mkH (h_w s) (h_effects s ++ [Rpc name]), Ok (call name)).

Definition trigger : M hstate unit := λ s, (mkH (h_w s) (h_effects s ++ [TriggerUpdate]), Ok ()).

(** ** The handlers *)

(** [logHandler.ServeHTTP]. *)
Definition logHandler (RPC : string) : M hstate unit :=
  r ← Call RPC;
  match r with
  | inl _ => WriteHeader StatusInternalServerError
  | inr l => _ ← AddHeader "Content-Type" "text/plain"; Write l
  end.

Definition updatecheck : M hstate unit :=
  _ ← trigger;
  _ ← AddHeader "Content-Type" "text/plain";
  Write (str "ok, check /consolelog!").

Definition status : M hstate unit :=
  r ← Call "RPC.Status";
  match r with
  | inl e =>
    _ ← AddHeader "Content-Type" "text/plain";
    _ ← WriteHeader StatusInternalServerError;
    Write (str e)
  | inr s => _ ← AddHeader "Content-Type" "text/plain"; Write (Status_Print s)
  end.

(** [promhttp.Handler], which serves the metrics of the process. *)
Definition metrics : M hstate unit := λ s, (mkH (promhttp (h_w s)) (h_effects s), Ok ()).

(** [http.NotFound]. *)
Definition notFound : M hstate unit :=
  _ ← AddHeader "Content-Type" "text/plain; charset=utf-8";
  _ ← AddHeader "X-Content-Type-Options" "nosniff";
  _ ← WriteHeader StatusNotFound;
  Write (str "404 page not found" ++ [x0a]).

(** [http.RedirectHandler]; the page with the link is only for GET.  The
    percent-encoding of the location, the escapes of the page and a query,
    which is kept, are left out. *)
Definition moved_page (url : bytes) : bytes :=
  str "<a href=" ++ [x22] ++ url ++ [x22] ++ str ">Moved Permanently</a>." ++ [x0a; x0a].

Definition redirect (method : string) (url : bytes) : M hstate unit :=
  _ ← AddHeader "Location" (String.string_of_list_byte url);
  _ ← (if bool_decide (method = "GET" ∨ method = "HEAD")
       then AddHeader "Content-Type" "text/html; charset=utf-8" else mret ());
  _ ← WriteHeader StatusMovedPermanently;
  if bool_decide (method = "GET") then Write (moved_page url) else mret ().

(** The patterns registered, and their handlers. *)
Definition routes : list (bytes * M hstate unit) :=
  [(str "/metrics", metrics); (str "/crashlog", logHandler "RPC.CrashLog");
   (str "/consolelog", logHandler "RPC.ConsoleLog"); (str "/updatecheck", updatecheck); (str "/status", status)].

(** Every pattern is one path. *)
Fixpoint lookup_route (rs : list (bytes * M hstate unit)) (path : bytes) : M hstate unit :=
  match rs with
  | [] => notFound
  | (p, h) :: rs' => if bool_decide (path = p) then h else lookup_route rs' path
  end.

(** [ServeMux.ServeHTTP]. *)
Definition srvMux (method : string) (path : bytes) : M hstate unit :=
  if bool_decide (path = str "*") then
    _ ← AddHeader "Connection" "close"; WriteHeader StatusBadRequest
  else if negb (bool_decide (method = "CONNECT")) && negb (bool_decide (cleanPath path = path)) then
    redirect method (cleanPath path)
  else lookup_route routes path.

(** The response of a handler: status, headers, body; one that writes nothing
    sends status 200. *)
Definition respond (m : M hstate unit) : list effect * Z * list header * bytes :=
  let s := (m (mkH fresh_writer [])).1 in
  match w_sent (send_headers StatusOK (h_w s)) with
  | Some (st, hs) => (h_effects s, st, hs, w_body (h_w s))
  | None => (h_effects s, StatusOK, [], w_body (h_w s))
  end.

(** The response to a request. *)
Definition serve (method : string) (path : bytes) : list effect * Z * list header * bytes :=
  respond (srvMux method path).
End Admin.

(** ** Clean paths stay clean *)

(** An element that [path.Clean] keeps. *)
Definition plain (e : bytes) : Prop := (slash ∉ e) ∧ e ≠ [] ∧ e ≠ dot ∧ e ≠ dotdot.

Lemma elements_no_slash p : Forall (λ e, slash ∉ e) (elements p).
Proof.
  induction p as [|c p IH]; cbn; [constructor; [by intros ?%elem_of_nil|constructor]|].
  case_bool_decide as Hc; [by constructor; [intros ?%elem_of_nil|]|].
  destruct (elements p) as [|e es]; [by repeat constructor; intros [?|?%elem_of_nil]%elem_of_cons|].
  apply Forall_cons in IH as [He Hes]. constructor; [|done]. by intros [?|?]%elem_of_cons.
Qed.

Lemma clean_step_plain out e : slash ∉ e → Forall plain out → Forall plain (clean_step out e).
Proof.
  intros He Hout. unfold clean_step. case_bool_decide; [done|]. case_bool_decide.
  - destruct out as [|x out] using rev_ind; [done|]. rewrite removelast_last. by apply Forall_app in Hout as [? _].
  - apply Forall_app. split; [done|]. repeat constructor; [done|naive_solver..].
Qed.

Lemma clean_elements_plain es : Forall (λ e, slash ∉ e) es → Forall plain (clean_elements es).
Proof.
  unfold clean_elements. intros Hes. assert (Forall plain []) as Hnil by constructor. revert Hnil. generalize (@nil bytes).
  induction Hes as [|e es He _ IH]; intros out Hout; [done|]. cbn. apply IH. by apply clean_step_plain.
Qed.

(** Plain elements are left as they are. *)
Lemma clean_plain es : Forall plain es → clean_elements es = es.
Proof.
  unfold clean_elements. intros Hes. rewrite <-(app_nil_l es) at 2. generalize (@nil bytes).
  induction Hes as [|e es (_ & H1 & H2 & H3) _ IH]; intros out; cbn; [by rewrite app_nil_r|].
  unfold clean_step at 2. rewrite !bool_decide_false by (intros H0; destruct_or?; done). rewrite IH. by rewrite <-app_assoc.
Qed.

Lemma elements_app e p : slash ∉ e → elements (e ++ slash :: p) = e :: elements p.
Proof.
  induction e as [|c e IH]; intros Hs; [done|]. apply not_elem_of_cons in Hs as [Hc He].
  cbn [app elements]. rewrite bool_decide_false by done. by rewrite IH.
Qed.

Lemma elements_plain e : slash ∉ e → elements e = [e].
Proof.
  induction e as [|c e IH]; intros Hs; [done|]. apply not_elem_of_cons in Hs as [Hc He].
  cbn [elements]. rewrite bool_decide_false by done. by rewrite IH.
Qed.

(** Reading a clean path. *)
Lemma elements_rooted es tl : Forall plain es → tl = [] ∨ tl = [slash] → es ≠ [] →
  clean_elements (elements (rooted es ++ tl)) = es.
Proof.
  intros Hes Htl Hne.
  assert (∀ es, Forall plain es → es ≠ [] →
    elements (rooted es ++ tl) = [] :: es ∨ elements (rooted es ++ tl) = [] :: es ++ [[]]) as He.
  { clear es Hes Hne. intros es Hes. induction Hes as [|e es Hp Hes IH]; intros Hne; [done|].
    change (rooted (e :: es)) with (slash :: e ++ rooted es). cbn [app elements]. rewrite bool_decide_true by done.
    destruct es as [|e' es].
    - unfold rooted. cbn [fmap list_fmap concat]. rewrite app_nil_r. destruct Htl as [->| ->].
      + rewrite app_nil_r, elements_plain by apply Hp. by left.
      + rewrite elements_app by apply Hp. by right.
    - rewrite <-app_assoc. change (rooted (e' :: es) ++ tl) with (slash :: (e' ++ rooted es) ++ tl).
      rewrite elements_app by apply Hp. specialize (IH ltac:(done)).
      change (rooted (e' :: es) ++ tl) with (slash :: (e' ++ rooted es) ++ tl) in IH. cbn [elements] in IH.
      rewrite bool_decide_true in IH by done.
      destruct IH as [IH|IH]; injection IH as ->; [by left|by right]. }
  destruct (He es Hes Hne) as [->| ->]; unfold clean_elements; cbn [foldl].
  - change (clean_step [] []) with (@nil bytes). by apply clean_plain.
  - change (clean_step [] []) with (@nil bytes). rewrite foldl_app. fold (clean_elements es).
    by rewrite clean_plain.
Qed.

Lemma last_rooted es tl : Forall plain es → tl = [] ∨ tl = [slash] → es ≠ [] →
  last (rooted es ++ tl) = Some slash ↔ tl = [slash].
Proof.
  intros Hes Htl Hne. destruct Htl as [->| ->]; [|by rewrite last_snoc]. rewrite app_nil_r. split; [|done].
  destruct es as [|e es _] using rev_ind; [done|]. apply Forall_app in Hes as [_ Hp].
  apply Forall_singleton in Hp as (Hs & Hn & _). unfold rooted. rewrite fmap_app, concat_app. cbn. rewrite app_nil_r.
  destruct e as [|x e _] using rev_ind; [done|].
  rewrite (app_comm_cons e [x] slash), app_assoc, last_snoc. intros [= ->]. exfalso. apply Hs.
  apply elem_of_app. right. by left.
Qed.

(** The redirection ends: a cleaned path is clean. *)
Lemma cleanPath_clean p : cleanPath (cleanPath p) = cleanPath p.
Proof.
  assert (cleanPath p = [slash] ∨ ∃ es tl, cleanPath p = rooted es ++ tl ∧ Forall plain es ∧
    (tl = [] ∨ tl = [slash]) ∧ es ≠ []) as [->|(es & tl & -> & Hes & Htl & Hne)]; [|by vm_compute|].
  { destruct p as [|c p]; [by left|]. unfold cleanPath. set (p' := if bool_decide (c = slash) then _ else _).
    unfold path_Clean. pose proof (clean_elements_plain _ (elements_no_slash p')) as Hpl.
    destruct (clean_elements (elements p')) as [|e es] eqn:E.
    - left. by rewrite (bool_decide_true ([slash] = [slash])), andb_false_r by done.
    - right. exists (e :: es). case_match; [exists [slash]|exists []]; rewrite ?app_nil_r; auto. }
  assert (∃ q, rooted es ++ tl = slash :: q) as [q Hq] by (destruct es; [done|by eexists]).
  assert (cleanPath (rooted es ++ tl) = let np := path_Clean (rooted es ++ tl) in
    if bool_decide (last (rooted es ++ tl) = Some slash) && negb (bool_decide (np = [slash])) then np ++ [slash] else np)
    as -> by (rewrite Hq; unfold cleanPath; by rewrite (bool_decide_true (slash = slash))).
  unfold path_Clean. cbn zeta. rewrite (elements_rooted es tl Hes Htl Hne). pose proof (last_rooted es tl Hes Htl Hne) as Hl.
  destruct es as [|e es]; [done|].
  assert (rooted (e :: es) ≠ [slash]) as Hr.
  { apply Forall_cons in Hes as [(_ & He & _) _]. change (rooted (e :: es)) with (slash :: e ++ rooted es). by destruct e. }
  rewrite (bool_decide_false (rooted (e :: es) = [slash])) by done. rewrite andb_true_r.
  case_bool_decide as Hb; [apply Hl in Hb; by subst|].
  destruct Htl as [->| ->]; [by rewrite app_nil_r|]. by destruct Hb; apply Hl.
Qed.

(** ** What it can do *)

Section Served.
Context (call : string → error + bytes) (promhttp : writer → writer) (Status_Print : bytes → bytes).

Abbreviation serve := (serve call promhttp Status_Print).

Definition text_plain : list header := [("Content-Type", "text/plain")].
Definition not_found : list effect * Z * list header * bytes :=
  ([], 404, [("Content-Type", "text/plain; charset=utf-8"); ("X-Content-Type-Options", "nosniff")],
   str "404 page not found" ++ [x0a]).

(** What the paths of the interface answer. *)
Record answers_paths (method : string) : Prop := {
  ap_metrics : (serve method (str "/metrics")).1.1.1 = [];
  ap_crashlog : serve method (str "/crashlog") =
    match call "RPC.CrashLog" with
    | inr l => ([Rpc "RPC.CrashLog"], 200, text_plain, l) | inl _ => ([Rpc "RPC.CrashLog"], 500, [], []) end;
  ap_consolelog : serve method (str "/consolelog") =
    match call "RPC.ConsoleLog" with
    | inr l => ([Rpc "RPC.ConsoleLog"], 200, text_plain, l) | inl _ => ([Rpc "RPC.ConsoleLog"], 500, [], []) end;
  ap_status : serve method (str "/status") =
    match call "RPC.Status" with
    | inr s => ([Rpc "RPC.Status"], 200, text_plain, Status_Print s)
    | inl e => ([Rpc "RPC.Status"], 500, text_plain, str e) end;
  ap_updatecheck : serve method (str "/updatecheck") =
    ([TriggerUpdate], 200, text_plain, str "ok, check /consolelog!");
  ap_other path :
    path ∉ [str "/metrics"; str "/crashlog"; str "/consolelog"; str "/status"; str "/updatecheck"] →
    path ≠ str "*" → cleanPath path = path ∨ method = "CONNECT" → serve method path = not_found;
}.

(** The paths with a handler are clean. *)
Lemma serve_route method path :
  path ≠ str "*" → cleanPath path = path ∨ method = "CONNECT" →
  serve method path = respond (lookup_route (routes call promhttp Status_Print) path).
Proof.
  intros Hs Hc. unfold Admin.serve, srvMux. rewrite (bool_decide_false (path = str "*")) by done.
  destruct Hc as [Hc|Hc].
  - by rewrite (bool_decide_true (cleanPath path = path)), andb_false_r by done.
  - by rewrite (bool_decide_true (method = "CONNECT")) by done.
Qed.

Lemma paths_answered method : answers_paths method.
Proof.
  assert (∀ path, path ∈ [str "/metrics"; str "/crashlog"; str "/consolelog"; str "/status"; str "/updatecheck"] →
    serve method path = respond (lookup_route (routes call promhttp Status_Print) path)) as Hr.
  { intros path Hp. rewrite !elem_of_cons, elem_of_nil in Hp.
    apply serve_route; [destruct_or!; subst; done|]. left. by destruct_or!; subst; vm_compute. }
  split.
  - rewrite Hr by (by left). unfold respond. cbn. by destruct (w_sent _) as [[]|].
  - rewrite Hr by (by right; left). cbn. unfold respond, logHandler, Call, mbind, M_bind. cbn.
    by destruct (call "RPC.CrashLog").
  - rewrite Hr by (by do 2 right; left). cbn. unfold respond, logHandler, Call, mbind, M_bind. cbn.
    by destruct (call "RPC.ConsoleLog").
  - rewrite Hr by (by do 3 right; left). cbn. unfold respond, status, Call, mbind, M_bind. cbn.
    by destruct (call "RPC.Status").
  - rewrite Hr by (by do 4 right; left). done.
  - intros path Hp Hs Hc. rewrite serve_route by done. rewrite !not_elem_of_cons in Hp.
    destruct Hp as (H1 & H2 & H3 & H4 & H5 & _). cbn [lookup_route routes]. by rewrite !bool_decide_false by done.
Qed.

(** The answer to a path that is not clean. *)
Lemma unclean_redirected method path :
  path ≠ str "*" → cleanPath path ≠ path → method ≠ "CONNECT" →
  let '(effects, st, headers, body) := serve method path in
  effects = [] ∧ st = 301 ∧ ("Location", String.string_of_list_byte (cleanPath path)) ∈ headers.
Proof.
  intros Hs Hc Hm. unfold Admin.serve, srvMux. rewrite (bool_decide_false (path = str "*")) by done.
  rewrite (bool_decide_false (method = "CONNECT")), (bool_decide_false (cleanPath path = path)) by done. cbn [negb andb].
  unfold redirect, respond, mbind, M_bind. cbn. do 2 case_bool_decide; cbn; (split_and!; [done|done|by left]).
Qed.

End Served.

(** A device whose crash log cannot be fetched. *)
Definition demo_os (name : string) : error + bytes :=
  if String.eqb name "RPC.CrashLog" then inl "no crash log" else inr (str "log").

Example demo_requests :
  (λ p, let '(_, st, _, body) := serve demo_os id id "GET" (str p) in (st, body)) <$>
    ["/crashlog"; "/consolelog"; "/updatecheck"; "/secret"; "/a/.././/status"; "*"] =
  [(500, []); (200, str "log"); (200, str "ok, check /consolelog!"); (404, str "404 page not found" ++ [x0a]);
   (301, moved_page (str "/status")); (400, [])].
Proof. by vm_compute. Qed.
End Admin.
