(* ===== verification/Boot.v ===== *)
(** * Boot and the witness's life (trusted_applet/main.go, net.go: [runNTP])

    [main] brings the applet up; [runWithNetworking] runs the witness while
    there is an address; [runNTP] sets the clock.  What the OS, the network
    and the libraries answer is a record; what the code does to the outside is
    the list of its actions, in order. *)

From S2P Require Import Prelude Text Hostname.
Import Text Hostname.

Module Boot.

Definition second : Z := 1000000000.

(** ** Time *)

(** What happens in one turn of the loop of [runNTP]. *)
Inductive ntp_turn := NtpCtxDone | LookupFailed | QueryFailed | InvalidTime | GotTime (t : Z).

Record ntp := mkNtp {
  interval : Z;
  signal : bool;           (** [r != nil] *)
  closes : nat;            (** how often the channel has been closed *)
  set_times : list Z;      (** calls of [SetTime] *)
}.

(** A turn; [None] when the goroutine returns. *)
Definition ntp_step (t : ntp_turn) (s : ntp) : option ntp :=
  match t with
  | NtpCtxDone => None
  | LookupFailed | QueryFailed | InvalidTime => Some s
  | GotTime t =>
    let s := mkNtp (3600 * second) (signal s) (closes s) (set_times s ++ [t]) in
    Some (if signal s then mkNtp (interval s) false (S (closes s)) (set_times s) else s)
  end.

Fixpoint ntp_loop (ts : list ntp_turn) (s : ntp) : ntp :=
  match ts with
  | [] => s
  | t :: ts' => match ntp_step t s with Some s' => ntp_loop ts' s' | None => s end
  end.

Definition ntp_start : ntp := mkNtp (10 * second) true 0 [].

(** [runNTP]: without a server there is no goroutine, and the channel is nil. *)
Definition runNTP (server : bytes) (ts : list ntp_turn) : option ntp :=
  match server with [] => None | _ => Some (ntp_loop ts ntp_start) end.

(** ** The witness *)

(** [omniwitness.OperatorConfig]: what the witness is given; intervals in
    seconds, limits in requests per ten seconds. *)
Record OperatorConfig := mkOperator {
  WitnessKeys : list bytes;
  RestDistributorBaseURL : bytes;
  FeedInterval : Z;
  DistributeInterval : Z;
  DistributeRateLimit : Z;
  BastionAddr : bytes;
  BastionKey : option bytes;
  RateLimit : Z;
}.

Inductive action :=
  | SetWitnessStatus (ip : option bytes)
  | Sleep
  | StartUpdateChecker
  | Open (port : Z)
  | Close (port : Z)
  | Serve (port : Z)
  | StartWitness (c : OperatorConfig).

(** How a function ends: it returns, the process exits, or it waits for ever. *)
Inductive ending := Returned (e : option error) | Exited | Blocks.

Definition Canceled : error := "context canceled".

Record world := mkWorld {
  main_address : res bytes;           (** [GetMainNICAddress] *)
  cold_start : bool;                  (** the clock is before 2024 *)
  NTPServer : bytes;
  ntp_ready : option Z;               (** when [runNTP] closes its channel, if it does *)
  ctx_ready : option Z;               (** when the context is done, if it is *)
  prefer_ntp : bool;                  (** what [select] takes if both are ready *)
  listen_admin : res unit;
  new_signer : res bytes;             (** the signer made of the witness's key *)
  distributor_url : bytes;            (** [RestDistributorBaseURL] *)
  bastion_addr : bytes;               (** [BastionAddr] *)
  bastion_key : bytes;                (** [bastionSigningKey] *)
  listen_main : res unit;
  omniwitness_Main : res unit;
  ctx_err : option error;             (** [ctx.Err()] at the end *)
}.

Inductive selected := NtpFirst | CtxFirst | Never.

(** The [select] of the NTP channel and the context: a nil channel is never
    ready. *)
Definition select_ntp (w : world) : selected :=
  match (match NTPServer w with [] => None | _ => ntp_ready w end), ctx_ready w with
  | Some a, Some b => if a <? b then NtpFirst else if b <? a then CtxFirst
                      else if prefer_ntp w then NtpFirst else CtxFirst
  | Some _, None => NtpFirst
  | None, Some _ => CtxFirst
  | None, None => Never
  end.

Definition rateLimit : Z := 300.

(** The configuration of the witness; the bastion's part only if there is one. *)
Definition operator_config (w : world) (signer : bytes) : OperatorConfig :=
  let c := mkOperator [signer] (distributor_url w) 30 30 1 [] None 0 in
  match bastion_addr w with
  | [] => c
  | a => mkOperator (WitnessKeys c) (RestDistributorBaseURL c) (FeedInterval c) (DistributeInterval c)
           (DistributeRateLimit c) a (Some (bastion_key w)) rateLimit
  end.

Definition runWithNetworking (w : world) : list action * ending :=
  match main_address w with
  | Ok addr =>
    let t := [SetWitnessStatus (Some addr)] in
    match select_ntp w with
    | Never => (t, Blocks)
    | CtxFirst => (t, Returned (Some Canceled))
    | NtpFirst =>
      if cold_start w then (t ++ [Sleep], Returned None)
      else
        let t := t ++ [StartUpdateChecker] in
        match listen_admin w with
        | Ok _ =>
          let t := t ++ [Open 8081; Serve 8081] in
          match new_signer w with
          | Ok signer =>
            match listen_main w with
            | Ok _ =>
              let t := t ++ [Open 80; StartWitness (operator_config w signer)] in
              let r := match omniwitness_Main w with
                       | Ok _ => ctx_err w | _ => Some "omniwitness.Main failed"%string end in
              (t ++ [Close 80; Close 8081], Returned r)
            | _ => (t ++ [Close 8081], Returned (Some "could not initialize HTTP listener"%string))
            end
          | _ => (t, Exited)
          end
        | _ => (t, Returned (Some "TA could not initialize admin listener"%string))
        end
    end
  | _ => ([], Returned (Some "runWithNetworking has no network configured"%string))
  end.

(** The loop of [main] without DHCP: it runs the function again whenever it
    returns, and ends only with the process. *)
Fixpoint static_loop (ws : list world) : list action * ending :=
  match ws with
  | [] => ([], Blocks)
  | w :: ws' =>
    match runWithNetworking w with
    | (t, Returned _) => let '(t', e) := static_loop ws' in (t ++ t', e)
    | r => r
    end
  end.

(** ** Boot *)

(** [api.Configuration] and the settings of the applet. *)
Record Configuration := mkConfiguration {
  cfg_DHCP : bool;
  cfg_IP : bytes;
  cfg_Netmask : bytes;
  cfg_Gateway : bytes;
  cfg_Resolver : bytes;
  cfg_NTPServer : bytes;
}.

Definition default_config : Configuration :=
  mkConfiguration true (str "10.0.0.1") (str "255.255.255.0") (str "10.0.0.2") (str "8.8.8.8:53")
    (str "time.google.com").

(** The counters registered, once per process. *)
Record metrics := mkMetrics { doOnce : bool; counters : list string }.

Definition initMetrics (m : metrics) : metrics :=
  if doOnce m then m
  else mkMetrics true (counters m ++ ["witness_started"; "firmware_update_attempt"; "firmware_update_success"]).

Inductive boot_step :=
  | InitMetrics | CheckVersion (v : bytes) | SendConfig (c : Configuration) | GetStatus | LedOn | DeriveKeys | PublishIdentity | Blink
  | StartNetworking (c : Configuration) | SendAddress | StartHandler | OpenStorage | InitPersistence
  | RunDHCP (clientID hostname : bytes) | RunStatic.

(** The answers to the steps of [main]. *)
Record boot_world := mkBoot {
  b_Version : bytes;                  (** the version of the applet *)
  b_version : res unit;               (** the rollback check of the OS *)
  b_config : res bytes;               (** the configuration returned by the OS *)
  b_unmarshal : bytes → res Configuration;
  b_status : res bytes;               (** the serial number *)
  b_keys : res unit;
  b_networking : Configuration → res unit;
  b_storage : res unit;
  b_persistence : res unit;
  b_verifier_name : res bytes;        (** the name in the witness's public key *)
}.

Definition do_step (s : boot_step) : M (list boot_step) unit := λ t, (t ++ [s], Ok ()).

(** [strings.TrimPrefix(Version, "v")]. *)
Definition trim_v (v : bytes) : bytes := match v with c :: v' => if bool_decide (c = x76) then v' else v | [] => [] end.

(** The configuration in use after the answer of the OS: an error is only
    logged, and an answer replaces all settings. *)
Definition effective_config (b : boot_world) : res Configuration :=
  let cfgResp := match b_config b with Ok r => r | _ => [] end in
  if 0 <? len cfgResp then b_unmarshal b cfgResp else Ok default_config.

(** [main]: every failure but that of sending the configuration is fatal. *)
Definition main (b : boot_world) : M (list boot_step) unit :=
  _ ← do_step InitMetrics;
  _ ← do_step (CheckVersion (trim_v (b_Version b)));
  _ ← lift (b_version b);
  _ ← do_step (SendConfig default_config);
  cfg ← lift (effective_config b);
  _ ← do_step GetStatus;
  serial ← lift (b_status b);
  _ ← do_step LedOn;
  _ ← do_step DeriveKeys;
  _ ← lift (b_keys b);
  _ ← do_step PublishIdentity;
  _ ← do_step Blink;
  _ ← do_step (StartNetworking cfg);
  _ ← lift (b_networking b cfg);
  _ ← do_step SendAddress;
  _ ← do_step StartHandler;
  _ ← do_step OpenStorage;
  _ ← lift (b_storage b);
  _ ← do_step InitPersistence;
  _ ← lift (b_persistence b);
  if cfg_DHCP cfg then
    let hostname := match b_verifier_name b with Ok n => cleanForDNS n | _ => str "armoredwitness" end in
    do_step (RunDHCP (str "AW-" ++ serial) hostname)
  else do_step RunStatic.
End Boot.
