(* ===== verification/BootProps.v ===== *)
(** * Properties of boot and of the witness's life *)

From S2P Require Import Prelude Text Hostname Boot.
Import Text Hostname Boot.

Module BootProps.

(** ** Time *)

(** The times received before the context is done. *)
Fixpoint got (ts : list ntp_turn) : list Z :=
  match ts with
  | [] | NtpCtxDone :: _ => []
  | GotTime t :: ts' => t :: got ts'
  | _ :: ts' => got ts'
  end.

Lemma ntp_loop_after ts s :
  signal s = false → interval s = 3600 * second →
  ntp_loop ts s = mkNtp (3600 * second) false (closes s) (set_times s ++ got ts).
Proof.
  revert s. induction ts as [|t ts IH]; intros [i sg c st] Hs Hi; cbn in Hs, Hi; subst.
  { cbn. by rewrite app_nil_r. }
  destruct t; cbn [ntp_loop ntp_step got signal interval closes set_times];
    [by rewrite app_nil_r|rewrite IH by done; cbn..]; try done. by rewrite <-app_assoc.
Qed.

(** The clock is set to every time that the server gives before the
    context is done, in order; the channel that says so is closed exactly
    once, with the first of them, so that nothing is closed twice; from then
    on the server is asked every hour instead of every ten seconds. *)
Theorem ntp_signals_once (server : bytes) (ts : list ntp_turn) :
  server ≠ [] →
  runNTP server ts =
    Some (match got ts with
          | [] => mkNtp (10 * second) true 0 []
          | times => mkNtp (3600 * second) false 1 times
          end).
Proof.
  intros Hs. destruct server as [|c server]; [done|]. cbn [runNTP]. f_equal.
  induction ts as [|t ts IH]; [done|].
  destruct t; cbn [ntp_loop ntp_step got]; [done|exact IH..|]. by rewrite ntp_loop_after.
Qed.

Lemma ntp_signals_once_witness :
  runNTP (str "time.google.com") [LookupFailed; GotTime 5; InvalidTime; GotTime 7; NtpCtxDone; GotTime 9]
  = Some (mkNtp (3600 * second) false 1 [5; 7]).
Proof. by apply (ntp_signals_once (str "time.google.com")
         [LookupFailed; GotTime 5; InvalidTime; GotTime 7; NtpCtxDone; GotTime 9]). Defined.

(** ** The witness *)

Definition opened (t : list action) : list Z := omap (λ a, match a with Open p => Some p | _ => None end) t.
Definition closed (t : list action) : list Z := omap (λ a, match a with Close p => Some p | _ => None end) t.

(** A witness that starts somewhere in a trace starts at one of its actions. *)
Definition starts_witness (a : action) : bool := match a with StartWitness _ => true | _ => false end.

Lemma witness_position t t1 c t2 : t = t1 ++ StartWitness c :: t2 → existsb starts_witness t = true.
Proof. intros ->. rewrite existsb_app. cbn. by rewrite orb_true_r. Qed.

(** Case analysis on the answers of the world. *)
Ltac run_cases :=
  unfold runWithNetworking;
  repeat match goal with
  | |- context [match main_address ?w with _ => _ end] => destruct (main_address w) eqn:?
  | |- context [match select_ntp ?w with _ => _ end] => destruct (select_ntp w) eqn:?
  | |- context [if cold_start ?w then _ else _] => destruct (cold_start w) eqn:?
  | |- context [match listen_admin ?w with _ => _ end] => destruct (listen_admin w)
  | |- context [match new_signer ?w with _ => _ end] => destruct (new_signer w) as [signer| | |]
  | |- context [match listen_main ?w with _ => _ end] => destruct (listen_main w)
  end.

Lemma select_ntp_first w : select_ntp w = NtpFirst → NTPServer w ≠ [] ∧ ∃ a, ntp_ready w = Some a ∧
  ∀ b, ctx_ready w = Some b → a ≤ b.
Proof.
  unfold select_ntp. destruct (NTPServer w) as [|c r]; [by destruct (ctx_ready w)|].
  destruct (ntp_ready w) as [a|]; [|by destruct (ctx_ready w)]. intros H. split; [done|]. exists a. split; [done|].
  intros b Hb. rewrite Hb in H. destruct (a <? b) eqn:E1; [bool_prop; lia|].
  destruct (b <? a) eqn:E2; [done|]. bool_prop. lia.
Qed.

(** C24 The witness starts only after the clock has been set over NTP, with the
    context not done before, and not in the run that first sets the clock
    after a cold start.  At the point where it starts, port 8081 and then port
    80 have been opened and nothing has been closed, so both listeners are
    open; after it the two are closed in reverse order, and nothing else
    happens.  It is given the device's own signer and nothing else to sign
    with, and the key for the bastion only together with a bastion's address.
    Whenever the function returns, the listeners it has opened have been
    closed, in reverse order.  It exits only if the signing key is unusable. *)
Theorem witness_guarded (w : world) :
  let '(t, e) := runWithNetworking w in
  (∀ t1 c t2, t = t1 ++ StartWitness c :: t2 →
     (NTPServer w ≠ [] ∧ ∃ a, ntp_ready w = Some a ∧ ∀ b, ctx_ready w = Some b → a ≤ b) ∧
     cold_start w = false ∧ opened t1 = [8081; 80] ∧ closed t1 = [] ∧ t2 = [Close 80; Close 8081] ∧
     (∃ s, new_signer w = Ok s ∧ WitnessKeys c = [s]) ∧
     (BastionKey c = None ↔ BastionAddr c = []) ∧ BastionAddr c = bastion_addr w ∧
     (bastion_addr w ≠ [] → BastionKey c = Some (bastion_key w))) ∧
  (∀ r, e = Returned r → closed t = reverse (opened t)) ∧
  (e = Exited → ¬ is_ok (new_signer w)).
Proof.
  pose proof (select_ntp_first w) as Hsel.
  run_cases; (split_and!; [|by intros ? ?|first [done | by intros _ []]]);
    cbn [app]; intros t1 c t2 Ht; try (by apply witness_position in Ht; cbn in Ht; destruct_or?).
  assert (t1 = [SetWitnessStatus (Some a); StartUpdateChecker; Open 8081; Serve 8081; Open 80] ∧
          c = operator_config w signer ∧ t2 = [Close 80; Close 8081]) as (-> & -> & ->).
  { do 5 (destruct t1 as [|? t1]; [done|]; injection Ht as <- Ht).
    destruct t1 as [|? t1]; [by injection Ht as <- <-|]. injection Ht as <- Ht.
    do 2 (destruct t1 as [|? t1]; [done|]; injection Ht as <- Ht). by destruct t1. }
  destruct (Hsel eq_refl) as [? ?]. unfold operator_config. destruct (bastion_addr w); split_and!; try done; by eexists.
Qed.

(** Without an NTP server the witness never starts: the nil channel that
    stands for a disabled NTP is waited for. *)
Theorem ntp_disabled_never_starts (w : world) :
  NTPServer w = [] → ∀ c, StartWitness c ∉ (runWithNetworking w).1.
Proof.
  intros Hn c. assert (select_ntp w ≠ NtpFirst) as Hs by (intros [? _]%select_ntp_first; done).
  run_cases; try done; cbn; rewrite ?elem_of_cons, ?elem_of_nil; by intros ?; destruct_or?.
Qed.

(** When the context is already done, and the clock has not been set yet, the
    function returns the error that ends the loop of [runDHCP]. *)
Lemma cancelled_returns w addr a :
  main_address w = Ok addr → ctx_ready w = Some 0 → ntp_ready w = Some a → 10 * second ≤ a →
  (runWithNetworking w).2 = Returned (Some Canceled).
Proof.
  intros Hm Hc Hn Ha. unfold runWithNetworking, select_ntp. rewrite Hm, Hc, Hn.
  assert (second = 1000000000) as Es by done.
  destruct (NTPServer w); [done|]. rewrite (proj2 (Z.ltb_ge _ _)), (proj2 (Z.ltb_lt _ _)) by lia. done.
Qed.

(** ** Boot *)

(** The configuration that a boot is to use: the one in the OS's answer, if the
    OS gives one that is not empty, and the default one otherwise. *)
Definition config_answer (b : boot_world) : option bytes :=
  match b_config b with Ok (x :: r) => Some (x :: r) | _ => None end.

Definition void {A} (r : res A) : res unit :=
  match r with Ok _ => Ok () | Err e => Err e | Panic e => Panic e | NoFuel => NoFuel end.

Definition config_check (b : boot_world) : res unit :=
  match config_answer b with Some resp => void (b_unmarshal b resp) | None => Ok () end.

Definition config_used (b : boot_world) (c : Configuration) : Prop :=
  match config_answer b with
  | Some resp => ∀ c', b_unmarshal b resp = Ok c' → c = c'
  | None => c = default_config
  end.

(** The steps of a boot up to the use of the network for the witness. *)
Definition boot_sequence (b : boot_world) (c : Configuration) : list boot_step :=
  [InitMetrics; CheckVersion (trim_v (b_Version b)); SendConfig default_config; GetStatus; LedOn; DeriveKeys;
   PublishIdentity; Blink; StartNetworking c; SendAddress; StartHandler; OpenStorage; InitPersistence].

(** The checks on the way, each with the number of steps that have been taken
    when it is made. *)
Definition checks (b : boot_world) (c : Configuration) : list (nat * res unit) :=
  [(2, b_version b); (3, config_check b); (4, void (b_status b)); (6, b_keys b); (9, b_networking b c);
   (12, b_storage b); (13, b_persistence b)]%nat.

Definition failed (x : nat * res unit) : Prop := is_ok x.2 = false.

#[export] Instance failed_dec x : Decision (failed x).
Proof. unfold failed. apply _. Defined.

(** The first check that fails. *)
Fixpoint first_failure (cs : list (nat * res unit)) : option (nat * res unit) :=
  match cs with
  | [] => None
  | x :: cs' => if decide (failed x) then Some x else first_failure cs'
  end.

Lemma first_failure_None cs x : first_failure cs = None → x ∈ cs → is_ok x.2 = true.
Proof.
  induction cs as [|y cs IH]; [by intros _ ?%elem_of_nil|]. cbn. case_decide as Hy; [done|].
  intros Hn [->|Hx]%elem_of_cons; [|by apply IH]. unfold failed in Hy. by destruct (is_ok y.2).
Qed.

Lemma first_failure_Some cs x : first_failure cs = Some x → is_ok x.2 = false.
Proof. induction cs as [|y cs IH]; [done|]. cbn. case_decide as Hy; [by intros [= <-]|done]. Qed.

(** The last step, that uses the network for the witness. *)
Definition last_step (b : boot_world) (c : Configuration) (s : boot_step) : Prop :=
  if cfg_DHCP c then
    ∃ serial h, b_status b = Ok serial ∧ s = RunDHCP (str "AW-" ++ serial) h ∧ Forall dns_byte h ∧
      match b_verifier_name b with Ok n => h = cleanForDNS n | _ => h = str "armoredwitness" end
  else s = RunStatic.

Lemma effective_config_cases b :
  match effective_config b with
  | Ok c => config_check b = Ok () ∧ config_used b c
  | x => config_check b = void x
  end.
Proof.
  unfold effective_config, config_check, config_used, config_answer. destruct (b_config b) as [[|x r]| | |]; try done.
  assert ((0 <? len (x :: r)) = true) as -> by (apply Z.ltb_lt; unfold len; cbn [length]; lia).
  destruct (b_unmarshal b (x :: r)); [|done..]. split; [done|]. by intros ? [= ->].
Qed.

Lemma main_cases b :
  ∃ c, config_used b c ∧
  match first_failure (checks b c) with
  | Some (k, x) => main b [] = (take k (boot_sequence b c), x)
  | None => ∃ s, last_step b c s ∧ main b [] = (boot_sequence b c ++ [s], Ok ())
  end.
Proof.
  assert (∃ c, config_used b c ∧ (config_check b = Ok () → effective_config b = Ok c) ∧
    (config_check b ≠ Ok () → void (effective_config b) = config_check b)) as (c & Hc & Hok & Hfl).
  { pose proof (effective_config_cases b) as He. destruct (effective_config b) as [c|e|e|] eqn:E.
    { destruct He. by exists c. }
    all: exists default_config; rewrite He; (split_and!; [|done..]); unfold config_used;
      unfold config_check in He; (destruct (config_answer b); [|done]); by destruct (b_unmarshal b _). }
  exists c. split; [done|]. unfold checks, main, do_step, lift, mbind, M_bind. cbn [first_failure app].
  destruct (b_version b) as [[]| | |]; [|done..]. cbn -[config_check].
  destruct (config_check b) as [[]|e|e|];
    [|by specialize (Hfl ltac:(done)); destruct (effective_config b); try done; injection Hfl as ->..
     |by specialize (Hfl ltac:(done)); destruct (effective_config b)].
  rewrite (Hok eq_refl). cbn.
  destruct (b_status b) as [serial| | |] eqn:Est; [|done..]. cbn.
  destruct (b_keys b) as [[]| | |]; [|done..]. cbn.
  destruct (b_networking b c) as [[]| | |]; [|done..]. cbn.
  destruct (b_storage b) as [[]| | |]; [|done..]. cbn.
  destruct (b_persistence b) as [[]| | |]; [|done..]. cbn.
  unfold last_step. destruct (cfg_DHCP c); eexists; (split; [|reflexivity]); [|done].
  eexists serial, _. rewrite Est. split_and!; [done|done| |by destruct (b_verifier_name b)].
  destruct (b_verifier_name b); [apply map_runes_dns|by repeat constructor..].
Qed.

(** C29 The boot fails closed.  The checks are, in order: the rollback check of
    the OS, before anything else is asked of it, the configuration the OS
    returned, the status, the keys, the network, the storage and the
    persistence layer.  The first one that fails ends the boot, with its
    error, at that point of the sequence of steps: no later step is taken.
    If all pass, every step is taken, and the network is then used for the
    witness, over DHCP with the serial number as identifier and a host name
    that is safe for DNS, or without DHCP if the configuration says so.  The
    configuration in use is the one in the answer of the OS, if that is not
    empty, and the default one otherwise. *)
Theorem boot_fails_closed (b : boot_world) :
  ∃ c, config_used b c ∧
  match first_failure (checks b c) with
  | Some (k, x) => main b [] = (take k (boot_sequence b c), x)
  | None => ∃ s, last_step b c s ∧ main b [] = (boot_sequence b c ++ [s], Ok ())
  end.
Proof. apply main_cases. Qed.

(** ** Restarts of the witness without DHCP *)

Definition update_checkers (t : list action) : nat :=
  length (omap (λ a, match a with StartUpdateChecker => Some () | _ => None end) t).

(** A world in which the witness starts and its run then fails. *)
Definition flaky : world :=
  mkWorld (Ok (str "10.0.0.1")) false (str "time.google.com") (Some 1) None true (Ok ()) (Ok (str "signer"))
    [] [] [] (Ok ()) (Err "distributor") None.

(** Without DHCP every restart of the witness starts one more update loop,
    and the context that would end the others is never done. *)
Theorem static_restarts_leak (n : nat) :
  ctx_ready flaky = None ∧ update_checkers (static_loop (replicate n flaky)).1 = n.
Proof.
  split; [done|]. induction n as [|n IH]; [done|].
  change (replicate (S n) flaky) with (flaky :: replicate n flaky).
  cbn [static_loop]. change (runWithNetworking flaky) with
    ([SetWitnessStatus (Some (str "10.0.0.1")); StartUpdateChecker; Open 8081; Serve 8081; Open 80;
      StartWitness (operator_config flaky (str "signer")); Close 80; Close 8081],
     Returned (Some "omniwitness.Main failed"%string)).
  destruct (static_loop (replicate n flaky)) as [t e]. cbn [fst] in *. unfold update_checkers in *.
  rewrite omap_app, length_app, IH. done.
Qed.
End BootProps.
