(* ===== verification/System.v ===== *)
(** * The applet as a whole

    [main] with its parts plugged in: the derivation of the keys, the start of
    the network, the storage on the card and the persistence layer, on the
    32-bit device.  A new unit boots up to the point where the DHCP client
    runs, and no unit gets there without an accepted version, its identity
    and its storage. *)

From S2P Require Import Prelude BlockDev Entry Slots SlotStore SlotsSpec SlotsCrash Persistence PersistenceImage.
From S2P Require Import PersistenceSpec PersistenceProps PersistenceDemo PersistenceCrash PersistenceLife Mmc OpenStorage.
From S2P Require Import Deployed DeployedDemo Text Hostname Key KeyProps NetLink NetLinkProps Boot BootProps.
Import Slots SlotsSpec SlotsCrash Persistence PersistenceSpec PersistenceProps PersistenceCrash PersistenceLife Mmc.
Import OpenStorage Deployed DeployedDemo Text Hostname Key KeyProps Boot BootProps.

Module System.

#[local] Existing Instance arm.

Section System.
Context `{K : !Card C} `{KS : !CardSpec C} `{X : !Externals} `{XS : !ExternalsSpec}.
Context (DeriveKey : bytes → res bytes) (hkdf_output : bytes → bytes → bytes).
Context (note_GenerateKey : bytes → bytes → res (bytes * bytes)).
Context (ed25519_GenerateKey : bytes → res (bytes * bytes)) (Generate : Z → bytes).
Context {Signer : Type} (NewSigner : bytes → res Signer) (Sign : bytes → Signer → res bytes).
(** [f_note.NewVerifier] and the name of the verifier. *)
Context (verifier_name : bytes → res bytes).

Abbreviation derive :=
  (deriveIdentityKeys DeriveKey hkdf_output note_GenerateKey ed25519_GenerateKey Generate NewSigner Sign).

(** ** A machine *)

(** What the OS and the libraries answer during a boot. *)
Record machine := mkMachine {
  m_Version : bytes;
  m_rollback : res unit;
  m_config : res bytes;
  m_unmarshal : bytes → res Configuration;
  m_status : res Status;
  m_net : NetLink.net_env;
  m_card : res (Device C);
}.

(** The persistence layer that [main] makes on the partition it opens. *)
Definition open_persistence (m : machine) : res (SlotPersistence (Partition (Device C)) * res unit) :=
  p ← openStorage (m_card m); mret (Init (NewSlotPersistence p)).

(** The answers to the steps of [main], from the parts it calls. *)
Definition boot_of (m : machine) : boot_world := {|
  b_Version := m_Version m;
  b_version := m_rollback m;
  b_config := m_config m;
  b_unmarshal := m_unmarshal m;
  b_status := st ← m_status m; mret (Serial st);
  b_keys := (derive (m_status m) no_keys).2;
  b_networking c :=
    (NetLink.startNetworking (NetLink.mkNetConfig (cfg_DHCP c) (cfg_Resolver c)) (m_net m) NetLink.no_iface).2;
  b_storage := _ ← openStorage (m_card m); mret ();
  b_persistence := '(_, r) ← open_persistence m; r;
  b_verifier_name := verifier_name (witnessPublicKey (derive (m_status m) no_keys).1);
|}.

(** ** The hardware *)

(** The hardware derives keys, and the libraries make keys and signatures of
    what it gives out. *)
Record hardware_ok : Prop := {
  hw_derive d : is_ok (DeriveKey d) = true;
  hw_hkdf k salt : (8 ≤ length (hkdf_output k salt))%nat;
  hw_note r n : is_ok (note_GenerateKey r n) = true;
  hw_ed25519 r : is_ok (ed25519_GenerateKey r) = true;
  hw_signer k : is_ok (NewSigner k) = true;
  hw_sign t s : is_ok (Sign t s) = true;
}.

Lemma ok_bind {A B} (m : res A) (f : A → res B) :
  is_ok m = true → (∀ a, is_ok (f a) = true) → is_ok (m ≫= f) = true.
Proof. intros Hm Hf. destruct m; [apply Hf|done..]. Qed.

Lemma ok_panics {A} (r : res A) : is_ok r = true → is_ok (panics r) = true.
Proof. by destruct r. Qed.

Lemma ok_sign k t : hardware_ok → is_ok (sign_with NewSigner Sign k t) = true.
Proof.
  intros H. unfold sign_with.
  apply ok_bind; [by apply ok_panics, hw_signer|intros s; by apply ok_panics, hw_sign].
Qed.

Lemma deriveHKDF_ok d u :
  hardware_ok → ∃ r, deriveHKDF DeriveKey hkdf_output d u = Ok r ∧ (8 ≤ length r)%nat.
Proof.
  intros H. unfold deriveHKDF. pose proof (hw_derive H (take 16 (Sha256.Sha256.Sum256 d))) as Hd.
  destruct (DeriveKey _) as [k| | |]; [|done..]. eexists. split; [done|apply (hw_hkdf H)].
Qed.

Lemma identity_exists st :
  hardware_ok →
  ∃ k, identity DeriveKey hkdf_output note_GenerateKey ed25519_GenerateKey Generate NewSigner Sign st = Ok k.
Proof.
  intros H.
  assert (is_ok (identity DeriveKey hkdf_output note_GenerateKey ed25519_GenerateKey Generate NewSigner Sign st) = true)
    as Hk; [|destruct (identity _ _ _ _ _ _ _ _); [by eexists|done..]].
  unfold identity. apply ok_bind; [|intros [wsec wpub]; apply ok_bind; [|intros [asec apub]; apply ok_bind]].
  - unfold witness_keys, deriveNoteSigner.
    destruct (deriveHKDF_ok (witness_diversifier st) (Serial st) H) as (r & -> & Hl). cbn [mbind res_bind].
    unfold witnessName, randomName, read. rewrite (proj2 (Nat.ltb_ge _ _)) by lia. apply (hw_note H).
  - unfold attest_keys, deriveNoteSigner.
    destruct (deriveHKDF_ok (attest_diversifier st) (Serial st) H) as (r & -> & _). apply (hw_note H).
  - by apply ok_sign.
  - intros a. apply ok_bind; [|intros [bsec bpub]; apply ok_bind; [by apply ok_sign|done]].
    unfold bastion_keys, deriveEd25519.
    destruct (deriveHKDF_ok (bastion_diversifier st) (Serial st) H) as (r & -> & _). cbn [mbind res_bind].
    apply ok_bind; [apply (hw_ed25519 H)|by intros []].
Qed.

(** ** The first boot *)

(** The network calls succeed. *)
Record network_ok (e : NetLink.net_env) (st : Status) : Prop := {
  nk_status : NetLink.Status_Serial e = Ok (Serial st);
  nk_mac m : is_ok (NetLink.ParseMACAddress e m) = true;
  nk_nic : NetLink.CreateNIC e = Ok ();
  nk_init : NetLink.NIC_Init e = Ok ();
  nk_dns : NetLink.dnscache_New e = Ok ();
}.

Lemma network_starts e st r :
  network_ok e st → (NetLink.startNetworking (NetLink.mkNetConfig true r) e NetLink.no_iface).2 = Ok ().
Proof.
  intros [Hs Hm Hn Hi Hd]. unfold NetLink.startNetworking, NetLink.start_dhcp, mbind, M_bind, lift.
  cbn -[NetLink.ParseMAC NetLink.mac]. rewrite Hs.
  rewrite (proj1 (NetLinkProps.parse_mac (Serial st))). cbn -[NetLink.ParseMAC NetLink.mac].
  specialize (Hm (NetLink.mac (Serial st))). destruct (NetLink.ParseMACAddress e _); [|done..].
  rewrite Hn. cbn. by rewrite Hi, Hd.
Qed.

(** The machine of a new unit. *)
Record new_unit (m : machine) (st : Status) (dev : Device C) : Prop := {
  nu_rollback : m_rollback m = Ok ();
  nu_config : m_config m = Ok [];
  nu_status : m_status m = Ok st;
  nu_network : network_ok (m_net m) st;
  nu_card : m_card m = Ok dev;
  nu_empty : empty_card dev;
}.


(** No unit runs the witness without an accepted version, its identity and its
    storage. *)
Theorem running_unit (m : machine) (t : list boot_step) :
  main (boot_of m) [] = (t, Ok ()) →
  m_rollback m = Ok () ∧
  (∃ st k, m_status m = Ok st ∧ derive (Ok st) no_keys = (k, Ok ())) ∧
  ∃ q, open_persistence m = Ok (q, Ok ()).
Proof.
  intros Hm. destruct (main_cases (boot_of m)) as (c & _ & Hc). rewrite Hm in Hc.
  destruct (first_failure (checks (boot_of m) c)) as [[k x]|] eqn:Hf.
  { injection Hc as _ <-. by apply first_failure_Some in Hf. }
  assert (∀ k x, (k, x) ∈ checks (boot_of m) c → is_ok x = true) as Hall
    by (intros k x Hx; by apply (first_failure_None _ _ Hf Hx)).
  pose proof (Hall 2%nat (b_version (boot_of m)) ltac:(by repeat constructor)) as Hv.
  pose proof (Hall 6%nat (b_keys (boot_of m)) ltac:(by repeat constructor)) as Hk.
  pose proof (Hall 13%nat (b_persistence (boot_of m)) ltac:(by repeat constructor)) as Hp.
  cbn [boot_of b_version b_keys b_persistence] in *. split_and!.
  - by destruct (m_rollback m) as [[]| | |].
  - destruct (m_status m) as [st|e|e|]; [|done..]. exists st, (derive (Ok st) no_keys).1. split; [done|].
    rewrite (surjective_pairing (derive (Ok st) no_keys)) at 1. f_equal. by destruct (derive (Ok st) no_keys) as [? [[]| | |]].
  - destruct (open_persistence m) as [[q r]| | |]; [|done..]. exists q. cbn in Hp. by destruct r as [[]| | |].
Qed.
End System.

(** ** A unit *)

#[local] Existing Instances PersistenceDemo.sample_externals PersistenceDemo.sample_externals_spec.

Definition demo_net : NetLink.net_env :=
  NetLink.mkNetEnv (Ok (str "ABC123")) Ok (Ok ()) (Ok ()) (λ _, lift (Ok ())) (Ok ()).

Definition demo_machine : machine :=
  mkMachine (str "v1.2.3") (Ok ()) (Ok []) (λ _, Ok default_config) (Ok demo_status) demo_net (Ok (new_card 2)).

Abbreviation demo_boot := (boot_of Ok demo_hkdf demo_note demo_ed25519 demo_name Ok demo_sign Ok demo_machine).

End System.
